(* ===== verification/_CoqProject ===== *)
-Q . S2P
Prelude.v
HubProto.v
HubServer.v
HubInvariant.v
HubQueries.v
GoStd.v
Safety.v
Kube.v
Api.v
LoadTest.v
LoadTestPlan.v
LoadTestReconcile.v
Shard.v
GoTime.v
GoFloat.v
Storage.v
Readers.v
RoundTrip.v
Engine.v
Validation.v
Pipeline.v
SpokeDirectives.v
Agent.v
AsyncWriter.v
Checkpoint.v
Preshard.v
BatchWriter.v
GoFlag.v
CaptureApi.v
Summary.v
KubeWorld.v
ReplayJob.v
ReplayMain.v
ReplayController.v
FleetReplay.v
StorageBackends.v
AgentDeployer.v
AgentMain.v
Mirror.v
CaptureController.v
CaptureLifecycle.v
HubController.v
HubControl.v
HubClient.v
HubSync.v
StorageController.v
EngineAbi.v
Feeder.v
BuiltinEngine.v
ExternalRun.v
FeedServer.v
EngineAdapters.v
K6Run.v
EngineManager.v
ExternalMain.v
AgentServer.v
AgentChain.v
HttpSender.v
DirectReplay.v
PreshardMain.v
History.v
SpokeTLS.v
SpokeMain.v
ReplayRegistry.v
