(* ===== verification/Prelude.v ===== *)
(** * Kapture: a verification development of the hub, spoke, agent and replay logic

    Kapture mirrors live traffic of Kubernetes clusters into object storage and
    replays it as load.  The program is Go, under [src/]; this library models its
    own logic as executable Rocq definitions and proves what makes it correct.

    ** The program and how its parts interact

    - The _hub_ ([cmd/hub], [internal/hub]) keeps an in-memory registry of the
      spokes that connect over gRPC, a bounded queue of directives per spoke and
      the reported status of captures and replay shards.  One controller serves
      the gRPC endpoint the oldest [CaptureHub] asks for; another, the load test
      coordinator, plans a [CaptureLoadTest] over the connected spokes, queues
      START and STOP directives, aggregates shard statuses and aborts.
    - A _spoke_ ([cmd/spoke], [internal/spoke]) registers at the hub, sends
      heartbeats and reports, and receives directives, which it turns into
      [TrafficReplay] resources.  Its controllers deploy an agent and mirror a
      route for every [TrafficCapture], validate [CaptureStorage]s, and run every
      [TrafficReplay] as a Job of the replay engine.
    - The _capture agent_ ([cmd/capture-agent], [internal/agent],
      [internal/plugin/payload], [internal/storage]) receives mirrored requests,
      filters, redacts and truncates them, and writes them through an
      asynchronous and a batching writer as compressed objects.
    - The _replay engine_ ([cmd/replay-engine], [internal/plugin/replay],
      [internal/replayengine], [internal/dataset]) reads a capture or a slice of
      a presharded one, keeps the requests of its shard, transforms and sends
      them at the configured rate, checkpoints its progress and reports.

    The circle closes in the theorems: what an agent stored is what the readers
    deliver ([RoundTrip]); what a load test asks for is what its workers are
    configured with ([SpokeDirectives], [ReplayMain]); the workers together send
    every request exactly once ([FleetReplay]); and what the spoke's resources say
    reaches the hub ([HubSync]).

    ** Files

    Foundations, shared by the components:
    - [Prelude]: machine integers with their wrap-around, binary64, errors and
      results, list and map lemmas, [MapRange] (Go's unspecified map order), tactics
      and hint databases.
    - [GoStd], [GoTime], [GoFloat], [GoFlag]: what the program uses of [strings],
      [strconv], [fmt], [time], float rounding and [flag].
    - [Kube], [KubeWorld]: the interface of the Kubernetes client and its laws, for
      one kind of resource and for several side by side.

    Hub ([internal/hub], [proto/hub/v1]):
    - [HubProto]: messages and enums ([hub.pb.go]).
    - [HubServer]: [grpc_server.go], [identity.go], every RPC and query.
      [HubInvariant]: reachable states, the registry invariant, the queues, the
      identity check.  [HubQueries]: selection, listings, aggregation.
    - [LoadTest]: [loadtest_controller.go], the whole [Reconcile].
      [LoadTestPlan]: planning, rate splitting, phases.  [LoadTestReconcile]: what
      a reconcile does to the hub and the cluster.
    - [HubController]: [controller.go], [tls.go].  [HubControl]: its theorems.

    Resources ([api/v1alpha1]): [Api] (replays, load tests), [CaptureApi]
    (captures, storages, hubs).

    Safety ([internal/safety/hosts.go]): [Safety].

    Spoke ([internal/spoke]):
    - [SpokeDirectives]: [replay_directives.go], [orphan_gc.go].
    - [ReplayJob]: [replay_runner.go].  [ReplayController]: [replay_controller.go].
    - [AgentDeployer]: [agent_deployer.go].  [Mirror]: [mirror.go].
    - [CaptureController]: [controller.go].  [CaptureLifecycle]: its theorems.
    - [HubClient]: [hub_client.go] and the callbacks of [cmd/spoke/main.go].
      [HubSync]: its theorems, over the server of [HubServer].
    - [SpokeTLS]: [tls.go], and the handshake with the hub's listener.
      [SpokeMain]: how [cmd/spoke/main.go] joins and leaves a hub.
    - [StorageController]: [capturestorage_controller.go].

    Agent and storage:
    - [Agent]: [filter.go], [redact.go], [handler.go] of [internal/agent];
      [AsyncWriter]: [asyncwriter.go].  [BatchWriter]: [writer.go].
      [AgentServer]: [server.go].
    - [AgentMain]: the configuration of [cmd/capture-agent/main.go].  [AgentChain]:
      the writers it puts together.
    - [History]: [internal/history/postgres.go], and what an agent records there.
    - [Pipeline]: [internal/plugin/payload/plugin.go], and the
      [HeaderRewriter].  [Validation]: [internal/plugin/validation].
    - [Storage]: the object writer, object names and manifests of
      [internal/storage].  [StorageBackends]: [factory.go], [s3.go], [gcs.go],
      [efs.go], [ebs.go].

    Replay:
    - [Shard]: ownership of requests.  [Readers]: the S3, GCS and file readers.
      [RoundTrip]: writer and reader together.
    - [Engine]: [internal/plugin/replay/engine.go].  [Checkpoint]:
      [checkpoint.go].  [Summary]: results and reports.  [HttpSender]:
      [sender_http.go].  [ReplayRegistry]: the component registry of [plugin.go].
    - [Preshard]: [internal/dataset].  [ReplayMain]: [cmd/replay-engine/main.go].
      [DirectReplay]: its direct mode, from the flags to the exit.
      [PreshardMain]: readers from a configuration and [cmd/kapture-preshard].
    - External engines ([pkg/replayengine], [internal/replayengine],
      [internal/engines]): [EngineAbi] (messages, handshake, conversions, run
      configuration), [Feeder] ([feeder.go]), [BuiltinEngine] ([serve.go] and the
      builtin engine), [ExternalRun] (both ends of a run), [FeedServer]
      ([feedserver.go] and the feed bridge), [EngineAdapters] (ghz and k6),
      [K6Run] (a run of k6 with its feed server and ticker),
      [EngineManager] ([manager.go], [subprocess.go], [install.go]),
      [ExternalMain] ([runExternalEngine]).
    - [FleetReplay]: a load test end to end.

    ** How operations are modelled

    A struct is a [Record] with the source's fields, a handler or reconciler one
    [Definition] with the source's branches, composed as the source composes them.
    - _State_ is passed explicitly.  A reconciler is a function over the state of
      the API server, the in-memory components it calls and what it emits; the
      client, the hub server, SDKs and writers are type classes, and client
      theorems are proved against their laws ([KubeClient], [HubLaws],
      [StorageWriter], [RequestCodec], ...).  The laws are discharged by the
      repository's own component where there is one and by an in-memory instance
      otherwise, which the witnesses use.
    - _Concurrency_: goroutines of one process ([Engine], [AsyncWriter],
      [HubController], [BuiltinEngine], [FeedServer], [K6Run]) are step relations, one step per channel operation,
      [select] or call, over all interleavings; hub RPCs and directive sends are
      atomic under the server's mutex and interleave freely ([HubServer.step]).
      A reconcile is atomic with respect to RPCs in between its calls of the hub.
    - _Pointers_ are modelled where aliasing matters: registry entries are
      locations in a store ([HubServer]), servers of the hub controller are numbered.
      Elsewhere values are immutable and copies are the identity.
    - _Errors_ are values of [result] and [go_error]; a panic is a result of its own.
    - _Integers_ of the source's width wrap around ([int32], [int64], [uint64]);
      [int] is 64 bits.  A [float64] is a [spec_float].
    - _Strings_ are byte strings; case mapping and trimming are for ASCII.
    - _Times_ are nanoseconds since the epoch; [time.Now()] is an argument.
    - A nil and an empty map or slice are identified; status conditions carry no
      transition time or observed generation; resource versions are the API
      server's business (a conflicting write is an error the client may return).
    - Map iteration is any list [MapRange] admits; theorems hold for each.

    ** The theorems

    - _End to end_: a load test sends every selected request exactly once, from
      hash shards and from presharded slices ([FleetReplay]); a capture reads back
      as it was written ([RoundTrip]); settings of a [TrafficReplay] and of a
      [TrafficCapture] reach the worker and the agent ([ReplayMain], [AgentMain]);
      a heartbeat leaves hub and spoke in step ([HubSync]).  Along the data path:
      what the agent's sinks acknowledge is in the storage writer after shutdown
      ([AgentChain]), the history's index describes what is stored ([History]),
      and a mirrored request is sent again as it was ([HttpSender]).
    - _Load tests_: plans number the shards densely and are stable; rates add up;
      aborting and deleting stop the spokes first; denied targets are never sent
      ([LoadTestPlan], [LoadTestReconcile], [Safety]).
    - _Hub_: the registry invariant in every reachable state, no panics, queues
      refine bounded FIFOs, re-registration, identities, exact queries
      ([HubInvariant], [HubQueries]); the listener follows its resource
      ([HubControl]).
    - _Spoke_: START is idempotent, STOP is complete ([SpokeDirectives]); Jobs only
      for live allowed replays and released after STOP, reports exact
      ([ReplayController]); mirrors only to a deployed agent and torn down at
      expiry ([CaptureLifecycle]).
    - _Agent_: redaction and bounds, pipeline calls, nothing lost and shutdown
      finishes ([Agent], [Pipeline], [AsyncWriter]); the row of a capture sums up
      its agents ([History]).
    - _Connections_: mutual TLS authenticates both sides with the certificates of
      the moment and a spoke never falls back to plaintext ([SpokeTLS]); a spoke
      that joins and leaves a hub leaves no trace ([SpokeMain]).
    - _Replay_: exactly once in every interleaving, termination, checkpoints under
      crashes, exact summaries, presharding under failures ([Engine],
      [Checkpoint], [Summary], [Preshard]); what a replay command that ends well
      has sent, reported and left on disk ([DirectReplay]).
    - _External engines_: a load test feeds them every request exactly once
      ([ExternalMain]); a report is returned only for a run that sent its whole
      slice and counts it exactly, and the engine's side always finishes
      ([ExternalRun]); the feed server hands out each request once ([FeedServer]);
      one serving process per engine, none forgotten ([EngineManager]); k6's
      progress and report count only what was in its feed ([K6Run]).

    ** Fuel and bounds

    - [GoTime.find_year] has fuel for years of 365 days and [find_month] twelve;
      both are proved to reach the date.  [Readers.sort_Search] has the length of
      the interval and halves it.
    - [Readers.read_all], [Preshard.Preshard] and [s3_listPages] give [None] when
      out of fuel; the theorems give [Some] for any fuel above the number of
      requests, resp. pages.
    - Loops over what the outside answers ([Feeder.feed], [HubClient]) take the list
      of answers and have not returned when it is too short; [feed_sends] gives the
      length that is enough.
    - Step relations need no fuel: [engine_terminates] and [engine_side_finishes]
      bound every execution, [async_close_finishes] gives the steps that finish a
      [Close].
    - Bounds assumed (counts below [2^63], shard counts as declared) appear as
      hypotheses and are met in the witnesses.

    ** Not modelled

    - Generated code: deep copies, protobuf accessors and wire encoding.
    - The Kubernetes managers and their wiring, flags of the hub and the spoke
      commands, logging, metric gauges, signals and timeouts.
    - The tools k6 and ghz and the k6 script, the operating system under the
      subprocess engines, gRPC itself: parameters, or the record [connected] of
      what a stream delivers.
    - [net/http] under the sinks and the sender, certificate parsing, verification
      and digests, PostgreSQL beyond the two statements: parameters. *)

From stdpp Require Export base gmap sets list strings pretty sorting.
From Stdlib Require Export ZArith Lia.
From Corelib Require Export SpecFloat.

Local Open Scope Z_scope.

(** ** Go machine integers

    Signed [w]-bit arithmetic is [Z] with the wrap-around written out; every
    place where the source computes on [int32]/[int64]/[uint64] applies the
    corresponding function below. *)

Definition swrap (w z : Z) : Z := (z + 2 ^ (w - 1)) mod 2 ^ w - 2 ^ (w - 1).
Definition int32 (z : Z) : Z := swrap 32 z.
Definition int64 (z : Z) : Z := swrap 64 z.
Definition uint64 (z : Z) : Z := z mod 2 ^ 64.

Definition min_int64 : Z := - 2 ^ 63.
Definition max_int64 : Z := 2 ^ 63 - 1.

Definition in_int32 (z : Z) : Prop := - 2 ^ 31 <= z < 2 ^ 31.
Definition in_int64 (z : Z) : Prop := - 2 ^ 63 <= z < 2 ^ 63.

#[global] Instance in_int32_dec z : Decision (in_int32 z).
Proof. unfold in_int32. apply _. Defined.
#[global] Instance in_int64_dec z : Decision (in_int64 z).
Proof. unfold in_int64. apply _. Defined.

(** [time.Time] values are nanoseconds since the Unix epoch; [Sub] saturates
    at the [time.Duration] range. *)
Definition time_Sub (t u : Z) : Z := Z.max min_int64 (Z.min max_int64 (t - u)).

Definition Second : Z := 1000000000.
Definition Minute : Z := 60 * Second.

(** [len] of a slice and of a map. *)
Definition len {A} (l : list A) : Z := Z.of_nat (length l).
Definition map_len {A} (m : gmap string A) : Z := Z.of_nat (size m).

(** ** Binary64 arithmetic (Go [float64]) *)

Definition float64 : Type := spec_float.
Definition f64_of_Z (z : Z) : float64 := binary_normalize 53 1024 z 0 false.
Definition f64_add (x y : float64) : float64 := SFadd 53 1024 x y.
Definition f64_mul (x y : float64) : float64 := SFmul 53 1024 x y.
Definition f64_div (x y : float64) : float64 := SFdiv 53 1024 x y.
Definition f64_gtb (x y : float64) : bool := SFltb y x.
Definition f64_zero : float64 := S754_zero false.

(** ** Errors and results *)

(** gRPC status codes the hub uses. *)
Inductive Code :=
  | OK | InvalidArgument | NotFound | PermissionDenied
  | ResourceExhausted | Aborted | Internal | Unavailable | Unknown.

#[global] Instance Code_eq_dec : EqDecision Code.
Proof. solve_decision. Defined.

(** Arguments of a formatted message.  The formatted text of an error is never
    inspected by the program, so an error keeps the format string and its
    arguments instead of the rendered text. *)
Inductive fmt_arg :=
  | FStr (s : string) | FInt (z : Z) | FStrs (l : list string)
  | FFloat (f : float64) | FDur (d : Z).

(** Errors: a gRPC status error, a [fmt.Errorf] value, a [fmt.Errorf]
    value that wraps another error ([%w]), a package-level sentinel, and an error produced by code
    outside the repository. *)
Inductive go_error :=
  | StatusError (c : Code) (fmt : string) (args : list fmt_arg)
  | FmtError (fmt : string) (args : list fmt_arg)
  | WrapError (fmt : string) (args : list fmt_arg) (inner : go_error)
  | Sentinel (name : string)
  | ExternalError (c : Code) (text : string).

(** A text the program produces but never inspects: a formatted message or the
    text of an error. *)
Inductive text :=
  | Fmt (fmt : string) (args : list fmt_arg)
  | ErrText (e : go_error).

(** [status.Code]: the code of a status error, [Unknown] for anything else. *)
Definition status_Code (e : go_error) : Code :=
  match e with
  | StatusError c _ _ => c
  | ExternalError c _ => c
  | _ => Unknown
  end.

Inductive result (A : Type) := Ok (a : A) | Err (e : go_error).
Arguments Ok {A} _.
Arguments Err {A} _.

(** An execution either returns or panics (closing a closed channel, a nil
    dereference, a send on a closed channel). *)
Inductive go (A : Type) := Ret (a : A) | Panic.
Arguments Ret {A} _.
Arguments Panic {A}.

(** Stateful code: a state transformer that returns or panics. *)
Definition M (S A : Type) : Type := S → go (S * A).

#[global] Instance M_ret S : MRet (M S) := λ A a s, Ret (s, a).
#[global] Instance M_bind S : MBind (M S) := λ A B f m s,
  match m s with Ret (s', a) => f a s' | Panic => Panic end.

Definition get {S} : M S S := λ s, Ret (s, s).
Definition put {S} (s : S) : M S unit := λ _, Ret (s, tt).
Definition modify {S} (f : S → S) : M S unit := λ s, Ret (f s, tt).
Definition panic {S A} : M S A := λ _, Panic.

(** [for _, x := range l { body }] *)
Fixpoint for_range {S A} (l : list A) (body : A → M S unit) : M S unit :=
  match l with
  | [] => mret tt
  | x :: l => _ ← body x; for_range l body
  end.

(** ** Iteration over Go maps

    The iteration order of a Go map is unspecified.  Code that ranges over a
    map is modelled over an arbitrary enumeration of it: [go_range m] lists the
    bindings of [m] in some order, and nothing else is known about it. *)
Class MapRange := {
  go_range : ∀ {A}, gmap string A → list (string * A);
  go_range_perm : ∀ A (m : gmap string A), go_range m ≡ₚ map_to_list m
}.

(** One concrete order, used by the witnesses. *)
Definition canonical_range : MapRange :=
  {| go_range := λ A m, map_to_list m;
     go_range_perm := λ A m, Permutation_refl _ |}.

(** ** Sorting

    [sort.Strings]: sorting by a total order has one result whatever the
    algorithm, so any sort models it. *)
Definition sort_Strings (l : list string) : list string := merge_sort String.le l.

(** ** Automation *)

Create HintDb kapture.
Create Rewrite HintDb kapture.

(** Splits the next [match]/[if] of the goal, keeping its equation, and
    discharges absurd branches. *)
Ltac go_case :=
  match goal with
  | |- context [match ?x with _ => _ end] =>
      let E := fresh "E" in destruct x eqn:E; simplify_eq/=
  end.

(** A membership in a list of names that evaluates. *)
Ltac mem_closed := apply (bool_decide_eq_true_1 _); vm_compute; reflexivity.

Ltac go_case_in H :=
  match type of H with
  | context [match ?x with _ => _ end] =>
      let E := fresh "E" in destruct x eqn:E; simplify_eq/=
  end.

(** Turns boolean tests on [Z] into propositions. *)
Ltac zbool :=
  repeat match goal with
  | H : (_ <=? _) = true |- _ => apply Z.leb_le in H
  | H : (_ <=? _) = false |- _ => apply Z.leb_gt in H
  | H : (_ <? _) = true |- _ => apply Z.ltb_lt in H
  | H : (_ <? _) = false |- _ => apply Z.ltb_ge in H
  | H : (_ =? _) = true |- _ => apply Z.eqb_eq in H
  | H : (_ =? _) = false |- _ => apply Z.eqb_neq in H
  | H : (_ && _) = true |- _ => apply andb_true_iff in H as [??]
  | H : (_ || _) = false |- _ => apply orb_false_iff in H as [??]
  end.

(** ** Lemmas on stateful code *)

Lemma mret_run {S A} (a : A) (s : S) : (mret a : M S A) s = Ret (s, a).
Proof. reflexivity. Qed.

Lemma mbind_run {S A B} (m : M S A) (f : A → M S B) s :
  (x ← m; f x) s = match m s with Ret (s', a) => f a s' | Panic => Panic end.
Proof. reflexivity. Qed.

Lemma mbind_Ret {S A B} (m : M S A) (f : A → M S B) s s' b :
  (x ← m; f x) s = Ret (s', b) ↔ ∃ s1 a, m s = Ret (s1, a) ∧ f a s1 = Ret (s', b).
Proof.
  rewrite mbind_run. destruct (m s) as [[s1 a]|]; [|naive_solver].
  split; [eauto|]. intros (? & ? & [= <- <-] & ?). done.
Qed.

(** A loop whose body returns from every state of an invariant returns, in a
    state of the invariant. *)
Lemma for_range_inv {S A} (I : list A → S → Prop) (l : list A) (body : A → M S unit) done_ s :
  I done_ s →
  (∀ d x s, I d s → ∃ s', body x s = Ret (s', tt) ∧ I (d ++ [x]) s') →
  ∃ s', for_range l body s = Ret (s', tt) ∧ I (done_ ++ l) s'.
Proof.
  intros HI Hbody. revert done_ s HI. induction l as [|x l IH]; intros d s HI; simpl.
  - rewrite app_nil_r. eauto.
  - destruct (Hbody d x s HI) as (s1 & Hb & HI1). rewrite mbind_run, Hb.
    destruct (IH (d ++ [x]) s1 HI1) as (s2 & H2 & HI2).
    rewrite <- app_assoc in HI2. eauto.
Qed.

(** ** Lemmas on machine integers *)

Lemma swrap_id w z : 0 < w → - 2 ^ (w - 1) <= z < 2 ^ (w - 1) → swrap w z = z.
Proof.
  intros Hw Hz. unfold swrap.
  assert (2 ^ w = 2 * 2 ^ (w - 1)) as Hp.
  { rewrite <- Z.pow_succ_r by lia. f_equal. lia. }
  rewrite Z.mod_small by lia. lia.
Qed.

Lemma int32_id z : in_int32 z → int32 z = z.
Proof. intros. apply swrap_id; [lia|]. exact H. Qed.

Lemma int64_id z : in_int64 z → int64 z = z.
Proof. intros. apply swrap_id; [lia|]. exact H. Qed.

Lemma swrap_range w z : 0 < w → - 2 ^ (w - 1) <= swrap w z < 2 ^ (w - 1).
Proof.
  intros Hw. unfold swrap.
  assert (2 ^ w = 2 * 2 ^ (w - 1)) as Hp.
  { rewrite <- Z.pow_succ_r by lia. f_equal. lia. }
  pose proof (Z.mod_pos_bound (z + 2 ^ (w - 1)) (2 ^ w)). lia.
Qed.

Lemma int32_range z : in_int32 (int32 z).
Proof. apply (swrap_range 32). lia. Qed.

Lemma int64_range z : in_int64 (int64 z).
Proof. apply (swrap_range 64). lia. Qed.

(** Wrapping an intermediate sum does not change the wrapped total. *)
Lemma swrap_add_l w a b : 0 < w → swrap w (swrap w a + b) = swrap w (a + b).
Proof.
  intros Hw. unfold swrap.
  assert (0 < 2 ^ w) by (apply Z.pow_pos_nonneg; lia).
  f_equal.
  replace ((a + 2 ^ (w - 1)) mod 2 ^ w - 2 ^ (w - 1) + b + 2 ^ (w - 1))
    with ((a + 2 ^ (w - 1)) mod 2 ^ w + b) by lia.
  rewrite Zplus_mod_idemp_l. f_equal. lia.
Qed.

Lemma int32_add_l a b : int32 (int32 a + b) = int32 (a + b).
Proof. apply swrap_add_l. lia. Qed.

Lemma int32_add_r a b : int32 (a + int32 b) = int32 (a + b).
Proof. rewrite Z.add_comm, int32_add_l. f_equal. lia. Qed.

Lemma int64_add_l a b : int64 (int64 a + b) = int64 (a + b).
Proof. apply swrap_add_l. lia. Qed.

Lemma int64_add_r a b : int64 (a + int64 b) = int64 (a + b).
Proof. rewrite Z.add_comm, int64_add_l. f_equal. lia. Qed.

Lemma int32_0 : int32 0 = 0.
Proof. reflexivity. Qed.

Lemma int64_0 : int64 0 = 0.
Proof. reflexivity. Qed.

Lemma int32_idemp z : int32 (int32 z) = int32 z.
Proof. apply int32_id, int32_range. Qed.

Lemma int64_idemp z : int64 (int64 z) = int64 z.
Proof. apply int64_id, int64_range. Qed.

#[export] Hint Rewrite int32_add_l int32_add_r int64_add_l int64_add_r
  int32_idemp int64_idemp int32_0 int64_0 : kapture.
#[export] Hint Resolve int32_range int64_range : kapture.

(** ** Sums over lists *)

Definition sumZ {A} (f : A → Z) (l : list A) : Z := foldr (λ x acc, f x + acc) 0 l.

#[global] Arguments sumZ : simpl never.

Lemma sumZ_nil {A} (f : A → Z) : sumZ f [] = 0.
Proof. reflexivity. Qed.

Lemma sumZ_cons {A} (f : A → Z) x l : sumZ f (x :: l) = f x + sumZ f l.
Proof. reflexivity. Qed.

Lemma sumZ_app {A} (f : A → Z) l k : sumZ f (l ++ k) = sumZ f l + sumZ f k.
Proof. induction l; simpl; [done|]. unfold sumZ in *. simpl. lia. Qed.

Lemma sumZ_perm {A} (f : A → Z) l k : l ≡ₚ k → sumZ f l = sumZ f k.
Proof. induction 1; unfold sumZ in *; simpl in *; lia. Qed.

#[global] Instance sumZ_proper {A} (f : A → Z) : Proper ((≡ₚ) ==> (=)) (sumZ f).
Proof. intros l k. apply sumZ_perm. Qed.

Lemma sumZ_ext {A} (f g : A → Z) l :
  (∀ x, x ∈ l → f x = g x) → sumZ f l = sumZ g l.
Proof.
  induction l as [|x l IH]; intros H; [done|].
  rewrite !sumZ_cons, IH, H by set_solver. done.
Qed.

Lemma sumZ_add {A} (f g : A → Z) l :
  sumZ (λ x, f x + g x) l = sumZ f l + sumZ g l.
Proof. induction l; [done|]. rewrite !sumZ_cons. lia. Qed.

Lemma sumZ_const {A} c (l : list A) : sumZ (λ _, c) l = c * len l.
Proof. induction l; unfold len in *; [rewrite sumZ_nil; simpl; lia|]. rewrite sumZ_cons. simpl length. lia. Qed.

Lemma sumZ_nonneg {A} (f : A → Z) l : (∀ x, x ∈ l → 0 <= f x) → 0 <= sumZ f l.
Proof.
  induction l as [|x l IH]; intros H; [done|]. rewrite sumZ_cons.
  assert (0 <= f x) by (apply H; set_solver).
  assert (0 <= sumZ f l) by (apply IH; set_solver). lia.
Qed.

Lemma sumZ_fmap {A B} (g : A → B) (f : B → Z) l : sumZ f (g <$> l) = sumZ (f ∘ g) l.
Proof. induction l; [done|]. rewrite fmap_cons, !sumZ_cons. simpl. lia. Qed.

Lemma foldl_pointwise {A B} (f g : B → A → B) b l :
  (∀ x y, f x y = g x y) → foldl f b l = foldl g b l.
Proof. intros Hfg. revert b. induction l; intros b; simpl; [done|]. by rewrite Hfg. Qed.

(** A left fold that adds into a wrapping accumulator computes the wrapped sum. *)
Lemma foldl_int32_sum {A} (f : A → Z) l acc :
  foldl (λ c x, int32 (c + f x)) (int32 acc) l = int32 (acc + sumZ f l).
Proof.
  revert acc. induction l as [|x l IH]; intros acc; simpl.
  - rewrite sumZ_nil. f_equal. lia.
  - rewrite int32_add_l, IH, sumZ_cons. f_equal. lia.
Qed.

Lemma foldl_int64_sum {A} (f : A → Z) l acc :
  foldl (λ c x, int64 (c + f x)) (int64 acc) l = int64 (acc + sumZ f l).
Proof.
  revert acc. induction l as [|x l IH]; intros acc; simpl.
  - rewrite sumZ_nil. f_equal. lia.
  - rewrite int64_add_l, IH, sumZ_cons. f_equal. lia.
Qed.

(** A left fold that counts the elements passing a test. *)
Lemma foldl_int32_count {A} (p : A → bool) l acc :
  foldl (λ c x, if p x then int32 (c + 1) else c) (int32 acc) l
  = int32 (acc + len (List.filter p l)).
Proof.
  revert acc. induction l as [|x l IH]; intros acc; simpl.
  - f_equal. unfold len. simpl. lia.
  - destruct (p x); rewrite ?int32_add_l, IH; [|done].
    f_equal. unfold len. simpl. lia.
Qed.

Lemma filter_length_perm {A} (p : A → bool) l k :
  l ≡ₚ k → len (List.filter p l) = len (List.filter p k).
Proof.
  unfold len. induction 1; simpl; repeat case_match; simpl in *; lia.
Qed.

(** ** Lists *)

Lemma len_nonneg {A} (l : list A) : 0 <= len l.
Proof. unfold len. lia. Qed.

Lemma len_app {A} (l k : list A) : len (l ++ k) = len l + len k.
Proof. unfold len. rewrite length_app. lia. Qed.

Lemma len_nil_iff {A} (l : list A) : len l = 0 ↔ l = [].
Proof. destruct l; unfold len; simpl; split; intros; [done|done|lia|done]. Qed.

#[export] Hint Resolve len_nonneg : kapture.

(** Two lists sorted by the same total order with the same elements are equal. *)
Lemma sort_Strings_sorted l : StronglySorted String.le (sort_Strings l).
Proof. apply StronglySorted_merge_sort; apply _. Qed.

Lemma sort_Strings_perm l : sort_Strings l ≡ₚ l.
Proof. apply merge_sort_Permutation. Qed.

Lemma sort_Strings_unique l k : l ≡ₚ k → sort_Strings l = sort_Strings k.
Proof.
  intros Hp. apply (Sorted_unique String.le).
  - apply Sorted_merge_sort. apply _.
  - apply Sorted_merge_sort. apply _.
  - by rewrite !sort_Strings_perm.
Qed.

(** Lists with the same images under a function that is injective on their
    elements are equal. *)
Lemma fmap_inj_on_eq {A B} (f : A → B) (P : A → Prop) (l k : list A) :
  (∀ x y, P x → P y → f x = f y → x = y) → Forall P l → Forall P k →
  f <$> l = f <$> k → l = k.
Proof.
  intros Hinj Hl. revert k. induction Hl as [|x l Hx _ IH]; intros [|y k] Hk Heq;
    simplify_eq/=; [done|]. inversion_clear Hk. f_equal; auto.
Qed.

Lemma len_snoc {A} (l : list A) x : len (l ++ [x]) = len l + 1.
Proof. unfold len. rewrite length_app. simpl. lia. Qed.

Lemma fmap_concat {A B} (f : A → B) (ls : list (list A)) :
  fmap (M := list) f (concat ls) = concat (fmap (M := list) (fmap (M := list) f) ls).
Proof. induction ls as [|l ls IH]; [done|]. simpl. by rewrite fmap_app, IH. Qed.

(** What changes when one element of a list is replaced: of the concatenation and
    of the sum of what the elements stand for. *)
Lemma concat_insert {A B} (f : A → list B) ws (i : nat) w w' : ws !! i = Some w →
  ∃ rest, concat (f <$> ws) ≡ₚ f w ++ rest ∧ concat (f <$> <[i := w']> ws) ≡ₚ f w' ++ rest.
Proof.
  intros Hi. exists (concat (f <$> take i ws) ++ concat (f <$> drop (S i) ws)).
  assert (∀ v, concat (f <$> take i ws ++ v :: drop (S i) ws)
    ≡ₚ f v ++ concat (f <$> take i ws) ++ concat (f <$> drop (S i) ws)) as Hv.
  { intros v. rewrite fmap_app, concat_app. simpl. by rewrite Permutation_app_swap_app. }
  split; [rewrite <- (take_drop_middle ws i w Hi) at 1; apply Hv|].
  rewrite insert_take_drop by by eapply lookup_lt_Some. apply Hv.
Qed.

Lemma sum_insert {A} (f : A → nat) (ws : list A) (i : nat) w w' : ws !! i = Some w →
  (sum_list_with f (<[i := w']> ws) + f w = sum_list_with f ws + f w')%nat.
Proof.
  revert i. induction ws as [|v ws IH]; intros [|i] Hi; simplify_eq/=; [lia|]. specialize (IH i Hi). lia.
Qed.

Lemma concat_nil_Forall {A B} (f : A → list B) ws (P : A → Prop) : (∀ w, P w → f w = []) → Forall P ws →
  concat (f <$> ws) = [].
Proof. intros Hf. induction 1 as [|w ws Hw _ IH]; [done|]. rewrite fmap_cons. simpl. rewrite (Hf w Hw). exact IH. Qed.

Lemma filter_bool_perm {A} (p : A → bool) (l k : list A) :
  l ≡ₚ k → List.filter p l ≡ₚ List.filter p k.
Proof.
  induction 1; simpl; repeat case_match; try done; try (by constructor); by etrans.
Qed.

Lemma elem_of_filter_bool {A} (p : A → bool) (l : list A) x :
  x ∈ List.filter p l ↔ x ∈ l ∧ p x = true.
Proof. rewrite !list_elem_of_In. apply List.filter_In. Qed.

(** The first [n] elements of a sorted list are sorted, and an element that is
    not among them comes after all of them. *)
Lemma StronglySorted_take {A} (R : relation A) n l :
  StronglySorted R l → StronglySorted R (take n l).
Proof. intros Hs. rewrite <- (take_drop n l) in Hs. by eapply StronglySorted_app_1_l. Qed.

Lemma elem_of_take_or_after {A} (R : relation A) (n : nat) l x :
  StronglySorted R l → x ∈ l →
  x ∈ take n l ∨ length (take n l) = n ∧ ∀ y, y ∈ take n l → R y x.
Proof.
  intros Hs Hx. rewrite <- (take_drop n l) in Hs, Hx.
  apply elem_of_app in Hx as [Hx|Hx]; [by left|right]. split.
  - destruct (decide (n ≤ length l)%nat); [rewrite length_take; lia|].
    rewrite drop_ge in Hx by lia. by apply elem_of_nil in Hx.
  - intros y Hy. by eapply StronglySorted_app_1_elem_of.
Qed.

Lemma NoDup_take {A} n (l : list A) : NoDup l → NoDup (take n l).
Proof. intros Hl. eapply sublist_NoDup; [exact Hl|apply sublist_take]. Qed.

(** ** Ranges of maps *)

Section MapRangeLemmas.
Context {MR : MapRange}.

Lemma elem_of_go_range {A} (m : gmap string A) k v :
  (k, v) ∈ go_range m ↔ m !! k = Some v.
Proof. rewrite go_range_perm. apply elem_of_map_to_list. Qed.

Lemma NoDup_fst_go_range {A} (m : gmap string A) : NoDup (go_range m).*1.
Proof. rewrite go_range_perm. apply NoDup_fst_map_to_list. Qed.

Lemma NoDup_go_range {A} (m : gmap string A) : NoDup (go_range m).
Proof. rewrite go_range_perm. apply NoDup_map_to_list. Qed.

Lemma length_go_range {A} (m : gmap string A) : length (go_range m) = size m.
Proof. rewrite go_range_perm. apply length_map_to_list. Qed.
End MapRangeLemmas.

(** Two enumerations of the same map are permutations of each other. *)
Lemma go_range_any (M1 M2 : MapRange) A (m : gmap string A) :
  @go_range M1 A m ≡ₚ @go_range M2 A m.
Proof. by rewrite !go_range_perm. Qed.
