(* ===== verification/HubProto.v ===== *)
(** * Messages of the hub protocol

    The protobuf messages exchanged between hub and spokes
    ([proto/hub/v1/hub.pb.go]), one record per message with the source's
    fields.  Protobuf enums are open in Go (any int32 may arrive on the wire),
    so every enum has a constructor for unnamed values.  A message field that
    is a pointer is an [option]; [double] is an IEEE-754 binary64 value in the
    kernel's [spec_float] representation; timestamps are nanoseconds. *)

From S2P Require Import Prelude.

Local Open Scope Z_scope.

(** ** Enums *)

Inductive DirectiveAction :=
  | DIRECTIVE_ACTION_UNSPECIFIED | DIRECTIVE_ACTION_START
  | DIRECTIVE_ACTION_STOP | DIRECTIVE_ACTION_UPDATE
  | DIRECTIVE_ACTION_OTHER (n : Z).

Inductive ReplayAction :=
  | REPLAY_ACTION_UNSPECIFIED | REPLAY_ACTION_START | REPLAY_ACTION_STOP
  | REPLAY_ACTION_OTHER (n : Z).

Inductive ReplayPhase :=
  | REPLAY_PHASE_UNSPECIFIED | REPLAY_PHASE_PENDING | REPLAY_PHASE_RUNNING
  | REPLAY_PHASE_COMPLETED | REPLAY_PHASE_FAILED
  | REPLAY_PHASE_OTHER (n : Z).

Inductive CapturePhase :=
  | CAPTURE_PHASE_UNSPECIFIED | CAPTURE_PHASE_PENDING | CAPTURE_PHASE_ACTIVE
  | CAPTURE_PHASE_COMPLETED | CAPTURE_PHASE_FAILED
  | CAPTURE_PHASE_OTHER (n : Z).

Inductive SpokeState :=
  | SPOKE_STATE_UNSPECIFIED | SPOKE_STATE_CONNECTED | SPOKE_STATE_DISCONNECTED
  | SPOKE_STATE_OTHER (n : Z).

#[global] Instance ReplayPhase_eq_dec : EqDecision ReplayPhase.
Proof. solve_decision. Defined.
#[global] Instance ReplayAction_eq_dec : EqDecision ReplayAction.
Proof. solve_decision. Defined.
#[global] Instance SpokeState_eq_dec : EqDecision SpokeState.
Proof. solve_decision. Defined.

(** ** Spoke lifecycle messages *)

Record RegisterSpokeRequest := {
  rsr_SpokeId : string;
  rsr_ClusterName : string;
  rsr_KubernetesVersion : string;
  rsr_Capabilities : list string;
  rsr_Cell : string
}.

Record RegisterSpokeResponse := {
  rsp_Accepted : bool;
  rsp_Message : string;
  rsp_HeartbeatIntervalSeconds : Z
}.

Record LoadTestKey := {
  ltk_Namespace : string;
  ltk_Name : string
}.

(** ** Status summaries *)

Record CaptureStatusSummary := {
  css_CaptureName : string;
  css_CaptureNamespace : string;
  css_Phase : CapturePhase;
  css_CapturedRequests : Z;
  css_BytesWritten : Z;
  css_ReadyReplicas : Z;
  css_DesiredReplicas : Z
}.

Record ReplayStatusSummary := {
  rss_LoadTestName : string;
  rss_LoadTestNamespace : string;
  rss_ReplayName : string;
  rss_ShardIndex : Z;
  rss_ShardCount : Z;
  rss_Phase : ReplayPhase;
  rss_TotalRequests : Z;
  rss_SentRequests : Z;
  rss_FailedRequests : Z;
  rss_FilteredRequests : Z;
  rss_AchievedRps : float64;
  rss_P50LatencyMs : Z;
  rss_P95LatencyMs : Z;
  rss_P99LatencyMs : Z;
  rss_Message : string
}.

Record HeartbeatRequest := {
  hbr_SpokeId : string;
  hbr_ActiveCaptures : Z;
  hbr_CaptureSummaries : list CaptureStatusSummary;
  hbr_ReplaySummaries : list ReplayStatusSummary
}.

Record HeartbeatResponse := {
  hbp_Acknowledged : bool;
  hbp_ActiveLoadTests : list LoadTestKey;
  hbp_ActiveLoadTestsComplete : bool
}.

Record DeregisterSpokeRequest := {
  dsr_SpokeId : string;
  dsr_Reason : string
}.

Record ReportCaptureStatusRequest := {
  rcs_SpokeId : string;
  rcs_Statuses : list CaptureStatusSummary
}.

Record ReportReplayStatusRequest := {
  rrs_SpokeId : string;
  rrs_Statuses : list ReplayStatusSummary
}.

(** The three acknowledgement-only responses
    ([DeregisterSpokeResponse], [ReportCaptureStatusResponse],
    [ReportReplayStatusResponse]) carry one boolean. *)
Record Acknowledged := { ack : bool }.

(** ** Directives *)

Record HubCaptureSettings := {
  hcs_IncludeHeaders : bool;
  hcs_IncludeBody : bool;
  hcs_MaxBodyBytes : Z;
  hcs_Duration : string
}.

Record HubHeaderMatch := { hhm_Name : string; hhm_Value : string }.

Record HubCaptureFilters := {
  hcf_Headers : list HubHeaderMatch;
  hcf_PathPrefix : string;
  hcf_Percentage : Z
}.

Record AgentScaling := {
  as_Replicas : Z;
  as_MinReplicas : Z;
  as_MaxReplicas : Z;
  as_TargetCpu : Z
}.

Record CaptureSpec := {
  csp_TargetRouteGroup : string;
  csp_TargetRouteKind : string;
  csp_TargetRouteName : string;
  csp_StorageRefName : string;
  csp_CaptureSettings : option HubCaptureSettings;
  csp_Filters : option HubCaptureFilters;
  csp_AgentScaling : option AgentScaling
}.

Record CaptureDirective := {
  cd_DirectiveId : string;
  cd_Action : DirectiveAction;
  cd_CaptureName : string;
  cd_CaptureNamespace : string;
  cd_Spec : option CaptureSpec
}.

Record ReplayRate := {
  rr_Mode : string;
  rr_RequestsPerSecond : Z;
  rr_TimeScale : string
}.

Record ReplayShard := {
  rsh_Index : Z;
  rsh_Count : Z;
  rsh_Presharded : bool
}.

Record ReplayDataFilters := {
  rdf_StartTime : option Z;
  rdf_EndTime : option Z;
  rdf_PathPrefix : string;
  rdf_Methods : list string;
  rdf_Limit : Z
}.

Record ReplaySpec := {
  rs_SourceCapture : string;
  rs_StorageRefName : string;
  rs_TargetHost : string;
  rs_TargetPort : Z;
  rs_TargetTls : bool;
  rs_Rate : option ReplayRate;
  rs_Shard : option ReplayShard;
  rs_Concurrency : Z;
  rs_Filters : option ReplayDataFilters;
  rs_EngineName : string;
  rs_EngineConfigJson : string;
  rs_AllowedHosts : list string
}.

Record ReplayDirective := {
  rd_DirectiveId : string;
  rd_Action : ReplayAction;
  rd_LoadTestName : string;
  rd_LoadTestNamespace : string;
  rd_Spec : option ReplaySpec
}.

Record WatchDirectivesResponse := {
  wdr_Directive : option CaptureDirective;
  wdr_ReplayDirective : option ReplayDirective
}.

(** ** Query messages *)

Record ListCapturesRequest := {
  lcr_SpokeId : string;
  lcr_Namespace : string;
  lcr_Cell : string
}.

Record CaptureInfo := {
  ci_CaptureName : string;
  ci_CaptureNamespace : string;
  ci_SpokeId : string;
  ci_Phase : CapturePhase;
  ci_CapturedRequests : Z;
  ci_BytesWritten : Z;
  ci_StartTime : option Z
}.

Record GetCaptureStatusRequest := {
  gcr_CaptureName : string;
  gcr_CaptureNamespace : string;
  gcr_SpokeId : string
}.

Record ListSpokesRequest := { lsr_Cell : string }.

Record SpokeInfo := {
  si_SpokeId : string;
  si_ClusterName : string;
  si_ActiveCaptures : Z;
  si_LastHeartbeat : Z;
  si_Capabilities : list string;
  si_State : SpokeState;
  si_Cell : string;
  si_ActiveReplays : Z
}.

Record CellInfo := {
  ce_Name : string;
  ce_ConnectedSpokes : Z;
  ce_TotalSpokes : Z;
  ce_ActiveCaptures : Z;
  ce_ActiveReplays : Z
}.

Record ListReplaysRequest := {
  lrr_LoadTestName : string;
  lrr_LoadTestNamespace : string;
  lrr_Cell : string
}.

Record ReplayInfo := {
  ri_SpokeId : string;
  ri_Cell : string;
  ri_Summary : ReplayStatusSummary
}.
