(* ===== verification/HubServer.v ===== *)
(** * The hub gRPC server

    [internal/hub/grpc_server.go] and [internal/hub/identity.go]: the in-memory
    spoke registry, the per-spoke bounded directive queues, and the query and
    aggregation operations.

    The registry maps a spoke id to a pointer to a [spokeEntry].  Pointers are
    modelled explicitly ([sv_spokes] holds locations into the store
    [sv_entries]) because an entry outlives its registration: a
    [WatchDirectives] stream and a [queueDirective] call keep the pointer they
    read under the lock, while [RegisterSpoke] may already have retired the
    entry and installed a fresh one.  A buffered channel is the list of the
    queued values with its capacity; a [chan struct{}] that is only closed is a
    boolean.  [time.Now()] is an argument of the operations that read it. *)

From S2P Require Import Prelude HubProto.

Local Open Scope Z_scope.

(** ** Caller identity ([identity.go]) *)

Record Certificate := {
  cert_CommonName : string;
  cert_DNSNames : list string
}.

(** What [peer.FromContext] yields for a connection: the kind of
    [p.AuthInfo], and for TLS the verified chains of the connection state. *)
Inductive AuthInfo :=
  | NilAuthInfo
  | TLSInfo (VerifiedChains : list (list Certificate))
  | OtherAuthInfo.

(** A request context, reduced to its peer ([None]: no peer in the context). *)
Record Context := { ctx_peer : option AuthInfo }.

Definition peerCertIdentities (ctx : Context) : option (list string) :=
  match ctx_peer ctx with
  | Some (TLSInfo ((leaf :: _) :: _)) =>
      Some ((if bool_decide (cert_CommonName leaf ≠ "") then [cert_CommonName leaf] else [])
            ++ cert_DNSNames leaf)
  | _ => None
  end.

Definition verifySpokeIdentity (ctx : Context) (spokeID : string) : option go_error :=
  match peerCertIdentities ctx with
  | None => None
  | Some identities =>
      if bool_decide (spokeID ∈ identities) then None
      else Some (StatusError PermissionDenied
             "spoke %q does not match the client certificate identity %v"
             [FStr spokeID; FStrs identities])
  end.

(** ** State *)

Definition DefaultHeartbeatInterval : Z := 30.
Definition SpokeTimeout : Z := 90 * Second.
Definition DirectiveBufferSize : Z := 32.

Record spokeEntry := SpokeEntry {
  se_info : SpokeInfo;
  se_lastHeartbeat : Z;
  se_captures : gmap string CaptureStatusSummary;
  se_replays : gmap string ReplayStatusSummary;
  se_directives : list WatchDirectivesResponse;
  se_directivesCap : Z;
  se_done : bool
}.

(** Prometheus counters the server bumps ([metrics.go]). *)
Record HubMetrics := {
  hm_heartbeats : Z;
  hm_directivesQueued : Z;
  hm_rejectsNotRegistered : Z;
  hm_rejectsBufferFull : Z
}.

Record Server := MkServer {
  sv_entries : gmap nat spokeEntry;
  sv_next : nat;
  sv_spokes : gmap string nat;
  sv_activeLoadTests : list LoadTestKey;
  sv_activeLoadTestsComplete : bool;
  sv_address : string;
  sv_directiveBufferSize : Z;
  sv_shutdown : bool;
  sv_metrics : HubMetrics
}.

Definition set_entries (f : gmap nat spokeEntry → gmap nat spokeEntry) (s : Server) : Server :=
  MkServer (f (sv_entries s)) (sv_next s) (sv_spokes s) (sv_activeLoadTests s)
    (sv_activeLoadTestsComplete s) (sv_address s) (sv_directiveBufferSize s)
    (sv_shutdown s) (sv_metrics s).

Definition set_spokes (f : gmap string nat → gmap string nat) (s : Server) : Server :=
  MkServer (sv_entries s) (sv_next s) (f (sv_spokes s)) (sv_activeLoadTests s)
    (sv_activeLoadTestsComplete s) (sv_address s) (sv_directiveBufferSize s)
    (sv_shutdown s) (sv_metrics s).

Definition set_metrics (f : HubMetrics → HubMetrics) (s : Server) : Server :=
  MkServer (sv_entries s) (sv_next s) (sv_spokes s) (sv_activeLoadTests s)
    (sv_activeLoadTestsComplete s) (sv_address s) (sv_directiveBufferSize s)
    (sv_shutdown s) (f (sv_metrics s)).

(** Allocates a fresh entry and returns its location. *)
Definition alloc_entry (e : spokeEntry) (s : Server) : nat * Server :=
  (sv_next s,
   MkServer (<[sv_next s := e]> (sv_entries s)) (S (sv_next s)) (sv_spokes s)
     (sv_activeLoadTests s) (sv_activeLoadTestsComplete s) (sv_address s)
     (sv_directiveBufferSize s) (sv_shutdown s) (sv_metrics s)).

Definition incHeartbeats (m : HubMetrics) : HubMetrics :=
  {| hm_heartbeats := hm_heartbeats m + 1;
     hm_directivesQueued := hm_directivesQueued m;
     hm_rejectsNotRegistered := hm_rejectsNotRegistered m;
     hm_rejectsBufferFull := hm_rejectsBufferFull m |}.
Definition incDirectivesQueued (m : HubMetrics) : HubMetrics :=
  {| hm_heartbeats := hm_heartbeats m;
     hm_directivesQueued := hm_directivesQueued m + 1;
     hm_rejectsNotRegistered := hm_rejectsNotRegistered m;
     hm_rejectsBufferFull := hm_rejectsBufferFull m |}.
Definition incRejectsNotRegistered (m : HubMetrics) : HubMetrics :=
  {| hm_heartbeats := hm_heartbeats m;
     hm_directivesQueued := hm_directivesQueued m;
     hm_rejectsNotRegistered := hm_rejectsNotRegistered m + 1;
     hm_rejectsBufferFull := hm_rejectsBufferFull m |}.
Definition incRejectsBufferFull (m : HubMetrics) : HubMetrics :=
  {| hm_heartbeats := hm_heartbeats m;
     hm_directivesQueued := hm_directivesQueued m;
     hm_rejectsNotRegistered := hm_rejectsNotRegistered m;
     hm_rejectsBufferFull := hm_rejectsBufferFull m + 1 |}.

Definition zeroMetrics : HubMetrics :=
  {| hm_heartbeats := 0; hm_directivesQueued := 0;
     hm_rejectsNotRegistered := 0; hm_rejectsBufferFull := 0 |}.

Definition NewServer (address : string) : Server :=
  MkServer ∅ 0 ∅ [] false address 0 false zeroMetrics.

Definition SetDirectiveBufferSize (n : Z) (s : Server) : Server :=
  if 0 <? n then
    MkServer (sv_entries s) (sv_next s) (sv_spokes s) (sv_activeLoadTests s)
      (sv_activeLoadTestsComplete s) (sv_address s) n (sv_shutdown s) (sv_metrics s)
  else s.

Definition directiveBufferSizeLocked (s : Server) : Z :=
  if 0 <? sv_directiveBufferSize s then sv_directiveBufferSize s else DirectiveBufferSize.

(** [Stop], the part that changes the server's own state: the shutdown channel
    is closed once.  Draining RPCs and closing connections is the gRPC
    library's. *)
Definition Stop (s : Server) : Server :=
  MkServer (sv_entries s) (sv_next s) (sv_spokes s) (sv_activeLoadTests s)
    (sv_activeLoadTestsComplete s) (sv_address s) (sv_directiveBufferSize s)
    true (sv_metrics s).

(** ** Helpers *)

Definition captureKey (namespace name : string) : string := namespace +:+ "/" +:+ name.

Definition replayKey (rs : ReplayStatusSummary) : string :=
  rss_LoadTestNamespace rs +:+ "/" +:+ rss_LoadTestName rs +:+ "/" +:+ rss_ReplayName rs.

(** The phases the hub counts as still active. *)
Definition replayActive (rs : ReplayStatusSummary) : bool :=
  match rss_Phase rs with
  | REPLAY_PHASE_COMPLETED | REPLAY_PHASE_FAILED => false
  | _ => true
  end.

Definition captureInfoFromSummary (cs : CaptureStatusSummary) (spokeID : string) : CaptureInfo :=
  {| ci_CaptureName := css_CaptureName cs;
     ci_CaptureNamespace := css_CaptureNamespace cs;
     ci_SpokeId := spokeID;
     ci_Phase := css_Phase cs;
     ci_CapturedRequests := css_CapturedRequests cs;
     ci_BytesWritten := css_BytesWritten cs;
     ci_StartTime := None |}.

Definition cloneSpokeInfo (info : SpokeInfo) : SpokeInfo :=
  {| si_SpokeId := si_SpokeId info;
     si_ClusterName := si_ClusterName info;
     si_ActiveCaptures := si_ActiveCaptures info;
     si_LastHeartbeat := si_LastHeartbeat info;
     si_Capabilities := si_Capabilities info;
     si_State := si_State info;
     si_Cell := si_Cell info;
     si_ActiveReplays := si_ActiveReplays info |}.

Definition with_State (st : SpokeState) (i : SpokeInfo) : SpokeInfo :=
  {| si_SpokeId := si_SpokeId i; si_ClusterName := si_ClusterName i;
     si_ActiveCaptures := si_ActiveCaptures i; si_LastHeartbeat := si_LastHeartbeat i;
     si_Capabilities := si_Capabilities i; si_State := st; si_Cell := si_Cell i;
     si_ActiveReplays := si_ActiveReplays i |}.
Definition with_ActiveCaptures (n : Z) (i : SpokeInfo) : SpokeInfo :=
  {| si_SpokeId := si_SpokeId i; si_ClusterName := si_ClusterName i;
     si_ActiveCaptures := n; si_LastHeartbeat := si_LastHeartbeat i;
     si_Capabilities := si_Capabilities i; si_State := si_State i; si_Cell := si_Cell i;
     si_ActiveReplays := si_ActiveReplays i |}.
Definition with_LastHeartbeat (t : Z) (i : SpokeInfo) : SpokeInfo :=
  {| si_SpokeId := si_SpokeId i; si_ClusterName := si_ClusterName i;
     si_ActiveCaptures := si_ActiveCaptures i; si_LastHeartbeat := t;
     si_Capabilities := si_Capabilities i; si_State := si_State i; si_Cell := si_Cell i;
     si_ActiveReplays := si_ActiveReplays i |}.
Definition with_ActiveReplays (n : Z) (i : SpokeInfo) : SpokeInfo :=
  {| si_SpokeId := si_SpokeId i; si_ClusterName := si_ClusterName i;
     si_ActiveCaptures := si_ActiveCaptures i; si_LastHeartbeat := si_LastHeartbeat i;
     si_Capabilities := si_Capabilities i; si_State := si_State i; si_Cell := si_Cell i;
     si_ActiveReplays := n |}.

(** [close(entry.done)]: closing a closed channel panics. *)
Definition close_done (l : nat) (s : Server) : go Server :=
  match sv_entries s !! l with
  | None => Panic
  | Some e =>
      if se_done e then Panic
      else Ret (set_entries (<[l := SpokeEntry (se_info e) (se_lastHeartbeat e)
             (se_captures e) (se_replays e) (se_directives e) (se_directivesCap e) true]>) s)
  end.

(** [entry.captures[key] = cs] for each summary, in order. *)
Definition store_captures (css : list CaptureStatusSummary)
    (m : gmap string CaptureStatusSummary) : gmap string CaptureStatusSummary :=
  foldl (λ m cs, <[captureKey (css_CaptureNamespace cs) (css_CaptureName cs) := cs]> m) m css.

Definition store_replays (rss : list ReplayStatusSummary)
    (m : gmap string ReplayStatusSummary) : gmap string ReplayStatusSummary :=
  foldl (λ m rs, <[replayKey rs := rs]> m) m rss.

Definition err_spoke_id_required : go_error :=
  StatusError InvalidArgument "spoke_id is required" [].
Definition err_not_registered (id : string) : go_error :=
  StatusError NotFound "spoke %q not registered" [FStr id].

Definition connected (now : Z) (e : spokeEntry) : bool :=
  time_Sub now (se_lastHeartbeat e) <=? SpokeTimeout.

Section Operations.
Context {MR : MapRange}.

Definition activeReplayCount (replays : gmap string ReplayStatusSummary) : Z :=
  foldl (λ count '(_, rs), if replayActive rs then int32 (count + 1) else count)
    0 (go_range replays).

(** [for spokeID, entry := range s.spokes] *)
Definition range_spokes (s : Server) : list (string * spokeEntry) :=
  omap (λ '(id, l), (λ e, (id, e)) <$> sv_entries s !! l) (go_range (sv_spokes s)).

(** ** Spoke lifecycle *)

(** The entry a registration installs. *)
Definition new_entry (now : Z) (req : RegisterSpokeRequest) (cap : Z) : spokeEntry :=
  SpokeEntry
    {| si_SpokeId := rsr_SpokeId req;
       si_ClusterName := rsr_ClusterName req;
       si_ActiveCaptures := 0;
       si_LastHeartbeat := now;
       si_Capabilities := rsr_Capabilities req;
       si_State := SPOKE_STATE_CONNECTED;
       si_Cell := rsr_Cell req;
       si_ActiveReplays := 0 |}
    now ∅ ∅ [] cap false.

Definition RegisterSpoke (ctx : Context) (now : Z) (req : RegisterSpokeRequest)
    (s : Server) : go (Server * result RegisterSpokeResponse) :=
  if bool_decide (rsr_SpokeId req = "") then Ret (s, Err err_spoke_id_required)
  else match verifySpokeIdentity ctx (rsr_SpokeId req) with
  | Some err => Ret (s, Err err)
  | None =>
      let retired :=
        match sv_spokes s !! rsr_SpokeId req with
        | Some l => close_done l s
        | None => Ret s
        end in
      match retired with
      | Panic => Panic
      | Ret s =>
          let '(l, s) := alloc_entry (new_entry now req (directiveBufferSizeLocked s)) s in
          Ret (set_spokes (<[rsr_SpokeId req := l]>) s,
               Ok {| rsp_Accepted := true;
                     rsp_Message := "spoke registered";
                     rsp_HeartbeatIntervalSeconds := DefaultHeartbeatInterval |})
      end
  end.

(** The entry [Heartbeat] leaves behind. *)
Definition heartbeat_entry (now : Z) (req : HeartbeatRequest) (e : spokeEntry) : spokeEntry :=
  let captures := store_captures (hbr_CaptureSummaries req) (se_captures e) in
  let replays := store_replays (hbr_ReplaySummaries req) (se_replays e) in
  SpokeEntry
    (with_ActiveReplays (activeReplayCount replays)
      (with_State SPOKE_STATE_CONNECTED
        (with_ActiveCaptures (hbr_ActiveCaptures req)
          (with_LastHeartbeat now (se_info e)))))
    now captures replays (se_directives e) (se_directivesCap e) (se_done e).

Definition Heartbeat (ctx : Context) (now : Z) (req : HeartbeatRequest)
    (s : Server) : go (Server * result HeartbeatResponse) :=
  if bool_decide (hbr_SpokeId req = "") then Ret (s, Err err_spoke_id_required)
  else match verifySpokeIdentity ctx (hbr_SpokeId req) with
  | Some err => Ret (s, Err err)
  | None =>
      match sv_spokes s !! hbr_SpokeId req with
      | None => Ret (s, Err (err_not_registered (hbr_SpokeId req)))
      | Some l =>
          match sv_entries s !! l with
          | None => Panic
          | Some e =>
              let s := set_entries (<[l := heartbeat_entry now req e]>) s in
              Ret (set_metrics incHeartbeats s,
                   Ok {| hbp_Acknowledged := true;
                         hbp_ActiveLoadTests := sv_activeLoadTests s;
                         hbp_ActiveLoadTestsComplete := sv_activeLoadTestsComplete s |})
          end
      end
  end.

Definition SetActiveLoadTests (keys : list LoadTestKey) (complete : bool) (s : Server) : Server :=
  MkServer (sv_entries s) (sv_next s) (sv_spokes s) keys complete (sv_address s)
    (sv_directiveBufferSize s) (sv_shutdown s) (sv_metrics s).

Definition DeregisterSpoke (ctx : Context) (req : DeregisterSpokeRequest)
    (s : Server) : go (Server * result Acknowledged) :=
  if bool_decide (dsr_SpokeId req = "") then Ret (s, Err err_spoke_id_required)
  else match verifySpokeIdentity ctx (dsr_SpokeId req) with
  | Some err => Ret (s, Err err)
  | None =>
      match sv_spokes s !! dsr_SpokeId req with
      | None => Ret (s, Err (err_not_registered (dsr_SpokeId req)))
      | Some l =>
          match close_done l s with
          | Panic => Panic
          | Ret s => Ret (set_spokes (delete (dsr_SpokeId req)) s, Ok {| ack := true |})
          end
      end
  end.

(** ** Directive streaming

    [WatchDirectives] first resolves the entry, then loops over a [select].
    Which ready case a [select] takes is unspecified, so the loop body is a
    function of the case taken; it yields nothing when that case is not
    ready.  [send_err] is the error of [stream.Send], if any. *)

Definition WatchDirectives_open (ctx : Context) (spokeID : string) (s : Server) : result nat :=
  if bool_decide (spokeID = "") then Err err_spoke_id_required
  else match verifySpokeIdentity ctx spokeID with
  | Some err => Err err
  | None =>
      match sv_spokes s !! spokeID with
      | None => Err (err_not_registered spokeID)
      | Some l => Ok l
      end
  end.

Inductive watch_case :=
  | CaseCtxDone (err : go_error)
  | CaseShutdown
  | CaseDone
  | CaseDirective (send_err : option go_error).

(** What one round of the loop does: the stream ends with an error, or a
    response went out on the stream and the loop continues. *)
Inductive watch_event :=
  | WatchEnd (err : go_error) (taken : option WatchDirectivesResponse)
  | WatchSent (resp : WatchDirectivesResponse).

Definition pop_directive (l : nat) (s : Server) : option (WatchDirectivesResponse * Server) :=
  e ← sv_entries s !! l;
  match se_directives e with
  | [] => None
  | resp :: rest =>
      Some (resp, set_entries (<[l := SpokeEntry (se_info e) (se_lastHeartbeat e)
             (se_captures e) (se_replays e) rest (se_directivesCap e) (se_done e)]>) s)
  end.

Definition WatchDirectives_select (spokeID : string) (l : nat) (c : watch_case)
    (s : Server) : option (Server * watch_event) :=
  match c with
  | CaseCtxDone err => Some (s, WatchEnd err None)
  | CaseShutdown =>
      if sv_shutdown s
      then Some (s, WatchEnd (StatusError Unavailable "hub shutting down" []) None)
      else None
  | CaseDone =>
      e ← sv_entries s !! l;
      if se_done e
      then Some (s, WatchEnd (StatusError Aborted "spoke %q deregistered" [FStr spokeID]) None)
      else None
  | CaseDirective send_err =>
      '(resp, s) ← pop_directive l s;
      match send_err with
      | Some err => Some (s, WatchEnd err (Some resp))
      | None => Some (s, WatchSent resp)
      end
  end.

(** [queueDirective] resolves the entry under the lock and sends on its
    channel after releasing it: two separate steps. *)

Definition queue_lookup (spokeID : string) (s : Server) : Server * result nat :=
  if bool_decide (spokeID = "") then (s, Err err_spoke_id_required)
  else match sv_spokes s !! spokeID with
  | None => (set_metrics incRejectsNotRegistered s, Err (err_not_registered spokeID))
  | Some l => (s, Ok l)
  end.

Definition push_directive (resp : WatchDirectivesResponse) (e : spokeEntry) : spokeEntry :=
  SpokeEntry (se_info e) (se_lastHeartbeat e) (se_captures e) (se_replays e)
    (se_directives e ++ [resp]) (se_directivesCap e) (se_done e).

Definition queue_send (spokeID : string) (l : nat) (resp : WatchDirectivesResponse)
    (s : Server) : go (Server * option go_error) :=
  match sv_entries s !! l with
  | None => Panic
  | Some e =>
      if len (se_directives e) <? se_directivesCap e
      then Ret (set_metrics incDirectivesQueued
                  (set_entries (<[l := push_directive resp e]>) s), None)
      else Ret (set_metrics incRejectsBufferFull s,
             Some (StatusError ResourceExhausted
                "directive buffer full for spoke %q" [FStr spokeID]))
  end.

Definition queueDirective (spokeID : string) (resp : WatchDirectivesResponse)
    (s : Server) : go (Server * option go_error) :=
  match queue_lookup spokeID s with
  | (s, Err err) => Ret (s, Some err)
  | (s, Ok l) => queue_send spokeID l resp s
  end.

Definition SendDirective (spokeID : string) (directive : option CaptureDirective)
    (s : Server) : go (Server * option go_error) :=
  match directive with
  | None => Ret (s, Some (StatusError InvalidArgument "directive is required" []))
  | Some d => queueDirective spokeID
                {| wdr_Directive := Some d; wdr_ReplayDirective := None |} s
  end.

Definition SendReplayDirective (spokeID : string) (directive : option ReplayDirective)
    (s : Server) : go (Server * option go_error) :=
  match directive with
  | None => Ret (s, Some (StatusError InvalidArgument "directive is required" []))
  | Some d => queueDirective spokeID
                {| wdr_Directive := None; wdr_ReplayDirective := Some d |} s
  end.

(** The non-blocking send of [BroadcastDirective] to one entry. *)
Definition try_send (resp : WatchDirectivesResponse) (st : Server * Z) (l : nat) : Server * Z :=
  let '(s, queued) := st in
  match sv_entries s !! l with
  | Some e =>
      if len (se_directives e) <? se_directivesCap e
      then (set_entries (<[l := push_directive resp e]>) s, queued + 1)
      else (s, queued)
  | None => (s, queued)
  end.

Definition BroadcastDirective (directive : option CaptureDirective) (s : Server) : Server * Z :=
  match directive with
  | None => (s, 0)
  | Some d =>
      foldl (try_send {| wdr_Directive := Some d; wdr_ReplayDirective := None |})
        (s, 0) (go_range (sv_spokes s)).*2
  end.

(** ** Status reporting *)

Definition ReportCaptureStatus (ctx : Context) (req : ReportCaptureStatusRequest)
    (s : Server) : go (Server * result Acknowledged) :=
  if bool_decide (rcs_SpokeId req = "") then Ret (s, Err err_spoke_id_required)
  else match verifySpokeIdentity ctx (rcs_SpokeId req) with
  | Some err => Ret (s, Err err)
  | None =>
      if len (rcs_Statuses req) =? 0
      then Ret (s, Err (StatusError InvalidArgument "at least one status is required" []))
      else match sv_spokes s !! rcs_SpokeId req with
      | None => Ret (s, Err (err_not_registered (rcs_SpokeId req)))
      | Some l =>
          match sv_entries s !! l with
          | None => Panic
          | Some e =>
              let captures := store_captures (rcs_Statuses req) (se_captures e) in
              Ret (set_entries (<[l := SpokeEntry
                     (with_ActiveCaptures (int32 (map_len captures)) (se_info e))
                     (se_lastHeartbeat e) captures (se_replays e)
                     (se_directives e) (se_directivesCap e) (se_done e)]>) s,
                   Ok {| ack := true |})
          end
      end
  end.

Definition ReportReplayStatus (ctx : Context) (req : ReportReplayStatusRequest)
    (s : Server) : go (Server * result Acknowledged) :=
  if bool_decide (rrs_SpokeId req = "") then Ret (s, Err err_spoke_id_required)
  else match verifySpokeIdentity ctx (rrs_SpokeId req) with
  | Some err => Ret (s, Err err)
  | None =>
      if len (rrs_Statuses req) =? 0
      then Ret (s, Err (StatusError InvalidArgument "at least one status is required" []))
      else match sv_spokes s !! rrs_SpokeId req with
      | None => Ret (s, Err (err_not_registered (rrs_SpokeId req)))
      | Some l =>
          match sv_entries s !! l with
          | None => Panic
          | Some e =>
              let replays := store_replays (rrs_Statuses req) (se_replays e) in
              Ret (set_entries (<[l := SpokeEntry
                     (with_ActiveReplays (activeReplayCount replays) (se_info e))
                     (se_lastHeartbeat e) (se_captures e) replays
                     (se_directives e) (se_directivesCap e) (se_done e)]>) s,
                   Ok {| ack := true |})
          end
      end
  end.

(** ** Queries *)

(** [v != "" && x != v]: an optional equality filter that rejects. *)
Definition filtered_out (v x : string) : bool := bool_decide (v ≠ "" ∧ x ≠ v).

Definition ListCaptures (req : ListCapturesRequest) (s : Server) : list CaptureInfo :=
  '(spokeID, entry) ← range_spokes s;
  if filtered_out (lcr_SpokeId req) spokeID then []
  else if filtered_out (lcr_Cell req) (si_Cell (se_info entry)) then []
  else
    '(_, cs) ← go_range (se_captures entry);
    if filtered_out (lcr_Namespace req) (css_CaptureNamespace cs) then []
    else [captureInfoFromSummary cs spokeID].

(** The first spoke of the enumeration that reports the capture. *)
Fixpoint find_capture (key : string) (l : list (string * spokeEntry)) : option CaptureInfo :=
  match l with
  | [] => None
  | (spokeID, entry) :: l =>
      match se_captures entry !! key with
      | Some cs => Some (captureInfoFromSummary cs spokeID)
      | None => find_capture key l
      end
  end.

Definition GetCaptureStatus (req : GetCaptureStatusRequest) (s : Server) : go (result CaptureInfo) :=
  if bool_decide (gcr_CaptureName req = "" ∨ gcr_CaptureNamespace req = "")
  then Ret (Err (StatusError InvalidArgument
                   "capture_name and capture_namespace are required" []))
  else
    let key := captureKey (gcr_CaptureNamespace req) (gcr_CaptureName req) in
    if bool_decide (gcr_SpokeId req ≠ "") then
      match sv_spokes s !! gcr_SpokeId req with
      | None => Ret (Err (err_not_registered (gcr_SpokeId req)))
      | Some l =>
          match sv_entries s !! l with
          | None => Panic
          | Some entry =>
              match se_captures entry !! key with
              | None => Ret (Err (StatusError NotFound "capture %q not found on spoke %q"
                                    [FStr key; FStr (gcr_SpokeId req)]))
              | Some cs => Ret (Ok (captureInfoFromSummary cs (gcr_SpokeId req)))
              end
          end
      end
    else
      match find_capture key (range_spokes s) with
      | Some ci => Ret (Ok ci)
      | None => Ret (Err (StatusError NotFound "capture %q not found" [FStr key]))
      end.

Definition ListSpokes (req : ListSpokesRequest) (now : Z) (s : Server) : list SpokeInfo :=
  '(_, entry) ← range_spokes s;
  if filtered_out (lsr_Cell req) (si_Cell (se_info entry)) then []
  else
    let info := cloneSpokeInfo (se_info entry) in
    if SpokeTimeout <? time_Sub now (se_lastHeartbeat entry)
    then [with_State SPOKE_STATE_DISCONNECTED info]
    else [info].

(** The per-cell accumulation: [byCell[entry.info.Cell]] is created on first use and then bumped. *)
Definition cell_add (now : Z) (byCell : gmap string CellInfo) (entry : spokeEntry)
    : gmap string CellInfo :=
  let name := si_Cell (se_info entry) in
  let cell := default {| ce_Name := name; ce_ConnectedSpokes := 0; ce_TotalSpokes := 0;
                         ce_ActiveCaptures := 0; ce_ActiveReplays := 0 |} (byCell !! name) in
  <[name :=
      {| ce_Name := ce_Name cell;
         ce_ConnectedSpokes :=
           if connected now entry then int32 (ce_ConnectedSpokes cell + 1)
           else ce_ConnectedSpokes cell;
         ce_TotalSpokes := int32 (ce_TotalSpokes cell + 1);
         ce_ActiveCaptures := int32 (ce_ActiveCaptures cell + int32 (map_len (se_captures entry)));
         ce_ActiveReplays := int32 (ce_ActiveReplays cell + activeReplayCount (se_replays entry)) |}]>
    byCell.

Definition cells_by_name (now : Z) (s : Server) : gmap string CellInfo :=
  foldl (cell_add now) ∅ (range_spokes s).*2.

Definition ListCells (now : Z) (s : Server) : list CellInfo :=
  let byCell := cells_by_name now s in
  let names := sort_Strings (go_range byCell).*1 in
  omap (λ name, byCell !! name) names.

Definition ListReplays (req : ListReplaysRequest) (s : Server) : list ReplayInfo :=
  '(spokeID, entry) ← range_spokes s;
  if filtered_out (lrr_Cell req) (si_Cell (se_info entry)) then []
  else
    '(_, rs) ← go_range (se_replays entry);
    if filtered_out (lrr_LoadTestName req) (rss_LoadTestName rs) then []
    else if filtered_out (lrr_LoadTestNamespace req) (rss_LoadTestNamespace rs) then []
    else [{| ri_SpokeId := spokeID; ri_Cell := si_Cell (se_info entry); ri_Summary := rs |}].

(** ** Aggregation helpers *)

Definition ConnectedSpokeCount (now : Z) (s : Server) : Z :=
  foldl (λ count '(_, entry), if connected now entry then int32 (count + 1) else count)
    0 (range_spokes s).

Definition ActiveCaptureCount (s : Server) : Z :=
  foldl (λ count '(_, entry), int32 (count + int32 (map_len (se_captures entry))))
    0 (range_spokes s).

Definition ActiveReplayCount (s : Server) : Z :=
  foldl (λ count '(_, entry), int32 (count + activeReplayCount (se_replays entry)))
    0 (range_spokes s).

Record SpokeStatusSnapshot := {
  sss_Name : string;
  sss_Cell : string;
  sss_LastHeartbeat : Z;
  sss_ActiveCaptures : Z;
  sss_ActiveReplays : Z
}.

Definition SpokeStatuses (s : Server) : list SpokeStatusSnapshot :=
  (λ '(_, entry),
     {| sss_Name := si_ClusterName (se_info entry);
        sss_Cell := si_Cell (se_info entry);
        sss_LastHeartbeat := se_lastHeartbeat entry;
        sss_ActiveCaptures := si_ActiveCaptures (se_info entry);
        sss_ActiveReplays := activeReplayCount (se_replays entry) |}) <$> range_spokes s.

Record CellStatusSnapshot := {
  cst_Name : string;
  cst_ConnectedSpokes : Z;
  cst_TotalSpokes : Z;
  cst_ActiveCaptures : Z;
  cst_ActiveReplays : Z
}.

Definition cellStatus_add (now : Z) (byCell : gmap string CellStatusSnapshot)
    (entry : spokeEntry) : gmap string CellStatusSnapshot :=
  let name := si_Cell (se_info entry) in
  let cell := default {| cst_Name := name; cst_ConnectedSpokes := 0; cst_TotalSpokes := 0;
                         cst_ActiveCaptures := 0; cst_ActiveReplays := 0 |} (byCell !! name) in
  <[name :=
      {| cst_Name := cst_Name cell;
         cst_ConnectedSpokes :=
           if connected now entry then int32 (cst_ConnectedSpokes cell + 1)
           else cst_ConnectedSpokes cell;
         cst_TotalSpokes := int32 (cst_TotalSpokes cell + 1);
         cst_ActiveCaptures := int32 (cst_ActiveCaptures cell + int32 (map_len (se_captures entry)));
         cst_ActiveReplays := int32 (cst_ActiveReplays cell + activeReplayCount (se_replays entry)) |}]>
    byCell.

Definition CellStatuses (now : Z) (s : Server) : list CellStatusSnapshot :=
  let byCell := foldl (cellStatus_add now) ∅ (range_spokes s).*2 in
  let names := sort_Strings (go_range byCell).*1 in
  omap (λ name, byCell !! name) names.

Record SpokeSelection := {
  sel_SpokeID : string;
  sel_Cell : string
}.

Definition selection_le (a b : SpokeSelection) : Prop := String.le (sel_SpokeID a) (sel_SpokeID b).

#[global] Instance selection_le_dec a b : Decision (selection_le a b).
Proof. unfold selection_le. apply _. Defined.

(** The spokes [SelectSpokes] keeps, in iteration order. *)
Definition eligible_spokes (now : Z) (cells : list string) (s : Server) : list SpokeSelection :=
  let cellSet : gset string := list_to_set cells in
  '(spokeID, entry) ← range_spokes s;
  if SpokeTimeout <? time_Sub now (se_lastHeartbeat entry) then []
  else if bool_decide (cellSet ≠ ∅ ∧ si_Cell (se_info entry) ∉ cellSet) then []
  else [{| sel_SpokeID := spokeID; sel_Cell := si_Cell (se_info entry) |}].

Definition SelectSpokes (now : Z) (cells : list string) (max : Z) (s : Server) : list SpokeSelection :=
  let selected := merge_sort selection_le (eligible_spokes now cells s) in
  if (0 <? max) && (max <? len selected) then take (Z.to_nat max) selected else selected.

Record ReplayStatusSnapshot := {
  rsn_SpokeID : string;
  rsn_Cell : string;
  rsn_Summary : ReplayStatusSummary
}.

(** The shard status belongs to the load test. *)
Definition of_load_test (namespace name : string) (rs : ReplayStatusSummary) : bool :=
  bool_decide (rss_LoadTestNamespace rs = namespace ∧ rss_LoadTestName rs = name).

Definition ReplayStatuses (namespace name : string) (s : Server) : list ReplayStatusSnapshot :=
  '(spokeID, entry) ← range_spokes s;
  '(_, rs) ← go_range (se_replays entry);
  if of_load_test namespace name rs
  then [{| rsn_SpokeID := spokeID; rsn_Cell := si_Cell (se_info entry); rsn_Summary := rs |}]
  else [].

(** The entry after the deletions of [ClearReplayStatuses]. *)
Definition clear_replays (namespace name : string) (e : spokeEntry) : spokeEntry :=
  let replays := foldl (λ m '(key, rs),
      if of_load_test namespace name rs then delete key m else m)
      (se_replays e) (go_range (se_replays e)) in
  SpokeEntry (with_ActiveReplays (activeReplayCount replays) (se_info e))
    (se_lastHeartbeat e) (se_captures e) replays (se_directives e) (se_directivesCap e) (se_done e).

Definition ClearReplayStatuses (namespace name : string) (s : Server) : Server :=
  set_entries (λ h, foldl (λ h l, alter (clear_replays namespace name) l h)
                      h (go_range (sv_spokes s)).*2) s.

End Operations.
