(* ===== verification/HubInvariant.v ===== *)
(** * The registry invariant and the directive queues

    The reachable states of the hub server under every interleaving of its
    operations, the invariant they satisfy, and what follows from it: no
    operation panics, and a spoke's directive stream is a FIFO queue. *)

From S2P Require Import Prelude HubProto HubServer.

Local Open Scope Z_scope.

Section Invariant.
Context {MR : MapRange}.

(** ** The invariant *)

(** Well-formedness of one entry: its channel respects its capacity, the maps
    are keyed by the identity of what they hold, and the derived fields of
    the [SpokeInfo] agree with the entry. *)
Record wf_entry (e : spokeEntry) : Prop := {
  wf_cap : 0 < se_directivesCap e;
  wf_directives : len (se_directives e) <= se_directivesCap e;
  wf_captures : ∀ k cs, se_captures e !! k = Some cs →
    k = captureKey (css_CaptureNamespace cs) (css_CaptureName cs);
  wf_replays : ∀ k rs, se_replays e !! k = Some rs → k = replayKey rs;
  wf_activeReplays : si_ActiveReplays (se_info e) = activeReplayCount (se_replays e);
  wf_state : si_State (se_info e) = SPOKE_STATE_CONNECTED;
  wf_heartbeat : si_LastHeartbeat (se_info e) = se_lastHeartbeat e
}.

(** An entry is registered under its own spoke id exactly while its [done]
    channel is open; locations are below the allocation pointer. *)
Record server_inv (s : Server) : Prop := {
  inv_registered : ∀ id l, sv_spokes s !! id = Some l →
    ∃ e, sv_entries s !! l = Some e ∧ se_done e = false ∧ si_SpokeId (se_info e) = id;
  inv_live : ∀ l e, sv_entries s !! l = Some e → se_done e = false →
    sv_spokes s !! si_SpokeId (se_info e) = Some l;
  inv_entries : ∀ l e, sv_entries s !! l = Some e → wf_entry e;
  inv_next : ∀ l e, sv_entries s !! l = Some e → (l < sv_next s)%nat;
  inv_ids : sv_spokes s !! "" = None;
  inv_bufsize : 0 <= sv_directiveBufferSize s
}.

(** ** Steps

    One step is one atomic action of one goroutine, labelled with its effect
    on the directive queues.  [step_send] covers the channel send of a
    [queueDirective] that resolved its entry any number of steps earlier: the
    location is any entry ever allocated. *)
Inductive queue_label :=
  | Tau
  | Enq (l : nat) (resp : WatchDirectivesResponse)
  | Deq (l : nat) (resp : WatchDirectivesResponse).

Definition send_label (l : nat) (resp : WatchDirectivesResponse) (r : option go_error)
    : queue_label := match r with None => Enq l resp | Some _ => Tau end.

Definition try_send_label (l : nat) (resp : WatchDirectivesResponse) (n n' : Z)
    : queue_label := if n' =? n then Tau else Enq l resp.

Definition watch_label (l : nat) (ev : watch_event) : queue_label :=
  match ev with
  | WatchSent resp | WatchEnd _ (Some resp) => Deq l resp
  | WatchEnd _ None => Tau
  end.

Inductive hub_step : Server → queue_label → Server → Prop :=
  | step_register ctx now req s s' r :
      RegisterSpoke ctx now req s = Ret (s', r) → hub_step s Tau s'
  | step_heartbeat ctx now req s s' r :
      Heartbeat ctx now req s = Ret (s', r) → hub_step s Tau s'
  | step_deregister ctx req s s' r :
      DeregisterSpoke ctx req s = Ret (s', r) → hub_step s Tau s'
  | step_report_captures ctx req s s' r :
      ReportCaptureStatus ctx req s = Ret (s', r) → hub_step s Tau s'
  | step_report_replays ctx req s s' r :
      ReportReplayStatus ctx req s = Ret (s', r) → hub_step s Tau s'
  | step_lookup id s s' r :
      queue_lookup id s = (s', r) → hub_step s Tau s'
  | step_send id l resp s s' r :
      queue_send id l resp s = Ret (s', r) → hub_step s (send_label l resp r) s'
  | step_try_send resp l n s s' n' :
      try_send resp (s, n) l = (s', n') → hub_step s (try_send_label l resp n n') s'
  | step_watch id l c s s' ev :
      WatchDirectives_select id l c s = Some (s', ev) → hub_step s (watch_label l ev) s'
  | step_clear namespace name s :
      hub_step s Tau (ClearReplayStatuses namespace name s)
  | step_load_tests keys complete s :
      hub_step s Tau (SetActiveLoadTests keys complete s)
  | step_buffer_size n s :
      hub_step s Tau (SetDirectiveBufferSize n s)
  | step_stop s :
      hub_step s Tau (Stop s).

(** Runs of the server from its initial state, with the queue actions they
    performed, oldest first. *)
Inductive hub_run (address : string) : list queue_label → Server → Prop :=
  | run_init : hub_run address [] (NewServer address)
  | run_step tr lbl s s' :
      hub_run address tr s → hub_step s lbl s' → hub_run address (tr ++ [lbl]) s'.

Definition hub_reachable (s : Server) : Prop := ∃ address tr, hub_run address tr s.

(** ** Framing lemmas *)

Lemma inv_frame s s' :
  sv_entries s' = sv_entries s → sv_next s' = sv_next s → sv_spokes s' = sv_spokes s →
  0 <= sv_directiveBufferSize s' → server_inv s → server_inv s'.
Proof. intros He Hn Hs Hb []. split; rewrite ?He, ?Hn, ?Hs; done. Qed.

Lemma inv_metrics f s : server_inv s → server_inv (set_metrics f s).
Proof. intros Hi. eapply inv_frame; [..|done]; try done. apply Hi. Qed.

(** Replacing an entry by a well-formed one of the same spoke and liveness. *)
Lemma inv_update l e e' s :
  server_inv s → sv_entries s !! l = Some e → wf_entry e' →
  si_SpokeId (se_info e') = si_SpokeId (se_info e) → se_done e' = se_done e →
  server_inv (set_entries (<[l := e']>) s).
Proof.
  intros Hi Hl Hwf Hid Hdone. split; simpl.
  - intros id k Hk. destruct (inv_registered _ Hi _ _ Hk) as (f & Hf & ? & ?).
    destruct (decide (k = l)) as [->|]; simplify_map_eq; [|eauto].
    eexists. split; [done|]. split; congruence.
  - intros k f Hf Hd. destruct (decide (k = l)) as [->|]; simplify_map_eq.
    + rewrite Hid. apply (inv_live _ Hi); congruence.
    + by apply (inv_live _ Hi).
  - intros k f Hf. destruct (decide (k = l)) as [->|]; simplify_map_eq; [done|].
    by eapply (inv_entries _ Hi).
  - intros k f Hf. destruct (decide (k = l)) as [->|]; simplify_map_eq;
      by eapply (inv_next _ Hi).
  - apply (inv_ids _ Hi).
  - apply (inv_bufsize _ Hi).
Qed.

(** A live entry can be closed: [close(entry.done)] does not panic. *)
Lemma close_done_live id l s :
  server_inv s → sv_spokes s !! id = Some l →
  ∃ e, sv_entries s !! l = Some e ∧ si_SpokeId (se_info e) = id ∧
    close_done l s = Ret (set_entries (<[l := SpokeEntry (se_info e) (se_lastHeartbeat e)
           (se_captures e) (se_replays e) (se_directives e) (se_directivesCap e) true]>) s).
Proof.
  intros Hi Hl. destruct (inv_registered _ Hi _ _ Hl) as (e & He & Hd & Hid).
  exists e. unfold close_done. rewrite He, Hd. done.
Qed.

Lemma inv_spoke_unique id id' l s :
  server_inv s → sv_spokes s !! id = Some l → sv_spokes s !! id' = Some l → id = id'.
Proof.
  intros Hi H1 H2.
  destruct (inv_registered _ Hi _ _ H1) as (e & ? & ? & <-).
  destruct (inv_registered _ Hi _ _ H2) as (e' & ? & ? & <-). by simplify_eq.
Qed.

(** Retiring an entry and removing its registration. *)
Lemma inv_retire id l e s :
  server_inv s → sv_spokes s !! id = Some l → sv_entries s !! l = Some e →
  server_inv (set_spokes (delete id) (set_entries (<[l := SpokeEntry (se_info e)
     (se_lastHeartbeat e) (se_captures e) (se_replays e) (se_directives e)
     (se_directivesCap e) true]>) s)).
Proof.
  intros Hi Hl He. split; simpl.
  - intros id' k. rewrite lookup_delete_Some. intros [Hne Hk].
    destruct (inv_registered _ Hi _ _ Hk) as (f & Hf & ? & ?).
    assert (k ≠ l) by (intros ->; apply Hne; by eapply inv_spoke_unique).
    exists f. by simplify_map_eq.
  - intros k f Hf Hd. destruct (decide (k = l)) as [->|]; simplify_map_eq.
    pose proof (inv_live _ Hi _ _ Hf Hd) as Hk.
    rewrite lookup_delete_ne; [done|]. intros ->. simplify_eq.
  - intros k f Hf. destruct (decide (k = l)) as [->|]; simplify_map_eq.
    + destruct (inv_entries _ Hi _ _ He). by split.
    + by eapply (inv_entries _ Hi).
  - intros k f Hf. destruct (decide (k = l)) as [->|]; simplify_map_eq;
      by eapply (inv_next _ Hi).
  - rewrite lookup_delete_None. right. apply (inv_ids _ Hi).
  - apply (inv_bufsize _ Hi).
Qed.

(** Installing a fresh well-formed live entry under an unregistered id. *)
Lemma inv_install id e s :
  server_inv s → sv_spokes s !! id = None → id ≠ "" → wf_entry e →
  si_SpokeId (se_info e) = id → se_done e = false →
  server_inv (set_spokes (<[id := sv_next s]>) (alloc_entry e s).2).
Proof.
  intros Hi Hid Hne Hwf Hsid Hd.
  assert (sv_entries s !! sv_next s = None) as Hfresh.
  { destruct (sv_entries s !! sv_next s) eqn:E; [|done].
    apply (inv_next _ Hi) in E. lia. }
  split; simpl.
  - intros id' k. rewrite lookup_insert_Some. intros [[<- <-]|[? Hk]].
    + exists e. by simplify_map_eq.
    + destruct (inv_registered _ Hi _ _ Hk) as (f & Hf & ? & ?).
      exists f. assert (sv_next s ≠ k) by congruence. by simplify_map_eq.
  - intros k f. rewrite lookup_insert_Some. intros [[<- <-]|[? Hf]] Hdf.
    + rewrite Hsid. by simplify_map_eq.
    + pose proof (inv_live _ Hi _ _ Hf Hdf) as Hk.
      rewrite lookup_insert_ne; [done|]. intros Heq. congruence.
  - intros k f. rewrite lookup_insert_Some. intros [[<- <-]|[? Hf]]; [done|].
    by eapply (inv_entries _ Hi).
  - intros k f. rewrite lookup_insert_Some. intros [[<- <-]|[? Hf]]; [lia|].
    apply (inv_next _ Hi) in Hf. lia.
  - rewrite lookup_insert_ne by done. apply (inv_ids _ Hi).
  - apply (inv_bufsize _ Hi).
Qed.

(** ** Every operation preserves the invariant and does not panic *)

Lemma directiveBufferSizeLocked_pos s : 0 < directiveBufferSizeLocked s.
Proof. unfold directiveBufferSizeLocked. case_match; zbool; [done|]. done. Qed.

Lemma activeReplayCount_empty : activeReplayCount ∅ = 0.
Proof.
  unfold activeReplayCount.
  assert (go_range (∅ : gmap string ReplayStatusSummary) = []) as ->; [|done].
  apply Permutation_nil_r. by rewrite go_range_perm, map_to_list_empty.
Qed.

Lemma new_entry_wf now req cap : 0 < cap → wf_entry (new_entry now req cap).
Proof.
  intros Hc. split; simpl; try done; try (intros ??; rewrite lookup_empty; done).
  - unfold len. simpl. lia.
  - by rewrite activeReplayCount_empty.
Qed.

Lemma register_spec ctx now req s :
  server_inv s → ∃ s' r, RegisterSpoke ctx now req s = Ret (s', r) ∧ server_inv s'.
Proof.
  intros Hi. unfold RegisterSpoke. case_bool_decide as Hne; [by eauto|].
  destruct (verifySpokeIdentity ctx (rsr_SpokeId req)); [by eauto|].
  destruct (sv_spokes s !! rsr_SpokeId req) as [l|] eqn:El.
  - destruct (close_done_live _ _ _ Hi El) as (f & Hf & Hid & ->).
    do 2 eexists. split; [done|].
    pose proof (inv_retire _ _ _ _ Hi El Hf) as Hr.
    set (s1 := set_entries _ s) in *.
    pose proof (inv_install (rsr_SpokeId req) (new_entry now req (directiveBufferSizeLocked s1)) _ Hr) as Hin.
    eapply inv_frame; [..|apply Hin]; try done; simpl.
    + by rewrite insert_delete_eq.
    + apply (inv_bufsize _ Hi).
    + by rewrite lookup_delete_eq.
    + apply new_entry_wf, directiveBufferSizeLocked_pos.
  - do 2 eexists. split; [done|]. apply inv_install; try done.
    apply new_entry_wf, directiveBufferSizeLocked_pos.
Qed.

Lemma deregister_spec ctx req s :
  server_inv s → ∃ s' r, DeregisterSpoke ctx req s = Ret (s', r) ∧ server_inv s'.
Proof.
  intros Hi. unfold DeregisterSpoke. case_bool_decide; [by eauto|].
  destruct (verifySpokeIdentity _ _); [by eauto|].
  destruct (sv_spokes s !! _) as [l|] eqn:El; [|by eauto].
  destruct (close_done_live _ _ _ Hi El) as (e & He & _ & ->).
  do 2 eexists. split; [done|]. by eapply inv_retire.
Qed.

Lemma store_captures_keys css m :
  (∀ k cs, m !! k = Some cs → k = captureKey (css_CaptureNamespace cs) (css_CaptureName cs)) →
  ∀ k cs, store_captures css m !! k = Some cs →
    k = captureKey (css_CaptureNamespace cs) (css_CaptureName cs).
Proof.
  revert m. induction css as [|c css IH]; intros m Hm; [done|].
  apply IH. intros k cs. rewrite lookup_insert_Some.
  intros [[<- <-]|[??]]; eauto.
Qed.

Lemma store_replays_keys rss m :
  (∀ k rs, m !! k = Some rs → k = replayKey rs) →
  ∀ k rs, store_replays rss m !! k = Some rs → k = replayKey rs.
Proof.
  revert m. induction rss as [|c rss IH]; intros m Hm; [done|].
  apply IH. intros k rs. rewrite lookup_insert_Some.
  intros [[<- <-]|[??]]; eauto.
Qed.

Lemma heartbeat_spec ctx now req s :
  server_inv s → ∃ s' r, Heartbeat ctx now req s = Ret (s', r) ∧ server_inv s'.
Proof.
  intros Hi. unfold Heartbeat. case_bool_decide; [by eauto|].
  destruct (verifySpokeIdentity _ _); [by eauto|].
  destruct (sv_spokes s !! _) as [l|] eqn:El; [|by eauto].
  destruct (inv_registered _ Hi _ _ El) as (e & He & _). rewrite He.
  do 2 eexists. split; [done|]. apply inv_metrics.
  eapply inv_update; try done.
  destruct (inv_entries _ Hi _ _ He). split; simpl; try done.
  - by apply store_captures_keys.
  - by apply store_replays_keys.
Qed.

Lemma report_captures_spec ctx req s :
  server_inv s → ∃ s' r, ReportCaptureStatus ctx req s = Ret (s', r) ∧ server_inv s'.
Proof.
  intros Hi. unfold ReportCaptureStatus. case_bool_decide; [by eauto|].
  destruct (verifySpokeIdentity _ _); [by eauto|]. case_match; [by eauto|].
  destruct (sv_spokes s !! _) as [l|] eqn:El; [|by eauto].
  destruct (inv_registered _ Hi _ _ El) as (e & He & _). rewrite He.
  do 2 eexists. split; [done|]. eapply inv_update; try done.
  destruct (inv_entries _ Hi _ _ He). split; simpl; try done.
  by apply store_captures_keys.
Qed.

Lemma report_replays_spec ctx req s :
  server_inv s → ∃ s' r, ReportReplayStatus ctx req s = Ret (s', r) ∧ server_inv s'.
Proof.
  intros Hi. unfold ReportReplayStatus. case_bool_decide; [by eauto|].
  destruct (verifySpokeIdentity _ _); [by eauto|]. case_match; [by eauto|].
  destruct (sv_spokes s !! _) as [l|] eqn:El; [|by eauto].
  destruct (inv_registered _ Hi _ _ El) as (e & He & _). rewrite He.
  do 2 eexists. split; [done|]. eapply inv_update; try done.
  destruct (inv_entries _ Hi _ _ He). split; simpl; try done.
  by apply store_replays_keys.
Qed.

Lemma push_wf resp e :
  wf_entry e → len (se_directives e) < se_directivesCap e → wf_entry (push_directive resp e).
Proof.
  intros [] Hlt. split; simpl; try done. rewrite len_app. unfold len at 2. simpl. lia.
Qed.

Lemma queue_send_spec id l resp s s' r :
  queue_send id l resp s = Ret (s', r) → server_inv s → server_inv s'.
Proof.
  unfold queue_send. intros H Hi. destruct (sv_entries s !! l) as [e|] eqn:He; [|done].
  destruct (_ <? _) eqn:Hlt; simplify_eq; zbool; apply inv_metrics; [|done].
  eapply inv_update; try done. apply push_wf; [|done]. by eapply inv_entries.
Qed.

Lemma try_send_spec resp l n s s' n' :
  try_send resp (s, n) l = (s', n') → server_inv s → server_inv s'.
Proof.
  unfold try_send. intros H Hi. destruct (sv_entries s !! l) as [e|] eqn:He; [|by simplify_eq].
  destruct (_ <? _) eqn:Hlt; simplify_eq; zbool; [|done].
  eapply inv_update; try done. apply push_wf; [|done]. by eapply inv_entries.
Qed.

Lemma pop_directive_spec l s resp s' :
  pop_directive l s = Some (resp, s') → server_inv s → server_inv s'.
Proof.
  unfold pop_directive. intros H Hi.
  destruct (sv_entries s !! l) as [e|] eqn:He; simplify_eq/=.
  destruct (se_directives e) as [|d ds] eqn:Hds; simplify_eq/=.
  eapply inv_update; try done.
  destruct (inv_entries _ Hi _ _ He) as [?? ?????]. split; simpl; try done.
  rewrite Hds in *. unfold len in *. simpl in *. lia.
Qed.

Lemma watch_spec id l c s s' ev :
  WatchDirectives_select id l c s = Some (s', ev) → server_inv s → server_inv s'.
Proof.
  unfold WatchDirectives_select. intros H Hi. destruct c as [| | |se].
  - by simplify_eq.
  - by case_match; simplify_eq.
  - destruct (sv_entries s !! l); simplify_eq/=. by case_match; simplify_eq.
  - destruct (pop_directive l s) as [[resp s1]|] eqn:E; simplify_eq/=.
    apply pop_directive_spec in E; [|done]. by destruct se; simplify_eq.
Qed.

(** ** [ClearReplayStatuses] *)

Lemma foldl_delete_lookup {V} (p : V → bool) (l : list (string * V)) (m : gmap string V) k :
  foldl (λ m '(key, v), if p v then delete key m else m) m l !! k =
  if existsb (λ '(key, v), bool_decide (key = k) && p v) l then None else m !! k.
Proof.
  revert m. induction l as [|[key v] l IH]; intros m; simpl; [done|].
  rewrite IH. destruct (existsb _ l); [by rewrite orb_true_r|]. rewrite orb_false_r.
  case_bool_decide; subst; destruct (p v); simpl; by simplify_map_eq.
Qed.

(** The loop deletes exactly the statuses of the load test. *)
Lemma clear_replays_lookup namespace name e k :
  se_replays (clear_replays namespace name e) !! k =
  match se_replays e !! k with
  | Some rs => if of_load_test namespace name rs then None else Some rs
  | None => None
  end.
Proof.
  simpl. rewrite foldl_delete_lookup.
  destruct (existsb _ _) eqn:Ex.
  - apply existsb_exists in Ex as ([key rs] & Hin%list_elem_of_In & Hp).
    apply elem_of_go_range in Hin. apply andb_true_iff in Hp as [Hk Hp].
    case_bool_decide; simplify_eq. by rewrite Hin, Hp.
  - destruct (se_replays e !! k) as [rs|] eqn:Ek; [|done].
    destruct (of_load_test _ _ rs) eqn:Hp; [|done].
    exfalso. apply not_true_iff_false in Ex. apply Ex, existsb_exists.
    exists (k, rs). split; [by apply list_elem_of_In, elem_of_go_range|].
    by rewrite bool_decide_eq_true_2, Hp.
Qed.

Lemma clear_replays_wf namespace name e : wf_entry e → wf_entry (clear_replays namespace name e).
Proof.
  intros []. split; try done. intros k rs. rewrite clear_replays_lookup.
  destruct (se_replays e !! k) eqn:Ek; [|done]. case_match; [done|]. intros. simplify_eq. eauto.
Qed.

Lemma clear_replays_fold_inv namespace name ls s :
  (∀ l, l ∈ ls → is_Some (sv_entries s !! l)) → server_inv s →
  server_inv (set_entries (λ h, foldl (λ h l, alter (clear_replays namespace name) l h) h ls) s).
Proof.
  revert s. induction ls as [|l ls IH]; intros s Hls Hi.
  { eapply inv_frame; [..|done]; try done. apply Hi. }
  destruct (Hls l) as [e He]; [set_solver|].
  assert (alter (clear_replays namespace name) l (sv_entries s)
          = <[l := clear_replays namespace name e]> (sv_entries s)) as Ha.
  { apply map_eq. intros k. destruct (decide (k = l)) as [->|]; by simplify_map_eq. }
  pose proof (inv_update l e (clear_replays namespace name e) s Hi He) as Hu.
  eapply inv_frame; [..|apply (IH (set_entries (<[l := clear_replays namespace name e]>) s))];
    try done; simpl.
  - by rewrite Ha.
  - apply (inv_bufsize _ Hi).
  - intros k Hk. destruct (decide (k = l)) as [->|]; simplify_map_eq; [done|].
    apply Hls. set_solver.
  - apply Hu; try done. apply clear_replays_wf. by eapply inv_entries.
Qed.

Lemma clear_inv namespace name s :
  server_inv s → server_inv (ClearReplayStatuses namespace name s).
Proof.
  intros Hi. apply clear_replays_fold_inv; [|done].
  intros l ([id l'] & -> & Hin%elem_of_go_range)%list_elem_of_fmap.
  destruct (inv_registered _ Hi _ _ Hin) as (e & He & _).
  simpl. rewrite He. by eexists.
Qed.

(** ** Preservation and reachability *)

Lemma hub_step_inv s lbl s' : hub_step s lbl s' → server_inv s → server_inv s'.
Proof.
  intros Hstep Hi. destruct Hstep as
    [ctx now req s s' r Hop|ctx now req s s' r Hop|ctx req s s' r Hop|ctx req s s' r Hop
    |ctx req s s' r Hop|id s s' r Hop|id l resp s s' r Hop|resp l n s s' n' Hop
    |id l c s s' ev Hop|ns n s|keys c s|n s|s].
  - destruct (register_spec ctx now req s Hi) as (? & ? & Heq & ?).
    rewrite Heq in Hop. by simplify_eq.
  - destruct (heartbeat_spec ctx now req s Hi) as (? & ? & Heq & ?).
    rewrite Heq in Hop. by simplify_eq.
  - destruct (deregister_spec ctx req s Hi) as (? & ? & Heq & ?).
    rewrite Heq in Hop. by simplify_eq.
  - destruct (report_captures_spec ctx req s Hi) as (? & ? & Heq & ?).
    rewrite Heq in Hop. by simplify_eq.
  - destruct (report_replays_spec ctx req s Hi) as (? & ? & Heq & ?).
    rewrite Heq in Hop. by simplify_eq.
  - unfold queue_lookup in Hop. repeat case_match; simplify_eq; auto using inv_metrics.
  - by eapply queue_send_spec.
  - by eapply try_send_spec.
  - by eapply watch_spec.
  - by apply clear_inv.
  - eapply inv_frame; [..|done]; try done. apply Hi.
  - unfold SetDirectiveBufferSize. case_match; zbool; [|done].
    eapply inv_frame; [..|done]; try done. simpl. lia.
  - eapply inv_frame; [..|done]; try done. apply Hi.
Qed.

Lemma server_inv_init address : server_inv (NewServer address).
Proof. split; simpl; try done; intros ??; by rewrite lookup_empty. Qed.

Lemma hub_run_inv address tr s : hub_run address tr s → server_inv s.
Proof. induction 1; eauto using server_inv_init, hub_step_inv. Qed.

Lemma hub_reachable_server_inv s : hub_reachable s → server_inv s.
Proof. intros (? & ? & ?). by eapply hub_run_inv. Qed.

(** ** The directive queues are FIFO *)

Definition queue_of (s : Server) (l : nat) : option (list WatchDirectivesResponse) :=
  se_directives <$> sv_entries s !! l.

(** What was accepted into, and taken from, the queue at a location. *)
Definition accepted (l : nat) (tr : list queue_label) : list WatchDirectivesResponse :=
  omap (λ lbl, match lbl with Enq l' r => if decide (l = l') then Some r else None
               | _ => None end) tr.
Definition taken (l : nat) (tr : list queue_label) : list WatchDirectivesResponse :=
  omap (λ lbl, match lbl with Deq l' r => if decide (l = l') then Some r else None
               | _ => None end) tr.

(** The abstract specification of one step: a bounded FIFO queue per
    location, created empty. *)
Definition queue_spec (lbl : queue_label) (l : nat)
    (q q' : option (list WatchDirectivesResponse)) : Prop :=
  match lbl with
  | Enq l' r => if decide (l = l') then ∃ ds, q = Some ds ∧ q' = Some (ds ++ [r]) else q' = q
  | Deq l' r => if decide (l = l') then ∃ ds, q = Some (r :: ds) ∧ q' = Some ds else q' = q
  | Tau => q' = q ∨ (q = None ∧ q' = Some [])
  end.

Lemma queue_of_insert l e s k :
  queue_of (set_entries (<[l := e]>) s) k =
  if decide (k = l) then Some (se_directives e) else queue_of s k.
Proof. unfold queue_of. simpl. case_decide; subst; by simplify_map_eq. Qed.

Lemma queue_of_update l e e' s k :
  sv_entries s !! l = Some e → se_directives e' = se_directives e →
  queue_of (set_entries (<[l := e']>) s) k = queue_of s k.
Proof.
  intros He Hd. rewrite queue_of_insert. case_decide; [subst|done].
  unfold queue_of. by rewrite He, Hd.
Qed.

Lemma queue_of_clear namespace name (ls : list nat) (h : gmap nat spokeEntry) l :
  se_directives <$> foldl (λ h l, alter (clear_replays namespace name) l h) h ls !! l
  = se_directives <$> h !! l.
Proof.
  revert h. induction ls as [|k ls IH]; intros h; [done|]. simpl. rewrite IH.
  destruct (decide (k = l)) as [->|]; [|by simplify_map_eq].
  rewrite lookup_alter_eq. by destruct (h !! l).
Qed.

Lemma queue_of_close l s s' k : close_done l s = Ret s' → queue_of s' k = queue_of s k.
Proof.
  unfold close_done. intros Hc. destruct (sv_entries s !! l) eqn:He; [|done].
  case_match; simplify_eq. by eapply queue_of_update.
Qed.

Lemma queue_of_register ctx now req s s' r k :
  server_inv s → RegisterSpoke ctx now req s = Ret (s', r) →
  queue_of s' k = queue_of s k ∨ (queue_of s k = None ∧ queue_of s' k = Some []).
Proof.
  unfold RegisterSpoke. intros Hi H. case_bool_decide; [simplify_eq; auto|].
  destruct (verifySpokeIdentity _ _); [simplify_eq; auto|].
  assert (∃ s1, (∀ k, queue_of s1 k = queue_of s k) ∧ sv_next s1 = sv_next s ∧
    s' = set_spokes (<[rsr_SpokeId req:=sv_next s1]>)
           (alloc_entry (new_entry now req (directiveBufferSizeLocked s1)) s1).2) as
    (s1 & Hq & Hn & ->).
  { destruct (sv_spokes s !! _) as [l|] eqn:El; [|simplify_eq/=; by exists s].
    destruct (close_done l s) as [s1|] eqn:Ec; simplify_eq/=. exists s1.
    split; [by intros; eapply queue_of_close|]. split; [|done].
    unfold close_done in Ec. repeat case_match; by simplify_eq. }
  rewrite <- Hq. unfold queue_of at 1 4. simpl.
  destruct (decide (k = sv_next s1)) as [->|]; simplify_map_eq; [|by left].
  right. split; [|done]. rewrite Hq, Hn. unfold queue_of.
  destruct (sv_entries s !! sv_next s) eqn:E; [|done]. apply (inv_next _ Hi) in E. lia.
Qed.

(** One step of the server refines one step of the queues. *)
Lemma hub_step_queue s lbl s' :
  server_inv s → hub_step s lbl s' →
  ∀ l, queue_spec lbl l (queue_of s l) (queue_of s' l).
Proof.
  intros Hi Hstep k. destruct Hstep as
    [ctx now req s s' r Hop|ctx now req s s' r Hop|ctx req s s' r Hop|ctx req s s' r Hop
    |ctx req s s' r Hop|id s s' r Hop|id l resp s s' r Hop|resp l n s s' n' Hop
    |id l c s s' ev Hop|ns n s|keys c s|n s|s].
  - simpl. by eapply queue_of_register.
  - left. unfold Heartbeat in Hop. repeat case_match; simplify_eq; try done.
    change (queue_of (set_metrics ?f ?s0) ?x) with (queue_of s0 x). by eapply queue_of_update.
  - left. unfold DeregisterSpoke in Hop. repeat case_match; simplify_eq; try done.
    change (queue_of (set_spokes ?f ?s0) ?x) with (queue_of s0 x). by eapply queue_of_close.
  - left. unfold ReportCaptureStatus in Hop. repeat case_match; simplify_eq; try done.
    by eapply queue_of_update.
  - left. unfold ReportReplayStatus in Hop. repeat case_match; simplify_eq; try done.
    by eapply queue_of_update.
  - left. unfold queue_lookup in Hop. repeat case_match; by simplify_eq.
  - unfold queue_send in Hop. destruct (sv_entries s !! l) as [e|] eqn:He; [|done].
    destruct (_ <? _); simplify_eq; simpl; [|by left].
    change (queue_of (set_metrics ?f ?s0) ?x) with (queue_of s0 x). rewrite queue_of_insert.
    case_decide; [subst|done]. exists (se_directives e). unfold queue_of. by rewrite He.
  - unfold try_send in Hop. unfold try_send_label.
    destruct (sv_entries s !! l) as [e|] eqn:He; [destruct (_ <? _)|]; simplify_eq.
    + replace (n + 1 =? n) with false by (symmetry; apply Z.eqb_neq; lia). simpl.
      rewrite queue_of_insert. case_decide; [subst|done].
      exists (se_directives e). unfold queue_of. by rewrite He.
    + rewrite Z.eqb_refl. by left.
    + rewrite Z.eqb_refl. by left.
  - unfold WatchDirectives_select in Hop. destruct c as [| | |se].
    + simplify_eq. by left.
    + case_match; simplify_eq. by left.
    + destruct (sv_entries s !! l); simplify_eq/=. case_match; simplify_eq. by left.
    + unfold pop_directive in Hop. destruct (sv_entries s !! l) as [e|] eqn:He; simplify_eq/=.
      destruct (se_directives e) as [|d ds] eqn:Hd; simplify_eq/=.
      assert (watch_label l ev = Deq l d) as -> by (by destruct se; simplify_eq).
      assert (s' = set_entries (<[l := SpokeEntry (se_info e) (se_lastHeartbeat e)
             (se_captures e) (se_replays e) ds (se_directivesCap e) (se_done e)]>) s) as ->
        by (by destruct se; simplify_eq).
      simpl. rewrite queue_of_insert. case_decide; [subst|done].
      exists ds. unfold queue_of. by rewrite He; simpl; rewrite Hd.
  - left. unfold queue_of. simpl. apply queue_of_clear.
  - by left.
  - left. unfold SetDirectiveBufferSize. by case_match.
  - by left.
Qed.

Lemma accepted_snoc l tr lbl : accepted l (tr ++ [lbl]) = accepted l tr ++ accepted l [lbl].
Proof. apply omap_app. Qed.

Lemma taken_snoc l tr lbl : taken l (tr ++ [lbl]) = taken l tr ++ taken l [lbl].
Proof. apply omap_app. Qed.

(** The history of a location matches its queue; an unallocated location has
    no history. *)
Lemma hub_run_history address tr s l :
  hub_run address tr s → accepted l tr = taken l tr ++ default [] (queue_of s l) ∧
    (queue_of s l = None → accepted l tr = [] ∧ taken l tr = []).
Proof.
  induction 1 as [|tr lbl s s' Hrun [IH1 IH2] Hstep].
  { unfold queue_of. simpl. rewrite lookup_empty. done. }
  pose proof (hub_step_queue _ _ _ (hub_run_inv _ _ _ Hrun) Hstep l) as Hq.
  rewrite !accepted_snoc, !taken_snoc. destruct lbl as [|l' r|l' r]; simpl in *.
  - rewrite !app_nil_r. destruct Hq as [->|[Hn ->]]; [done|].
    destruct (IH2 Hn) as [-> ->]. done.
  - case_decide; [|rewrite Hq, !app_nil_r; done].
    destruct Hq as (ds & Hd & ->). rewrite Hd in IH1. simpl in *.
    rewrite IH1, app_nil_r, (assoc_L (++)). done.
  - case_decide; [|rewrite Hq, !app_nil_r; done].
    destruct Hq as (ds & Hd & ->). rewrite Hd in IH1. simpl in *.
    rewrite IH1, app_nil_r, <- (assoc_L (++)). done.
Qed.

(** ** Theorems *)

(** C28: every state the hub server reaches, under any interleaving of RPCs,
    directive sends and directive streams, satisfies the registry invariant:
    a spoke id is registered exactly while its entry's [done] channel is
    open, capture and replay summaries are stored under the key of their own
    identity, the derived counters of the spoke info are up to date and no
    directive buffer exceeds its capacity. *)
Theorem reachable_server_inv s : hub_reachable s → server_inv s.
Proof. apply hub_reachable_server_inv. Qed.

(** No RPC handler and no directive send panics in a reachable state: in
    particular a [done] channel is never closed twice, by any order of
    registrations, re-registrations and deregistrations. *)
Theorem reachable_no_panic s : hub_reachable s →
  (∀ ctx now req, RegisterSpoke ctx now req s ≠ Panic) ∧
  (∀ ctx now req, Heartbeat ctx now req s ≠ Panic) ∧
  (∀ ctx req, DeregisterSpoke ctx req s ≠ Panic) ∧
  (∀ ctx req, ReportCaptureStatus ctx req s ≠ Panic) ∧
  (∀ ctx req, ReportReplayStatus ctx req s ≠ Panic) ∧
  (∀ req, GetCaptureStatus req s ≠ Panic) ∧
  (∀ id resp, queueDirective id resp s ≠ Panic).
Proof.
  intros Hi%hub_reachable_server_inv. split_and!.
  - intros ctx now req. by destruct (register_spec ctx now req s Hi) as (? & ? & -> & _).
  - intros ctx now req. by destruct (heartbeat_spec ctx now req s Hi) as (? & ? & -> & _).
  - intros ctx req. by destruct (deregister_spec ctx req s Hi) as (? & ? & -> & _).
  - intros ctx req. by destruct (report_captures_spec ctx req s Hi) as (? & ? & -> & _).
  - intros ctx req. by destruct (report_replays_spec ctx req s Hi) as (? & ? & -> & _).
  - intros req. unfold GetCaptureStatus. repeat case_bool_decide; try done.
    + destruct (sv_spokes s !! _) eqn:El; [|done].
      destruct (inv_registered _ Hi _ _ El) as (e & -> & _). by case_match.
    + by case_match.
  - intros id resp. unfold queueDirective, queue_lookup, queue_send.
    case_bool_decide; [done|]. destruct (sv_spokes s !! id) eqn:El; [|done].
    destruct (inv_registered _ Hi _ _ El) as (e & -> & _). by case_match.
Qed.

(** C27: a spoke's directive stream is a bounded FIFO queue: in every run, what
    the streams have taken from an entry's channel followed by what is still
    buffered is exactly the sequence of directives accepted for that entry,
    and the buffer never exceeds its capacity.  Nothing is reordered,
    duplicated or lost while the entry is the one registered. *)
Theorem directive_queue_fifo address tr s l e :
  hub_run address tr s → sv_entries s !! l = Some e →
  accepted l tr = taken l tr ++ se_directives e ∧
  len (accepted l tr) - len (taken l tr) <= se_directivesCap e.
Proof.
  intros Hrun He. destruct (hub_run_history _ _ _ l Hrun) as [Hh _].
  unfold queue_of in Hh. rewrite He in Hh. simpl in Hh. split; [done|].
  pose proof (wf_directives _ (inv_entries _ (hub_run_inv _ _ _ Hrun) _ _ He)).
  rewrite Hh, len_app. lia.
Qed.
End Invariant.

(** C29: with a verified client certificate, a spoke can only act as one of the
    identities of that certificate: registering, heartbeating, deregistering,
    watching directives or reporting statuses under any other id is rejected
    with [PermissionDenied] and leaves the server untouched. *)
Theorem identity_enforced {MR : MapRange} ctx ids id s :
  peerCertIdentities ctx = Some ids → id ≠ "" → id ∉ ids →
  (∀ now req, rsr_SpokeId req = id → ∃ err,
     RegisterSpoke ctx now req s = Ret (s, Err err) ∧ status_Code err = PermissionDenied) ∧
  (∀ now req, hbr_SpokeId req = id → ∃ err,
     Heartbeat ctx now req s = Ret (s, Err err) ∧ status_Code err = PermissionDenied) ∧
  (∀ req, dsr_SpokeId req = id → ∃ err,
     DeregisterSpoke ctx req s = Ret (s, Err err) ∧ status_Code err = PermissionDenied) ∧
  (∃ err, WatchDirectives_open ctx id s = Err err ∧ status_Code err = PermissionDenied) ∧
  (∀ req, rcs_SpokeId req = id → ∃ err,
     ReportCaptureStatus ctx req s = Ret (s, Err err) ∧ status_Code err = PermissionDenied) ∧
  (∀ req, rrs_SpokeId req = id → ∃ err,
     ReportReplayStatus ctx req s = Ret (s, Err err) ∧ status_Code err = PermissionDenied).
Proof.
  intros Hids Hne Hnin.
  assert (∃ err, verifySpokeIdentity ctx id = Some err ∧ status_Code err = PermissionDenied)
    as (err & Herr & Hc).
  { unfold verifySpokeIdentity. rewrite Hids, bool_decide_eq_false_2 by done. eauto. }
  split_and!.
  - intros now req Hr. exists err. unfold RegisterSpoke.
    by rewrite Hr, bool_decide_eq_false_2, Herr by done.
  - intros now req Hr. exists err. unfold Heartbeat.
    by rewrite Hr, bool_decide_eq_false_2, Herr by done.
  - intros req Hr. exists err. unfold DeregisterSpoke.
    by rewrite Hr, bool_decide_eq_false_2, Herr by done.
  - exists err. unfold WatchDirectives_open.
    by rewrite bool_decide_eq_false_2, Herr by done.
  - intros req Hr. exists err. unfold ReportCaptureStatus.
    by rewrite Hr, bool_decide_eq_false_2, Herr by done.
  - intros req Hr. exists err. unfold ReportReplayStatus.
    by rewrite Hr, bool_decide_eq_false_2, Herr by done.
Qed.

(** Registering an already registered spoke retires the previous entry: its
    [done] channel is closed, so the [done] case of a directive stream still
    holding that entry is ready (whatever the entry still buffers) and ends
    the stream with [Aborted]; the registry points to a fresh entry with an
    empty queue, so directives queued from then on go to the new stream
    only. *)
Theorem reregistration_retires_stream {MR : MapRange} ctx now req s s' resp l :
  hub_reachable s → RegisterSpoke ctx now req s = Ret (s', Ok resp) →
  sv_spokes s !! rsr_SpokeId req = Some l →
  (∃ err, WatchDirectives_select (rsr_SpokeId req) l CaseDone s' = Some (s', WatchEnd err None) ∧
     status_Code err = Aborted) ∧
  (∃ l' e', l' ≠ l ∧ sv_spokes s' !! rsr_SpokeId req = Some l' ∧
     sv_entries s' !! l' = Some e' ∧ se_directives e' = [] ∧ se_done e' = false).
Proof.
  intros Hi%hub_reachable_server_inv Hreg Hl. unfold RegisterSpoke in Hreg.
  case_bool_decide; simplify_eq. destruct (verifySpokeIdentity _ _); simplify_eq.
  rewrite Hl in Hreg. destruct (close_done_live _ _ _ Hi Hl) as (e & He & _ & Hcl).
  rewrite Hcl in Hreg. simplify_eq/=. pose proof (inv_next _ Hi _ _ He) as Hlt. split.
  - eexists. rewrite lookup_insert_ne by lia. rewrite lookup_insert_eq. by split.
  - exists (sv_next s). eexists. rewrite !lookup_insert_eq. by split; [lia|].
Qed.

(** ** Witnesses *)

#[local] Existing Instance canonical_range.

Definition demo_ctx : Context := {| ctx_peer := None |}.
Definition demo_register (id cell : string) : RegisterSpokeRequest :=
  {| rsr_SpokeId := id; rsr_ClusterName := "cluster-" +:+ id; rsr_KubernetesVersion := "1.31";
     rsr_Capabilities := []; rsr_Cell := cell |}.

(** The server after the registrations, in order, at time [now]. *)
Definition demo_server (now : Z) (ids : list (string * string)) : Server :=
  foldl (λ s '(id, cell), match RegisterSpoke demo_ctx now (demo_register id cell) s with
                          | Ret (s', _) => s' | Panic => s end) (NewServer ":9443") ids.

Definition demo_directive : WatchDirectivesResponse :=
  {| wdr_Directive := None; wdr_ReplayDirective := None |}.

Lemma demo_server_run : hub_run ":9443" [Tau] (demo_server 5 [("a", "east")]).
Proof.
  apply (run_step _ [] Tau (NewServer ":9443")); [constructor|].
  eapply (step_register demo_ctx 5 (demo_register "a" "east")). reflexivity.
Qed.

Lemma reachable_server_inv_witness : server_inv (demo_server 5 [("a", "east")]).
Proof. apply reachable_server_inv. exists ":9443", [Tau]. apply demo_server_run. Defined.

Definition demo_queued : Server :=
  match queue_send "a" 0 demo_directive (demo_server 5 [("a", "east")]) with
  | Ret (s, _) => s | Panic => NewServer "" end.

Lemma directive_queue_fifo_witness :
  let tr := [Tau; Enq 0 demo_directive] in
  let e := push_directive demo_directive (new_entry 5 (demo_register "a" "east") 32) in
  accepted 0 tr = taken 0 tr ++ se_directives e ∧
  len (accepted 0 tr) - len (taken 0 tr) <= se_directivesCap e.
Proof.
  intros tr e. apply (directive_queue_fifo ":9443" tr demo_queued 0 e); [|reflexivity].
  apply (run_step _ [Tau] (Enq 0 demo_directive) (demo_server 5 [("a", "east")])).
  - apply demo_server_run.
  - eapply (step_send "a" 0 demo_directive _ _ None). reflexivity.
Defined.

Definition demo_cert_ctx : Context :=
  {| ctx_peer := Some (TLSInfo [[{| cert_CommonName := "a"; cert_DNSNames := ["a.cells"] |}]]) |}.

Lemma identity_enforced_witness : ∃ err,
  RegisterSpoke demo_cert_ctx 5 (demo_register "b" "east") (NewServer "") =
    Ret (NewServer "", Err err) ∧ status_Code err = PermissionDenied.
Proof.
  apply (proj1 (identity_enforced demo_cert_ctx ["a"; "a.cells"] "b" (NewServer "")
    eq_refl ltac:(done) ltac:(apply (bool_decide_unpack _); vm_compute; exact I)) 5 (demo_register "b" "east") eq_refl).
Defined.

