(* ===== verification/HubQueries.v ===== *)
(** * Queries and aggregation of the hub server

    What the read-side operations of [grpc_server.go] return: spoke selection
    for a load test, per-cell aggregates, capture and replay listings, and the
    effect of the status reports on them.  Go's unspecified map iteration order
    ([MapRange]) is shown not to matter where the code sorts or counts. *)

From S2P Require Import Prelude HubProto HubServer HubInvariant.

Local Open Scope Z_scope.

(** ** Enumerating the registered spokes *)

Section Enumeration.
Context {MR : MapRange}.

Lemma elem_of_range_spokes s id e :
  (id, e) ∈ range_spokes s ↔ ∃ l, sv_spokes s !! id = Some l ∧ sv_entries s !! l = Some e.
Proof.
  unfold range_spokes. rewrite list_elem_of_omap. split.
  - intros ([id' l] & Hin%elem_of_go_range & Hf). 
    destruct (sv_entries s !! l) as [e'|] eqn:He; simplify_eq/=. eauto.
  - intros (l & Hl & He). exists (id, l). rewrite elem_of_go_range, He. done.
Qed.

Lemma range_spokes_fst s :
  (range_spokes s).*1 `sublist_of` (go_range (sv_spokes s)).*1.
Proof.
  unfold range_spokes. induction (go_range (sv_spokes s)) as [|[id l] r IH]; simpl; [done|].
  destruct (sv_entries s !! l); simpl; by constructor.
Qed.

Lemma NoDup_range_spokes_fst s : NoDup (range_spokes s).*1.
Proof. eapply sublist_NoDup, range_spokes_fst. apply NoDup_fst_go_range. Qed.

(** Under the invariant no registered spoke is skipped. *)
Lemma range_spokes_complete s : server_inv s →
  (range_spokes s).*1 = (go_range (sv_spokes s)).*1.
Proof.
  intros Hi. unfold range_spokes.
  assert (∀ id l, (id, l) ∈ go_range (sv_spokes s) → is_Some (sv_entries s !! l)) as Hall.
  { intros id l Hin%elem_of_go_range.
    destruct (inv_registered _ Hi _ _ Hin) as (e & -> & _). by eexists. }
  induction (go_range (sv_spokes s)) as [|[id l] r IH]; [done|]. simpl.
  destruct (Hall id l) as [e He]; [set_solver|]. rewrite He. simpl. f_equal.
  apply IH. intros id' l' ?. apply (Hall id'). set_solver.
Qed.

Lemma activeReplayCount_spec m :
  activeReplayCount m
  = int32 (len (List.filter (λ kv : string * ReplayStatusSummary, replayActive kv.2) (map_to_list m))).
Proof.
  unfold activeReplayCount.
  transitivity (foldl (λ c kv, if replayActive kv.2 then int32 (c + 1) else c)
                  (int32 0) (go_range m)).
  { apply foldl_pointwise. by intros ? [??]. }
  rewrite (foldl_int32_count (λ kv : string * ReplayStatusSummary, replayActive kv.2)).
  f_equal. apply (filter_length_perm _ _ _ (go_range_perm _ m)).
Qed.
End Enumeration.

Lemma activeReplayCount_any (M1 M2 : MapRange) m :
  @activeReplayCount M1 m = @activeReplayCount M2 m.
Proof. by rewrite !activeReplayCount_spec. Qed.

Lemma range_spokes_any (M1 M2 : MapRange) s :
  @range_spokes M1 s ≡ₚ @range_spokes M2 s.
Proof. unfold range_spokes. by rewrite (go_range_any M1 M2). Qed.

(** ** Spoke selection *)

Section Selection.
Context {MR : MapRange}.

(** The condition [SelectSpokes] documents: a registered spoke with a recent
    heartbeat, in one of the requested cells if any is requested. *)
Definition eligible (now : Z) (cells : list string) (s : Server) (sel : SpokeSelection) : Prop :=
  ∃ l e, sv_spokes s !! sel_SpokeID sel = Some l ∧ sv_entries s !! l = Some e ∧
    connected now e = true ∧ (cells = [] ∨ si_Cell (se_info e) ∈ cells) ∧
    sel_Cell sel = si_Cell (se_info e).

Lemma elem_of_eligible_spokes now cells s sel :
  sel ∈ eligible_spokes now cells s ↔ eligible now cells s sel.
Proof.
  unfold eligible_spokes, eligible. rewrite list_elem_of_bind. split.
  - intros ([id e] & Hsel & (l & Hl & He)%elem_of_range_spokes).
    destruct (SpokeTimeout <? _) eqn:Hc; [set_solver|].
    case_bool_decide as Hcell; [set_solver|].
    apply list_elem_of_singleton in Hsel as ->. exists l, e. split_and!; try done.
    + unfold connected. apply Z.leb_le. by apply Z.ltb_ge in Hc.
    + destruct cells as [|c cs]; [by left|right].
      destruct (decide (si_Cell (se_info e) ∈ c :: cs)) as [|Hn]; [done|].
      exfalso. apply Hcell. split; [set_solver|]. by rewrite elem_of_list_to_set.
  - intros (l & e & Hl & He & Hc & Hcell & Hs). exists (sel_SpokeID sel, e).
    split; [|apply elem_of_range_spokes; eauto].
    unfold connected in Hc. apply Z.leb_le in Hc.
    replace (SpokeTimeout <? _) with false by (symmetry; by apply Z.ltb_ge).
    rewrite bool_decide_eq_false_2.
    { apply list_elem_of_singleton. destruct sel. simpl in *. by subst. }
    intros [Hne Hnin]. destruct Hcell as [->|Hcell]; [set_solver|].
    apply Hnin. by apply elem_of_list_to_set.
Qed.

Lemma eligible_spokes_fst now cells s :
  (sel_SpokeID <$> eligible_spokes now cells s) `sublist_of` (range_spokes s).*1.
Proof.
  unfold eligible_spokes. induction (range_spokes s) as [|[id e] r IH]; simpl; [done|].
  destruct (SpokeTimeout <? _); simpl; [by constructor|].
  case_bool_decide; simpl; by constructor.
Qed.

Lemma NoDup_eligible_ids now cells s : NoDup (sel_SpokeID <$> eligible_spokes now cells s).
Proof. eapply sublist_NoDup, eligible_spokes_fst. apply NoDup_range_spokes_fst. Qed.

#[global] Instance selection_le_trans : Transitive selection_le.
Proof. intros a b c. unfold selection_le. apply transitivity. Qed.
#[global] Instance selection_le_total : Total selection_le.
Proof. intros a b. apply (total String.le). Qed.

(** All eligible spokes in id order: what [SelectSpokes] cuts to [max]. *)
Definition sorted_eligible (now : Z) (cells : list string) (s : Server) : list SpokeSelection :=
  merge_sort selection_le (eligible_spokes now cells s).

Lemma SelectSpokes_take now cells max s :
  SelectSpokes now cells max s =
  if 0 <? max then take (Z.to_nat max) (sorted_eligible now cells s)
  else sorted_eligible now cells s.
Proof.
  unfold SelectSpokes. fold (sorted_eligible now cells s).
  destruct (0 <? max) eqn:Hm; [|done]. simpl. case_match; [done|]. zbool.
  rewrite take_ge; [done|]. unfold len in *. lia.
Qed.
End Selection.

Lemma sorted_eligible_any (M1 M2 : MapRange) now cells s :
  @sorted_eligible M1 now cells s = @sorted_eligible M2 now cells s.
Proof.
  assert (@eligible_spokes M1 now cells s ≡ₚ @eligible_spokes M2 now cells s) as Hp.
  { unfold eligible_spokes. by rewrite (range_spokes_any M1 M2). }
  pose proof (@NoDup_eligible_ids M1 now cells s) as Hnd.
  apply (fmap_inj_on_eq sel_SpokeID (λ x, x ∈ @eligible_spokes M1 now cells s)).
  - intros x y Hx Hy Heq.
    apply list_elem_of_lookup in Hx as [i Hi], Hy as [j Hj].
    assert (i = j) as ->; [|congruence].
    eapply NoDup_lookup; [done|..]; rewrite list_lookup_fmap_Some; naive_solver.
  - apply Forall_forall. intros x. unfold sorted_eligible. by rewrite merge_sort_Permutation.
  - apply Forall_forall. intros x. unfold sorted_eligible. by rewrite merge_sort_Permutation, Hp.
  - unfold sorted_eligible. apply (Sorted_unique String.le).
    + apply (Sorted_fmap _ selection_le); [done|]. apply Sorted_merge_sort, _.
    + apply (Sorted_fmap _ selection_le); [done|]. apply Sorted_merge_sort, _.
    + by rewrite !merge_sort_Permutation, Hp.
Qed.

(** ** Cells *)

Section Cells.
Context {MR : MapRange}.

Definition in_cell (name : string) (e : spokeEntry) : bool :=
  bool_decide (si_Cell (se_info e) = name).

Definition entries_in (name : string) (es : list spokeEntry) : list spokeEntry :=
  List.filter (in_cell name) es.

(** The aggregate of a cell, as a function of its members. *)
Definition cell_aggregate (now : Z) (name : string) (members : list spokeEntry) : CellInfo :=
  {| ce_Name := name;
     ce_ConnectedSpokes := int32 (len (List.filter (connected now) members));
     ce_TotalSpokes := int32 (len members);
     ce_ActiveCaptures := int32 (sumZ (λ e, map_len (se_captures e)) members);
     ce_ActiveReplays := int32 (sumZ (λ e, activeReplayCount (se_replays e)) members) |}.

Lemma entries_in_snoc name es e :
  entries_in name (es ++ [e]) = entries_in name es ++ (if in_cell name e then [e] else []).
Proof. unfold entries_in. rewrite List.filter_app. simpl. by destruct (in_cell name e). Qed.

Lemma cell_aggregate_snoc now name fs e :
  cell_aggregate now name (fs ++ [e]) =
  let cell := cell_aggregate now name fs in
  {| ce_Name := ce_Name cell;
     ce_ConnectedSpokes :=
       if connected now e then int32 (ce_ConnectedSpokes cell + 1) else ce_ConnectedSpokes cell;
     ce_TotalSpokes := int32 (ce_TotalSpokes cell + 1);
     ce_ActiveCaptures := int32 (ce_ActiveCaptures cell + int32 (map_len (se_captures e)));
     ce_ActiveReplays := int32 (ce_ActiveReplays cell + activeReplayCount (se_replays e)) |}.
Proof.
  unfold cell_aggregate. simpl. rewrite List.filter_app, !len_app, !sumZ_app, !sumZ_cons, !sumZ_nil.
  autorewrite with kapture. f_equal; try (f_equal; lia).
  simpl. destruct (connected now e); unfold len; simpl; f_equal; lia.
Qed.

Lemma cell_aggregate_nil now name :
  cell_aggregate now name [] =
  {| ce_Name := name; ce_ConnectedSpokes := 0; ce_TotalSpokes := 0;
     ce_ActiveCaptures := 0; ce_ActiveReplays := 0 |}.
Proof. reflexivity. Qed.

Lemma fold_cell_add_lookup now es name :
  foldl (cell_add now) ∅ es !! name =
  match entries_in name es with
  | [] => None
  | fs => Some (cell_aggregate now name fs)
  end.
Proof.
  induction es as [|e es IH] using rev_ind; [done|].
  rewrite foldl_app, entries_in_snoc. simpl.
  set (m := foldl (cell_add now) ∅ es) in *. unfold cell_add.
  unfold in_cell. case_bool_decide as Hc; subst.
  - rewrite lookup_insert_eq, IH.
    destruct (entries_in _ es) as [|f fs] eqn:Hfs; cbn [default app].
    + change [e] with ([] ++ [e]). by rewrite cell_aggregate_snoc, cell_aggregate_nil.
    + change (f :: fs ++ [e]) with ((f :: fs) ++ [e]). by rewrite cell_aggregate_snoc.
  - rewrite lookup_insert_ne, IH, app_nil_r by done. done.
Qed.

Lemma cells_by_name_lookup now s name :
  cells_by_name now s !! name =
  match entries_in name (range_spokes s).*2 with
  | [] => None
  | fs => Some (cell_aggregate now name fs)
  end.
Proof. apply fold_cell_add_lookup. Qed.

(** [ListCells] and [CellStatuses] are the same computation on two record
    types. *)
Definition to_CellStatusSnapshot (c : CellInfo) : CellStatusSnapshot :=
  {| cst_Name := ce_Name c; cst_ConnectedSpokes := ce_ConnectedSpokes c;
     cst_TotalSpokes := ce_TotalSpokes c; cst_ActiveCaptures := ce_ActiveCaptures c;
     cst_ActiveReplays := ce_ActiveReplays c |}.

Lemma fold_cellStatus_add now es m :
  foldl (cellStatus_add now) (to_CellStatusSnapshot <$> m) es =
  to_CellStatusSnapshot <$> foldl (cell_add now) m es.
Proof.
  revert m. induction es as [|e es IH]; intros m; [done|]. simpl. rewrite <- IH. f_equal.
  unfold cellStatus_add, cell_add. rewrite fmap_insert. f_equal.
  rewrite lookup_fmap. destruct (m !! _); simpl; unfold to_CellStatusSnapshot; simpl;
    by destruct (connected now e).
Qed.

Lemma sorted_names_fmap {A B} (f : A → B) (m : gmap string A) :
  sort_Strings (go_range (f <$> m)).*1 = sort_Strings (go_range m).*1.
Proof.
  apply sort_Strings_unique. rewrite !go_range_perm, map_to_list_fmap, <- list_fmap_compose.
  apply (fmap_Permutation _). done.
Qed.
End Cells.

(** ** Replay statuses *)

Section Replays.
Context {MR : MapRange}.

Lemma elem_of_ReplayStatuses ns n s snap :
  snap ∈ ReplayStatuses ns n s ↔
  ∃ l e k, sv_spokes s !! rsn_SpokeID snap = Some l ∧ sv_entries s !! l = Some e ∧
    se_replays e !! k = Some (rsn_Summary snap) ∧ rsn_Cell snap = si_Cell (se_info e) ∧
    of_load_test ns n (rsn_Summary snap) = true.
Proof.
  unfold ReplayStatuses. rewrite list_elem_of_bind. split.
  - intros ([id e] & Hin & (l & Hl & He)%elem_of_range_spokes).
    apply list_elem_of_bind in Hin as ([k rs] & Hin & Hk%elem_of_go_range).
    destruct (of_load_test ns n rs) eqn:Ho; [|set_solver].
    apply list_elem_of_singleton in Hin as ->. naive_solver.
  - intros (l & e & k & Hl & He & Hk & Hc & Ho). exists (rsn_SpokeID snap, e).
    split; [|apply elem_of_range_spokes; eauto]. apply list_elem_of_bind.
    exists (k, rsn_Summary snap). split; [|by apply elem_of_go_range].
    rewrite Ho. apply list_elem_of_singleton. destruct snap. simpl in *. by subst.
Qed.

Lemma NoDup_spoke_locations s : server_inv s → NoDup (go_range (sv_spokes s)).*2.
Proof.
  intros Hi. apply NoDup_fmap_2_strong; [|apply NoDup_go_range].
  intros [id l] [id' l'] Hin%elem_of_go_range Hin'%elem_of_go_range Heq. simpl in *. subst.
  f_equal. by eapply inv_spoke_unique.
Qed.

Lemma foldl_alter_lookup (f : spokeEntry → spokeEntry) ls (h : gmap nat spokeEntry) l :
  NoDup ls →
  foldl (λ h l, alter f l h) h ls !! l = if decide (l ∈ ls) then f <$> h !! l else h !! l.
Proof.
  intros Hnd. revert h. induction Hnd as [|k ls Hk Hnd IH]; intros h.
  { by rewrite decide_False by apply not_elem_of_nil. }
  simpl. rewrite IH. destruct (decide (l = k)) as [->|Hne].
  - rewrite decide_False, decide_True, lookup_alter_eq by set_solver. done.
  - rewrite lookup_alter_ne by done.
    destruct (decide (l ∈ ls)), (decide (l ∈ k :: ls)); set_solver.
Qed.

Lemma ClearReplayStatuses_lookup ns n s id l e :
  server_inv s → sv_spokes s !! id = Some l → sv_entries s !! l = Some e →
  sv_entries (ClearReplayStatuses ns n s) !! l = Some (clear_replays ns n e).
Proof.
  intros Hi Hl He. simpl. rewrite foldl_alter_lookup by by apply NoDup_spoke_locations.
  rewrite decide_True; [by rewrite He|].
  apply list_elem_of_fmap. exists (id, l). by rewrite elem_of_go_range.
Qed.

Lemma ClearReplayStatuses_elem ns n s ns' n' snap :
  server_inv s →
  snap ∈ ReplayStatuses ns' n' (ClearReplayStatuses ns n s) ↔
  snap ∈ ReplayStatuses ns' n' s ∧ of_load_test ns n (rsn_Summary snap) = false.
Proof.
  intros Hi. rewrite !elem_of_ReplayStatuses. split.
  - intros (l & e' & k & Hl & He' & Hk & Hc & Ho).
    change (sv_spokes (ClearReplayStatuses ns n s)) with (sv_spokes s) in Hl.
    destruct (inv_registered _ Hi _ _ Hl) as (e & He & _).
    pose proof (ClearReplayStatuses_lookup ns n s _ _ _ Hi Hl He) as Hx.
    rewrite He' in Hx. simplify_eq. rewrite clear_replays_lookup in Hk.
    destruct (se_replays e !! k) as [rs|] eqn:Ek; [|done].
    destruct (of_load_test ns n rs) eqn:Hr; simplify_eq. split; [|done].
    exists l, e, k. done.
  - intros [(l & e & k & Hl & He & Hk & Hc & Ho) Hno].
    exists l, (clear_replays ns n e), k. split_and!; try done.
    + by eapply ClearReplayStatuses_lookup.
    + by rewrite clear_replays_lookup, Hk, Hno.
Qed.
End Replays.

(** ** Reading back a report *)

Lemma store_captures_cons c css m :
  store_captures (c :: css) m =
  store_captures css (<[captureKey (css_CaptureNamespace c) (css_CaptureName c) := c]> m).
Proof. reflexivity. Qed.

Lemma store_captures_app cs1 cs2 m :
  store_captures (cs1 ++ cs2) m = store_captures cs2 (store_captures cs1 m).
Proof. apply foldl_app. Qed.

Lemma store_captures_other css m k :
  (∀ cs, cs ∈ css → captureKey (css_CaptureNamespace cs) (css_CaptureName cs) ≠ k) →
  store_captures css m !! k = m !! k.
Proof.
  revert m. induction css as [|c css IH]; intros m Hk; [done|].
  rewrite store_captures_cons, IH by set_solver.
  apply lookup_insert_ne. set_solver.
Qed.

(** The last report of a capture wins. *)
Lemma store_captures_last pre cs post m :
  (∀ cs', cs' ∈ post → captureKey (css_CaptureNamespace cs') (css_CaptureName cs')
                     ≠ captureKey (css_CaptureNamespace cs) (css_CaptureName cs)) →
  store_captures (pre ++ cs :: post) m
    !! captureKey (css_CaptureNamespace cs) (css_CaptureName cs) = Some cs.
Proof.
  intros Hpost. rewrite store_captures_app, store_captures_cons.
  rewrite store_captures_other by done. apply lookup_insert_eq.
Qed.

(** ** Broadcast *)

Definition has_room (e : spokeEntry) : bool := len (se_directives e) <? se_directivesCap e.

Lemma try_send_fold resp ls s n :
  NoDup ls → (∀ l, l ∈ ls → is_Some (sv_entries s !! l)) →
  let '(s', n') := foldl (try_send resp) (s, n) ls in
  n' = n + len (List.filter (λ l, match sv_entries s !! l with
                                  | Some e => has_room e | None => false end) ls) ∧
  ∀ l, sv_entries s' !! l =
    if decide (l ∈ ls) then (λ e, if has_room e then push_directive resp e else e) <$> sv_entries s !! l
    else sv_entries s !! l.
Proof.
  intros Hnd. revert s n. induction Hnd as [|k ls Hk Hnd IH]; intros s n Hall.
  { split; [unfold len; simpl; lia|]. intros l. by rewrite decide_False by apply not_elem_of_nil. }
  simpl. destruct (Hall k) as [e He]; [set_solver|]. rewrite He. unfold has_room at 1.
  set (s1 := if len (se_directives e) <? se_directivesCap e
             then set_entries (<[k := push_directive resp e]>) s else s).
  set (n1 := if len (se_directives e) <? se_directivesCap e then n + 1 else n).
  assert ((if len (se_directives e) <? se_directivesCap e
           then (set_entries (<[k := push_directive resp e]>) s, n + 1) else (s, n)) = (s1, n1)) as ->
    by (unfold s1, n1; by case_match).
  assert (∀ l, l ≠ k → sv_entries s1 !! l = sv_entries s !! l) as Hs1.
  { intros l Hne. unfold s1. case_match; [|done]. simpl. by rewrite lookup_insert_ne. }
  assert (sv_entries s1 !! k = Some (if has_room e then push_directive resp e else e)) as Hk1.
  { unfold s1, has_room. case_match; [|done]. simpl. by rewrite lookup_insert_eq. }
  specialize (IH s1 n1). destruct (foldl (try_send resp) (s1, n1) ls) as [s' n'].
  destruct IH as [IHn IHl]. { intros l Hl. rewrite Hs1 by set_solver. apply Hall. set_solver. }
  split.
  - rewrite IHn. unfold n1.
    replace (List.filter (λ l, match sv_entries s1 !! l with
        | Some e => has_room e | None => false end) ls)
      with (List.filter (λ l, match sv_entries s !! l with
        | Some e => has_room e | None => false end) ls).
    { destruct (_ <? _); unfold len; simpl; lia. }
    apply List.filter_ext_in. intros l Hl%list_elem_of_In. rewrite Hs1; [done|]. set_solver.
  - intros l. rewrite IHl. destruct (decide (l = k)) as [->|Hne].
    + rewrite decide_False, decide_True, Hk1, He by set_solver. done.
    + rewrite Hs1 by done. destruct (decide (l ∈ ls)), (decide (l ∈ k :: ls)); set_solver.
Qed.

Section Broadcast.
Context {MR : MapRange}.

Lemma elem_of_spoke_locations s l :
  l ∈ (go_range (sv_spokes s)).*2 ↔ ∃ id, sv_spokes s !! id = Some l.
Proof.
  rewrite list_elem_of_fmap. split.
  - intros ([id l'] & -> & Hin%elem_of_go_range). eauto.
  - intros [id Hid]. exists (id, l). by rewrite elem_of_go_range.
Qed.

Lemma locations_with_room s :
  len (List.filter (λ l, match sv_entries s !! l with
                         | Some e => has_room e | None => false end) (go_range (sv_spokes s)).*2)
  = len (List.filter (λ kv : string * spokeEntry, has_room kv.2) (range_spokes s)).
Proof.
  unfold range_spokes, len. f_equal.
  induction (go_range (sv_spokes s)) as [|[id l] r IH]; simpl; [done|].
  destruct (sv_entries s !! l) as [e|]; simpl; [|done]. destruct (has_room e); simpl; [f_equal|]; exact IH.
Qed.
End Broadcast.

(** Looking up sorted keys yields the values, whose name is their key. *)
Lemma omap_lookup_names (m : gmap string CellInfo) (names : list string) :
  (∀ n, n ∈ names → is_Some (m !! n)) → (∀ n c, m !! n = Some c → ce_Name c = n) →
  ce_Name <$> omap (λ n, m !! n) names = names.
Proof.
  intros Hs Hn. induction names as [|n names IH]; simpl; [done|].
  destruct (Hs n) as [c Hc]; [set_solver|]. rewrite Hc. simpl.
  f_equal; [by apply Hn|]. apply IH. set_solver.
Qed.

Lemma omap_lookup_fmap {A B} (f : A → B) (m : gmap string A) (names : list string) :
  omap (λ n, (f <$> m) !! n) names = f <$> omap (λ n, m !! n) names.
Proof.
  induction names as [|n names IH]; [done|]. cbn.
  rewrite lookup_fmap. destruct (m !! n); cbn; [f_equal|]; exact IH.
Qed.

(** ** Theorems *)

Section Theorems.
Context {MR : MapRange}.

(** Spoke selection.  [SelectSpokes] returns the eligible spokes (recently
    heartbeating, in a requested cell) each exactly once and in increasing id
    order; with a positive [max] it returns the [max] smallest ids and nothing
    else, and without one it returns them all; and the result does not depend
    on the iteration order of the spoke map. *)
Theorem select_spokes_spec now cells max s :
  let sel := SelectSpokes now cells max s in
  StronglySorted String.le (sel_SpokeID <$> sel) ∧
  NoDup (sel_SpokeID <$> sel) ∧
  (∀ x, x ∈ sel → eligible now cells s x) ∧
  (∀ x, eligible now cells s x → x ∈ sel ∨
     0 < max ∧ len sel = max ∧ ∀ y, y ∈ sel → selection_le y x) ∧
  (0 < max → len sel <= max) ∧
  (∀ M2 : MapRange, @SelectSpokes M2 now cells max s = sel).
Proof.
  intros sel. subst sel. rewrite SelectSpokes_take.
  set (all := sorted_eligible now cells s).
  assert (StronglySorted selection_le all) as Hs by (apply StronglySorted_merge_sort; apply _).
  assert (NoDup (sel_SpokeID <$> all)) as Hnd
    by (unfold all, sorted_eligible; rewrite merge_sort_Permutation; apply NoDup_eligible_ids).
  assert (∀ x, x ∈ all ↔ eligible now cells s x) as Hel.
  { intros x. rewrite <- elem_of_eligible_spokes. unfold all, sorted_eligible.
    by rewrite merge_sort_Permutation. }
  split_and!.
  - apply (StronglySorted_fmap sel_SpokeID selection_le); [done|].
    case_match; [by apply StronglySorted_take|done].
  - case_match; [rewrite fmap_take; by apply NoDup_take|done].
  - intros x Hx. apply Hel. case_match; [|done]. eapply elem_of_sublist; [done|]. apply sublist_take.
  - intros x Hx%Hel. destruct (0 <? max) eqn:Hm; [|by left]. zbool.
    destruct (elem_of_take_or_after _ (Z.to_nat max) _ _ Hs Hx) as [?|[Hl ?]]; [by left|right].
    split_and!; [done| |done]. unfold len. lia.
  - intros Hm. rewrite (proj2 (Z.ltb_lt _ _) Hm). unfold len. rewrite length_take. lia.
  - intros M2. rewrite SelectSpokes_take. by rewrite (sorted_eligible_any M2 MR).
Qed.

(** Cell aggregation.  [ListCells] lists a cell exactly when some
    registered spoke belongs to it, once, in name order, and each entry holds
    the counts of that cell's members (connected and total spokes, captures,
    active replays, as wrapped 32-bit sums); [CellStatuses], the copy of the
    computation the hub controller uses, returns the same cells. *)
Theorem list_cells_spec now s :
  let es := (range_spokes s).*2 in
  StronglySorted String.le (ce_Name <$> ListCells now s) ∧
  NoDup (ce_Name <$> ListCells now s) ∧
  (∀ c, c ∈ ListCells now s ↔
     entries_in (ce_Name c) es ≠ [] ∧ c = cell_aggregate now (ce_Name c) (entries_in (ce_Name c) es)) ∧
  CellStatuses now s = to_CellStatusSnapshot <$> ListCells now s.
Proof.
  intros es. pose proof (cells_by_name_lookup now s) as Hlook.
  assert (ce_Name <$> ListCells now s = sort_Strings (go_range (cells_by_name now s)).*1) as Hnames.
  { apply omap_lookup_names; [|intros n c Hc].
    - intros n Hn. rewrite sort_Strings_perm in Hn. apply list_elem_of_fmap in Hn as ([??] & -> & Hin).
      apply elem_of_go_range in Hin. eauto.
    - rewrite Hlook in Hc. case_match; by simplify_eq. }
  split_and!.
  - rewrite Hnames. apply sort_Strings_sorted.
  - rewrite Hnames, sort_Strings_perm. apply NoDup_fst_go_range.
  - intros c. unfold ListCells. rewrite list_elem_of_omap. split.
    + intros (n & Hn & Hc). rewrite Hlook in Hc. fold es in Hc.
      destruct (entries_in n es) eqn:He; simplify_eq. simpl. by rewrite He.
    + intros [Hne Hc]. exists (ce_Name c).
      assert (cells_by_name now s !! ce_Name c = Some c) as Hl.
      { rewrite Hlook. fold es. destruct (entries_in (ce_Name c) es) eqn:He; [done|].
        f_equal. done. }
      split; [|done]. rewrite sort_Strings_perm. apply list_elem_of_fmap.
      exists (ce_Name c, c). by rewrite elem_of_go_range.
  - unfold CellStatuses, ListCells. rewrite <- (fmap_empty to_CellStatusSnapshot).
    rewrite fold_cellStatus_add. fold (cells_by_name now s). rewrite sorted_names_fmap.
    apply omap_lookup_fmap.
Qed.

(** A status report is readable afterwards.  After a spoke's accepted
    [ReportCaptureStatus], [GetCaptureStatus] on that spoke returns, for every
    capture the report mentions, the summary mentioned last, and a capture it
    does not mention reads as before. *)
Theorem report_then_get ctx req s s' a :
  ReportCaptureStatus ctx req s = Ret (s', Ok a) →
  (∀ pre cs post, rcs_Statuses req = pre ++ cs :: post →
     css_CaptureName cs ≠ "" → css_CaptureNamespace cs ≠ "" →
     (∀ cs', cs' ∈ post → captureKey (css_CaptureNamespace cs') (css_CaptureName cs')
                        ≠ captureKey (css_CaptureNamespace cs) (css_CaptureName cs)) →
     GetCaptureStatus {| gcr_CaptureName := css_CaptureName cs;
                         gcr_CaptureNamespace := css_CaptureNamespace cs;
                         gcr_SpokeId := rcs_SpokeId req |} s'
     = Ret (Ok (captureInfoFromSummary cs (rcs_SpokeId req)))) ∧
  (∀ g, gcr_SpokeId g = rcs_SpokeId req →
     (∀ cs, cs ∈ rcs_Statuses req → captureKey (css_CaptureNamespace cs) (css_CaptureName cs)
                                  ≠ captureKey (gcr_CaptureNamespace g) (gcr_CaptureName g)) →
     GetCaptureStatus g s' = GetCaptureStatus g s).
Proof.
  intros Hr. unfold ReportCaptureStatus in Hr.
  case_bool_decide as Hid; simplify_eq. destruct (verifySpokeIdentity _ _); simplify_eq.
  destruct (len _ =? 0); simplify_eq. destruct (sv_spokes s !! _) as [l|] eqn:Hl; simplify_eq.
  destruct (sv_entries s !! l) as [e|] eqn:He; simplify_eq. split.
  - intros pre cs post Hst Hn Hns Hpost. unfold GetCaptureStatus. simpl.
    rewrite bool_decide_eq_false_2 by naive_solver. rewrite bool_decide_eq_true_2 by done.
    rewrite Hl, lookup_insert_eq. simpl. by rewrite Hst, store_captures_last.
  - intros g Hg Hother. unfold GetCaptureStatus. rewrite Hg. case_bool_decide; [done|].
    rewrite (bool_decide_eq_true_2 (rcs_SpokeId req ≠ "")) by done. simpl.
    rewrite Hl, lookup_insert_eq, He. simpl. by rewrite store_captures_other.
Qed.

(** C13: [ClearReplayStatuses] removes exactly the shard statuses of the load
    test it is given: none of them is reported any more, every other shard
    status of every load test is still reported, and no directive queue or
    registration changes. *)
Theorem clear_replay_statuses_spec namespace name s :
  hub_reachable s →
  let s' := ClearReplayStatuses namespace name s in
  ReplayStatuses namespace name s' = [] ∧
  (∀ ns n snap, snap ∈ ReplayStatuses ns n s' ↔
     snap ∈ ReplayStatuses ns n s ∧ of_load_test namespace name (rsn_Summary snap) = false) ∧
  sv_spokes s' = sv_spokes s ∧ (∀ l, queue_of s' l = queue_of s l).
Proof.
  intros Hi%hub_reachable_server_inv s'. split_and!; [| |done|].
  - apply elem_of_nil_inv. intros snap Hin.
    pose proof Hin as (_ & Hno)%ClearReplayStatuses_elem; [|done].
    apply elem_of_ReplayStatuses in Hin as (? & ? & ? & _ & _ & _ & _ & Hyes). congruence.
  - intros ns n snap. by apply ClearReplayStatuses_elem.
  - intros l. apply queue_of_clear.
Qed.

(** [BroadcastDirective] queues the directive once on every registered
    spoke whose buffer has room, skips the others, and returns how many took
    it; entries that are not registered are not touched. *)
Theorem broadcast_spec d s s' n :
  hub_reachable s → BroadcastDirective (Some d) s = (s', n) →
  let resp := {| wdr_Directive := Some d; wdr_ReplayDirective := None |} in
  (∀ id l e, sv_spokes s !! id = Some l → sv_entries s !! l = Some e →
     sv_entries s' !! l = Some (if has_room e then push_directive resp e else e)) ∧
  (∀ l e, sv_entries s !! l = Some e → se_done e = true → sv_entries s' !! l = Some e) ∧
  n = len (List.filter (λ kv, has_room kv.2) (range_spokes s)).
Proof.
  intros Hi%hub_reachable_server_inv Hb resp.
  pose proof (try_send_fold resp (go_range (sv_spokes s)).*2 s 0 (NoDup_spoke_locations s Hi)) as Hf.
  unfold BroadcastDirective in Hb. fold resp in Hb. rewrite Hb in Hf.
  destruct Hf as [Hn Hlook].
  { intros l (id & Hid)%elem_of_spoke_locations.
    destruct (inv_registered _ Hi _ _ Hid) as (e & -> & _). by eexists. }
  split_and!.
  - intros id l e Hid He. rewrite Hlook, decide_True, He; [done|].
    apply elem_of_spoke_locations. eauto.
  - intros l e He Hd. rewrite Hlook, decide_False; [done|].
    intros (id & Hid)%elem_of_spoke_locations.
    destruct (inv_registered _ Hi _ _ Hid) as (e' & ? & ? & _). congruence.
  - rewrite Hn. by rewrite locations_with_room.
Qed.
End Theorems.
