(* ===== verification/GoStd.v ===== *)
(** * Go standard library functions

    The parts of [strings], [strconv] and [fmt] the program uses.  A Go string
    is a byte string; the case-mapping and white-space functions are written
    for ASCII bytes, which is what the resource validation admits for host
    names, header names and patterns. *)

From S2P Require Import Prelude.
From Stdlib Require Import Ascii.

Local Open Scope Z_scope.

(** ** [strings] *)

(** [strings.CutPrefix]: the rest after the prefix, if the prefix is there. *)
Fixpoint CutPrefix (s p : string) {struct p} : option string :=
  match p, s with
  | "", _ => Some s
  | String a p, String b s => if Ascii.eqb a b then CutPrefix s p else None
  | String _ _, "" => None
  end.

Definition HasPrefix (s p : string) : bool := bool_decide (is_Some (CutPrefix s p)).

Definition TrimPrefix (s p : string) : string := default s (CutPrefix s p).

Fixpoint HasSuffix (s q : string) : bool :=
  bool_decide (s = q) || match s with "" => false | String _ s => HasSuffix s q end.

Fixpoint TrimSuffix (s q : string) : string :=
  if bool_decide (s = q) then ""
  else match s with "" => "" | String a s => String a (TrimSuffix s q) end.

Definition lower_ascii (a : ascii) : ascii :=
  let n := nat_of_ascii a in
  if (Nat.leb 65 n && Nat.leb n 90)%bool then ascii_of_nat (n + 32) else a.

Fixpoint ToLower (s : string) : string :=
  match s with "" => "" | String a s => String (lower_ascii a) (ToLower s) end.

Definition EqualFold (s t : string) : bool := bool_decide (ToLower s = ToLower t).

Fixpoint TrimLeftSpace (s : string) : string :=
  match s with
  | "" => ""
  | String a s' => if Ascii.is_space a then TrimLeftSpace s' else s
  end.

Fixpoint TrimRightSpace (s : string) : string :=
  match s with
  | "" => ""
  | String a s =>
      match TrimRightSpace s with
      | "" => if Ascii.is_space a then "" else String a ""
      | r => String a r
      end
  end.

Definition TrimSpace (s : string) : string := TrimRightSpace (TrimLeftSpace s).

(** [strings.Contains]. *)
Fixpoint Contains (s t : string) : bool :=
  HasPrefix s t || match s with "" => false | String _ s => Contains s t end.

(** [strconv.Itoa], and the [%d] verb. *)
Definition Itoa (z : Z) : string := pretty z.

(** ** [strconv.FormatFloat(x, 'f', 1, 64)]

    The value scaled by ten, rounded to the nearest integer with ties to even. *)

Definition round_half_even (num den : Z) : Z :=
  let q := num / den in
  let r := num mod den in
  if 2 * r <? den then q
  else if den <? 2 * r then q + 1
  else if Z.even q then q else q + 1.

Definition FormatFloat_f1 (x : float64) : string :=
  match x with
  | S754_nan => "NaN"
  | S754_infinity false => "+Inf"
  | S754_infinity true => "-Inf"
  | S754_zero sg => if sg then "-0.0" else "0.0"
  | S754_finite sg m e =>
      let n := if 0 <=? e then 10 * Z.pos m * 2 ^ e
               else round_half_even (10 * Z.pos m) (2 ^ (- e)) in
      (if sg then "-" else "") +:+ Itoa (n / 10) +:+ "." +:+ Itoa (n mod 10)
  end.

(** ** Lemmas *)

Lemma append_cons a s t : String a s +:+ t = String a (s +:+ t).
Proof. reflexivity. Qed.

Lemma append_nil_l s : "" +:+ s = s.
Proof. reflexivity. Qed.

Lemma append_nil_r s : s +:+ "" = s.
Proof. induction s; [done|]. rewrite append_cons. by f_equal. Qed.

Lemma append_assoc s t u : (s +:+ t) +:+ u = s +:+ t +:+ u.
Proof. induction s; [done|]. rewrite !append_cons. by f_equal. Qed.

Lemma append_length s t : String.length (s +:+ t) = (String.length s + String.length t)%nat.
Proof. induction s; [done|]. rewrite append_cons. simpl. by f_equal. Qed.

Lemma append_inj_r s t u : s +:+ u = t +:+ u → s = t.
Proof.
  revert t. induction s as [|a s IH]; intros [|b t] Heq; [done|..].
  - apply (f_equal String.length) in Heq. rewrite !append_length in Heq. simpl in *. lia.
  - apply (f_equal String.length) in Heq. rewrite !append_length in Heq. simpl in *. lia.
  - rewrite !append_cons in Heq. simplify_eq. f_equal. auto.
Qed.

Lemma CutPrefix_spec s p r : CutPrefix s p = Some r ↔ s = p +:+ r.
Proof.
  revert s. induction p as [|a p IH]; intros s; simpl.
  - rewrite append_nil_l. destruct s; naive_solver.
  - destruct s as [|b s]; [done|]. destruct (Ascii.eqb a b) eqn:Hab.
    + apply Ascii.eqb_eq in Hab as ->. rewrite IH, append_cons. naive_solver.
    + apply Ascii.eqb_neq in Hab. rewrite append_cons. naive_solver.
Qed.

Lemma HasPrefix_spec s p : HasPrefix s p = true ↔ ∃ r, s = p +:+ r.
Proof.
  unfold HasPrefix. rewrite bool_decide_eq_true. split.
  - intros [r Hr]. exists r. by apply CutPrefix_spec.
  - intros [r Hr]. exists r. by apply CutPrefix_spec.
Qed.

Lemma TrimPrefix_app p r : TrimPrefix (p +:+ r) p = r.
Proof. unfold TrimPrefix. by rewrite (proj2 (CutPrefix_spec (p +:+ r) p r) eq_refl). Qed.

Lemma HasSuffix_spec s q : HasSuffix s q = true ↔ ∃ x, s = x +:+ q.
Proof.
  induction s as [|a s IH]; simpl; rewrite orb_true_iff, bool_decide_eq_true.
  - split; [intros [<-|]; [by exists ""|done]|]. intros [[|b x] Hx]; [by left|done].
  - rewrite IH. split.
    + intros [<-|[x ->]]; [by exists ""|by exists (String a x)].
    + intros [[|b x] Hx]; [by left|right]. rewrite append_cons in Hx. simplify_eq. by exists x.
Qed.

Lemma TrimSuffix_app x q : TrimSuffix (x +:+ q) q = x.
Proof.
  induction x as [|a x IH].
  - rewrite append_nil_l. destruct q; unfold TrimSuffix; by rewrite bool_decide_eq_true_2 by done.
  - rewrite append_cons. cbn [TrimSuffix]. rewrite bool_decide_eq_false_2; [by f_equal|].
    intros Heq%(f_equal String.length). simpl in Heq. rewrite append_length in Heq. lia.
Qed.

Lemma TrimSuffix_none s q : HasSuffix s q = false → TrimSuffix s q = s.
Proof.
  induction s as [|a s IH]; simpl; rewrite orb_false_iff, bool_decide_eq_false.
  - intros [Hne _]. by rewrite bool_decide_eq_false_2.
  - intros [Hne Hs]. rewrite bool_decide_eq_false_2 by done. f_equal. auto.
Qed.

Lemma ToLower_app s t : ToLower (s +:+ t) = ToLower s +:+ ToLower t.
Proof. induction s; [done|]. rewrite append_cons. simpl. rewrite append_cons. by f_equal. Qed.

Lemma lower_ascii_idemp a : lower_ascii (lower_ascii a) = lower_ascii a.
Proof. destruct a as [[] [] [] [] [] [] [] []]; reflexivity. Qed.

Lemma ToLower_idemp s : ToLower (ToLower s) = ToLower s.
Proof. induction s; [done|]. simpl. rewrite lower_ascii_idemp. by f_equal. Qed.

#[export] Hint Rewrite ToLower_idemp ToLower_app append_assoc append_nil_l append_nil_r : kapture.

(** ** [path.Join] *)

(** [strings.Split(s, "/")]. *)
Fixpoint split_slash (s : string) : list string :=
  match s with
  | "" => [""]
  | String a s' =>
      match split_slash s' with
      | [] => [String a ""]
      | p :: ps => if Ascii.eqb a "/" then "" :: p :: ps else String a p :: ps
      end
  end.

(** [strings.Join(parts, "/")]. *)
Fixpoint join_slash (parts : list string) : string :=
  match parts with
  | [] => ""
  | [p] => p
  | p :: ps => p +:+ "/" +:+ join_slash ps
  end.

(** The elements [path.Clean] keeps: empty and ["."] elements go, [".."]
    removes the element before it (at the root of a rooted path it goes). *)
Fixpoint clean_elems (rooted : bool) (acc : list string) (parts : list string) : list string :=
  match parts with
  | [] => reverse acc
  | p :: ps =>
      if bool_decide (p = "" ∨ p = ".") then clean_elems rooted acc ps
      else if bool_decide (p = "..") then
        match acc with
        | q :: acc' => if bool_decide (q = "..") then clean_elems rooted (".." :: acc) ps
                       else clean_elems rooted acc' ps
        | [] => if rooted then clean_elems rooted [] ps else clean_elems rooted [".."] ps
        end
      else clean_elems rooted (p :: acc) ps
  end.

Definition path_Clean (p : string) : string :=
  let rooted := HasPrefix p "/" in
  let elems := clean_elems rooted [] (split_slash p) in
  match elems, rooted with
  | [], true => "/"
  | [], false => "."
  | _, true => "/" +:+ join_slash elems
  | _, false => join_slash elems
  end.

Definition path_Join (parts : list string) : string :=
  match List.filter (λ p, negb (bool_decide (p = ""))) parts with
  | [] => ""
  | ps => path_Clean (join_slash ps)
  end.

(** [strings.Trim(s, "/")]. *)
Fixpoint TrimLeftSlash (s : string) : string :=
  match s with
  | String a s' => if Ascii.eqb a "/" then TrimLeftSlash s' else s
  | "" => ""
  end.

Fixpoint TrimRightSlash (s : string) : string :=
  match s with
  | "" => ""
  | String a s =>
      match TrimRightSlash s with
      | "" => if Ascii.eqb a "/" then "" else String a ""
      | r => String a r
      end
  end.

Definition TrimSlash (s : string) : string := TrimRightSlash (TrimLeftSlash s).

(** The [%06d] verb on a non-negative number. *)
Fixpoint zeros (n : nat) : string := match n with O => "" | S n => String "0" (zeros n) end.

Definition pad (width : nat) (z : Z) : string :=
  let s := Itoa z in zeros (width - String.length s) +:+ s.

Lemma split_slash_nonempty s : split_slash s ≠ [].
Proof. destruct s as [|a s]; simpl; [done|]. destruct (split_slash s); [done|]. by case_match. Qed.

Lemma split_slash_noslash s p : p ∈ split_slash s → Contains p "/" = false.
Proof.
  revert p. induction s as [|a s IH]; intros p Hp.
  { apply list_elem_of_singleton in Hp as ->. reflexivity. }
  simpl in Hp. destruct (split_slash s) as [|q qs] eqn:Hs.
  { by apply split_slash_nonempty in Hs. }
  destruct (Ascii.eqb a "/") eqn:Ha.
  - apply elem_of_cons in Hp as [->|Hp]; [reflexivity|]. by apply IH.
  - apply elem_of_cons in Hp as [->|Hp]; [|apply IH; set_solver].
    assert (Contains q "/" = false) as Hq by (apply IH; set_solver).
    change (HasPrefix (String a q) "/" || Contains q "/" = false). rewrite Hq, orb_false_r.
    unfold HasPrefix. cbn [CutPrefix]. rewrite Ascii.eqb_sym, Ha. reflexivity.
Qed.

Lemma clean_elems_ok rooted acc parts :
  (∀ p, p ∈ acc ∨ p ∈ parts → Contains p "/" = false) → (∀ p, p ∈ acc → p ≠ "") →
  ∀ p, p ∈ clean_elems rooted acc parts → p ≠ "" ∧ Contains p "/" = false.
Proof.
  revert acc. induction parts as [|q parts IH]; intros acc Hs Ha p; simpl.
  { rewrite elem_of_reverse. intros. split; auto. }
  repeat case_bool_decide; try (apply IH; set_solver).
  - destruct acc as [|r acc].
    + destruct rooted; apply IH; set_solver.
    + case_bool_decide; apply IH; set_solver.
Qed.

Lemma Contains_cons a s t : Contains (String a s) t = HasPrefix (String a s) t || Contains s t.
Proof. reflexivity. Qed.

Lemma HasPrefix_char a s b : HasPrefix (String a s) (String b "") = Ascii.eqb b a.
Proof. unfold HasPrefix. cbn [CutPrefix]. destruct (Ascii.eqb b a); destruct s; reflexivity. Qed.

Lemma noslash_app p r :
  Contains p "/" = false → Contains r "//" = false → Contains (p +:+ r) "//" = false.
Proof.
  induction p as [|a p IH]; intros Hp Hr; [done|].
  rewrite Contains_cons, HasPrefix_char in Hp. apply orb_false_iff in Hp as [Ha Hp].
  rewrite append_cons, Contains_cons, IH by done. rewrite orb_false_r.
  unfold HasPrefix. cbn [CutPrefix]. by rewrite Ha.
Qed.

Lemma slash_cons r : HasPrefix r "/" = false → Contains r "//" = false → Contains ("/" +:+ r) "//" = false.
Proof.
  intros Hp Hr. rewrite append_cons, append_nil_l, Contains_cons, Hr, orb_false_r.
  unfold HasPrefix in *. cbn [CutPrefix]. destruct r as [|b r]; [reflexivity|].
  cbn [CutPrefix] in *. change (Ascii.eqb "/" "/") with true. cbn match. exact Hp.
Qed.

Lemma noslash_head p r : p ≠ "" → Contains p "/" = false → HasPrefix (p +:+ r) "/" = false.
Proof.
  destruct p as [|a p]; [done|]. intros _ Hp. rewrite Contains_cons in Hp.
  apply orb_false_iff in Hp as [Hp _]. rewrite HasPrefix_char in Hp. by rewrite append_cons, HasPrefix_char.
Qed.

(** Joining proper elements yields no empty element. *)
Lemma join_slash_clean parts :
  (∀ p, p ∈ parts → p ≠ "" ∧ Contains p "/" = false) →
  Contains (join_slash parts) "//" = false ∧ HasPrefix (join_slash parts) "/" = false.
Proof.
  induction parts as [|p parts IH]; intros Hall; [by split|].
  destruct (Hall p) as [Hne Hp]; [set_solver|].
  destruct parts as [|q parts].
  - cbn [join_slash]. rewrite <- (append_nil_r p). split; [by apply noslash_app|by apply noslash_head].
  - destruct IH as [IH1 IH2]; [set_solver|]. cbn [join_slash] in *.
    split; [|by apply noslash_head]. apply noslash_app; [done|]. by apply slash_cons.
Qed.

Lemma path_Clean_no_double p : Contains (path_Clean p) "//" = false.
Proof.
  unfold path_Clean.
  assert (∀ e, e ∈ clean_elems (HasPrefix p "/") [] (split_slash p) → e ≠ "" ∧ Contains e "/" = false)
    as Hall.
  { apply clean_elems_ok; [|set_solver].
    intros e [He|He]; [by apply elem_of_nil in He|]. by eapply split_slash_noslash. }
  destruct (join_slash_clean _ Hall) as [H1 H2].
  destruct (clean_elems _ _ _); [by destruct (HasPrefix p "/")|].
  destruct (HasPrefix p "/"); [by apply slash_cons|done].
Qed.

(** The result of [path.Join] has no empty element. *)
Lemma path_Join_no_double parts : Contains (path_Join parts) "//" = false.
Proof. unfold path_Join. destruct (List.filter _ parts); [reflexivity|]. apply path_Clean_no_double. Qed.

Lemma Contains_spec s t : Contains s t = true ↔ ∃ x y, s = x +:+ t +:+ y.
Proof.
  induction s as [|a s IH].
  - cbn [Contains]. rewrite orb_false_r, HasPrefix_spec. split.
    + intros [r Hr]. exists "", r. done.
    + intros (x & y & Hx). destruct x as [|b x]; [by exists y|done].
  - rewrite Contains_cons, orb_true_iff, HasPrefix_spec, IH. split.
    + intros [[r ->]|(x & y & ->)]; [by exists "", r|by exists (String a x), y].
    + intros ([|b x] & y & Hx); [left; by exists y|right].
      rewrite append_cons in Hx. simplify_eq. by exists x, y.
Qed.

(** ** Decimal digits *)

Lemma pretty_N_go_acc x s : pretty_N_go x s = pretty_N_go x "" +:+ s.
Proof.
  revert s. induction (N.lt_wf_0 x) as [x _ IH]; intros s.
  destruct (decide (0 < x)%N) as [Hx|Hx].
  - rewrite !(pretty_N_go_step x) by done.
    assert (x `div` 10 < x)%N as Hlt by (apply N.div_lt; lia).
    rewrite (IH _ Hlt), (IH _ Hlt (String _ "")). by rewrite append_assoc.
  - replace x with 0%N by lia. by rewrite !pretty_N_go_0.
Qed.

Lemma pretty_N_snoc x : (10 <= x)%N →
  pretty x = pretty (x `div` 10)%N +:+ String (pretty_N_char (x `mod` 10)) "".
Proof.
  intros Hx. unfold pretty, pretty_N.
  assert (x `div` 10 ≠ 0)%N by (apply N.neq_0_lt_0, N.div_str_pos; lia).
  rewrite !decide_False by lia. rewrite pretty_N_go_step by lia. apply pretty_N_go_acc.
Qed.

Lemma pretty_N_digit x : (x < 10)%N → pretty x = String (pretty_N_char x) "".
Proof.
  intros Hx. unfold pretty, pretty_N. case_decide as H0; [by subst|].
  rewrite pretty_N_go_step by lia. rewrite N.div_small, N.mod_small, pretty_N_go_0 by done. done.
Qed.

Lemma Itoa_nonneg z : 0 <= z → Itoa z = pretty (Z.to_N z).
Proof. intros Hz. unfold Itoa. destruct z; [reflexivity|reflexivity|lia]. Qed.

Definition digit_char (z : Z) : ascii := pretty_N_char (Z.to_N z).

(** The last [w] decimal digits. *)
Fixpoint fixed (w : nat) (z : Z) : string :=
  match w with
  | O => ""
  | S w => fixed w (z / 10) +:+ String (digit_char (z mod 10)) ""
  end.

Lemma fixed_S w z : fixed (S w) z = fixed w (z / 10) +:+ String (digit_char (z mod 10)) "".
Proof. reflexivity. Qed.

Lemma zeros_snoc n : zeros n +:+ "0" = zeros (S n).
Proof. induction n; [done|]. simpl. rewrite append_cons. by rewrite IHn. Qed.

Lemma fixed_zero w : fixed w 0 = zeros w.
Proof. induction w; [done|]. simpl. rewrite Zdiv_0_l, IHw, Zmod_0_l. apply zeros_snoc. Qed.

Lemma Itoa_length_pos z : 0 <= z → (1 <= String.length (Itoa z))%nat.
Proof.
  intros Hz. rewrite Itoa_nonneg by done. destruct (decide (Z.to_N z < 10)%N).
  - rewrite pretty_N_digit by done. simpl. lia.
  - rewrite pretty_N_snoc by lia. rewrite append_length. simpl. lia.
Qed.

Lemma Itoa_snoc z : 10 <= z → Itoa z = Itoa (z / 10) +:+ String (digit_char (z mod 10)) "".
Proof.
  intros Hz. assert (0 <= z / 10) by (apply Z.div_pos; lia).
  rewrite !Itoa_nonneg by lia. rewrite pretty_N_snoc by lia. unfold digit_char.
  rewrite Z2N.inj_div, Z2N.inj_mod by lia. done.
Qed.

(** A number that fits is printed with exactly its [w] digits. *)
Lemma pad_fixed w z : (1 <= w)%nat → 0 <= z < 10 ^ Z.of_nat w → pad w z = fixed w z.
Proof.
  intros Hw. revert z. induction w as [|w IH]; intros z Hz; [lia|].
  unfold pad. destruct (decide (z < 10)) as [Hd|Hd].
  - rewrite Itoa_nonneg, pretty_N_digit by lia. cbn [String.length fixed].
    rewrite Z.div_small, Z.mod_small, fixed_zero by lia. replace (S w - 1)%nat with w by lia. done.
  - destruct w as [|w]; [simpl in Hz; lia|].
    assert (0 <= z / 10 < 10 ^ Z.of_nat (S w)) as Hb.
    { split; [apply Z.div_pos; lia|]. apply Z.div_lt_upper_bound; [lia|].
      rewrite <- Z.pow_succ_r by lia. replace (Z.succ (Z.of_nat (S w))) with (Z.of_nat (S (S w))) by lia.
      lia. }
    specialize (IH ltac:(lia) (z / 10) Hb). rewrite fixed_S, <- IH. unfold pad. rewrite (Itoa_snoc z) by lia.
    rewrite append_length. cbn [String.length].
    replace (S (S w) - (String.length (Itoa (z / 10)) + 1))%nat
      with (S w - String.length (Itoa (z / 10)))%nat by lia.
    by rewrite append_assoc.
Qed.

Lemma append_inj_length s t u v :
  String.length s = String.length t → s +:+ u = t +:+ v → s = t ∧ u = v.
Proof.
  revert t. induction s as [|a s IH]; intros [|b t] Hl Heq; simpl in Hl; try done.
  rewrite !append_cons in Heq. injection Heq as -> Heq.
  destruct (IH t) as [-> ->]; [lia|done|done].
Qed.

Lemma length_fixed w z : String.length (fixed w z) = w.
Proof. revert z. induction w as [|w IH]; intros z; [done|]. rewrite fixed_S, append_length, IH. simpl. lia. Qed.

Lemma digit_char_inj x y : 0 <= x < 10 → 0 <= y < 10 → digit_char x = digit_char y → x = y.
Proof.
  intros Hx Hy Heq. apply pretty_N_char_inj in Heq; [|lia..]. by apply Z2N.inj in Heq; [|lia..].
Qed.

Lemma fixed_inj w x y :
  0 <= x < 10 ^ Z.of_nat w → 0 <= y < 10 ^ Z.of_nat w → fixed w x = fixed w y → x = y.
Proof.
  revert x y. induction w as [|w IH]; intros x y Hx Hy Heq; [simpl in *; lia|].
  rewrite !fixed_S in Heq. apply append_inj_length in Heq as [H1 H2]; [|by rewrite !length_fixed].
  injection H2 as H2. apply digit_char_inj in H2; [|apply Z.mod_pos_bound; lia..].
  assert (∀ z, 0 <= z < 10 ^ Z.of_nat (S w) → 0 <= z / 10 < 10 ^ Z.of_nat w) as Hb.
  { intros z Hz. split; [apply Z.div_pos; lia|]. apply Z.div_lt_upper_bound; [lia|].
    rewrite Nat2Z.inj_succ, Z.pow_succ_r in Hz by lia. lia. }
  apply IH in H1; [|by apply Hb..].
  rewrite (Z.div_mod x 10), (Z.div_mod y 10) by lia. lia.
Qed.

(** ** Splitting and joining paths *)

Lemma split_slash_cons_slash s : split_slash (String "/" s) = "" :: split_slash s.
Proof. cbn. destruct (split_slash s) eqn:E; [by apply split_slash_nonempty in E|done]. Qed.

Lemma split_slash_app s t : split_slash (s +:+ "/" +:+ t) = split_slash s ++ split_slash t.
Proof.
  induction s as [|a s IH]; [apply split_slash_cons_slash|]. rewrite append_cons. cbn.
  rewrite IH. destruct (split_slash s) as [|p ps] eqn:E; [by apply split_slash_nonempty in E|].
  cbn. by destruct (Ascii.eqb a "/").
Qed.

Lemma split_noslash s : Contains s "/" = false → split_slash s = [s].
Proof.
  induction s as [|a s IH]; intros Hs; [done|]. rewrite Contains_cons, HasPrefix_char in Hs.
  apply orb_false_iff in Hs as [Ha Hs]. cbn. rewrite IH by done.
  by rewrite Ascii.eqb_sym, Ha.
Qed.

Lemma join_split s : join_slash (split_slash s) = s.
Proof.
  induction s as [|a s IH]; [done|]. cbn.
  destruct (split_slash s) as [|p ps] eqn:E; [by apply split_slash_nonempty in E|].
  destruct (Ascii.eqb_spec a "/") as [->|].
  - cbn [join_slash] in *. rewrite append_nil_l. rewrite <- IH. by destruct ps.
  - destruct ps as [|q ps]; [by simpl in *; subst|].
    change (join_slash (String a p :: q :: ps)) with (String a (join_slash (p :: q :: ps))).
    by rewrite IH.
Qed.

(** A relative path [path.Clean] leaves as it is. *)
Definition plain_elem (p : string) : Prop := p ≠ "" ∧ p ≠ "." ∧ p ≠ "..".
Definition plain_path (s : string) : Prop := Forall plain_elem (split_slash s).

#[global] Instance plain_path_dec s : Decision (plain_path s).
Proof. unfold plain_path, plain_elem. apply _. Defined.

Lemma clean_elems_plain rooted acc parts :
  Forall plain_elem parts → clean_elems rooted acc parts = reverse acc ++ parts.
Proof.
  intros Hp. revert acc. induction Hp as [|p parts (? & ? & ?) _ IH]; intros acc; cbn.
  { by rewrite app_nil_r. }
  rewrite !bool_decide_eq_false_2 by naive_solver. rewrite IH, reverse_cons. by rewrite <- app_assoc.
Qed.

Lemma plain_path_rel s : plain_path s → s ≠ "" ∧ HasPrefix s "/" = false.
Proof.
  intros Hp. destruct s as [|a s]; [by apply Forall_inv in Hp as [? _]|].
  split; [done|]. rewrite HasPrefix_char. destruct (Ascii.eqb_spec "/" a) as [<-|]; [|done].
  unfold plain_path in Hp. rewrite split_slash_cons_slash in Hp. by apply Forall_inv in Hp as [? _].
Qed.

Lemma path_Clean_plain s : plain_path s → path_Clean s = s.
Proof.
  intros Hp. destruct (plain_path_rel s Hp) as [Hne Hrel]. unfold path_Clean.
  rewrite Hrel, clean_elems_plain by done. rewrite reverse_nil. simpl.
  destruct (split_slash s) eqn:E; [by apply split_slash_nonempty in E|]. rewrite <- E. apply join_split.
Qed.

Lemma plain_path_app s t : plain_path s → plain_path t → plain_path (s +:+ "/" +:+ t).
Proof. unfold plain_path. rewrite split_slash_app. apply Forall_app_2. Qed.

Lemma plain_join parts : parts ≠ [] → Forall plain_path parts → plain_path (join_slash parts).
Proof.
  intros Hne Hp. induction Hp as [|p parts Hp Hps IH]; [done|].
  destruct parts as [|q parts]; [done|]. cbn [join_slash]. apply plain_path_app; [done|by apply IH].
Qed.

Lemma path_Join_plain parts : parts ≠ [] → Forall plain_path parts → path_Join parts = join_slash parts.
Proof.
  intros Hne Hp. unfold path_Join.
  assert (List.filter (λ p, negb (bool_decide (p = ""))) parts = parts) as ->.
  { clear Hne. induction Hp as [|p parts Hp _ IH]; [done|]. cbn. apply plain_path_rel in Hp as [Hp _].
    rewrite bool_decide_eq_false_2 by done. cbn. by rewrite IH. }
  destruct parts as [|p parts]; [done|]. by apply path_Clean_plain, plain_join.
Qed.

Lemma join_slash_app ps qs : ps ≠ [] → qs ≠ [] →
  join_slash (ps ++ qs) = join_slash ps +:+ "/" +:+ join_slash qs.
Proof.
  intros Hp Hq. induction ps as [|p ps IH]; [done|]. destruct ps as [|p' ps].
  - destruct qs; [done|]. done.
  - rewrite <- app_comm_cons. change ((p' :: ps) ++ qs) with (p' :: (ps ++ qs)) in *.
    cbn [join_slash] in *. rewrite IH by done. by rewrite !append_assoc.
Qed.

(** ** String order *)

Lemma ascii_compare_refl a : Ascii.compare a a = Eq.
Proof. unfold Ascii.compare. apply N.compare_refl. Qed.

Lemma compare_app_l s t u : String.compare (s +:+ t) (s +:+ u) = String.compare t u.
Proof. induction s; [done|]. rewrite !append_cons. cbn. by rewrite ascii_compare_refl. Qed.

Lemma compare_app_lt s t u v : String.length s = String.length t →
  String.compare s t = Lt → String.compare (s +:+ u) (t +:+ v) = Lt.
Proof.
  revert t. induction s as [|a s IH]; intros [|b t] Hl Hc; simplify_eq/=.
  destruct (Ascii.compare a b); [by apply IH|done|done].
Qed.

Lemma compare_lt_le s t : String.compare s t = Lt → String.le s t.
Proof. intros Hc. unfold String.le, String.leb. by rewrite Hc. Qed.

Lemma digit_char_lt x y : 0 <= x → x < y → y < 10 → Ascii.compare (digit_char x) (digit_char y) = Lt.
Proof.
  intros Hx Hxy Hy. assert (x = 0 ∨ x = 1 ∨ x = 2 ∨ x = 3 ∨ x = 4 ∨ x = 5 ∨ x = 6 ∨ x = 7 ∨ x = 8) as Hc by lia.
  assert (y = 9 ∨ y = 1 ∨ y = 2 ∨ y = 3 ∨ y = 4 ∨ y = 5 ∨ y = 6 ∨ y = 7 ∨ y = 8) as Hd by lia.
  repeat destruct Hc as [->|Hc]; subst; repeat destruct Hd as [->|Hd]; subst; lia || reflexivity.
Qed.

(** Fixed-width decimals compare like the numbers. *)
Lemma fixed_lt w x y : 0 <= x → x < y → y < 10 ^ Z.of_nat w →
  String.compare (fixed w x) (fixed w y) = Lt.
Proof.
  revert x y. induction w as [|w IH]; intros x y Hx Hxy Hy; [simpl in Hy; lia|].
  rewrite !fixed_S.
  assert (10 ^ Z.of_nat (S w) = 10 * 10 ^ Z.of_nat w) as Hp
    by (rewrite Nat2Z.inj_succ, Z.pow_succ_r by lia; done).
  destruct (decide (x / 10 < y / 10)) as [Hlt|Hge].
  - apply compare_app_lt; [by rewrite !length_fixed|]. apply IH; [by apply Z.div_pos; lia|done|].
    apply Z.div_lt_upper_bound; lia.
  - assert (x / 10 = y / 10) as -> by (pose proof (Z.div_le_mono x y 10); lia).
    rewrite compare_app_l. cbn.
    rewrite digit_char_lt; [done|..]; Z.to_euclidean_division_equations; lia.
Qed.

Lemma Contains_char_app s t c :
  Contains (s +:+ t) (String c "") = Contains s (String c "") || Contains t (String c "").
Proof.
  induction s as [|a s IH]; [done|]. rewrite append_cons, !Contains_cons, !HasPrefix_char, IH.
  by rewrite orb_assoc.
Qed.

Lemma digit_noslash z : 0 <= z < 10 → Contains (String (digit_char z) "") "/" = false.
Proof.
  intros Hz. assert (z = 0 ∨ z = 1 ∨ z = 2 ∨ z = 3 ∨ z = 4 ∨ z = 5 ∨ z = 6 ∨ z = 7 ∨ z = 8 ∨ z = 9) as Hc by lia.
  repeat destruct Hc as [->|Hc]; subst; reflexivity.
Qed.

Lemma fixed_noslash w z : 0 <= z → Contains (fixed w z) "/" = false.
Proof.
  revert z. induction w as [|w IH]; intros z Hz; [done|].
  rewrite fixed_S, Contains_char_app, IH by (apply Z.div_pos; lia).
  apply digit_noslash. apply Z.mod_pos_bound. lia.
Qed.

(** ** Text without surrounding white space *)

Definition trimmed (s : string) : Prop := TrimSpace s = s.

Lemma TrimRightSpace_app s t : TrimRightSpace t = t → t ≠ "" → TrimRightSpace (s +:+ t) = s +:+ t.
Proof.
  intros Ht Hne. induction s as [|a s IH]; [by rewrite append_nil_l|]. rewrite append_cons. simpl. rewrite IH.
  destruct (s +:+ t) eqn:E; [|done]. destruct s; [|by rewrite append_cons in E]. rewrite append_nil_l in E. by subst.
Qed.

Lemma TrimLeftSpace_length s : (String.length (TrimLeftSpace s) <= String.length s)%nat.
Proof. induction s as [|b s IH]; simpl; [lia|]. destruct (Ascii.is_space b); simpl; lia. Qed.

Lemma TrimLeftSpace_app s t : TrimLeftSpace s = s → s ≠ "" → TrimLeftSpace (s +:+ t) = s +:+ t.
Proof.
  destruct s as [|a s]; [done|]. intros Hs _. rewrite append_cons. simpl in *.
  destruct (Ascii.is_space a); [|done]. exfalso.
  pose proof (TrimLeftSpace_length s) as Hlen. rewrite Hs in Hlen. simpl in Hlen. lia.
Qed.

Lemma TrimRightSpace_length s : (String.length (TrimRightSpace s) <= String.length s)%nat.
Proof.
  induction s as [|b s IH]; simpl; [lia|]. destruct (TrimRightSpace s); simpl in *; [destruct (Ascii.is_space b)|]; simpl; lia.
Qed.

Lemma TrimRightSpace_id s : String.length (TrimRightSpace s) = String.length s → TrimRightSpace s = s.
Proof.
  induction s as [|b s IH]; [done|]. simpl. pose proof (TrimRightSpace_length s) as Hl.
  destruct (TrimRightSpace s) as [|c r] eqn:E.
  - destruct (Ascii.is_space b); simpl; [done|]. intros Hs. destruct s; [done|simpl in Hs; lia].
  - simpl in *. intros Hs. rewrite IH by lia. done.
Qed.

(** Both ends are already trimmed. *)
Lemma trimmed_sides s : trimmed s → TrimLeftSpace s = s ∧ TrimRightSpace s = s.
Proof.
  unfold trimmed, TrimSpace. intros Hs. assert (TrimLeftSpace s = s) as HL.
  { pose proof (TrimRightSpace_length (TrimLeftSpace s)) as H1. pose proof (TrimLeftSpace_length s) as H2.
    rewrite Hs in H1. destruct s as [|a s]; [done|]. simpl in *. destruct (Ascii.is_space a); [|done].
    pose proof (TrimLeftSpace_length s). lia. }
  split; [done|]. by rewrite HL in Hs.
Qed.

Lemma trimmed_app s t u : trimmed s → trimmed u → s ≠ "" → u ≠ "" → trimmed (s +:+ t +:+ u).
Proof.
  intros [Hs _]%trimmed_sides [_ Hu]%trimmed_sides Hsn Hun. unfold trimmed, TrimSpace.
  rewrite TrimLeftSpace_app by done. rewrite <-append_assoc. by apply TrimRightSpace_app.
Qed.
