(* ===== verification/Safety.v ===== *)
(** * Replay target safety ([internal/safety/hosts.go]) *)

From S2P Require Import Prelude GoStd.

Local Open Scope Z_scope.

(** One iteration of the loop: does the pattern admit the (normalised) host? *)
Definition pattern_allows (host pattern : string) : bool :=
  let pattern := ToLower (TrimSpace pattern) in
  if bool_decide (pattern = "") then false
  else match CutPrefix pattern "*." with
  | Some suffix => HasSuffix host ("." +:+ suffix)
  | None => bool_decide (host = pattern)
  end.

Definition HostAllowed (host : string) (allowed : list string) : bool :=
  if len allowed =? 0 then true
  else
    let host := ToLower (TrimSuffix host ".") in
    existsb (pattern_allows host) allowed.

(** ** Specification *)

(** What a pattern means: an exact host name, or a strict subdomain of the
    name after ["*."]; names compare without regard to case and to a final
    dot of the host. *)
Inductive host_matches (host pattern : string) : Prop :=
  | match_exact name :
      ToLower (TrimSpace pattern) = name → name ≠ "" → HasPrefix name "*." = false →
      ToLower (TrimSuffix host ".") = name → host_matches host pattern
  | match_subdomain suffix label :
      ToLower (TrimSpace pattern) = "*." +:+ suffix →
      ToLower (TrimSuffix host ".") = label +:+ "." +:+ suffix → host_matches host pattern.

Lemma pattern_allows_spec host pattern :
  pattern_allows (ToLower (TrimSuffix host ".")) pattern = true ↔ host_matches host pattern.
Proof.
  unfold pattern_allows. split.
  - case_bool_decide as Hne; [done|]. destruct (CutPrefix _ "*.") as [suffix|] eqn:Hc.
    + intros [label Hl]%HasSuffix_spec. apply CutPrefix_spec in Hc.
      by eapply match_subdomain.
    + intros Heq%bool_decide_eq_true. apply (match_exact _ _ _ eq_refl); [done| |done].
      unfold HasPrefix. rewrite bool_decide_eq_false, Hc. by intros [? ?].
  - intros [name <- Hne Hp Hh|suffix label Hp Hh].
    + rewrite bool_decide_eq_false_2 by done. unfold HasPrefix in Hp.
      rewrite bool_decide_eq_false in Hp. destruct (CutPrefix _ "*."); [by destruct Hp|].
      by apply bool_decide_eq_true.
    + rewrite Hp, bool_decide_eq_false_2 by done.
      rewrite (proj2 (CutPrefix_spec _ "*." suffix) eq_refl). apply HasSuffix_spec. eauto.
Qed.

Lemma HostAllowed_iff host allowed :
  HostAllowed host allowed = true ↔
  allowed = [] ∨ ∃ pattern, pattern ∈ allowed ∧ host_matches host pattern.
Proof.
  unfold HostAllowed. destruct allowed as [|p ps] eqn:Ha.
  { split; [by left|done]. }
  rewrite <- Ha. replace (len allowed =? 0) with false
    by (subst; symmetry; apply Z.eqb_neq; unfold len; simpl; lia).
  rewrite existsb_exists. split.
  - intros (q & Hq%list_elem_of_In & Hm%pattern_allows_spec). right. eauto.
  - intros [->|(q & Hq & Hm)]; [done|]. exists q.
    rewrite <- list_elem_of_In, pattern_allows_spec. done.
Qed.

(** ** Theorems *)

(** The allowlist decides exactly the documented policy: with no pattern
    every host is allowed; otherwise a host is allowed if and only if it equals
    one of the plain patterns or is a subdomain, at a label boundary, of the
    name of a wildcard pattern, ignoring case and one final dot. *)
Theorem host_allowed_spec host allowed :
  HostAllowed host allowed = true ↔
  allowed = [] ∨ ∃ pattern, pattern ∈ allowed ∧ host_matches host pattern.
Proof. apply HostAllowed_iff. Qed.

(** The decision depends on the host only up to case and a final dot. *)
Lemma HostAllowed_canonical host allowed :
  HostAllowed (ToLower (TrimSuffix host ".")) allowed = HostAllowed host allowed
  ∨ HasSuffix (ToLower (TrimSuffix host ".")) "." = true.
Proof.
  destruct (HasSuffix (ToLower (TrimSuffix host ".")) ".") eqn:Hs; [by right|left].
  unfold HostAllowed. case_match; [done|]. by rewrite (TrimSuffix_none _ _ Hs), ToLower_idemp.
Qed.

(** A wildcard pattern never admits its own apex: the host after ["*."] is
    denied by an allowlist that holds only that wildcard (so a policy for
    staging subdomains does not open the staging domain itself). *)
Theorem wildcard_excludes_apex name :
  ToLower name = name → TrimSpace ("*." +:+ name) = "*." +:+ name →
  HasSuffix name "." = false →
  HostAllowed name ["*." +:+ name] = false.
Proof.
  intros Hl Ht Hd. destruct (HostAllowed name _) eqn:Hh; [|done]. exfalso.
  apply HostAllowed_iff in Hh as [?|(p & ->%list_elem_of_singleton & Hm)]; [done|].
  destruct Hm as [n Hp Hne Hnp _|suffix label Hp Hh].
  - rewrite Ht, ToLower_app, Hl in Hp. subst n.
    assert (HasPrefix (ToLower "*." +:+ name) "*." = true); [|congruence].
    apply HasPrefix_spec. by exists name.
  - rewrite Ht, ToLower_app, Hl in Hp. apply (inj (String.app "*.")) in Hp. subst suffix.
    rewrite TrimSuffix_none, Hl in Hh by done.
    apply (f_equal String.length) in Hh. rewrite !append_length in Hh. simpl in Hh. lia.
Qed.

