(* ===== verification/Kube.v ===== *)
(** * The Kubernetes API as the controllers see it

    Object metadata and status conditions, and the interfaces of the library
    code the reconcilers call: the API client, the finalizer helpers of
    [controllerutil] and [meta.SetStatusCondition].  That code is not part of
    the repository, so it is a parameter: a type class states the operations
    and what the reconcilers rely on, and the in-memory instances at the end
    show that the laws can hold. *)

From S2P Require Import Prelude.

Local Open Scope Z_scope.

(** ** Data *)

Record OwnerReference := {
  or_Kind : string;
  or_Name : string;
  or_UID : string;
  or_Controller : bool
}.

Record ObjectMeta := MkObjectMeta {
  om_Name : string;
  om_Namespace : string;
  om_UID : string;
  om_Labels : gmap string string;
  om_Annotations : gmap string string;
  om_Finalizers : list string;
  om_OwnerReferences : list OwnerReference;
  om_CreationTimestamp : Z;
  om_DeletionTimestamp : option Z;
  om_Generation : Z
}.

(** The metadata of an object a program builds itself. *)
Definition newObjectMeta (namespace name : string) (labels : gmap string string) : ObjectMeta :=
  MkObjectMeta name namespace "" labels ∅ [] [] 0 None 0.

Definition om_with_Finalizers (f : list string) (m : ObjectMeta) : ObjectMeta :=
  MkObjectMeta (om_Name m) (om_Namespace m) (om_UID m) (om_Labels m) (om_Annotations m) f
    (om_OwnerReferences m) (om_CreationTimestamp m) (om_DeletionTimestamp m) (om_Generation m).

(** What a writer of an object decides, and what the API server keeps of an
    object whatever its writers send. *)
Definition client_meta (m : ObjectMeta) : string * string * gmap string string * gmap string string * list string * list OwnerReference :=
  (om_Name m, om_Namespace m, om_Labels m, om_Annotations m, om_Finalizers m, om_OwnerReferences m).
Definition server_meta (m : ObjectMeta) : string * Z * option Z :=
  (om_UID m, om_CreationTimestamp m, om_DeletionTimestamp m).

Inductive ConditionStatus := ConditionTrue | ConditionFalse | ConditionUnknown.

#[global] Instance ConditionStatus_eq_dec : EqDecision ConditionStatus.
Proof. solve_decision. Defined.

(** [metav1.Condition], without the transition time the library maintains. *)
Record Condition := {
  cond_Type : string;
  cond_Status : ConditionStatus;
  cond_Reason : string;
  cond_Message : text
}.

Inductive EventType := EventTypeNormal | EventTypeWarning.

Record Event := {
  ev_Type : EventType;
  ev_Reason : string;
  ev_Message : text
}.

(** [ctrl.Result]. *)
Record Result := { RequeueAfter : Z }.

(** ** Library interfaces *)

(** The finalizer helpers of [controllerutil]: they touch the finalizer list
    only, and membership behaves as for a set. *)
Class ControllerUtil := {
  ContainsFinalizer : ObjectMeta → string → bool;
  AddFinalizer : ObjectMeta → string → ObjectMeta;
  RemoveFinalizer : ObjectMeta → string → ObjectMeta;
  contains_add : ∀ m f g,
    ContainsFinalizer (AddFinalizer m f) g = bool_decide (f = g) || ContainsFinalizer m g;
  contains_remove : ∀ m f g,
    ContainsFinalizer (RemoveFinalizer m f) g = negb (bool_decide (f = g)) && ContainsFinalizer m g;
  add_frame : ∀ m f, om_with_Finalizers [] (AddFinalizer m f) = om_with_Finalizers [] m;
  remove_frame : ∀ m f, om_with_Finalizers [] (RemoveFinalizer m f) = om_with_Finalizers [] m;
  contains_finalizers : ∀ m m' f, om_Finalizers m = om_Finalizers m' →
    ContainsFinalizer m f = ContainsFinalizer m' f
}.

(** The finalizer helpers depend on, and keep, what they are meant to. *)
Section ControllerUtilFacts.
Context {CU : ControllerUtil}.
Implicit Types m : ObjectMeta.

Lemma contains_client m m' f : client_meta m = client_meta m' → ContainsFinalizer m f = ContainsFinalizer m' f.
Proof. intros Hm. apply contains_finalizers. unfold client_meta in Hm. congruence. Qed.

Lemma client_meta_key m m' : client_meta m = client_meta m' → om_Namespace m = om_Namespace m' ∧ om_Name m = om_Name m'.
Proof. unfold client_meta. by intros [= -> -> _ _ _ _]. Qed.
End ControllerUtilFacts.

Definition find_condition (t : string) (cs : list Condition) : option Condition :=
  List.find (λ c, bool_decide (cond_Type c = t)) cs.

(** [meta.SetStatusCondition]: sets the condition of its type and leaves the
    others. *)
Class ConditionUtil := {
  SetStatusCondition : list Condition → Condition → list Condition;
  set_condition_eq : ∀ cs c, find_condition (cond_Type c) (SetStatusCondition cs c) = Some c;
  set_condition_ne : ∀ cs c t, t ≠ cond_Type c →
    find_condition t (SetStatusCondition cs c) = find_condition t cs
}.

(** A custom resource: metadata, spec and status ([metav1.TypeMeta] is constant
    per type and left out). *)
Record Object (Sp St : Type) := MkObject {
  Meta : ObjectMeta;
  Spec : Sp;
  Status : St
}.
Arguments MkObject {Sp St} _ _ _.
Arguments Meta {Sp St} _.
Arguments Spec {Sp St} _.
Arguments Status {Sp St} _.

Definition Name {Sp St} (o : Object Sp St) : string := om_Name (Meta o).
Definition Namespace {Sp St} (o : Object Sp St) : string := om_Namespace (Meta o).

Definition with_Meta {Sp St} (m : ObjectMeta) (o : Object Sp St) : Object Sp St :=
  MkObject m (Spec o) (Status o).
Definition with_Status {Sp St} (st : St) (o : Object Sp St) : Object Sp St :=
  MkObject (Meta o) (Spec o) st.

(** An API client for one resource type, over the API server's state [W].
    [Update] and [StatusUpdate] also return the object as the client decodes
    the reply back into its argument. *)
Class KubeClient (W Sp St : Type) := {
  client_Get : string → string → W → result (Object Sp St);
  client_List : W → result (list (Object Sp St));
  client_Create : Object Sp St → W → W * option go_error;
  client_Update : Object Sp St → W → W * (Object Sp St * option go_error);
  client_StatusUpdate : Object Sp St → W → W * (Object Sp St * option go_error);
  client_Delete : Object Sp St → W → W * option go_error;
  (** Deletes every object of the namespace that carries the label. *)
  client_DeleteAllOf : string → string → string → W → W * option go_error
}.

(** [apierrors.IsNotFound] and [apierrors.IsAlreadyExists]. *)
Class ApiErrors := {
  IsNotFound : go_error → bool;
  IsAlreadyExists : go_error → bool
}.

(** [client.IgnoreNotFound]. *)
Definition IgnoreNotFound `{ApiErrors} (e : go_error) : option go_error :=
  if IsNotFound e then None else Some e.

(** The object is on its way out: deletion was requested and no finalizer holds
    it. *)
Definition released (m : ObjectMeta) : Prop :=
  om_DeletionTimestamp m ≠ None ∧ om_Finalizers m = [].

(** What the controllers rely on: a failed write changes nothing and leaves the
    caller's object alone; a successful write is read back, with the main
    endpoint writing the spec and the client's part of the metadata and the status
    endpoint the status; objects other than the one written are not affected; deletion marks an
    object that has finalizers and removes one that has none. *)
Class KubeClientLaws (W Sp St : Type) `{KubeClient W Sp St, ApiErrors} := {
  get_name : ∀ ns n w o, client_Get ns n w = Ok o → Namespace o = ns ∧ Name o = n;
  update_ok : ∀ o w w' o', client_Update o w = (w', (o', None)) →
    client_meta (Meta o') = client_meta (Meta o) ∧ Spec o' = Spec o ∧
    (∀ old, client_Get (Namespace o) (Name o) w = Ok old →
       Status o' = Status old ∧ server_meta (Meta o') = server_meta (Meta old)) ∧
    (~ released (Meta o') → client_Get (Namespace o) (Name o) w' = Ok o');
  update_err : ∀ o w w' o' e, client_Update o w = (w', (o', Some e)) → w' = w ∧ o' = o;
  status_ok : ∀ o w w' o', client_StatusUpdate o w = (w', (o', None)) →
    Status o' = Status o ∧ Namespace o' = Namespace o ∧ Name o' = Name o ∧
    client_Get (Namespace o) (Name o) w' = Ok o';
  status_err : ∀ o w w' o' e, client_StatusUpdate o w = (w', (o', Some e)) → w' = w ∧ o' = o;
  create_ok : ∀ o w w', client_Create o w = (w', None) →
    (∀ o', client_Get (Namespace o) (Name o) w ≠ Ok o') ∧
    ∃ o', client_Get (Namespace o) (Name o) w' = Ok o' ∧ Spec o' = Spec o ∧
      om_Labels (Meta o') = om_Labels (Meta o);
  create_err : ∀ o w w' e, client_Create o w = (w', Some e) → w' = w;
  create_frame : ∀ o w w' r ns n, client_Create o w = (w', r) →
    (ns, n) ≠ (Namespace o, Name o) → client_Get ns n w' = client_Get ns n w;
  delete_all_ok : ∀ ns k v w w', client_DeleteAllOf ns k v w = (w', None) →
    (∀ n o, client_Get ns n w' = Ok o → om_Labels (Meta o) !! k = Some v →
       om_DeletionTimestamp (Meta o) ≠ None) ∧
    (∀ ns' n o, client_Get ns' n w = Ok o → ns' ≠ ns ∨ om_Labels (Meta o) !! k ≠ Some v →
       client_Get ns' n w' = Ok o);
  delete_all_frame : ∀ ns k v w w' r, client_DeleteAllOf ns k v w = (w', r) →
    ∀ ns' n o', client_Get ns' n w' = Ok o' →
    ∃ o, client_Get ns' n w = Ok o ∧ om_Labels (Meta o') = om_Labels (Meta o);
  delete_ok : ∀ o w w', client_Delete o w = (w', None) →
    ∀ o', client_Get (Namespace o) (Name o) w' = Ok o' → om_DeletionTimestamp (Meta o') ≠ None;
  delete_err : ∀ o w w' e, client_Delete o w = (w', Some e) → w' = w;
  delete_not_found : ∀ o w w' e, client_Delete o w = (w', Some e) → IsNotFound e = true →
    ∀ o', client_Get (Namespace o) (Name o) w ≠ Ok o';
  delete_frame : ∀ o w w' r ns n, client_Delete o w = (w', r) →
    (ns, n) ≠ (Namespace o, Name o) → client_Get ns n w' = client_Get ns n w;
  status_spec : ∀ o w w' o' old, client_StatusUpdate o w = (w', (o', None)) →
    client_Get (Namespace o) (Name o) w = Ok old → Spec o' = Spec old ∧ Meta o' = Meta old;
  update_frame : ∀ o w w' r ns n, client_Update o w = (w', r) →
    (ns, n) ≠ (Namespace o, Name o) → client_Get ns n w' = client_Get ns n w
}.

(** ** In-memory instances

    The simplest API server with these laws: a map from (namespace, name) to
    objects.  Used to evaluate the controllers on concrete inputs. *)

Abbreviation store Sp St := (gmap (string * string) (Object Sp St)).

Definition err_not_found : go_error := ExternalError NotFound "not found".
Definition err_exists : go_error := ExternalError Aborted "already exists".

#[local] Instance mem_errors : ApiErrors := {
  IsNotFound e := match e with ExternalError NotFound _ => true | _ => false end;
  IsAlreadyExists e := match e with ExternalError Aborted "already exists" => true | _ => false end
}.

Section Memory.
Context {Sp St : Type}.
Implicit Types (o : Object Sp St) (w : store Sp St).

Definition releasedb (m : ObjectMeta) : bool :=
  match om_DeletionTimestamp m, om_Finalizers m with Some _, [] => true | _, _ => false end.

Definition om_deleted (m : ObjectMeta) : ObjectMeta :=
  MkObjectMeta (om_Name m) (om_Namespace m) (om_UID m) (om_Labels m) (om_Annotations m)
    (om_Finalizers m) (om_OwnerReferences m) (om_CreationTimestamp m)
    (match om_DeletionTimestamp m with Some t => Some t | None => Some 0 end) (om_Generation m).

(** The metadata of [m] with what the server keeps of [old]. *)
Definition om_kept (old m : ObjectMeta) : ObjectMeta :=
  MkObjectMeta (om_Name m) (om_Namespace m) (om_UID old) (om_Labels m) (om_Annotations m) (om_Finalizers m)
    (om_OwnerReferences m) (om_CreationTimestamp old) (om_DeletionTimestamp old) (om_Generation old).

(** Deletion of one object: removed, or marked when a finalizer holds it. *)
Definition delete_one o : option (Object Sp St) :=
  match om_Finalizers (Meta o) with
  | [] => None
  | _ => Some (with_Meta (om_deleted (Meta o)) o)
  end.

Definition labelled (ns k v : string) (key : string * string) o : bool :=
  bool_decide (key.1 = ns) && bool_decide (om_Labels (Meta o) !! k = Some v).

(** Objects are stored under their own name. *)
Definition named (key : string * string) o : bool :=
  bool_decide (key = (Namespace o, Name o)).

Definition mem_get (ns n : string) w : result (Object Sp St) :=
  match w !! (ns, n) with
  | Some o => if named (ns, n) o then Ok o else Err err_not_found
  | None => Err err_not_found
  end.

#[local] Instance mem_client : KubeClient (store Sp St) Sp St := {
  client_Get := mem_get;
  client_List w := Ok (map_to_list w).*2;
  client_Create o w :=
    match mem_get (Namespace o) (Name o) w with
    | Ok _ => (w, Some err_exists)
    | Err _ => (<[(Namespace o, Name o) := o]> w, None)
    end;
  client_Update o w :=
    match mem_get (Namespace o) (Name o) w with
    | Ok old =>
        let o' := MkObject (om_kept (Meta old) (Meta o)) (Spec o) (Status old) in
        ((if releasedb (Meta o') then delete (Namespace o, Name o) w
          else <[(Namespace o, Name o) := o']> w), (o', None))
    | Err e => (w, (o, Some e))
    end;
  client_StatusUpdate o w :=
    match mem_get (Namespace o) (Name o) w with
    | Ok old =>
        let o' := MkObject (Meta old) (Spec old) (Status o) in
        (<[(Namespace o, Name o) := o']> w, (o', None))
    | Err e => (w, (o, Some e))
    end;
  client_Delete o w :=
    match mem_get (Namespace o) (Name o) w with
    | Ok old => (partial_alter (λ _, delete_one old) (Namespace o, Name o) w, None)
    | Err e => (w, Some e)
    end;
  client_DeleteAllOf ns k v w :=
    (map_imap (λ key o, if labelled ns k v key o then delete_one o else Some o) w, None)
}.

Lemma mem_get_ok ns n w o :
  mem_get ns n w = Ok o ↔ w !! (ns, n) = Some o ∧ Namespace o = ns ∧ Name o = n.
Proof.
  unfold mem_get, named. destruct (w !! (ns, n)) as [o'|]; [|naive_solver].
  case_bool_decide; naive_solver.
Qed.

#[local] Instance mem_client_laws : KubeClientLaws (store Sp St) Sp St.
Proof.
  split; simpl.
  - intros ns n w o (_ & ? & ?)%mem_get_ok. done.
  - intros o w w' o' Hu. destruct (mem_get _ _ w) as [old|e] eqn:Hg; simplify_eq/=.
    split_and!; [done|done|naive_solver|]. intros Hr. apply mem_get_ok. split; [|done].
    replace (releasedb (om_kept (Meta old) (Meta o))) with false; [by rewrite lookup_insert_eq|].
    unfold releasedb, released in *. simpl in *.
    destruct (om_DeletionTimestamp _), (om_Finalizers _); naive_solver.
  - intros o w w' o' e Hu. destruct (mem_get _ _ w); by simplify_eq.
  - intros o w w' o' Hu. destruct (mem_get _ _ w) as [old|e] eqn:Hg; simplify_eq/=.
    apply mem_get_ok in Hg as (? & ? & ?). unfold Namespace, Name in *. simpl.
    split_and!; [done..|]. apply mem_get_ok. split; [by rewrite lookup_insert_eq|done].
  - intros o w w' o' e Hu. destruct (mem_get _ _ w); by simplify_eq.
  - intros o w w' Hc. destruct (mem_get _ _ w) as [old|e] eqn:Hg; simplify_eq/=.
    split; [naive_solver|]. exists o. split; [|done]. apply mem_get_ok.
    split; [by rewrite lookup_insert_eq|done].
  - intros o w w' e Hc. destruct (mem_get _ _ w); by simplify_eq.
  - intros o w w' r ns n Hc Hne. destruct (mem_get _ _ w); simplify_eq/=; [done|].
    unfold mem_get. by rewrite lookup_insert_ne.
  - intros ns k v w w' [= <-]. split.
    + intros n o (Hl & Hns & Hn)%mem_get_ok Hlab. rewrite map_lookup_imap in Hl.
      destruct (w !! (ns, n)) as [o'|]; [|done]. simpl in Hl. unfold labelled in Hl.
      simpl in Hl. rewrite bool_decide_eq_true_2 in Hl by done. simpl in Hl.
      case_bool_decide; [|naive_solver]. unfold delete_one in Hl.
      destruct (om_Finalizers _); simplify_eq/=. by destruct (om_DeletionTimestamp _).
    + intros ns' n o (Hl & Hns & Hn)%mem_get_ok Hor. apply mem_get_ok. split; [|done].
      rewrite map_lookup_imap, Hl. simpl. unfold labelled. simpl.
      case_bool_decide; case_bool_decide; naive_solver.
  - intros ns k v w w' r [= <- <-] ns' n o' (Hl & Hns & Hn)%mem_get_ok.
    rewrite map_lookup_imap in Hl. destruct (w !! (ns', n)) as [o|] eqn:E; [|done]. simpl in Hl.
    destruct (labelled ns k v (ns', n) o); simplify_eq/=; [|exists o'; split; [by apply mem_get_ok|done]].
    unfold delete_one in Hl. destruct (om_Finalizers (Meta o)); simplify_eq/=. exists o.
    split; [by apply mem_get_ok|done].
  - intros o w w' Hd o' Ho'. destruct (mem_get _ _ w) as [old|e]; simplify_eq/=.
    apply mem_get_ok in Ho' as (Hl & _). rewrite lookup_partial_alter_eq in Hl.
    unfold delete_one in Hl. destruct (om_Finalizers _); simplify_eq/=. by destruct (om_DeletionTimestamp _).
  - intros o w w' e Hd. destruct (mem_get _ _ w); by simplify_eq.
  - intros o w w' e Hd _ o'. destruct (mem_get _ _ w); by simplify_eq.
  - intros o w w' r ns n Hd Hne. destruct (mem_get _ _ w); simplify_eq/=; [|done].
    unfold mem_get. by rewrite lookup_partial_alter_ne.
  - intros o w w' o' old Hu Hg. rewrite Hg in Hu. by simplify_eq/=.
  - intros o w w' r ns n Hu Hne. destruct (mem_get _ _ w); simplify_eq/=; [|done].
    destruct (releasedb _); unfold mem_get; [by rewrite lookup_delete_ne|by rewrite lookup_insert_ne].
Qed.
End Memory.

#[local] Instance mem_controllerutil : ControllerUtil.
Proof.
  refine {|
    ContainsFinalizer m f := bool_decide (f ∈ om_Finalizers m);
    AddFinalizer m f := if decide (f ∈ om_Finalizers m) then m
                        else om_with_Finalizers (om_Finalizers m ++ [f]) m;
    RemoveFinalizer m f := om_with_Finalizers (filter (λ g, f ≠ g) (om_Finalizers m)) m |}.
  - intros m f g. case_decide; repeat case_bool_decide; simpl in *; set_solver.
  - intros m f g. simpl. apply eq_true_iff_eq.
    rewrite andb_true_iff, negb_true_iff, !bool_decide_eq_true, bool_decide_eq_false.
    by rewrite list_elem_of_filter.
  - intros m f. case_decide; [done|]. reflexivity.
  - intros m f. reflexivity.
  - intros m m' f Hm. by rewrite Hm.
Defined.

#[local] Instance mem_conditionutil : ConditionUtil.
Proof.
  refine {|
    SetStatusCondition cs c := c :: filter (λ d, cond_Type d ≠ cond_Type c) cs |}.
  - intros cs c. simpl. by rewrite bool_decide_eq_true_2.
  - intros cs c t Hne. simpl. rewrite bool_decide_eq_false_2 by done.
    induction cs as [|d cs IH]; [done|]. rewrite filter_cons. case_decide as Hd; simpl.
    + case_bool_decide; [done|apply IH].
    + rewrite bool_decide_eq_false_2 by naive_solver. apply IH.
Defined.
