(* ===== verification/Api.v ===== *)
(** * Custom resource types ([api/v1alpha1])

    The Go structs of the CRDs the controllers work on, field by field.  A Go
    pointer field is an [option], a [metav1.Time] is nanoseconds since the
    epoch, a [metav1.Duration] nanoseconds, and a named string type is
    [string] with its constants below. *)

From S2P Require Import Prelude Kube.

Local Open Scope Z_scope.

(** ** Shared between [TrafficReplay] and [CaptureLoadTest] *)

Record TrafficCaptureReference := { tcr_Name : string }.
Record CaptureStorageReference := { csr_Name : string }.

Record ReplayTarget := {
  rt_Host : string;
  rt_Port : option Z;
  rt_TLS : option bool
}.

Definition ReplayRateModeConstant : string := "Constant".
Definition ReplayRateModeOriginalTiming : string := "OriginalTiming".
Definition ReplayRateModeUnlimited : string := "Unlimited".

Record ReplayRateConfig := {
  rrc_Mode : string;
  rrc_RequestsPerSecond : option Z;
  rrc_TimeScale : option string
}.

Record ReplayFilters := {
  rf_StartTime : option Z;
  rf_EndTime : option Z;
  rf_PathPrefix : option string;
  rf_Methods : list string;
  rf_Limit : option Z
}.

(** [runtime.RawExtension]: its raw JSON bytes. *)
Record RawExtension := { Raw : string }.

Record ReplayEngineSpec := {
  res_Name : string;
  res_Config : option RawExtension
}.

Record ReplaySafety := { rsf_AllowedHosts : list string }.

(** ** [CaptureLoadTest] *)

Definition CaptureLoadTestPhasePending : string := "Pending".
Definition CaptureLoadTestPhaseDistributing : string := "Distributing".
Definition CaptureLoadTestPhaseRunning : string := "Running".
Definition CaptureLoadTestPhaseCompleted : string := "Completed".
Definition CaptureLoadTestPhaseFailed : string := "Failed".
Definition CaptureLoadTestPhaseAborted : string := "Aborted".

Definition LoadTestConditionSpokesAssigned : string := "SpokesAssigned".
Definition LoadTestConditionAborted : string := "Aborted".
Definition LoadTestConditionTargetAllowed : string := "TargetAllowed".

Record LoadTestDistribution := {
  ld_Cells : list string;
  ld_MaxSpokes : option Z;
  ld_WorkersPerSpoke : option Z;
  ld_ConcurrencyPerWorker : option Z;
  ld_Presharded : option bool
}.

Record LoadTestAbortPolicy := {
  lap_MaxDuration : option Z;
  lap_ErrorPercent : option Z;
  lap_MinSampleRequests : option Z
}.

Record CaptureLoadTestSpec := {
  ls_SourceRef : TrafficCaptureReference;
  ls_StorageRef : CaptureStorageReference;
  ls_Target : ReplayTarget;
  ls_Rate : option ReplayRateConfig;
  ls_Filters : option ReplayFilters;
  ls_Distribution : option LoadTestDistribution;
  ls_Abort : option LoadTestAbortPolicy;
  ls_Engine : option ReplayEngineSpec;
  ls_Safety : option ReplaySafety
}.

Record LoadTestCellStatus := {
  lcs_Name : string;
  lcs_Spokes : Z;
  lcs_Shards : Z;
  lcs_SentRequests : Z;
  lcs_FailedRequests : Z
}.

Record LoadTestAssignment := {
  la_SpokeID : string;
  la_Cell : string;
  la_ShardIndexes : list Z
}.

Record CaptureLoadTestStatus := {
  lst_Phase : string;
  lst_StartTime : option Z;
  lst_CompletionTime : option Z;
  lst_TotalShards : Z;
  lst_AssignedSpokes : Z;
  lst_Assignments : list LoadTestAssignment;
  lst_Cells : list LoadTestCellStatus;
  lst_TotalRequests : Z;
  lst_SentRequests : Z;
  lst_FailedRequests : Z;
  lst_FilteredRequests : Z;
  lst_CompletedShards : Z;
  lst_FailedShards : Z;
  lst_AchievedRPS : option string;
  lst_Conditions : list Condition
}.

(** Field updates of the status. *)

Definition lst_with_Phase (v : string) (s : CaptureLoadTestStatus) : CaptureLoadTestStatus :=
  {| lst_Phase := v; lst_StartTime := lst_StartTime s; lst_CompletionTime :=
     lst_CompletionTime s; lst_TotalShards := lst_TotalShards s; lst_AssignedSpokes :=
     lst_AssignedSpokes s; lst_Assignments := lst_Assignments s; lst_Cells := lst_Cells s;
     lst_TotalRequests := lst_TotalRequests s; lst_SentRequests := lst_SentRequests s;
     lst_FailedRequests := lst_FailedRequests s; lst_FilteredRequests := lst_FilteredRequests
     s; lst_CompletedShards := lst_CompletedShards s; lst_FailedShards := lst_FailedShards s;
     lst_AchievedRPS := lst_AchievedRPS s; lst_Conditions := lst_Conditions s |}.
Definition lst_with_StartTime (v : option Z) (s : CaptureLoadTestStatus) : CaptureLoadTestStatus :=
  {| lst_Phase := lst_Phase s; lst_StartTime := v; lst_CompletionTime := lst_CompletionTime
     s; lst_TotalShards := lst_TotalShards s; lst_AssignedSpokes := lst_AssignedSpokes s;
     lst_Assignments := lst_Assignments s; lst_Cells := lst_Cells s; lst_TotalRequests :=
     lst_TotalRequests s; lst_SentRequests := lst_SentRequests s; lst_FailedRequests :=
     lst_FailedRequests s; lst_FilteredRequests := lst_FilteredRequests s;
     lst_CompletedShards := lst_CompletedShards s; lst_FailedShards := lst_FailedShards s;
     lst_AchievedRPS := lst_AchievedRPS s; lst_Conditions := lst_Conditions s |}.
Definition lst_with_CompletionTime (v : option Z) (s : CaptureLoadTestStatus) : CaptureLoadTestStatus :=
  {| lst_Phase := lst_Phase s; lst_StartTime := lst_StartTime s; lst_CompletionTime := v;
     lst_TotalShards := lst_TotalShards s; lst_AssignedSpokes := lst_AssignedSpokes s;
     lst_Assignments := lst_Assignments s; lst_Cells := lst_Cells s; lst_TotalRequests :=
     lst_TotalRequests s; lst_SentRequests := lst_SentRequests s; lst_FailedRequests :=
     lst_FailedRequests s; lst_FilteredRequests := lst_FilteredRequests s;
     lst_CompletedShards := lst_CompletedShards s; lst_FailedShards := lst_FailedShards s;
     lst_AchievedRPS := lst_AchievedRPS s; lst_Conditions := lst_Conditions s |}.
Definition lst_with_TotalShards (v : Z) (s : CaptureLoadTestStatus) : CaptureLoadTestStatus :=
  {| lst_Phase := lst_Phase s; lst_StartTime := lst_StartTime s; lst_CompletionTime :=
     lst_CompletionTime s; lst_TotalShards := v; lst_AssignedSpokes := lst_AssignedSpokes s;
     lst_Assignments := lst_Assignments s; lst_Cells := lst_Cells s; lst_TotalRequests :=
     lst_TotalRequests s; lst_SentRequests := lst_SentRequests s; lst_FailedRequests :=
     lst_FailedRequests s; lst_FilteredRequests := lst_FilteredRequests s;
     lst_CompletedShards := lst_CompletedShards s; lst_FailedShards := lst_FailedShards s;
     lst_AchievedRPS := lst_AchievedRPS s; lst_Conditions := lst_Conditions s |}.
Definition lst_with_AssignedSpokes (v : Z) (s : CaptureLoadTestStatus) : CaptureLoadTestStatus :=
  {| lst_Phase := lst_Phase s; lst_StartTime := lst_StartTime s; lst_CompletionTime :=
     lst_CompletionTime s; lst_TotalShards := lst_TotalShards s; lst_AssignedSpokes := v;
     lst_Assignments := lst_Assignments s; lst_Cells := lst_Cells s; lst_TotalRequests :=
     lst_TotalRequests s; lst_SentRequests := lst_SentRequests s; lst_FailedRequests :=
     lst_FailedRequests s; lst_FilteredRequests := lst_FilteredRequests s;
     lst_CompletedShards := lst_CompletedShards s; lst_FailedShards := lst_FailedShards s;
     lst_AchievedRPS := lst_AchievedRPS s; lst_Conditions := lst_Conditions s |}.
Definition lst_with_Assignments (v : list LoadTestAssignment) (s : CaptureLoadTestStatus) : CaptureLoadTestStatus :=
  {| lst_Phase := lst_Phase s; lst_StartTime := lst_StartTime s; lst_CompletionTime :=
     lst_CompletionTime s; lst_TotalShards := lst_TotalShards s; lst_AssignedSpokes :=
     lst_AssignedSpokes s; lst_Assignments := v; lst_Cells := lst_Cells s; lst_TotalRequests
     := lst_TotalRequests s; lst_SentRequests := lst_SentRequests s; lst_FailedRequests :=
     lst_FailedRequests s; lst_FilteredRequests := lst_FilteredRequests s;
     lst_CompletedShards := lst_CompletedShards s; lst_FailedShards := lst_FailedShards s;
     lst_AchievedRPS := lst_AchievedRPS s; lst_Conditions := lst_Conditions s |}.
Definition lst_with_Conditions (v : list Condition) (s : CaptureLoadTestStatus) : CaptureLoadTestStatus :=
  {| lst_Phase := lst_Phase s; lst_StartTime := lst_StartTime s; lst_CompletionTime :=
     lst_CompletionTime s; lst_TotalShards := lst_TotalShards s; lst_AssignedSpokes :=
     lst_AssignedSpokes s; lst_Assignments := lst_Assignments s; lst_Cells := lst_Cells s;
     lst_TotalRequests := lst_TotalRequests s; lst_SentRequests := lst_SentRequests s;
     lst_FailedRequests := lst_FailedRequests s; lst_FilteredRequests := lst_FilteredRequests
     s; lst_CompletedShards := lst_CompletedShards s; lst_FailedShards := lst_FailedShards s;
     lst_AchievedRPS := lst_AchievedRPS s; lst_Conditions := v |}.

Definition CaptureLoadTest : Type := Object CaptureLoadTestSpec CaptureLoadTestStatus.

(** ** [TrafficReplay] *)

Definition TrafficReplayPhasePending : string := "Pending".
Definition TrafficReplayPhaseRunning : string := "Running".
Definition TrafficReplayPhaseCompleted : string := "Completed".
Definition TrafficReplayPhaseFailed : string := "Failed".

Record ReplayShardSpec := {
  shs_Index : Z;
  shs_Count : Z;
  shs_Presharded : option bool
}.

Record LoadTestReference := { ltr_Name : string }.

Record ReplayTransformRef := {
  rtr_Name : string;
  rtr_Config : option RawExtension
}.

Record TrafficReplaySpec := {
  trs_SourceRef : TrafficCaptureReference;
  trs_StorageRef : CaptureStorageReference;
  trs_Target : ReplayTarget;
  trs_Rate : option ReplayRateConfig;
  trs_Filters : option ReplayFilters;
  trs_Transforms : list ReplayTransformRef;
  trs_Concurrency : option Z;
  trs_Shard : option ReplayShardSpec;
  trs_LoadTestRef : option LoadTestReference;
  trs_Engine : option ReplayEngineSpec;
  trs_Safety : option ReplaySafety
}.

Record TrafficReplayStatus := {
  trst_Phase : string;
  trst_StartTime : option Z;
  trst_CompletionTime : option Z;
  trst_TotalRequests : Z;
  trst_SentRequests : Z;
  trst_FailedRequests : Z;
  trst_FilteredRequests : Z;
  trst_MeanLatency : option string;
  trst_P50Latency : option string;
  trst_P95Latency : option string;
  trst_P99Latency : option string;
  trst_AchievedRPS : option string;
  trst_Conditions : list Condition
}.

Definition TrafficReplay : Type := Object TrafficReplaySpec TrafficReplayStatus.

(** The zero value of the status. *)
Definition emptyTrafficReplayStatus : TrafficReplayStatus :=
  {| trst_Phase := ""; trst_StartTime := None; trst_CompletionTime := None;
     trst_TotalRequests := 0; trst_SentRequests := 0; trst_FailedRequests := 0;
     trst_FilteredRequests := 0; trst_MeanLatency := None; trst_P50Latency := None;
     trst_P95Latency := None; trst_P99Latency := None; trst_AchievedRPS := None;
     trst_Conditions := [] |}.
