(* ===== verification/LoadTest.v ===== *)
(** * The load test coordinator ([internal/hub/loadtest_controller.go])

    [CaptureLoadTestReconciler]: plans the distribution of a load test over
    the connected spokes, sends START directives for its shards, aggregates
    the shard statuses and enforces the abort policy.

    The reconciler talks to two components through interfaces: the Kubernetes
    API ([Kube.KubeClient] and the helpers there) and the hub server, whose
    four operations it calls form the class [HubApi] below; [LoadTestHub]
    instantiates [HubApi] with the server of [HubServer].  A reconcile is a
    state transformer over the API server's state, the hub server (absent
    while it is not running) and the emitted events. *)

From S2P Require Import Prelude GoStd Kube Api HubProto HubServer Safety.

Local Open Scope Z_scope.

Definition LoadTestFinalizer : string := "capture.gateway.io/loadtest-cleanup".
Definition defaultLoadTestRequeue : Z := 10 * Second.
Definition defaultWorkersPerSpoke : Z := 1.
Definition defaultConcurrencyPerWorker : Z := 10.
Definition defaultAbortMinSample : Z := 100.

(** ** Rates and shard counts *)

(** Go's [/] and [%] truncate towards zero. *)
Definition splitRate (totalRPS shardCount shard : Z) : Z :=
  if shardCount <=? 0 then totalRPS
  else
    let base := int32 (Z.quot totalRPS shardCount) in
    let base := if shard <? Z.rem totalRPS shardCount then int32 (base + 1) else base in
    if base <? 1 then 1 else base.

Definition countShards (assignments : list LoadTestAssignment) : Z :=
  foldl (λ count a, int32 (count + int32 (len (la_ShardIndexes a)))) 0 assignments.

(** ** The interface to the hub server *)

Class HubApi (S : Type) := {
  hub_SelectSpokes : Z → list string → Z → S → list SpokeSelection;
  hub_SendReplayDirective : string → option ReplayDirective → S → go (S * option go_error);
  hub_ReplayStatuses : string → string → S → list ReplayStatusSnapshot;
  hub_ClearReplayStatuses : string → string → S → S
}.

(** ** Planning *)

(** [for w := int32(0); w < workers; w++ { indexes = append(indexes, next); next++ }] *)
Definition spoke_indexes (next workers : Z) : list Z :=
  (λ w, int32 (next + w)) <$> seqZ 0 workers.

Fixpoint assign_spokes (workers next : Z) (spokes : list SpokeSelection)
    : list LoadTestAssignment :=
  match spokes with
  | [] => []
  | spoke :: spokes =>
      {| la_SpokeID := sel_SpokeID spoke; la_Cell := sel_Cell spoke;
         la_ShardIndexes := spoke_indexes next workers |}
      :: assign_spokes workers (int32 (next + workers)) spokes
  end.

(** The distribution parameters with their defaults. *)
Definition dist_cells (lt : CaptureLoadTest) : list string :=
  match ls_Distribution (Spec lt) with Some d => ld_Cells d | None => [] end.
Definition dist_maxSpokes (lt : CaptureLoadTest) : Z :=
  match ls_Distribution (Spec lt) with Some d => default 0 (ld_MaxSpokes d) | None => 0 end.
Definition dist_workers (lt : CaptureLoadTest) : Z :=
  match ls_Distribution (Spec lt) with
  | Some d => default defaultWorkersPerSpoke (ld_WorkersPerSpoke d)
  | None => defaultWorkersPerSpoke
  end.

Section Planning.
Context {S : Type} {HA : HubApi S}.

(** [make([]int32, 0, workers)] panics on a negative capacity. *)
Definition planDistribution (now : Z) (srv : S) (lt : CaptureLoadTest)
    : go (result (list LoadTestAssignment)) :=
  let cells := dist_cells lt in
  let workers := dist_workers lt in
  let spokes := hub_SelectSpokes now cells (dist_maxSpokes lt) srv in
  if len spokes =? 0 then
    if 0 <? len cells then Ret (Err (FmtError "no connected spokes in cells %v" [FStrs cells]))
    else Ret (Err (FmtError "no connected spokes" []))
  else if workers <? 0 then Panic
  else Ret (Ok (assign_spokes workers 0 spokes)).
End Planning.

(** ** Directives *)

Definition buildStartDirective (lt : CaptureLoadTest) (shard : Z) : ReplayDirective :=
  let spec := Spec lt in
  let totalShards := lst_TotalShards (Status lt) in
  let presharded :=
    match ls_Distribution spec with
    | Some d => default false (ld_Presharded d)
    | None => false
    end in
  let concurrency :=
    match ls_Distribution spec with
    | Some d => default defaultConcurrencyPerWorker (ld_ConcurrencyPerWorker d)
    | None => defaultConcurrencyPerWorker
    end in
  let rate :=
    match ls_Rate spec with
    | Some rate =>
        {| rr_Mode := rrc_Mode rate;
           rr_RequestsPerSecond :=
             match rrc_RequestsPerSecond rate with
             | Some rps =>
                 if bool_decide (rrc_Mode rate = ReplayRateModeConstant)
                 then splitRate rps totalShards shard else 0
             | None => 0
             end;
           rr_TimeScale := default "" (rrc_TimeScale rate) |}
    | None => {| rr_Mode := ReplayRateModeOriginalTiming; rr_RequestsPerSecond := 0;
                 rr_TimeScale := "" |}
    end in
  let filters :=
    (λ f, {| rdf_StartTime := rf_StartTime f; rdf_EndTime := rf_EndTime f;
             rdf_PathPrefix := default "" (rf_PathPrefix f);
             rdf_Methods := rf_Methods f; rdf_Limit := default 0 (rf_Limit f) |})
    <$> ls_Filters spec in
  {| rd_DirectiveId := Namespace lt +:+ "-" +:+ Name lt +:+ "-shard-" +:+ Itoa shard;
     rd_Action := REPLAY_ACTION_START;
     rd_LoadTestName := Name lt;
     rd_LoadTestNamespace := Namespace lt;
     rd_Spec := Some
       {| rs_SourceCapture := tcr_Name (ls_SourceRef spec);
          rs_StorageRefName := csr_Name (ls_StorageRef spec);
          rs_TargetHost := rt_Host (ls_Target spec);
          rs_TargetPort := default 0 (rt_Port (ls_Target spec));
          rs_TargetTls := default false (rt_TLS (ls_Target spec));
          rs_Rate := Some rate;
          rs_Shard := Some {| rsh_Index := shard; rsh_Count := totalShards;
                              rsh_Presharded := presharded |};
          rs_Concurrency := concurrency;
          rs_Filters := filters;
          rs_EngineName := match ls_Engine spec with Some e => res_Name e | None => "" end;
          rs_EngineConfigJson :=
            match ls_Engine spec with
            | Some e => match res_Config e with Some c => Raw c | None => "" end
            | None => ""
            end;
          rs_AllowedHosts :=
            match ls_Safety spec with Some s => rsf_AllowedHosts s | None => [] end |} |}.

Definition stopDirective (lt : CaptureLoadTest) : ReplayDirective :=
  {| rd_DirectiveId := Namespace lt +:+ "-" +:+ Name lt +:+ "-stop";
     rd_Action := REPLAY_ACTION_STOP;
     rd_LoadTestName := Name lt;
     rd_LoadTestNamespace := Namespace lt;
     rd_Spec := None |}.

Section Sending.
Context {S : Type} {HA : HubApi S}.

(** One iteration: the flag after the attempt. *)
Definition stop_one (lt : CaptureLoadTest) (assignment : LoadTestAssignment)
    : M (S * bool) unit := λ '(srv, allDelivered),
  match hub_SendReplayDirective (la_SpokeID assignment) (Some (stopDirective lt)) srv with
  | Panic => Panic
  | Ret (srv, None) => Ret ((srv, allDelivered), tt)
  | Ret (srv, Some err) =>
      if decide (status_Code err = NotFound) then Ret ((srv, allDelivered), tt)
      else Ret ((srv, false), tt)
  end.

Definition stopAllShards (lt : CaptureLoadTest) (srv : S) : go (S * bool) :=
  match for_range (lst_Assignments (Status lt)) (stop_one lt) (srv, true) with
  | Panic => Panic
  | Ret (st, _) => Ret st
  end.

(** START for one shard unless it already reported. *)
Definition start_one (lt : CaptureLoadTest) (reported : gset Z) (spokeID : string) (shard : Z)
    : M S unit := λ srv,
  if bool_decide (shard ∈ reported) then Ret (srv, tt)
  else match hub_SendReplayDirective spokeID (Some (buildStartDirective lt shard)) srv with
  | Panic => Panic
  | Ret (srv, _) => Ret (srv, tt)
  end.

Definition sendStarts (lt : CaptureLoadTest) (reported : gset Z) : M S unit :=
  for_range (lst_Assignments (Status lt)) (λ assignment,
    for_range (la_ShardIndexes assignment) (start_one lt reported (la_SpokeID assignment))).
End Sending.

(** The shard indexes with a status ([reported]). *)
Definition reported_shards (statuses : list ReplayStatusSnapshot) : gset Z :=
  list_to_set ((λ snap, rss_ShardIndex (rsn_Summary snap)) <$> statuses).

(** ** Aggregation *)

Definition new_cell (a : LoadTestAssignment) : LoadTestCellStatus :=
  {| lcs_Name := la_Cell a; lcs_Spokes := 1; lcs_Shards := int32 (len (la_ShardIndexes a));
     lcs_SentRequests := 0; lcs_FailedRequests := 0 |}.

Definition cell_add_assignment (cellTotals : gmap string LoadTestCellStatus)
    (a : LoadTestAssignment) : gmap string LoadTestCellStatus :=
  match cellTotals !! la_Cell a with
  | None => <[la_Cell a := new_cell a]> cellTotals
  | Some cell =>
      <[la_Cell a :=
          {| lcs_Name := lcs_Name cell;
             lcs_Spokes := int32 (lcs_Spokes cell + 1);
             lcs_Shards := int32 (lcs_Shards cell + int32 (len (la_ShardIndexes a)));
             lcs_SentRequests := lcs_SentRequests cell;
             lcs_FailedRequests := lcs_FailedRequests cell |}]> cellTotals
  end.

Definition cell_add_status (s : ReplayStatusSummary) (cell : LoadTestCellStatus)
    : LoadTestCellStatus :=
  {| lcs_Name := lcs_Name cell; lcs_Spokes := lcs_Spokes cell; lcs_Shards := lcs_Shards cell;
     lcs_SentRequests := int64 (lcs_SentRequests cell + rss_SentRequests s);
     lcs_FailedRequests := int64 (lcs_FailedRequests cell + rss_FailedRequests s) |}.

(** The local variables of [aggregate]. *)
Record totals := MkTotals {
  tt_total : Z; tt_sent : Z; tt_failed : Z; tt_filtered : Z;
  tt_completed : Z; tt_failedShards : Z; tt_running : Z;
  tt_rps : float64;
  tt_cells : gmap string LoadTestCellStatus
}.

Definition count_phase (p phase : ReplayPhase) (n : Z) : Z :=
  if decide (phase = p) then int32 (n + 1) else n.

(** The body of the loop over the statuses.  A spoke that is not in the map
    reads as the empty cell name. *)
Definition add_status (spokeCells : gmap string string) (t : totals)
    (snap : ReplayStatusSnapshot) : totals :=
  let s := rsn_Summary snap in
  MkTotals
    (int64 (tt_total t + rss_TotalRequests s))
    (int64 (tt_sent t + rss_SentRequests s))
    (int64 (tt_failed t + rss_FailedRequests s))
    (int64 (tt_filtered t + rss_FilteredRequests s))
    (count_phase REPLAY_PHASE_COMPLETED (rss_Phase s) (tt_completed t))
    (count_phase REPLAY_PHASE_FAILED (rss_Phase s) (tt_failedShards t))
    (count_phase REPLAY_PHASE_RUNNING (rss_Phase s) (tt_running t))
    (f64_add (tt_rps t) (rss_AchievedRps s))
    (alter (cell_add_status s) (default "" (spokeCells !! rsn_SpokeID snap)) (tt_cells t)).

Definition spoke_cells (assignments : list LoadTestAssignment) : gmap string string :=
  foldl (λ m a, <[la_SpokeID a := la_Cell a]> m) ∅ assignments.

(** The final loop: each cell once, at its first assignment. *)
Definition collect_cell (st : list LoadTestCellStatus * gmap string LoadTestCellStatus)
    (a : LoadTestAssignment) : list LoadTestCellStatus * gmap string LoadTestCellStatus :=
  let '(cells, cellTotals) := st in
  match cellTotals !! la_Cell a with
  | Some cell => (cells ++ [cell], delete (la_Cell a) cellTotals)
  | None => (cells, cellTotals)
  end.

Definition status_totals (assignments : list LoadTestAssignment)
    (statuses : list ReplayStatusSnapshot) : totals :=
  foldl (add_status (spoke_cells assignments))
    (MkTotals 0 0 0 0 0 0 0 f64_zero (foldl cell_add_assignment ∅ assignments)) statuses.

(** The phase switch: the new phase (unchanged if no case applies), whether a
    completion time is due, and the event. *)
Definition phase_switch (st : CaptureLoadTestStatus) (running : Z)
    : string * bool * list Event :=
  let totalShards := lst_TotalShards st in
  let completed := lst_CompletedShards st in
  let failedShards := lst_FailedShards st in
  if (0 <? totalShards) && (completed =? totalShards) then
    (CaptureLoadTestPhaseCompleted, true,
     if decide (lst_Phase st ≠ CaptureLoadTestPhaseCompleted) then
       [{| ev_Type := EventTypeNormal; ev_Reason := "Completed";
           ev_Message := Fmt "all %d shards finished: %d sent, %d failed requests"
             [FInt totalShards; FInt (lst_SentRequests st); FInt (lst_FailedRequests st)] |}]
     else [])
  else if (0 <? totalShards) && (int32 (completed + failedShards) =? totalShards) then
    (CaptureLoadTestPhaseFailed, true,
     if decide (lst_Phase st ≠ CaptureLoadTestPhaseFailed) then
       [{| ev_Type := EventTypeWarning; ev_Reason := "ShardsFailed";
           ev_Message := Fmt "%d of %d shards failed" [FInt failedShards; FInt totalShards] |}]
     else [])
  else if (0 <? running) || (0 <? completed) || (0 <? failedShards) then
    (CaptureLoadTestPhaseRunning, false, [])
  else (lst_Phase st, false, []).

Definition aggregate (now : Z) (statuses : list ReplayStatusSnapshot) (lt : CaptureLoadTest)
    : CaptureLoadTest * list Event :=
  let st := Status lt in
  let t := status_totals (lst_Assignments st) statuses in
  let st := {|
    lst_Phase := lst_Phase st;
    lst_StartTime := lst_StartTime st;
    lst_CompletionTime := lst_CompletionTime st;
    lst_TotalShards := lst_TotalShards st;
    lst_AssignedSpokes := lst_AssignedSpokes st;
    lst_Assignments := lst_Assignments st;
    lst_Cells := fst (foldl collect_cell ([], tt_cells t) (lst_Assignments st));
    lst_TotalRequests := tt_total t;
    lst_SentRequests := tt_sent t;
    lst_FailedRequests := tt_failed t;
    lst_FilteredRequests := tt_filtered t;
    lst_CompletedShards := tt_completed t;
    lst_FailedShards := tt_failedShards t;
    lst_AchievedRPS :=
      if f64_gtb (tt_rps t) f64_zero then Some (FormatFloat_f1 (tt_rps t)) else lst_AchievedRPS st;
    lst_Conditions := lst_Conditions st |} in
  let '(phase, finished, events) := phase_switch st (tt_running t) in
  let st := lst_with_Phase phase st in
  let st :=
    if finished then
      match lst_CompletionTime st with
      | None => lst_with_CompletionTime (Some now) st
      | Some _ => st
      end
    else st in
  (with_Status st lt, events).

(** ** Abort policy *)

Definition abort_live (phase : string) : bool :=
  bool_decide (phase = CaptureLoadTestPhaseDistributing ∨ phase = CaptureLoadTestPhaseRunning).

(** The empty reason is [None].  [elapsed.Round(time.Second)] only shows up in
    the text. *)
Definition shouldAbort (now : Z) (lt : CaptureLoadTest) : option text :=
  let st := Status lt in
  match ls_Abort (Spec lt) with
  | None => None
  | Some policy =>
      if negb (abort_live (lst_Phase st)) then None
      else
        let too_long :=
          match lap_MaxDuration policy, lst_StartTime st with
          | Some d, Some start =>
              let elapsed := time_Sub now start in
              if d <? elapsed then
                Some (Fmt "run exceeded maxDuration %s (elapsed %s)" [FDur d; FDur elapsed])
              else None
          | _, _ => None
          end in
        match too_long with
        | Some reason => Some reason
        | None =>
            match lap_ErrorPercent policy with
            | None => None
            | Some pct =>
                let minSample := default defaultAbortMinSample (lap_MinSampleRequests policy) in
                let attempted := int64 (lst_SentRequests st + lst_FailedRequests st) in
                if minSample <=? attempted then
                  let errorPercent :=
                    f64_div (f64_mul (f64_of_Z (lst_FailedRequests st)) (f64_of_Z 100))
                      (f64_of_Z attempted) in
                  if f64_gtb errorPercent (f64_of_Z pct) then
                    Some (Fmt "error rate %.1f%% exceeded abort threshold %d%%"
                            [FFloat errorPercent; FInt pct])
                  else None
                else None
            end
        end
  end.

(** ** Reconcile *)

(** The reconciler's configuration: whether a [Recorder] is set, and
    [RequeueInterval]. *)
Record ReconcilerConfig := { cfg_Recorder : bool; cfg_RequeueInterval : Z }.

Definition requeueInterval (cfg : ReconcilerConfig) : Z :=
  if 0 <? cfg_RequeueInterval cfg then cfg_RequeueInterval cfg else defaultLoadTestRequeue.

(** The clock readings of one reconcile, in program order. *)
Record ReconcileClock := {
  clk_select : Z;      (** [SelectSpokes] *)
  clk_start : Z;       (** [StartTime] *)
  clk_aggregate : Z;   (** [CompletionTime] in [aggregate] *)
  clk_since : Z;       (** [time.Since] in [shouldAbort] *)
  clk_aborted : Z      (** [CompletionTime] of an abort *)
}.

Record rstate (W S : Type) := RState {
  r_kube : W;
  r_server : option S;
  r_events : list Event
}.
Arguments RState {W S} _ _ _.
Arguments r_kube {W S} _.
Arguments r_server {W S} _.
Arguments r_events {W S} _.

(** [(ctrl.Result, error)]. *)
Definition reconcile_result : Type := Result * option go_error.
Definition no_requeue : reconcile_result := ({| RequeueAfter := 0 |}, None).
Definition fail_with (e : go_error) : reconcile_result := ({| RequeueAfter := 0 |}, Some e).

Definition set_condition `{ConditionUtil} (c : Condition) (lt : CaptureLoadTest) : CaptureLoadTest :=
  with_Status (lst_with_Conditions (SetStatusCondition (lst_Conditions (Status lt)) c) (Status lt)) lt.
Definition set_phase (p : string) (lt : CaptureLoadTest) : CaptureLoadTest :=
  with_Status (lst_with_Phase p (Status lt)) lt.

Definition cond_false (t reason : string) (msg : text) : Condition :=
  {| cond_Type := t; cond_Status := ConditionFalse; cond_Reason := reason; cond_Message := msg |}.
Definition cond_true (t reason : string) (msg : text) : Condition :=
  {| cond_Type := t; cond_Status := ConditionTrue; cond_Reason := reason; cond_Message := msg |}.

Definition terminal_phase (phase : string) : bool :=
  bool_decide (phase ∈ [CaptureLoadTestPhaseCompleted; CaptureLoadTestPhaseFailed;
                        CaptureLoadTestPhaseAborted]).

(** The safety gate rejects the target. *)
Definition target_denied (lt : CaptureLoadTest) : bool :=
  match ls_Safety (Spec lt) with
  | Some s => negb (HostAllowed (rt_Host (ls_Target (Spec lt))) (rsf_AllowedHosts s))
  | None => false
  end.

Definition denied_status `{ConditionUtil} (lt : CaptureLoadTest) : CaptureLoadTest :=
  set_condition (cond_false LoadTestConditionTargetAllowed "TargetDenied"
    (Fmt "target host %q matches no pattern in spec.safety.allowedHosts %v"
       [FStr (rt_Host (ls_Target (Spec lt)));
        FStrs (match ls_Safety (Spec lt) with Some s => rsf_AllowedHosts s | None => [] end)]))
    (set_phase CaptureLoadTestPhaseFailed lt).

(** The status once a distribution is planned. *)
Definition planned_status `{ConditionUtil} (now : Z) (planned : list LoadTestAssignment)
    (lt : CaptureLoadTest) : CaptureLoadTest :=
  let st := lst_with_TotalShards (countShards planned)
    (lst_with_AssignedSpokes (int32 (len planned))
      (lst_with_Assignments planned
        (lst_with_StartTime (Some now)
          (lst_with_Phase CaptureLoadTestPhaseDistributing (Status lt))))) in
  set_condition (cond_true LoadTestConditionSpokesAssigned "SpokesAssigned"
    (Fmt "assigned %d shards across %d spokes" [FInt (lst_TotalShards st); FInt (len planned)]))
    (with_Status st lt).

Section Reconcile.
Context {W S : Type} {HA : HubApi S} {CU : ControllerUtil} {CD : ConditionUtil}.
Context {KC : KubeClient W CaptureLoadTestSpec CaptureLoadTestStatus} {AE : ApiErrors}.
Context (cfg : ReconcilerConfig) (clk : ReconcileClock).

Abbreviation Rec A := (M (rstate W S) A).

Definition emit (ev : Event) : Rec unit :=
  modify (λ s, RState (r_kube s) (r_server s)
                 (if cfg_Recorder cfg then r_events s ++ [ev] else r_events s)).

Definition emit_all (evs : list Event) : Rec unit := for_range evs emit.

(** A client write in the monad. *)
Definition do_Update (lt : CaptureLoadTest) : Rec (CaptureLoadTest * option go_error) := λ s,
  let '(w, r) := client_Update lt (r_kube s) in Ret (RState w (r_server s) (r_events s), r).
Definition do_StatusUpdate (lt : CaptureLoadTest) : Rec (CaptureLoadTest * option go_error) := λ s,
  let '(w, r) := client_StatusUpdate lt (r_kube s) in Ret (RState w (r_server s) (r_events s), r).

(** [if err := r.Status().Update(ctx, &lt); err != nil { return ctrl.Result{}, err }; return res, nil] *)
Definition status_then (lt : CaptureLoadTest) (res : reconcile_result) : Rec reconcile_result :=
  '(_, err) ← do_StatusUpdate lt;
  mret (match err with Some e => fail_with e | None => res end).

Definition requeue : reconcile_result := ({| RequeueAfter := requeueInterval cfg |}, None).

(** An operation on the running hub server. *)
Definition on_server {A} (op : S → go (S * A)) (srv : S) : Rec (S * A) := λ s,
  match op srv with
  | Panic => Panic
  | Ret (srv, a) => Ret (RState (r_kube s) (Some srv) (r_events s), (srv, a))
  end.

(** The deletion branch. *)
Definition reconcileDeleted (lt : CaptureLoadTest) : Rec reconcile_result :=
  if ContainsFinalizer (Meta lt) LoadTestFinalizer then
    s ← get;
    stopped ← match r_server s with
      | None => mret true
      | Some srv =>
          '(srv, ok) ← on_server (stopAllShards lt) srv;
          if ok : bool then
            _ ← on_server (λ srv, Ret (hub_ClearReplayStatuses (Namespace lt) (Name lt) srv, tt)) srv;
            mret true
          else mret false
      end;
    if stopped : bool then
      '(_, err) ← do_Update (with_Meta (RemoveFinalizer (Meta lt) LoadTestFinalizer) lt);
      mret (match err with Some e => fail_with e | None => no_requeue end)
    else mret requeue
  else mret no_requeue.

(** The tail of [Reconcile]: START directives, aggregation, abort policy. *)
Definition reconcileRun (srv : S) (lt : CaptureLoadTest) : Rec reconcile_result :=
  let statuses := hub_ReplayStatuses (Namespace lt) (Name lt) srv in
  '(srv, _) ← on_server (sendStarts lt (reported_shards statuses)) srv;
  let '(lt, events) := aggregate (clk_aggregate clk) statuses lt in
  _ ← emit_all events;
  match shouldAbort (clk_since clk) lt with
  | Some reason =>
      '(srv, ok) ← on_server (stopAllShards lt) srv;
      if ok : bool then
        let lt := with_Status (lst_with_CompletionTime (Some (clk_aborted clk))
                    (lst_with_Phase CaptureLoadTestPhaseAborted (Status lt))) lt in
        _ ← emit {| ev_Type := EventTypeWarning; ev_Reason := "Aborted"; ev_Message := reason |};
        status_then (set_condition (cond_true LoadTestConditionAborted "AbortPolicy" reason) lt)
          no_requeue
      else
        status_then (set_condition (cond_false LoadTestConditionAborted "AbortInProgress" reason) lt)
          requeue
  | None =>
      '(lt, err) ← do_StatusUpdate lt;
      match err with
      | Some e => mret (fail_with e)
      | None =>
          if bool_decide (lst_Phase (Status lt) ∈
               [CaptureLoadTestPhaseCompleted; CaptureLoadTestPhaseFailed])
          then mret no_requeue else mret requeue
      end
  end.

(** Planning, when no assignment is recorded yet. *)
Definition reconcilePlan (srv : S) (lt : CaptureLoadTest) : Rec reconcile_result :=
  if len (lst_Assignments (Status lt)) =? 0 then
    match planDistribution (clk_select clk) srv lt with
    | Panic => panic
    | Ret (Err err) =>
        status_then
          (set_condition (cond_false LoadTestConditionSpokesAssigned "NoEligibleSpokes" (ErrText err))
             (set_phase CaptureLoadTestPhasePending lt))
          requeue
    | Ret (Ok planned) =>
        _ ← emit {| ev_Type := EventTypeNormal; ev_Reason := "ShardsDistributed";
                    ev_Message := Fmt "assigned %d shards across %d spokes"
                      [FInt (countShards planned); FInt (len planned)] |};
        '(lt, err) ← do_StatusUpdate (planned_status (clk_start clk) planned lt);
        match err with
        | Some e => mret (fail_with e)
        | None => reconcileRun srv lt
        end
    end
  else reconcileRun srv lt.

(** After the finalizer is in place. *)
Definition reconcileLive (lt : CaptureLoadTest) : Rec reconcile_result :=
  if terminal_phase (lst_Phase (Status lt)) then mret no_requeue
  else if target_denied lt then
    _ ← emit {| ev_Type := EventTypeWarning; ev_Reason := "TargetDenied";
                ev_Message := Fmt "target host %q matches no pattern in spec.safety.allowedHosts"
                  [FStr (rt_Host (ls_Target (Spec lt)))] |};
    status_then (denied_status lt) no_requeue
  else
    s ← get;
    match r_server s with
    | None =>
        status_then
          (set_condition (cond_false LoadTestConditionSpokesAssigned "HubNotReady"
                            (Fmt "hub gRPC server is not running" []))
             (set_phase CaptureLoadTestPhasePending lt))
          requeue
    | Some srv => reconcilePlan srv lt
    end.

Definition Reconcile (namespace name : string) : Rec reconcile_result :=
  s ← get;
  match client_Get namespace name (r_kube s) with
  | Err e => mret ({| RequeueAfter := 0 |}, IgnoreNotFound e)
  | Ok lt =>
      if decide (om_DeletionTimestamp (Meta lt) ≠ None) then reconcileDeleted lt
      else if ContainsFinalizer (Meta lt) LoadTestFinalizer then reconcileLive lt
      else
        '(lt, err) ← do_Update (with_Meta (AddFinalizer (Meta lt) LoadTestFinalizer) lt);
        match err with
        | Some e => mret (fail_with e)
        | None => reconcileLive lt
        end
  end.
End Reconcile.
