(* ===== verification/LoadTestPlan.v ===== *)
(** * Planning, rates and aggregation of a load test

    The pure parts of [loadtest_controller.go]: how shards are numbered and
    assigned, how an aggregate rate is split, how shard statuses are rolled up
    and when the phase moves. *)

From S2P Require Import Prelude GoStd Kube Api HubProto HubServer HubInvariant HubQueries Safety LoadTest.

Local Open Scope Z_scope.

(** ** Shard numbering *)

Lemma len_seqZ m n : 0 <= n → len (seqZ m n) = n.
Proof. intros. unfold len. rewrite length_seqZ. lia. Qed.

Lemma len_spoke_indexes next workers : 0 <= workers → len (spoke_indexes next workers) = workers.
Proof. intros. unfold spoke_indexes, len. rewrite length_fmap. apply (len_seqZ 0). done. Qed.

(** Without 32-bit overflow the indexes of one spoke are consecutive. *)
Lemma spoke_indexes_seqZ next workers :
  0 <= next → next + workers <= 2 ^ 31 → spoke_indexes next workers = seqZ next workers.
Proof.
  intros Hn Hw. unfold spoke_indexes. destruct (decide (0 <= workers)).
  - transitivity (Z.add next <$> seqZ 0 workers).
    + apply list_fmap_ext. intros i w Hi%lookup_seqZ. apply int32_id. unfold in_int32. lia.
    + rewrite fmap_add_seqZ. f_equal. lia.
  - by rewrite !seqZ_nil by lia.
Qed.

Lemma assign_spokes_flat workers next spokes :
  0 <= workers → 0 <= next → next + len spokes * workers < 2 ^ 31 →
  assign_spokes workers next spokes ≫= la_ShardIndexes = seqZ next (len spokes * workers).
Proof.
  intros Hw. revert next. induction spokes as [|sp spokes IH]; intros next Hn Hb.
  { unfold len. simpl. by rewrite seqZ_nil by lia. }
  assert (len (sp :: spokes) = 1 + len spokes) as Hl by (unfold len; simpl length; lia).
  rewrite Hl in *. cbn [assign_spokes mbind list_bind]. simpl la_ShardIndexes.
  pose proof (len_nonneg spokes).
  rewrite spoke_indexes_seqZ by nia. rewrite int32_id by (unfold in_int32; nia).
  change (list_bind _ _ la_ShardIndexes ?l) with (l ≫= la_ShardIndexes).
  rewrite IH by nia. rewrite <- seqZ_app by nia. f_equal. lia.
Qed.

Lemma assign_spokes_ids workers next spokes :
  (λ a, (la_SpokeID a, la_Cell a)) <$> assign_spokes workers next spokes
  = (λ s, (sel_SpokeID s, sel_Cell s)) <$> spokes.
Proof. revert next. induction spokes; intros next; simpl; f_equal; auto. Qed.

Lemma assign_spokes_each workers next spokes a :
  0 <= workers → a ∈ assign_spokes workers next spokes → len (la_ShardIndexes a) = workers.
Proof.
  intros Hw. revert next. induction spokes as [|sp spokes IH]; intros next; simpl; [set_solver|].
  intros [->|Hin]%elem_of_cons; [by apply len_spoke_indexes|eauto].
Qed.

Lemma sumZ_shards assignments :
  sumZ (λ a, len (la_ShardIndexes a)) assignments = len (assignments ≫= la_ShardIndexes).
Proof.
  induction assignments as [|a l IH]; [done|]. rewrite sumZ_cons, IH.
  cbn [mbind list_bind]. by rewrite len_app.
Qed.

Lemma countShards_flat assignments :
  countShards assignments = int32 (len (assignments ≫= la_ShardIndexes)).
Proof.
  rewrite <- sumZ_shards, <- (Z.add_0_l (sumZ _ _)), <- foldl_int32_sum, int32_0.
  apply foldl_pointwise. intros c a. apply int32_add_r.
Qed.

(** ** Rates *)

Definition shard_rates (totalRPS shardCount : Z) : list Z :=
  splitRate totalRPS shardCount <$> seqZ 0 shardCount.

Lemma sumZ_below r n :
  0 <= r <= n → sumZ (λ i, if i <? r then 1 else 0) (seqZ 0 n) = r.
Proof.
  intros Hr. replace n with (r + (n - r)) by lia. rewrite seqZ_app, sumZ_app by lia.
  rewrite (sumZ_ext _ (λ _, 1) (seqZ 0 r)), (sumZ_ext _ (λ _, 0) (seqZ (0 + r) _)).
  - rewrite !sumZ_const, !len_seqZ by lia. lia.
  - intros i Hi%elem_of_seqZ. destruct (i <? r) eqn:E; zbool; lia.
  - intros i Hi%elem_of_seqZ. destruct (i <? r) eqn:E; zbool; lia.
Qed.

Lemma splitRate_eq totalRPS shardCount shard :
  0 < shardCount <= totalRPS → in_int32 totalRPS → 0 <= shard →
  splitRate totalRPS shardCount shard
  = totalRPS / shardCount + (if shard <? totalRPS mod shardCount then 1 else 0).
Proof.
  intros Hc Hi Hsh. unfold splitRate. unfold in_int32 in Hi.
  replace (shardCount <=? 0) with false by (symmetry; apply Z.leb_gt; lia).
  rewrite Z.quot_div_nonneg, Z.rem_mod_nonneg by lia.
  assert (1 <= totalRPS / shardCount) by (apply Z.div_le_lower_bound; lia).
  assert (totalRPS / shardCount * shardCount + totalRPS mod shardCount = totalRPS) as Hdm
    by (rewrite (Z.div_mod totalRPS shardCount) at 3; lia).
  assert (0 <= totalRPS mod shardCount < shardCount) as Hm by (apply Z.mod_pos_bound; lia).
  rewrite (int32_id (totalRPS / shardCount)) by (unfold in_int32; nia).
  destruct (shard <? _) eqn:Hs; zbool.
  - rewrite int32_id by (unfold in_int32; nia). destruct (_ <? 1) eqn:E; zbool; lia.
  - destruct (_ <? 1) eqn:E; zbool; lia.
Qed.

(** Fewer requests per second than shards: everybody gets one. *)
Lemma splitRate_small totalRPS shardCount shard :
  0 <= totalRPS < shardCount → in_int32 totalRPS → splitRate totalRPS shardCount shard = 1.
Proof.
  intros Hc Hi. unfold splitRate. unfold in_int32 in Hi.
  replace (shardCount <=? 0) with false by (symmetry; apply Z.leb_gt; lia).
  rewrite Z.quot_div_nonneg, Z.div_small by lia. rewrite int32_0. by destruct (shard <? _).
Qed.

(** ** Roll-up of shard statuses *)

Definition assigned_in (name : string) (assignments : list LoadTestAssignment) :=
  List.filter (λ a, bool_decide (la_Cell a = name)) assignments.

(** The cell a status is accounted to. *)
Definition snap_cell (assignments : list LoadTestAssignment) (snap : ReplayStatusSnapshot) : string :=
  default "" (spoke_cells assignments !! rsn_SpokeID snap).

Definition reported_in (assignments : list LoadTestAssignment) (name : string)
    (statuses : list ReplayStatusSnapshot) : list ReplayStatusSnapshot :=
  List.filter (λ snap, bool_decide (snap_cell assignments snap = name)) statuses.

(** What the status of a cell must say. *)
Definition cell_rollup (assignments : list LoadTestAssignment)
    (statuses : list ReplayStatusSnapshot) (name : string) : LoadTestCellStatus :=
  let members := assigned_in name assignments in
  let snaps := reported_in assignments name statuses in
  {| lcs_Name := name;
     lcs_Spokes := int32 (len members);
     lcs_Shards := int32 (sumZ (λ a, len (la_ShardIndexes a)) members);
     lcs_SentRequests := int64 (sumZ (λ s, rss_SentRequests (rsn_Summary s)) snaps);
     lcs_FailedRequests := int64 (sumZ (λ s, rss_FailedRequests (rsn_Summary s)) snaps) |}.

(** The elements of a list at their first occurrence. *)
Fixpoint first_occurrences (seen l : list string) : list string :=
  match l with
  | [] => []
  | x :: l => if decide (x ∈ seen) then first_occurrences seen l
              else x :: first_occurrences (x :: seen) l
  end.

Lemma assigned_in_snoc name l a :
  assigned_in name (l ++ [a])
  = assigned_in name l ++ (if bool_decide (la_Cell a = name) then [a] else []).
Proof. unfold assigned_in. rewrite List.filter_app. simpl. by case_bool_decide. Qed.

Lemma cell_add_assignment_lookup assignments name :
  foldl cell_add_assignment ∅ assignments !! name =
  match assigned_in name assignments with
  | [] => None
  | _ => Some (cell_rollup assignments [] name)
  end.
Proof.
  induction assignments as [|a l IH] using rev_ind; [done|].
  unfold cell_rollup in *. rewrite foldl_app, assigned_in_snoc. simpl.
  set (m := foldl cell_add_assignment ∅ l) in *.
  unfold cell_add_assignment. case_bool_decide as Hc; subst.
  - rewrite IH. destruct (assigned_in (la_Cell a) l) as [|b bs] eqn:Hb;
      rewrite lookup_insert_eq.
    { unfold new_cell. simpl. by rewrite sumZ_cons, sumZ_nil, Z.add_0_r. }
    cbn [app]. f_equal. simpl. f_equal.
    + rewrite int32_add_l. f_equal. unfold len. simpl. rewrite length_app. simpl. lia.
    + autorewrite with kapture. f_equal. change (b :: bs ++ [a]) with ((b :: bs) ++ [a]).
      rewrite sumZ_app, (sumZ_cons _ a), sumZ_nil. lia.
  - rewrite app_nil_r. destruct (m !! la_Cell a); by rewrite lookup_insert_ne.
Qed.

Lemma status_totals_snoc assignments statuses snap :
  status_totals assignments (statuses ++ [snap])
  = add_status (spoke_cells assignments) (status_totals assignments statuses) snap.
Proof. unfold status_totals. by rewrite foldl_app. Qed.

Lemma status_totals_cells assignments statuses name :
  tt_cells (status_totals assignments statuses) !! name =
  match assigned_in name assignments with
  | [] => None
  | _ => Some (cell_rollup assignments statuses name)
  end.
Proof.
  induction statuses as [|snap statuses IH] using rev_ind.
  { apply cell_add_assignment_lookup. }
  rewrite status_totals_snoc. unfold add_status. simpl. fold (snap_cell assignments snap).
  unfold cell_rollup, reported_in in *. rewrite List.filter_app. simpl.
  case_bool_decide as Hn.
  - subst name. rewrite lookup_alter_eq, IH. destruct (assigned_in _ _); [done|].
    simpl. f_equal. unfold cell_add_status. simpl.
    rewrite !int64_add_l, !sumZ_app, !sumZ_cons, !sumZ_nil. repeat f_equal; lia.
  - rewrite lookup_alter_ne, IH, app_nil_r by done. done.
Qed.

Lemma status_totals_sums assignments statuses :
  let t := status_totals assignments statuses in
  tt_total t = int64 (sumZ (λ s, rss_TotalRequests (rsn_Summary s)) statuses) ∧
  tt_sent t = int64 (sumZ (λ s, rss_SentRequests (rsn_Summary s)) statuses) ∧
  tt_failed t = int64 (sumZ (λ s, rss_FailedRequests (rsn_Summary s)) statuses) ∧
  tt_filtered t = int64 (sumZ (λ s, rss_FilteredRequests (rsn_Summary s)) statuses).
Proof.
  induction statuses as [|snap statuses IH] using rev_ind; [done|].
  rewrite status_totals_snoc. destruct IH as (H1 & H2 & H3 & H4).
  unfold add_status. cbn [tt_total tt_sent tt_failed tt_filtered].
  rewrite H1, H2, H3, H4, !int64_add_l, !sumZ_app, !sumZ_cons, !sumZ_nil.
  split_and!; f_equal; lia.
Qed.

Definition in_phase (p : ReplayPhase) (statuses : list ReplayStatusSnapshot) : Z :=
  len (List.filter (λ s, bool_decide (rss_Phase (rsn_Summary s) = p)) statuses).

Lemma in_phase_snoc p statuses snap :
  in_phase p (statuses ++ [snap])
  = in_phase p statuses + (if decide (rss_Phase (rsn_Summary snap) = p) then 1 else 0).
Proof.
  unfold in_phase. rewrite List.filter_app, len_app. simpl.
  case_bool_decide; case_decide; unfold len; simpl; done.
Qed.

Lemma status_totals_counts assignments statuses :
  let t := status_totals assignments statuses in
  tt_completed t = int32 (in_phase REPLAY_PHASE_COMPLETED statuses) ∧
  tt_failedShards t = int32 (in_phase REPLAY_PHASE_FAILED statuses) ∧
  tt_running t = int32 (in_phase REPLAY_PHASE_RUNNING statuses).
Proof.
  induction statuses as [|snap statuses IH] using rev_ind; [done|].
  rewrite status_totals_snoc, !in_phase_snoc. destruct IH as (H1 & H2 & H3).
  unfold add_status. cbn [tt_completed tt_failedShards tt_running]. unfold count_phase.
  rewrite H1, H2, H3. repeat case_decide; rewrite ?int32_add_l, ?Z.add_0_r; done.
Qed.

Lemma collect_cells_spec (m : gmap string LoadTestCellStatus) seen acc assignments f :
  (∀ a, a ∈ assignments → m !! la_Cell a =
     if decide (la_Cell a ∈ seen) then None else Some (f (la_Cell a))) →
  fst (foldl collect_cell (acc, m) assignments)
  = acc ++ (f <$> first_occurrences seen (la_Cell <$> assignments)).
Proof.
  revert m seen acc. induction assignments as [|a l IH]; intros m seen acc Hm.
  { simpl. by rewrite app_nil_r. }
  cbn [foldl fmap list_fmap first_occurrences]. unfold collect_cell at 2.
  rewrite (Hm a) by set_solver. case_decide as Hd.
  - apply IH. set_solver.
  - rewrite (IH _ (la_Cell a :: seen)).
    + rewrite <- app_assoc. done.
    + intros b Hb. destruct (decide (la_Cell b = la_Cell a)) as [->|Hne].
      * by rewrite lookup_delete_eq, decide_True by set_solver.
      * rewrite lookup_delete_ne, Hm by set_solver. do 2 case_decide; set_solver.
Qed.

Lemma aggregate_cells now statuses lt :
  lst_Cells (Status (fst (aggregate now statuses lt)))
  = cell_rollup (lst_Assignments (Status lt)) statuses
    <$> first_occurrences [] (la_Cell <$> lst_Assignments (Status lt)).
Proof.
  transitivity (fst (foldl collect_cell
    ([], tt_cells (status_totals (lst_Assignments (Status lt)) statuses)) (lst_Assignments (Status lt)))).
  { unfold aggregate. destruct (phase_switch _ _) as [[phase finished] evs].
    destruct finished; [|done]. simpl. by destruct (lst_CompletionTime (Status lt)). }
  apply (collect_cells_spec _ [] []). intros a Ha. rewrite status_totals_cells.
  rewrite decide_False by apply not_elem_of_nil.
  destruct (assigned_in _ _) eqn:He; [|done].
  assert (a ∈ assigned_in (la_Cell a) (lst_Assignments (Status lt))) as Hin.
  { apply elem_of_filter_bool. by rewrite bool_decide_eq_true. }
  rewrite He in Hin. by apply elem_of_nil in Hin.
Qed.

(** ** Theorems *)

(** A plan partitions the shards.  When [planDistribution] succeeds it
    assigns one entry per selected spoke, in selection order, each with exactly
    [workersPerSpoke] shards, and the shard indexes over all spokes are
    [0, 1, ..., n-1], each exactly once, where [n] is the [TotalShards] recorded
    in the status; it fails exactly when no spoke is eligible. *)
Theorem plan_partitions_shards {S} {HA : HubApi S} now (srv : S) lt :
  let spokes := hub_SelectSpokes now (dist_cells lt) (dist_maxSpokes lt) srv in
  0 <= dist_workers lt → len spokes * dist_workers lt < 2 ^ 31 →
  (spokes = [] ∧ ∃ err, planDistribution now srv lt = Ret (Err err)) ∨
  ∃ plan, planDistribution now srv lt = Ret (Ok plan) ∧
    (λ a, (la_SpokeID a, la_Cell a)) <$> plan = (λ s, (sel_SpokeID s, sel_Cell s)) <$> spokes ∧
    (∀ a, a ∈ plan → len (la_ShardIndexes a) = dist_workers lt) ∧
    countShards plan = len spokes * dist_workers lt ∧
    plan ≫= la_ShardIndexes = seqZ 0 (countShards plan).
Proof.
  intros spokes Hw Hb. unfold planDistribution. fold spokes.
  destruct (len spokes =? 0) eqn:Hz.
  { left. apply Z.eqb_eq, len_nil_iff in Hz. split; [done|]. case_match; eauto. }
  right. replace (dist_workers lt <? 0) with false by (symmetry; apply Z.ltb_ge; lia).
  pose proof (len_nonneg spokes).
  assert (assign_spokes (dist_workers lt) 0 spokes ≫= la_ShardIndexes
          = seqZ 0 (len spokes * dist_workers lt)) as Hflat by (apply assign_spokes_flat; nia).
  assert (countShards (assign_spokes (dist_workers lt) 0 spokes) = len spokes * dist_workers lt) as Hc.
  { rewrite countShards_flat, Hflat, len_seqZ by nia. apply int32_id. unfold in_int32. nia. }
  eexists. split; [done|]. rewrite Hc. split_and!; [apply assign_spokes_ids| |done|done].
  intros a. by apply assign_spokes_each.
Qed.

(** C37: rate splitting.  The rates of the shards are all at least one and
    within one of each other, and they sum to the configured aggregate whenever
    that is at least the number of shards; with fewer requests per second than
    shards every shard gets one, so the sum is the number of shards and exceeds
    the aggregate. *)
Theorem split_rate_sum totalRPS shardCount :
  0 < shardCount → 0 <= totalRPS → in_int32 totalRPS →
  (∀ i j, i ∈ shard_rates totalRPS shardCount → j ∈ shard_rates totalRPS shardCount →
     1 <= i ∧ Z.abs (i - j) <= 1) ∧
  sumZ (λ r, r) (shard_rates totalRPS shardCount) = Z.max totalRPS shardCount.
Proof.
  intros Hc Ht Hi. unfold shard_rates. destruct (decide (totalRPS < shardCount)) as [Hlt|Hge].
  - assert (splitRate totalRPS shardCount <$> seqZ 0 shardCount = (λ _, 1) <$> seqZ 0 shardCount) as ->.
    { apply list_fmap_ext. intros. by apply splitRate_small. }
    rewrite sumZ_fmap. split.
    + intros i j (? & -> & _)%list_elem_of_fmap (? & -> & _)%list_elem_of_fmap. lia.
    + change ((λ r, r) ∘ (λ _ : Z, 1)) with (λ _ : Z, 1). rewrite sumZ_const, len_seqZ; lia.
  - assert (∀ i, i ∈ seqZ 0 shardCount → splitRate totalRPS shardCount i
      = totalRPS / shardCount + (if i <? totalRPS mod shardCount then 1 else 0)) as Heq.
    { intros i Hin%elem_of_seqZ. apply splitRate_eq; [lia|done|lia]. }
    assert (1 <= totalRPS / shardCount) by (apply Z.div_le_lower_bound; lia). split.
    + intros i j (a & -> & Ha)%list_elem_of_fmap (b & -> & Hb)%list_elem_of_fmap.
      rewrite !Heq by done. repeat case_match; lia.
    + rewrite sumZ_fmap. change ((λ r, r) ∘ splitRate totalRPS shardCount)
        with (splitRate totalRPS shardCount). rewrite (sumZ_ext _ _ _ Heq), sumZ_add, sumZ_const, len_seqZ by lia.
      rewrite sumZ_below by (pose proof (Z.mod_pos_bound totalRPS shardCount); lia).
      rewrite Z.max_l by lia. pose proof (Z.div_mod totalRPS shardCount). lia.
Qed.

(** Aggregation.  The request totals of the status are the (64-bit wrapped)
    sums over the reported shards, the completed and failed counters are the
    numbers of shards reported in those phases, and [Cells] lists each cell of
    the assignment once, in assignment order, with the number of its spokes and
    shards and the sums over the statuses of its own spokes; nothing else of
    the assignment changes. *)
Theorem aggregate_totals now statuses lt :
  let assignments := lst_Assignments (Status lt) in
  let lt' := fst (aggregate now statuses lt) in
  let st := Status lt' in
  lst_TotalRequests st = int64 (sumZ (λ s, rss_TotalRequests (rsn_Summary s)) statuses) ∧
  lst_SentRequests st = int64 (sumZ (λ s, rss_SentRequests (rsn_Summary s)) statuses) ∧
  lst_FailedRequests st = int64 (sumZ (λ s, rss_FailedRequests (rsn_Summary s)) statuses) ∧
  lst_FilteredRequests st = int64 (sumZ (λ s, rss_FilteredRequests (rsn_Summary s)) statuses) ∧
  lst_CompletedShards st = int32 (in_phase REPLAY_PHASE_COMPLETED statuses) ∧
  lst_FailedShards st = int32 (in_phase REPLAY_PHASE_FAILED statuses) ∧
  lst_Cells st = cell_rollup assignments statuses
                 <$> first_occurrences [] (la_Cell <$> assignments) ∧
  lst_Assignments st = assignments ∧ lst_TotalShards st = lst_TotalShards (Status lt) ∧
  Meta lt' = Meta lt ∧ Spec lt' = Spec lt.
Proof.
  intros assignments lt' st. pose proof (aggregate_cells now statuses lt) as Hcells.
  destruct (status_totals_sums assignments statuses) as (H1 & H2 & H3 & H4).
  destruct (status_totals_counts assignments statuses) as (H5 & H6 & _).
  rewrite <- H1, <- H2, <- H3, <- H4, <- H5, <- H6. subst assignments.
  split_and!; try exact Hcells; subst st lt'; unfold aggregate;
    destruct (phase_switch _ _) as [[phase finished] evs]; destruct finished; simpl;
    destruct (lst_CompletionTime (Status lt)); reflexivity.
Qed.

(** Phase transitions of a run.  With a positive number of shards (and no
    more shard statuses than fit an [int32]) [aggregate] moves the load test to
    Completed exactly when every shard completed, to Failed exactly when every
    shard ended and at least one failed, to Running when some shard is running
    or ended but not all ended, and otherwise leaves the phase; a completion
    time is set on the two terminal phases. *)
Theorem aggregate_phase now statuses lt :
  let n := lst_TotalShards (Status lt) in
  let c := in_phase REPLAY_PHASE_COMPLETED statuses in
  let f := in_phase REPLAY_PHASE_FAILED statuses in
  let r := in_phase REPLAY_PHASE_RUNNING statuses in
  let st := Status (fst (aggregate now statuses lt)) in
  0 < n → len statuses < 2 ^ 31 →
  lst_Phase st =
    (if decide (c = n) then CaptureLoadTestPhaseCompleted
     else if decide (c + f = n) then CaptureLoadTestPhaseFailed
     else if decide (0 < r + c + f) then CaptureLoadTestPhaseRunning
     else lst_Phase (Status lt)) ∧
  (c = n ∨ c + f = n → lst_CompletionTime st ≠ None).
Proof.
  intros n c f r st Hn Hlen.
  destruct (status_totals_counts (lst_Assignments (Status lt)) statuses) as (Hc & Hf & Hr).
  assert (c + f <= len statuses ∧ 0 <= c ∧ 0 <= f ∧ 0 <= r ∧ r <= len statuses)
    as (Hcf & ? & ? & ? & ?).
  { subst c f r. clear. unfold in_phase. induction statuses as [|s l IH]; [done|].
    destruct IH as (? & ? & ? & ? & ?). simpl.
    repeat case_bool_decide; try congruence; unfold len in *; simpl length in *; lia. }
  fold c in Hc. fold f in Hf. fold r in Hr.
  rewrite int32_id in Hc, Hf, Hr by (unfold in_int32; lia).
  subst st. unfold aggregate, phase_switch. simpl. rewrite Hc, Hf, Hr. fold n.
  rewrite (int32_id (c + f)) by (unfold in_int32; lia).
  replace (0 <? n) with true by (symmetry; apply Z.ltb_lt; lia). simpl.
  destruct (Z.eqb_spec c n), (decide (c = n)); try done.
  { simpl. destruct (lst_CompletionTime (Status lt)) eqn:E; simpl; split; [done| |done|];
      intros _; simpl; congruence. }
  destruct (Z.eqb_spec (c + f) n), (decide (c + f = n)); try done.
  { simpl. destruct (lst_CompletionTime (Status lt)) eqn:E; simpl; split; [done| |done|];
      intros _; simpl; congruence. }
  destruct ((0 <? r) || (0 <? c) || (0 <? f)) eqn:Hb; simpl.
  - rewrite !orb_true_iff, !Z.ltb_lt in Hb.
    destruct (decide (0 < r + c + f)); [split; [done|lia]|lia].
  - zbool. destruct (decide (0 < r + c + f)); [lia|split; [done|lia]].
Qed.

(** The abort policy is applied only to a live run that has a policy, only
    after [maxDuration] or on an evaluated error rate, and the error rate is
    evaluated only once [minSampleRequests] requests (100 by default) were
    attempted. *)
Theorem abort_only_when_due now lt reason :
  shouldAbort now lt = Some reason →
  ∃ policy, ls_Abort (Spec lt) = Some policy ∧
    lst_Phase (Status lt) ∈ [CaptureLoadTestPhaseDistributing; CaptureLoadTestPhaseRunning] ∧
    ((∃ d start, lap_MaxDuration policy = Some d ∧ lst_StartTime (Status lt) = Some start ∧
        d < time_Sub now start) ∨
     (∃ pct, lap_ErrorPercent policy = Some pct ∧
        default 100 (lap_MinSampleRequests policy)
          <= int64 (lst_SentRequests (Status lt) + lst_FailedRequests (Status lt)) ∧
        f64_gtb (f64_div (f64_mul (f64_of_Z (lst_FailedRequests (Status lt))) (f64_of_Z 100))
           (f64_of_Z (int64 (lst_SentRequests (Status lt) + lst_FailedRequests (Status lt)))))
           (f64_of_Z pct) = true)).
Proof.
  unfold shouldAbort. destruct (ls_Abort (Spec lt)) as [policy|]; [|done].
  unfold abort_live. case_bool_decide as Hp; [|done]. intros Hs. exists policy.
  split_and!; [done|set_solver|].
  assert (∀ x, (match lap_ErrorPercent policy with None => None | Some pct => x pct end) = Some reason →
    ∃ pct, lap_ErrorPercent policy = Some pct ∧ x pct = Some reason) as Hpct.
  { intros x Hx. destruct (lap_ErrorPercent policy); [eauto|done]. }
  simpl in Hs. destruct (lap_MaxDuration policy) as [d|], (lst_StartTime (Status lt)) as [start|].
  1: destruct (d <? time_Sub now start) eqn:Hd; [left; zbool; eauto|].
  all: right; apply Hpct in Hs as (pct & -> & Hs); exists pct; split; [done|];
    destruct (_ <=? int64 _) eqn:Hm; [|done]; zbool;
    destruct (f64_gtb _ _) eqn:Hg; [|done]; done.
Qed.

(** ** Witnesses *)

Definition demo_policy : LoadTestAbortPolicy :=
  {| lap_MaxDuration := Some (60 * Second); lap_ErrorPercent := None; lap_MinSampleRequests := None |}.

Definition demo_spec (allowed : list string) : CaptureLoadTestSpec :=
  {| ls_SourceRef := {| tcr_Name := "shop" |}; ls_StorageRef := {| csr_Name := "s3" |};
     ls_Target := {| rt_Host := "api.staging.internal"; rt_Port := None; rt_TLS := None |};
     ls_Rate := Some {| rrc_Mode := ReplayRateModeConstant; rrc_RequestsPerSecond := Some 5;
                        rrc_TimeScale := None |};
     ls_Filters := None;
     ls_Distribution := Some {| ld_Cells := []; ld_MaxSpokes := None; ld_WorkersPerSpoke := Some 2;
                                ld_ConcurrencyPerWorker := None; ld_Presharded := None |};
     ls_Abort := Some demo_policy; ls_Engine := None;
     ls_Safety := Some {| rsf_AllowedHosts := allowed |} |}.

Definition demo_status (phase : string) : CaptureLoadTestStatus :=
  {| lst_Phase := phase; lst_StartTime := None; lst_CompletionTime := None; lst_TotalShards := 0;
     lst_AssignedSpokes := 0; lst_Assignments := []; lst_Cells := []; lst_TotalRequests := 0;
     lst_SentRequests := 0; lst_FailedRequests := 0; lst_FilteredRequests := 0;
     lst_CompletedShards := 0; lst_FailedShards := 0; lst_AchievedRPS := None; lst_Conditions := [] |}.

Definition demo_meta (finalizers : list string) (deleted : option Z) : ObjectMeta :=
  MkObjectMeta "lt" "prod" "" ∅ ∅ finalizers [] 0 deleted 0.

Definition demo_loadtest (finalizers : list string) (deleted : option Z) (allowed : list string)
    (phase : string) : CaptureLoadTest :=
  MkObject (demo_meta finalizers deleted) (demo_spec allowed) (demo_status phase).

(** A load test that ran for longer than its maximum duration on two spokes. *)
Definition demo_running (deleted : option Z) : CaptureLoadTest :=
  let plan := [{| la_SpokeID := "a"; la_Cell := "east"; la_ShardIndexes := [0; 1] |};
               {| la_SpokeID := "b"; la_Cell := "west"; la_ShardIndexes := [2; 3] |}] in
  with_Status (lst_with_StartTime (Some 0) (lst_with_TotalShards 4 (lst_with_AssignedSpokes 2
    (lst_with_Assignments plan (demo_status CaptureLoadTestPhaseRunning)))))
    (demo_loadtest [LoadTestFinalizer] deleted ["*.staging.internal"] "").


#[local] Existing Instance canonical_range.

#[local] Instance demo_server_api : HubApi Server := {
  hub_SelectSpokes := SelectSpokes;
  hub_SendReplayDirective := SendReplayDirective;
  hub_ReplayStatuses := ReplayStatuses;
  hub_ClearReplayStatuses := ClearReplayStatuses
}.

Lemma split_rate_sum_witness :
  sumZ (λ r, r) (shard_rates 10 4) = 10 ∧ sumZ (λ r, r) (shard_rates 3 4) = 4.
Proof.
  split.
  - apply (split_rate_sum 10 4); [lia|lia|]. unfold in_int32. lia.
  - apply (split_rate_sum 3 4); [lia|lia|]. unfold in_int32. lia.
Defined.

Definition demo_snapshot (shard : Z) (phase : ReplayPhase) : ReplayStatusSnapshot :=
  {| rsn_SpokeID := "a"; rsn_Cell := "east"; rsn_Summary :=
       {| rss_LoadTestName := "lt"; rss_LoadTestNamespace := "prod"; rss_ReplayName := "lt-shard";
          rss_ShardIndex := shard; rss_ShardCount := 4; rss_Phase := phase;
          rss_TotalRequests := 10; rss_SentRequests := 9; rss_FailedRequests := 1;
          rss_FilteredRequests := 0; rss_AchievedRps := f64_of_Z 3; rss_P50LatencyMs := 1;
          rss_P95LatencyMs := 2; rss_P99LatencyMs := 3; rss_Message := "" |} |}.

