(* ===== verification/LoadTestReconcile.v ===== *)
(** * Reconciling a load test

    Theorems about the whole [Reconcile] of [loadtest_controller.go], proved
    against the interface [HubLaws] of the hub server, which the server of
    [HubServer] implements ([server_hub_laws]), and against the laws of the
    Kubernetes client. *)

From S2P Require Import Prelude GoStd Kube Api HubProto HubServer HubInvariant HubQueries Safety.
From S2P Require Import LoadTest LoadTestPlan.

Local Open Scope Z_scope.

(** ** What the hub server promises to the coordinator *)

Definition replay_msg (d : ReplayDirective) : WatchDirectivesResponse :=
  {| wdr_Directive := None; wdr_ReplayDirective := Some d |}.

(** [hub_queue s id] is the directive queue of the entry registered for [id]
    ([None] while the spoke is not registered).  Sending appends to that queue
    or reports why not, and has no other effect on queues and statuses. *)
Class HubLaws (S : Type) {HA : HubApi S} := {
  hub_valid : S → Prop;
  hub_queue : S → string → option (list WatchDirectivesResponse);
  select_law : ∀ now cells max s,
    NoDup (sel_SpokeID <$> hub_SelectSpokes now cells max s);
  send_law : ∀ id d s, hub_valid s →
    ∃ s' r, hub_SendReplayDirective id (Some d) s = Ret (s', r) ∧ hub_valid s' ∧
      (∀ ns n, hub_ReplayStatuses ns n s' = hub_ReplayStatuses ns n s) ∧
      (∀ id', id' ≠ id → hub_queue s' id' = hub_queue s id') ∧
      match r with
      | None => ∃ q, hub_queue s id = Some q ∧ hub_queue s' id = Some (q ++ [replay_msg d])
      | Some err => hub_queue s' id = hub_queue s id ∧
                    (status_Code err = NotFound → hub_queue s id = None)
      end;
  clear_law : ∀ ns n s, hub_valid s →
    hub_valid (hub_ClearReplayStatuses ns n s) ∧
    hub_ReplayStatuses ns n (hub_ClearReplayStatuses ns n s) = [] ∧
    (∀ id, hub_queue (hub_ClearReplayStatuses ns n s) id = hub_queue s id)
}.

(** ** The hub server implements it *)

Section ServerInstance.
Context {MR : MapRange}.

#[global] Instance server_hub : HubApi Server := {
  hub_SelectSpokes := SelectSpokes;
  hub_SendReplayDirective := SendReplayDirective;
  hub_ReplayStatuses := ReplayStatuses;
  hub_ClearReplayStatuses := ClearReplayStatuses
}.

Definition spoke_queue (s : Server) (id : string) : option (list WatchDirectivesResponse) :=
  l ← sv_spokes s !! id; queue_of s l.

Lemma range_spokes_update l e e' s :
  sv_entries s !! l = Some e →
  range_spokes (set_entries (<[l := e']>) s)
  = (λ '(id, x), (id, if decide (sv_spokes s !! id = Some l) then e' else x)) <$> range_spokes s.
Proof.
  intros He. unfold range_spokes. simpl.
  assert (∀ id k, (id, k) ∈ go_range (sv_spokes s) → sv_spokes s !! id = Some k) as Hall
    by (intros ??; apply elem_of_go_range).
  induction (go_range (sv_spokes s)) as [|[id k] r IH]; [done|]. simpl.
  assert (sv_spokes s !! id = Some k) as Hk by (apply Hall; set_solver).
  destruct (decide (k = l)) as [->|Hne].
  - rewrite lookup_insert_eq, He. simpl. rewrite decide_True by done. f_equal.
    apply IH. intros; apply Hall; set_solver.
  - rewrite lookup_insert_ne by done. destruct (sv_entries s !! k); simpl.
    + rewrite decide_False by congruence. f_equal. apply IH. intros; apply Hall; set_solver.
    + apply IH. intros; apply Hall; set_solver.
Qed.

(** Queueing a directive does not change what the statuses read. *)
Lemma ReplayStatuses_push resp l e s ns n :
  sv_entries s !! l = Some e →
  ReplayStatuses ns n (set_entries (<[l := push_directive resp e]>) s) = ReplayStatuses ns n s.
Proof.
  intros He. unfold ReplayStatuses. rewrite (range_spokes_update _ _ _ _ He).
  rewrite list_fmap_bind. apply Forall_bind_ext, Forall_forall. intros [id x] Hin. simpl.
  case_decide as Hd; [|done]. apply elem_of_range_spokes in Hin as (k & Hk & Hx).
  assert (k = l) as -> by congruence. rewrite He in Hx. by simplify_eq.
Qed.

Lemma ReplayStatuses_metrics f s ns n :
  ReplayStatuses ns n (set_metrics f s) = ReplayStatuses ns n s.
Proof. reflexivity. Qed.

Lemma spoke_queue_push resp id l e s :
  server_inv s → sv_spokes s !! id = Some l → sv_entries s !! l = Some e →
  let s' := set_entries (<[l := push_directive resp e]>) s in
  spoke_queue s id = Some (se_directives e) ∧
  spoke_queue s' id = Some (se_directives e ++ [resp]) ∧
  (∀ id', id' ≠ id → spoke_queue s' id' = spoke_queue s id').
Proof.
  intros Hi Hl He s'. unfold spoke_queue, queue_of. simpl. rewrite Hl. simpl.
  rewrite He, lookup_insert_eq. split_and!; [done|done|]. intros id' Hne.
  destruct (sv_spokes s !! id') as [k|] eqn:Hk; [|done]. simpl.
  rewrite lookup_insert_ne; [done|]. intros ->. apply Hne. by eapply inv_spoke_unique.
Qed.

Lemma server_send_law id d s : server_inv s →
  ∃ s' r, SendReplayDirective id (Some d) s = Ret (s', r) ∧ server_inv s' ∧
    (∀ ns n, ReplayStatuses ns n s' = ReplayStatuses ns n s) ∧
    (∀ id', id' ≠ id → spoke_queue s' id' = spoke_queue s id') ∧
    match r with
    | None => ∃ q, spoke_queue s id = Some q ∧ spoke_queue s' id = Some (q ++ [replay_msg d])
    | Some err => spoke_queue s' id = spoke_queue s id ∧
                  (status_Code err = NotFound → spoke_queue s id = None)
    end.
Proof.
  intros Hi. unfold SendReplayDirective, queueDirective, queue_lookup.
  case_bool_decide as Hid.
  { exists s. eexists. split; [reflexivity|]. split_and!; done. }
  destruct (sv_spokes s !! id) as [l|] eqn:Hl.
  2:{ eexists. eexists. split; [reflexivity|]. split_and!; [by apply inv_metrics|done..|].
      intros _. unfold spoke_queue. by rewrite Hl. }
  destruct (inv_registered _ Hi _ _ Hl) as (e & He & _ & Hsid).
  unfold queue_send. rewrite He. destruct (len _ <? _) eqn:Hroom.
  - destruct (spoke_queue_push (replay_msg d) id l e s Hi Hl He) as (Hq & Hq' & Hne).
    eexists. eexists. split; [reflexivity|]. split_and!.
    + apply inv_metrics. zbool. pose proof (inv_entries _ Hi _ _ He).
      eapply inv_update; [done|done|by apply push_wf|done|done].
    + intros ns n. rewrite ReplayStatuses_metrics. by apply ReplayStatuses_push.
    + exact Hne.
    + eauto.
  - eexists. eexists. split; [reflexivity|]. split_and!; [by apply inv_metrics|done..].
Qed.

Lemma server_select_law now cells max s : NoDup (sel_SpokeID <$> SelectSpokes now cells max s).
Proof.
  rewrite SelectSpokes_take.
  assert (NoDup (sel_SpokeID <$> sorted_eligible now cells s)).
  { unfold sorted_eligible. rewrite merge_sort_Permutation. apply NoDup_eligible_ids. }
  case_match; [|done]. rewrite fmap_take. by apply NoDup_take.
Qed.

Lemma server_clear_law ns n s : server_inv s →
  server_inv (ClearReplayStatuses ns n s) ∧
  ReplayStatuses ns n (ClearReplayStatuses ns n s) = [] ∧
  (∀ id, spoke_queue (ClearReplayStatuses ns n s) id = spoke_queue s id).
Proof.
  intros Hi. split_and!.
  - by apply clear_inv.
  - apply elem_of_nil_inv. intros snap Hin.
    pose proof Hin as (_ & Hno)%ClearReplayStatuses_elem; [|done].
    apply elem_of_ReplayStatuses in Hin as (? & ? & ? & _ & _ & _ & _ & Hyes). congruence.
  - intros id. unfold spoke_queue. simpl. destruct (sv_spokes s !! id) as [l|]; [|done].
    simpl. apply queue_of_clear.
Qed.

#[global] Instance server_hub_laws : HubLaws Server := {
  hub_valid := server_inv;
  hub_queue := spoke_queue;
  select_law := server_select_law;
  send_law := server_send_law;
  clear_law := server_clear_law
}.
End ServerInstance.

(** ** Sending, against the interface *)

Section Sending.
Context {S : Type} {HA : HubApi S} {HL : HubLaws S}.

(** The queue kept its content and gained only messages satisfying [P]. *)
Definition queue_ext (P : WatchDirectivesResponse → Prop)
    (q q' : option (list WatchDirectivesResponse)) : Prop :=
  match q, q' with
  | None, None => True
  | Some q, Some q' => ∃ ds, q' = q ++ ds ∧ Forall P ds
  | _, _ => False
  end.

(** Every queue only gained messages allowed for its spoke; statuses and
    registrations are as before. *)
Definition hub_ext (P : string → WatchDirectivesResponse → Prop) (s s' : S) : Prop :=
  hub_valid s' ∧ (∀ ns n, hub_ReplayStatuses ns n s' = hub_ReplayStatuses ns n s) ∧
  ∀ id, queue_ext (P id) (hub_queue s id) (hub_queue s' id).

Lemma queue_ext_refl P q : queue_ext P q q.
Proof. destruct q; simpl; [|done]. exists []. by rewrite app_nil_r. Qed.

Lemma queue_ext_trans P q1 q2 q3 : queue_ext P q1 q2 → queue_ext P q2 q3 → queue_ext P q1 q3.
Proof.
  destruct q1, q2, q3; simpl; try done. intros (d1 & -> & ?) (d2 & -> & ?).
  exists (d1 ++ d2). rewrite app_assoc. split; [done|]. by apply Forall_app.
Qed.

Lemma queue_ext_mono (P Q : WatchDirectivesResponse → Prop) q q' :
  (∀ m, P m → Q m) → queue_ext P q q' → queue_ext Q q q'.
Proof.
  intros Hpq. destruct q, q'; simpl; try done. intros (d & -> & Hd). exists d.
  split; [done|]. by eapply Forall_impl.
Qed.

Lemma hub_ext_refl P s : hub_valid s → hub_ext P s s.
Proof. intros. split_and!; [done|done|]. intros. apply queue_ext_refl. Qed.

Lemma hub_ext_trans P s1 s2 s3 : hub_ext P s1 s2 → hub_ext P s2 s3 → hub_ext P s1 s3.
Proof.
  intros (_ & H1 & Q1) (V & H2 & Q2). split_and!; [done|intros; by rewrite H2|].
  intros id. by eapply queue_ext_trans.
Qed.

Lemma hub_ext_mono (P Q : string → WatchDirectivesResponse → Prop) s s' :
  (∀ id m, P id m → Q id m) → hub_ext P s s' → hub_ext Q s s'.
Proof.
  intros Hpq (V & H & HQ). split_and!; [done|done|]. intros id.
  eapply queue_ext_mono, HQ. apply Hpq.
Qed.

Lemma send_ext (P : string → WatchDirectivesResponse → Prop) id d s :
  hub_valid s → P id (replay_msg d) →
  ∃ s' r, hub_SendReplayDirective id (Some d) s = Ret (s', r) ∧ hub_ext P s s' ∧
    match r with
    | None => ∃ q, hub_queue s' id = Some (q ++ [replay_msg d])
    | Some err => hub_queue s' id = hub_queue s id ∧
                  (status_Code err = NotFound → hub_queue s' id = None)
    end.
Proof.
  intros Hv HP. destruct (send_law id d s Hv) as (s' & r & Hs & Hv' & Hst & Hne & Hr).
  exists s', r. split; [done|]. split.
  - split_and!; [done|done|]. intros id'. destruct (decide (id' = id)) as [->|Hd].
    + destruct r as [err|]; [destruct Hr as [-> _]; apply queue_ext_refl|].
      destruct Hr as (q & -> & ->). simpl. exists [replay_msg d]. split; [done|]. by constructor.
    + rewrite Hne by done. apply queue_ext_refl.
  - destruct r as [err|]; [|naive_solver]. destruct Hr as [Hq Hnf]. rewrite Hq. done.
Qed.

(** The queue of [id], if the spoke is registered, ends with [m]. *)
Definition ends_with (s : S) (id : string) (m : WatchDirectivesResponse) : Prop :=
  match hub_queue s id with None => True | Some q => last q = Some m end.

Lemma ends_with_ext s s' id m :
  ends_with s id m → queue_ext (.= m) (hub_queue s id) (hub_queue s' id) → ends_with s' id m.
Proof.
  unfold ends_with. destruct (hub_queue s id), (hub_queue s' id); simpl; try done.
  intros Hl (ds & -> & Hds). destruct ds as [|d ds _] using rev_ind; [by rewrite app_nil_r|].
  rewrite app_assoc, last_snoc. apply Forall_app in Hds as [_ Hd].
  inversion_clear Hd. by subst.
Qed.

(** ** STOP *)

Definition stop_for (lt : CaptureLoadTest) (id : string) (m : WatchDirectivesResponse) : Prop :=
  m = replay_msg (stopDirective lt) ∧ id ∈ la_SpokeID <$> lst_Assignments (Status lt).

Lemma stop_for_range lt todo s ok0 (done_ : list LoadTestAssignment) :
  hub_valid s → todo ⊆ lst_Assignments (Status lt) →
  (ok0 = true → ∀ a, a ∈ done_ → ends_with s (la_SpokeID a) (replay_msg (stopDirective lt))) →
  ∃ s' ok, for_range todo (stop_one lt) (s, ok0) = Ret ((s', ok), tt) ∧
    hub_ext (stop_for lt) s s' ∧
    (ok = true → ok0 = true ∧
       ∀ a, a ∈ done_ ++ todo → ends_with s' (la_SpokeID a) (replay_msg (stopDirective lt))).
Proof.
  revert s ok0 done_. induction todo as [|a todo IH]; intros s ok0 done_ Hv Hsub Hok.
  { exists s, ok0. rewrite app_nil_r. split; [done|]. split; [by apply hub_ext_refl|]. eauto. }
  assert (stop_for lt (la_SpokeID a) (replay_msg (stopDirective lt))) as HP.
  { split; [done|]. apply list_elem_of_fmap. exists a. split; [done|]. apply Hsub. set_solver. }
  destruct (send_ext (stop_for lt) (la_SpokeID a) (stopDirective lt) s Hv HP)
    as (s1 & r & Hs & Hext & Hr).
  set (ok1 := match r with
              | None => ok0
              | Some err => if decide (status_Code err = NotFound) then ok0 else false
              end).
  assert (stop_one lt a (s, ok0) = Ret ((s1, ok1), tt)) as Hone.
  { unfold stop_one. rewrite Hs. unfold ok1. destruct r; [case_decide|]; done. }
  cbn [for_range]. rewrite mbind_run, Hone.
  destruct (IH s1 ok1 (done_ ++ [a])) as (s' & ok & Hrun & Hext' & Hend).
  { apply Hext. } { set_solver. }
  { intros Hok1 b [Hb|Hb%list_elem_of_singleton]%elem_of_app.
    - assert (ok0 = true) as H0 by (unfold ok1 in Hok1; destruct r; [case_decide|]; done).
      eapply ends_with_ext; [by apply Hok|]. destruct Hext as (_ & _ & Hq).
      eapply queue_ext_mono, Hq. by intros m [-> _].
    - subst b. unfold ends_with, ok1 in *. destruct r as [err|].
      + case_decide as Hnf; [|done]. destruct Hr as [_ Hr]. by rewrite Hr.
      + destruct Hr as [q ->]. apply last_snoc. }
  exists s', ok. split; [done|]. split; [by eapply hub_ext_trans|]. intros Hok'.
  destruct (Hend Hok') as [Hok1 Hall]. split.
  - unfold ok1 in Hok1. destruct r; [case_decide|]; done.
  - rewrite <- app_assoc in Hall. exact Hall.
Qed.

Lemma stopAllShards_spec lt s : hub_valid s →
  ∃ s' ok, stopAllShards lt s = Ret (s', ok) ∧ hub_ext (stop_for lt) s s' ∧
    (ok = true → ∀ a, a ∈ lst_Assignments (Status lt) →
       ends_with s' (la_SpokeID a) (replay_msg (stopDirective lt))).
Proof.
  intros Hv. destruct (stop_for_range lt (lst_Assignments (Status lt)) s true [] Hv)
    as (s' & ok & Hrun & Hext & Hend); [set_solver|set_solver|].
  exists s', ok. unfold stopAllShards. rewrite Hrun. split; [done|]. split; [done|]. naive_solver.
Qed.

(** ** START *)

Definition start_for (lt : CaptureLoadTest) (reported : gset Z) (id : string)
    (m : WatchDirectivesResponse) : Prop :=
  ∃ a shard, a ∈ lst_Assignments (Status lt) ∧ la_SpokeID a = id ∧
    shard ∈ la_ShardIndexes a ∧ (shard ∉ reported) ∧
    m = replay_msg (buildStartDirective lt shard).

Lemma for_range_ext {A} (P : string → WatchDirectivesResponse → Prop) (l : list A)
    (body : A → M S unit) s :
  hub_valid s →
  (∀ x s, x ∈ l → hub_valid s → ∃ s', body x s = Ret (s', tt) ∧ hub_ext P s s') →
  ∃ s', for_range l body s = Ret (s', tt) ∧ hub_ext P s s'.
Proof.
  revert s. induction l as [|x l IH]; intros s Hv Hb.
  { exists s. split; [done|]. by apply hub_ext_refl. }
  destruct (Hb x s) as (s1 & H1 & Hext1); [set_solver|done|].
  destruct (IH s1) as (s2 & H2 & Hext2); [apply Hext1| |].
  { intros y s' Hy. apply Hb. set_solver. }
  exists s2. cbn [for_range]. rewrite mbind_run, H1. split; [done|]. by eapply hub_ext_trans.
Qed.

Lemma sendStarts_spec lt reported s : hub_valid s →
  ∃ s', sendStarts lt reported s = Ret (s', tt) ∧ hub_ext (start_for lt reported) s s'.
Proof.
  intros Hv. apply for_range_ext; [done|]. intros a s0 Ha Hv0.
  apply for_range_ext; [done|]. intros shard s1 Hsh Hv1. unfold start_one.
  case_bool_decide as Hr.
  { exists s1. split; [done|]. by apply hub_ext_refl. }
  destruct (send_ext (start_for lt reported) (la_SpokeID a) (buildStartDirective lt shard) s1 Hv1)
    as (s2 & r & -> & Hext & _); [by exists a, shard|]. eauto.
Qed.
End Sending.

(** ** The phases and the assignment across one reconcile *)

(** The recorded plan is the same. *)
Definition same_plan (st st' : CaptureLoadTestStatus) : Prop :=
  lst_Assignments st' = lst_Assignments st ∧ lst_TotalShards st' = lst_TotalShards st ∧
  lst_AssignedSpokes st' = lst_AssignedSpokes st ∧ lst_StartTime st' = lst_StartTime st.

#[global] Instance same_plan_equiv : Equivalence same_plan.
Proof.
  split.
  - intros st. by repeat split.
  - intros st st' (? & ? & ? & ?). by repeat split.
  - intros st st' st'' (? & ? & ? & ?) (? & ? & ? & ?). repeat split; congruence.
Qed.

Lemma aggregate_frame now statuses lt :
  let lt' := fst (aggregate now statuses lt) in
  Meta lt' = Meta lt ∧ Spec lt' = Spec lt ∧ same_plan (Status lt) (Status lt') ∧
  lst_Conditions (Status lt') = lst_Conditions (Status lt) ∧
  (lst_Phase (Status lt') = lst_Phase (Status lt) ∨
   lst_Phase (Status lt') ∈ [CaptureLoadTestPhaseCompleted; CaptureLoadTestPhaseFailed;
                             CaptureLoadTestPhaseRunning]).
Proof.
  intros lt'. subst lt'. unfold aggregate, phase_switch, same_plan. simpl.
  repeat (case_match; simplify_eq); simpl; repeat case_match; simpl;
    split_and!; try done; try (by left); right; set_solver.
Qed.

(** A replay directive of this load test for a spoke of its assignment: STOP, or
    START of a shard assigned to that spoke, with the recorded shard count. *)
Definition directed (lt : CaptureLoadTest) (id : string) (m : WatchDirectivesResponse) : Prop :=
  ∃ d a, m = replay_msg d ∧ rd_LoadTestName d = Name lt ∧ rd_LoadTestNamespace d = Namespace lt ∧
    a ∈ lst_Assignments (Status lt) ∧ la_SpokeID a = id ∧
    (rd_Action d = REPLAY_ACTION_STOP ∨
     rd_Action d = REPLAY_ACTION_START ∧ ∃ spec sh, rd_Spec d = Some spec ∧ rs_Shard spec = Some sh ∧
       rsh_Index sh ∈ la_ShardIndexes a ∧ rsh_Count sh = lst_TotalShards (Status lt)).

Lemma start_directed lt reported id m : start_for lt reported id m → directed lt id m.
Proof.
  intros (a & shard & Ha & Hid & Hsh & _ & ->). exists (buildStartDirective lt shard), a.
  split_and!; try done. right. split; [done|]. eexists _, _. by split_and!.
Qed.

Lemma stop_directed lt id m : stop_for lt id m → directed lt id m.
Proof.
  intros (-> & (a & -> & Ha)%list_elem_of_fmap). exists (stopDirective lt), a.
  split_and!; try done. by left.
Qed.

Lemma directed_same_plan lt lt' id m :
  Name lt' = Name lt → Namespace lt' = Namespace lt → same_plan (Status lt) (Status lt') →
  directed lt id m → directed lt' id m.
Proof.
  unfold directed. intros -> -> (-> & -> & _). done.
Qed.

Section Reconciling.
Context {W S : Type} {HA : HubApi S} {HL : HubLaws S} {CU : ControllerUtil} {CD : ConditionUtil}.
Context {KC : KubeClient W CaptureLoadTestSpec CaptureLoadTestStatus} {AE : ApiErrors}.
Context {KL : KubeClientLaws W CaptureLoadTestSpec CaptureLoadTestStatus}.
Context (cfg : ReconcilerConfig) (clk : ReconcileClock).

Implicit Types (s : rstate W S) (lt o : CaptureLoadTest) (srv : S) (w : W).

Definition stored (ns n : string) (w : W) (lt : CaptureLoadTest) : Prop :=
  client_Get ns n w = Ok lt.

(** The effect of a status write on the stored object. *)
Lemma status_write ns n w o lt :
  stored ns n w o → Namespace lt = ns → Name lt = n →
  ∃ w' o' r, client_StatusUpdate lt w = (w', (o', r)) ∧
    match r with
    | None => stored ns n w' o' ∧ Status o' = Status lt
    | Some _ => w' = w
    end.
Proof.
  intros Ho Hns Hn. destruct (client_StatusUpdate lt w) as [w' [o' [e|]]] eqn:He.
  - apply status_err in He as [-> ->]. by exists w, lt, (Some e).
  - apply status_ok in He as (Hst & _ & _ & Hg). exists w', o', None. subst. done.
Qed.

(** [status_then] returns, stores the new status or leaves the old one. *)
Lemma status_then_spec ns n s o lt res :
  stored ns n (r_kube s) o → Namespace lt = ns → Name lt = n →
  ∃ s' res' o', status_then lt res s = Ret (s', res') ∧ r_server s' = r_server s ∧
    stored ns n (r_kube s') o' ∧ (Status o' = Status o ∨ Status o' = Status lt) ∧
    (res'.2 = None → Status o' = Status lt ∧ res' = res).
Proof.
  intros Ho Hns Hn. destruct (status_write _ _ _ _ _ Ho Hns Hn) as (w' & o' & r & Hu & Hr).
  unfold status_then, do_StatusUpdate. rewrite mbind_run, Hu. destruct r as [e|].
  - subst w'. eexists _, _, o. split; [reflexivity|]. split_and!; [done|done|by left|done].
  - destruct Hr as [Hg Hst]. eexists _, _, o'. split; [reflexivity|]. split_and!; [done|done|by right|done].
Qed.

Lemma emit_run ev s : ∃ s', emit cfg ev s = Ret (s', tt) ∧
  r_server s' = r_server s ∧ r_kube s' = r_kube s.
Proof. eexists. split; [reflexivity|]. done. Qed.

Lemma emit_all_run evs s : ∃ s', emit_all cfg evs s = Ret (s', tt) ∧
  r_server s' = r_server s ∧ r_kube s' = r_kube s.
Proof.
  destruct (for_range_inv (λ _ s', r_server s' = r_server s ∧ r_kube s' = r_kube s)
    evs (emit cfg) [] s) as (s' & Hr & Hi); [done| |eauto].
  intros d ev s1 [H1 H2]. destruct (emit_run ev s1) as (s2 & Hs & H3 & H4).
  exists s2. split; [done|]. split; congruence.
Qed.

(** What a reconcile leaves behind, relative to the status [st0] it started
    from: a recorded plan never changes, and the phase becomes Aborted only
    with STOP at the end of the queue of every assigned spoke. *)
Definition reconciled (st0 : CaptureLoadTestStatus) (srv srv' : S) (lt' : CaptureLoadTest) : Prop :=
  hub_ext (directed lt') srv srv' ∧
  (lst_Assignments st0 ≠ [] → same_plan st0 (Status lt')) ∧
  (lst_Phase (Status lt') = CaptureLoadTestPhaseAborted →
   lst_Phase st0 ≠ CaptureLoadTestPhaseAborted →
   ∀ a, a ∈ lst_Assignments (Status lt') →
     ends_with srv' (la_SpokeID a) (replay_msg (stopDirective lt'))).

Lemma on_server_run {A} (op : S → go (S * A)) srv s srv' a :
  op srv = Ret (srv', a) →
  on_server op srv s = Ret (RState (r_kube s) (Some srv') (r_events s), (srv', a)).
Proof. intros Hop. unfold on_server. by rewrite Hop. Qed.

(** The outcome of a run: the stored object is [o] unchanged, or carries the
    status of a run of [lt]. *)
Lemma reconcileRun_spec ns n s srv o lt :
  hub_valid srv → r_server s = Some srv → stored ns n (r_kube s) o →
  Namespace lt = ns → Name lt = n →
  ∃ s' res srv' lt', reconcileRun cfg clk srv lt s = Ret (s', res) ∧ r_server s' = Some srv' ∧
    stored ns n (r_kube s') lt' ∧ hub_ext (directed lt) srv srv' ∧
    (Status lt' = Status o ∨
     same_plan (Status lt) (Status lt') ∧
     (lst_Phase (Status lt') = CaptureLoadTestPhaseAborted →
      lst_Phase (Status lt) ≠ CaptureLoadTestPhaseAborted →
      ∀ a, a ∈ lst_Assignments (Status lt) →
        ends_with srv' (la_SpokeID a) (replay_msg (stopDirective lt)))).
Proof.
  intros Hv Hs Ho Hns Hn. unfold reconcileRun.
  set (statuses := hub_ReplayStatuses _ _ srv).
  destruct (sendStarts_spec lt (reported_shards statuses) srv Hv) as (srv1 & Hst & Hext1).
  rewrite mbind_run, (on_server_run _ _ _ _ _ Hst). simpl.
  destruct (aggregate_frame (clk_aggregate clk) statuses lt) as (Hm & Hsp & Hplan & _ & Hph).
  destruct (aggregate (clk_aggregate clk) statuses lt) as [lt1 evs]. simpl in *.
  rewrite mbind_run. destruct (emit_all_run evs (RState (r_kube s) (Some srv1) (r_events s)))
    as (s2 & -> & Hs2 & Hk2). simpl in Hs2, Hk2. rewrite <- Hk2 in Ho.
  assert (Namespace lt1 = ns ∧ Name lt1 = n) as [Hns1 Hn1] by (unfold Namespace, Name in *; by rewrite Hm).
  assert (hub_ext (directed lt) srv srv1) as Hd1 by (eapply hub_ext_mono, Hext1; apply start_directed).
  destruct (shouldAbort (clk_since clk) lt1) as [reason|].
  - rewrite mbind_run. destruct (stopAllShards_spec lt1 srv1) as (srv2 & ok & Hstop & Hext2 & Hend);
      [apply Hext1|].
    rewrite (on_server_run _ _ _ _ _ Hstop).
    assert (hub_ext (directed lt) srv srv2) as Hd2.
    { eapply hub_ext_trans; [exact Hd1|]. eapply hub_ext_mono, Hext2. intros id m Hx%stop_directed.
      eapply directed_same_plan, Hx; [by rewrite Hn|by rewrite Hns|by symmetry]. }
    destruct ok.
    + rewrite mbind_run. unfold emit, modify. cbn [r_kube r_server r_events].
      edestruct (status_then_spec ns n) as (s' & res & o' & -> & Hsv & Hg & Hor & _);
        [exact Ho|exact Hns1|exact Hn1|].
      exists s', res, srv2, o'. split; [done|]. split_and!; [done|done|done|].
      destruct Hor as [->| ->]; [by left|right]. split; [exact Hplan|]. intros _ _ a Ha.
      replace (stopDirective lt) with (stopDirective lt1)
        by (unfold stopDirective, Namespace, Name; by rewrite Hm).
      apply Hend; [done|]. by rewrite (proj1 Hplan).
    + edestruct (status_then_spec ns n) as (s' & res & o' & -> & Hsv & Hg & Hor & _);
        [exact Ho|exact Hns1|exact Hn1|].
      exists s', res, srv2, o'. split; [done|]. split_and!; [done|done|done|].
      destruct Hor as [->| ->]; [by left|right]. split; [exact Hplan|]. simpl.
      intros Hab Hnab. destruct Hph as [Hph|Hph]; [congruence|]. rewrite Hab in Hph. set_solver.
  - destruct (status_write _ _ _ _ _ Ho Hns1 Hn1) as (w' & o' & r & Hu & Hr).
    rewrite mbind_run. unfold do_StatusUpdate. rewrite Hu. destruct r as [e|].
    + subst w'. eexists _, _, srv1, o. split; [reflexivity|]. split_and!; [done|done|done|by left].
    + destruct Hr as [Hg Hstat]. exists (RState w' (r_server s2) (r_events s2)).
      exists (if bool_decide (lst_Phase (Status o') ∈
                [CaptureLoadTestPhaseCompleted; CaptureLoadTestPhaseFailed])
              then no_requeue else requeue cfg), srv1, o'.
      split; [by case_bool_decide|]. split_and!; [done|done|done|right].
      rewrite Hstat. split; [exact Hplan|].
      intros Hab Hnab. destruct Hph as [Hph|Hph]; [congruence|]. rewrite Hab in Hph. set_solver.
Qed.

Lemma stored_name ns n w lt : stored ns n w lt → Namespace lt = ns ∧ Name lt = n.
Proof. apply get_name. Qed.

Lemma stopDirective_name lt lt' :
  Namespace lt = Namespace lt' → Name lt = Name lt' → stopDirective lt = stopDirective lt'.
Proof. intros H1 H2. unfold stopDirective. by rewrite H1, H2. Qed.

(** Nothing sent, and the stored status is the old one or has a phase other
    than Aborted and the old plan. *)
Lemma reconciled_quiet st0 srv lt' :
  hub_valid srv →
  (Status lt' = st0 ∨ same_plan st0 (Status lt') ∧
     lst_Phase (Status lt') ≠ CaptureLoadTestPhaseAborted) →
  reconciled st0 srv srv lt'.
Proof.
  intros Hv Hor. split; [by apply hub_ext_refl|]. destruct Hor as [->|[Hp Hph]]; done.
Qed.

(** A run from the stored object. *)
Lemma run_reconciled ns n s srv o :
  hub_valid srv → r_server s = Some srv → stored ns n (r_kube s) o →
  ∃ s' res srv' lt', reconcileRun cfg clk srv o s = Ret (s', res) ∧ r_server s' = Some srv' ∧
    stored ns n (r_kube s') lt' ∧ reconciled (Status o) srv srv' lt' ∧
    same_plan (Status o) (Status lt').
Proof.
  intros Hv Hs Ho. destruct (stored_name _ _ _ _ Ho) as [Hns Hn].
  destruct (reconcileRun_spec ns n s srv o o Hv Hs Ho Hns Hn)
    as (s' & res & srv' & lt' & Hrun & Hs' & Hst & Hext & Hor).
  destruct (stored_name _ _ _ _ Hst) as [Hns' Hn'].
  assert (same_plan (Status o) (Status lt')) as Hp by (destruct Hor as [->|[? _]]; done).
  exists s', res, srv', lt'. split_and!; [done..| |done]. split_and!.
  - eapply hub_ext_mono, Hext. intros id m. apply directed_same_plan; congruence.
  - done.
  - intros Hab Hnab a Ha. destruct Hor as [Heq|[_ Hend]]; [congruence|].
    rewrite (stopDirective_name lt' o) by congruence. apply Hend; [done|done|].
    by rewrite <- (proj1 Hp).
Qed.

Lemma reconcilePlan_spec ns n s srv lt :
  hub_valid srv → r_server s = Some srv → stored ns n (r_kube s) lt → 0 <= dist_workers lt →
  ∃ s' res srv' lt', reconcilePlan cfg clk srv lt s = Ret (s', res) ∧ r_server s' = Some srv' ∧
    stored ns n (r_kube s') lt' ∧ reconciled (Status lt) srv srv' lt'.
Proof.
  intros Hv Hs Ho Hw. destruct (stored_name _ _ _ _ Ho) as [Hns Hn]. unfold reconcilePlan.
  destruct (len (lst_Assignments (Status lt)) =? 0) eqn:Hz.
  2:{ destruct (run_reconciled ns n s srv lt Hv Hs Ho) as (s' & res & srv' & lt' & ? & ? & ? & ? & _).
      by exists s', res, srv', lt'. }
  apply Z.eqb_eq, len_nil_iff in Hz. unfold planDistribution.
  destruct (len (hub_SelectSpokes _ _ _ srv) =? 0) eqn:Hsel.
  - assert (∃ err, (if 0 <? len (dist_cells lt)
      then Ret (Err (FmtError "no connected spokes in cells %v" [FStrs (dist_cells lt)]))
      else Ret (Err (FmtError "no connected spokes" []))) =
      (Ret (Err err) : go (result (list LoadTestAssignment)))) as [err ->] by (case_match; eauto).
    edestruct (status_then_spec ns n) as (s' & res & o' & -> & Hsv & Hg & Hor & _);
      [exact Ho|exact Hns|exact Hn|].
    exists s', res, srv, o'. rewrite Hsv. split_and!; [done..|].
    apply reconciled_quiet; [done|]. destruct Hor as [->| ->]; [by left|right].
    by split.
  - replace (dist_workers lt <? 0) with false by (symmetry; apply Z.ltb_ge; lia).
    set (planned := assign_spokes _ _ _). rewrite mbind_run. unfold emit, modify.
    rewrite mbind_run. unfold do_StatusUpdate. cbn [r_kube r_server r_events].
    destruct (status_write ns n _ _ (planned_status (clk_start clk) planned lt) Ho Hns Hn)
      as (w' & o' & r & -> & Hr). destruct r as [e|].
    + subst w'. eexists _, _, srv, lt. split; [reflexivity|]. split_and!; [done..|].
      apply reconciled_quiet; [done|by left].
    + destruct Hr as [Hg Hstat].
      set (s2 := RState w' _ _).
      destruct (run_reconciled ns n s2 srv o' Hv Hs Hg)
        as (s' & res & srv' & lt' & -> & Hs' & Hst' & (Hx1 & Hx2 & Hx3) & _).
      exists s', res, srv', lt'. split_and!; [done..|]. split_and!; [done|done|].
      intros Hab _. apply Hx3; [done|]. by rewrite Hstat.
Qed.

Lemma reconcileLive_spec ns n s srv lt :
  hub_valid srv → r_server s = Some srv → stored ns n (r_kube s) lt → 0 <= dist_workers lt →
  ∃ s' res srv' lt', reconcileLive cfg clk lt s = Ret (s', res) ∧ r_server s' = Some srv' ∧
    stored ns n (r_kube s') lt' ∧ reconciled (Status lt) srv srv' lt'.
Proof.
  intros Hv Hs Ho Hw. destruct (stored_name _ _ _ _ Ho) as [Hns Hn]. unfold reconcileLive.
  destruct (terminal_phase _).
  { exists s, no_requeue, srv, lt. split_and!; [done..|]. apply reconciled_quiet; [done|by left]. }
  destruct (target_denied lt).
  - rewrite mbind_run. unfold emit, modify. 
    edestruct (status_then_spec ns n) as (s' & res & o' & -> & Hsv & Hg & Hor & _);
      [exact Ho|exact Hns|exact Hn|].
    exists s', res, srv, o'. rewrite Hsv. split_and!; [done..|].
    apply reconciled_quiet; [done|]. destruct Hor as [->| ->]; [by left|right]. by split.
  - rewrite mbind_run. unfold get. rewrite Hs. by apply reconcilePlan_spec.
Qed.

(** The finalizer write keeps the object stored, with its spec and status. *)
Lemma finalizer_write ns n w lt m :
  stored ns n w lt → om_Namespace m = ns → om_Name m = n → om_DeletionTimestamp (Meta lt) = None →
  ∃ w' o' r, client_Update (with_Meta m lt) w = (w', (o', r)) ∧
    match r with
    | None => stored ns n w' o' ∧ Status o' = Status lt ∧ Spec o' = Spec lt ∧ client_meta (Meta o') = client_meta m
    | Some _ => w' = w
    end.
Proof.
  intros Ho Hns Hn Hd. destruct (client_Update (with_Meta m lt) w) as [w' [o' [e|]]] eqn:He.
  - apply update_err in He as [-> ->]. by exists w, (with_Meta m lt), (Some e).
  - apply update_ok in He as (Hm & Hsp & Hst & Hg). exists w', o', None. split; [done|].
    unfold Namespace, Name in *. simpl in *. rewrite Hns, Hn in *. destruct (Hst lt Ho) as [? Hsm].
    split_and!; [|auto..]. apply Hg. intros [Hrel _]. unfold server_meta in Hsm. congruence.
Qed.

Lemma AddFinalizer_frame m f :
  om_Namespace (AddFinalizer m f) = om_Namespace m ∧ om_Name (AddFinalizer m f) = om_Name m ∧
  om_DeletionTimestamp (AddFinalizer m f) = om_DeletionTimestamp m.
Proof.
  pose proof (add_frame m f) as Hf. split_and!.
  - exact (f_equal om_Namespace Hf).
  - exact (f_equal om_Name Hf).
  - exact (f_equal om_DeletionTimestamp Hf).
Qed.

(** The live part of [Reconcile] runs on the stored object, or nothing
    happened but a failed write. *)
Lemma Reconcile_live ns n s lt :
  stored ns n (r_kube s) lt → om_DeletionTimestamp (Meta lt) = None →
  (∃ w e, Reconcile cfg clk ns n s = Ret (RState w (r_server s) (r_events s), fail_with e) ∧
     w = r_kube s) ∨
  (∃ w lt1, Reconcile cfg clk ns n s
            = reconcileLive cfg clk lt1 (RState w (r_server s) (r_events s)) ∧
     stored ns n w lt1 ∧ Status lt1 = Status lt ∧ Spec lt1 = Spec lt ∧
     ContainsFinalizer (Meta lt1) LoadTestFinalizer = true).
Proof.
  intros Ho Hd. destruct (stored_name _ _ _ _ Ho) as [Hns Hn].
  unfold Reconcile. rewrite mbind_run. unfold get. unfold stored in Ho. rewrite Ho.
  rewrite decide_False by naive_solver.
  destruct (ContainsFinalizer (Meta lt) LoadTestFinalizer) eqn:Hf.
  { right. exists (r_kube s), lt. by destruct s. }
  rewrite mbind_run. unfold do_Update.
  destruct (AddFinalizer_frame (Meta lt) LoadTestFinalizer) as (Hm1 & Hm2 & Hm3).
  destruct (finalizer_write ns n (r_kube s) lt (AddFinalizer (Meta lt) LoadTestFinalizer) Ho)
    as (w' & o' & r & -> & Hr); [unfold Namespace, Name in *; congruence..|done|]. destruct r as [e|].
  - subst w'. left. eauto.
  - right. exists w', o'. destruct Hr as (? & ? & ? & Hc). split_and!; try done.
    rewrite (contains_client _ _ _ Hc), contains_add. by rewrite bool_decide_eq_true_2.
Qed.

Lemma Reconcile_spec ns n s srv lt :
  hub_valid srv → r_server s = Some srv → stored ns n (r_kube s) lt →
  om_DeletionTimestamp (Meta lt) = None → 0 <= dist_workers lt →
  ∃ s' res srv' lt', Reconcile cfg clk ns n s = Ret (s', res) ∧ r_server s' = Some srv' ∧
    stored ns n (r_kube s') lt' ∧ reconciled (Status lt) srv srv' lt'.
Proof.
  intros Hv Hs Ho Hd Hw. destruct (Reconcile_live ns n s lt Ho Hd) as
    [(w & e & -> & ->)|(w & lt1 & -> & Hst & Hst1 & Hsp & _)].
  - eexists _, _, srv, lt. split; [reflexivity|]. split_and!; [done..|].
    apply reconciled_quiet; [done|by left].
  - rewrite <- Hst1. apply reconcileLive_spec; [done..|]. unfold dist_workers in *. by rewrite Hsp.
Qed.

Lemma reconcileDeleted_spec s srv lt :
  hub_valid srv → r_server s = Some srv →
  ContainsFinalizer (Meta lt) LoadTestFinalizer = true →
  ∃ s' res srv', reconcileDeleted cfg lt s = Ret (s', res) ∧ r_server s' = Some srv' ∧
    (r_kube s' = r_kube s ∧ (res = requeue cfg ∨ res.2 ≠ None) ∨
     (∀ a, a ∈ lst_Assignments (Status lt) →
        ends_with srv' (la_SpokeID a) (replay_msg (stopDirective lt))) ∧
     hub_ReplayStatuses (Namespace lt) (Name lt) srv' = [] ∧ res = no_requeue ∧
     ∃ o', client_Update (with_Meta (RemoveFinalizer (Meta lt) LoadTestFinalizer) lt) (r_kube s)
           = (r_kube s', (o', None)) ∧
       ContainsFinalizer (Meta o') LoadTestFinalizer = false).
Proof.
  intros Hv Hs Hf. unfold reconcileDeleted. rewrite Hf, mbind_run. unfold get. rewrite Hs.
  destruct (stopAllShards_spec lt srv Hv) as (srv1 & ok & Hstop & Hext & Hend).
  rewrite mbind_run, mbind_run, (on_server_run _ _ _ _ _ Hstop). destruct ok; cycle 1.
  { eexists _, _, srv1. split; [reflexivity|]. split; [done|]. left. split; [done|]. by left. }
  rewrite mbind_run. unfold on_server. rewrite mret_run. cbn [r_kube r_server r_events].
  destruct (clear_law (Namespace lt) (Name lt) srv1) as (Hv2 & Hc & Hq); [apply Hext|].
  rewrite mbind_run. unfold do_Update. cbn [r_kube r_server r_events].
  destruct (client_Update _ (r_kube s)) as [w' [o' [e|]]] eqn:Hu.
  - apply update_err in Hu as [-> _]. eexists _, _, _. split; [reflexivity|]. split; [done|].
    left. split; [done|]. by right.
  - eexists _, _, _. split; [reflexivity|]. split; [done|]. right. split_and!.
    + intros a Ha. unfold ends_with. rewrite Hq. by apply Hend.
    + done.
    + done.
    + exists o'. split; [done|]. apply update_ok in Hu as (Hcm & _). simpl in Hcm.
      by rewrite (contains_client _ _ _ Hcm), contains_remove, bool_decide_eq_true_2.
Qed.

(** ** Theorems *)

(** C7: a reconcile of a live load test always returns (no panic, whatever the
    API server and the directive buffers do), and the load test enters the
    Aborted phase only when, for every assigned spoke that is still
    registered, the last directive of its queue is the STOP of this load
    test: no START of the same reconcile is left behind it. *)
Theorem aborted_means_stopped ns n s srv lt :
  hub_valid srv → r_server s = Some srv → client_Get ns n (r_kube s) = Ok lt →
  om_DeletionTimestamp (Meta lt) = None → 0 <= dist_workers lt →
  ∃ s' res srv' lt', Reconcile cfg clk ns n s = Ret (s', res) ∧ r_server s' = Some srv' ∧
    client_Get ns n (r_kube s') = Ok lt' ∧
    (lst_Phase (Status lt') = CaptureLoadTestPhaseAborted →
     lst_Phase (Status lt) ≠ CaptureLoadTestPhaseAborted →
     ∀ a, a ∈ lst_Assignments (Status lt') →
       ends_with srv' (la_SpokeID a) (replay_msg (stopDirective lt'))).
Proof.
  intros Hv Hs Hg Hd Hw. destruct (Reconcile_spec ns n s srv lt Hv Hs Hg Hd Hw)
    as (s' & res & srv' & lt' & ? & ? & ? & _ & _ & ?).
  by exists s', res, srv', lt'.
Qed.

(** C36: once recorded, the plan of a load test never changes: a reconcile keeps
    its assignments, shard count and start time, and the only directives it
    queues are STOP, and START of a shard assigned to the spoke it is sent to,
    numbered within the recorded shard count. *)
Theorem plan_is_stable ns n s srv lt s' res lt' :
  hub_valid srv → r_server s = Some srv → client_Get ns n (r_kube s) = Ok lt →
  om_DeletionTimestamp (Meta lt) = None → 0 <= dist_workers lt →
  Reconcile cfg clk ns n s = Ret (s', res) → client_Get ns n (r_kube s') = Ok lt' →
  (lst_Assignments (Status lt) ≠ [] → same_plan (Status lt) (Status lt')) ∧
  ∃ srv', r_server s' = Some srv' ∧ hub_ext (directed lt') srv srv'.
Proof.
  intros Hv Hs Hg Hd Hw Hr Hg'.
  destruct (Reconcile_spec ns n s srv lt Hv Hs Hg Hd Hw)
    as (s1 & res1 & srv' & lt1 & Hr1 & Hs1 & Hg1 & Hx & Hp & _).
  rewrite Hr in Hr1. simplify_eq. unfold stored in Hg1. rewrite Hg' in Hg1. simplify_eq.
  split; [done|]. by exists srv'.
Qed.

(** C9: the safety gate.  A load test whose target is denied by its allowlist
    never reaches a spoke: a reconcile leaves the hub server untouched, and if
    it succeeds the stored load test is in a terminal phase. *)
Theorem denied_target_sends_nothing ns n s lt :
  client_Get ns n (r_kube s) = Ok lt → om_DeletionTimestamp (Meta lt) = None →
  target_denied lt = true →
  ∃ s' res lt', Reconcile cfg clk ns n s = Ret (s', res) ∧ r_server s' = r_server s ∧
    client_Get ns n (r_kube s') = Ok lt' ∧
    (res.2 = None → terminal_phase (lst_Phase (Status lt')) = true).
Proof.
  intros Hg Hd Ht. destruct (Reconcile_live ns n s lt Hg Hd) as
    [(w & e & -> & ->)|(w & lt1 & -> & Hst & Hst1 & Hsp & _)].
  { by eexists _, _, lt. }
  destruct (stored_name _ _ _ _ Hst) as [Hns Hn].
  unfold reconcileLive. destruct (terminal_phase (lst_Phase (Status lt1))) eqn:Hterm.
  { by eexists _, _, lt1. }
  replace (target_denied lt1) with true by (unfold target_denied in *; by rewrite Hsp).
  rewrite mbind_run. unfold emit, modify.
  edestruct (status_then_spec ns n) as (s' & res & o' & -> & Hsv & Hg' & _ & Hok);
    [exact Hst|exact Hns|exact Hn|].
  exists s', res, o'. split_and!; [done|by rewrite Hsv|done|].
  intros [Hx _]%Hok. rewrite Hx. reflexivity.
Qed.

(** Terminal phases are absorbing: reconciling a completed, failed or
    aborted load test that carries its finalizer changes nothing and does not
    requeue. *)
Theorem terminal_absorbing ns n s lt :
  client_Get ns n (r_kube s) = Ok lt → om_DeletionTimestamp (Meta lt) = None →
  ContainsFinalizer (Meta lt) LoadTestFinalizer = true →
  terminal_phase (lst_Phase (Status lt)) = true →
  Reconcile cfg clk ns n s = Ret (s, no_requeue).
Proof.
  intros Hg Hd Hf Ht. unfold Reconcile. rewrite mbind_run. unfold get. rewrite Hg.
  rewrite decide_False by naive_solver. rewrite Hf. unfold reconcileLive. by rewrite Ht.
Qed.

End Reconciling.

(** ** Witnesses *)

#[local] Existing Instance canonical_range.
#[local] Existing Instances mem_client mem_client_laws mem_errors mem_controllerutil mem_conditionutil.

Definition demo_cfg : ReconcilerConfig := {| cfg_Recorder := true; cfg_RequeueInterval := 0 |}.
Definition demo_clock (t : Z) : ReconcileClock :=
  {| clk_select := t; clk_start := t; clk_aggregate := t; clk_since := t; clk_aborted := t |}.

Definition demo_hub : Server := demo_server 5 [("a", "east"); ("b", "west")].

Lemma demo_hub_valid : hub_valid demo_hub.
Proof.
  apply hub_reachable_server_inv. exists ":9443", [Tau; Tau].
  apply (run_step _ [Tau] Tau (demo_server 5 [("a", "east")])); [apply demo_server_run|].
  eapply (step_register demo_ctx 5 (demo_register "b" "west")). reflexivity.
Qed.

Definition demo_state (lt : CaptureLoadTest)
    : rstate (store CaptureLoadTestSpec CaptureLoadTestStatus) Server :=
  RState {[ ("prod", "lt") := lt ]} (Some demo_hub) [].

Lemma demo_get lt : Namespace lt = "prod" → Name lt = "lt" →
  client_Get "prod" "lt" (r_kube (demo_state lt)) = Ok lt.
Proof. intros. apply mem_get_ok. split; [apply lookup_singleton_eq|done]. Qed.

Definition directive_id (m : WatchDirectivesResponse) : string :=
  match wdr_ReplayDirective m with Some d => rd_DirectiveId d | None => "" end.

(** The phase and the queues a reconcile leaves behind. *)
Definition demo_outcome (t : Z) (s : rstate (store CaptureLoadTestSpec CaptureLoadTestStatus) Server)
    : option (string * list (option (list string))) :=
  match Reconcile demo_cfg (demo_clock t) "prod" "lt" s with
  | Ret (s', _) =>
      match client_Get "prod" "lt" (r_kube s'), r_server s' with
      | Ok lt', Some srv' =>
          Some (lst_Phase (Status lt'),
            map (λ id, option_map (map directive_id) (spoke_queue srv' id)) ["a"; "b"])
      | _, _ => None
      end
  | Panic => None
  end.

(** A fresh load test is distributed; one past its deadline is aborted. *)
Example demo_distributed :
  demo_outcome 6 (demo_state (demo_loadtest [] None ["*.staging.internal"] ""))
  = Some ("Distributing", [Some ["prod-lt-shard-0"; "prod-lt-shard-1"];
                           Some ["prod-lt-shard-2"; "prod-lt-shard-3"]]).
Proof. vm_compute. reflexivity. Qed.

Example demo_aborted :
  demo_outcome (61 * Second) (demo_state (demo_running None))
  = Some ("Aborted", [Some ["prod-lt-shard-0"; "prod-lt-shard-1"; "prod-lt-stop"];
                      Some ["prod-lt-shard-2"; "prod-lt-shard-3"; "prod-lt-stop"]]).
Proof. vm_compute. reflexivity. Qed.

Lemma aborted_means_stopped_witness :
  ∃ s' res srv' lt', Reconcile demo_cfg (demo_clock (61 * Second)) "prod" "lt"
      (demo_state (demo_running None)) = Ret (s', res) ∧ r_server s' = Some srv' ∧
    client_Get "prod" "lt" (r_kube s') = Ok lt' ∧
    (lst_Phase (Status lt') = CaptureLoadTestPhaseAborted →
     lst_Phase (Status (demo_running None)) ≠ CaptureLoadTestPhaseAborted →
     ∀ a, a ∈ lst_Assignments (Status lt') →
       ends_with srv' (la_SpokeID a) (replay_msg (stopDirective lt'))).
Proof.
  apply (aborted_means_stopped demo_cfg (demo_clock (61 * Second)) "prod" "lt"
    (demo_state (demo_running None)) demo_hub (demo_running None)
    demo_hub_valid eq_refl (demo_get (demo_running None) eq_refl eq_refl) eq_refl). vm_compute. discriminate.
Defined.


Lemma denied_target_sends_nothing_witness :
  ∃ s' res lt', Reconcile demo_cfg (demo_clock 6) "prod" "lt"
      (demo_state (demo_loadtest [] None ["*.qa.internal"] "")) = Ret (s', res) ∧
    r_server s' = Some demo_hub ∧ client_Get "prod" "lt" (r_kube s') = Ok lt' ∧
    (res.2 = None → terminal_phase (lst_Phase (Status lt')) = true).
Proof.
  apply (denied_target_sends_nothing demo_cfg (demo_clock 6) "prod" "lt"
    (demo_state (demo_loadtest [] None ["*.qa.internal"] "")) _
    (demo_get (demo_loadtest [] None ["*.qa.internal"] "") eq_refl eq_refl) eq_refl eq_refl).
Defined.

Lemma plan_is_stable_witness :
  ∃ s' res lt' srv', Reconcile demo_cfg (demo_clock 6) "prod" "lt"
      (demo_state (demo_running None)) = Ret (s', res) ∧
    client_Get "prod" "lt" (r_kube s') = Ok lt' ∧
    same_plan (Status (demo_running None)) (Status lt') ∧
    r_server s' = Some srv' ∧ hub_ext (directed lt') demo_hub srv'.
Proof.
  assert (0 <= dist_workers (demo_running None)) as Hw by (vm_compute; discriminate).
  assert (client_Get "prod" "lt" (r_kube (demo_state (demo_running None)))
          = Ok (demo_running None)) as Hg by (apply demo_get; reflexivity).
  destruct (Reconcile_spec demo_cfg (demo_clock 6) "prod" "lt" (demo_state (demo_running None))
    demo_hub (demo_running None) demo_hub_valid eq_refl Hg eq_refl Hw)
    as (s' & res & srv1 & lt' & Hr & _ & Hg' & _).
  destruct (plan_is_stable demo_cfg (demo_clock 6) "prod" "lt" (demo_state (demo_running None))
    demo_hub (demo_running None) s' res lt' demo_hub_valid eq_refl Hg eq_refl Hw Hr Hg')
    as [Hp (srv' & Hs' & Hx)].
  exists s', res, lt', srv'. split; [exact Hr|]. split; [exact Hg'|].
  split; [apply Hp; discriminate|]. split; [exact Hs'|exact Hx].
Defined.

(** ** Resending START while an abort is retried

    A reconcile first (re)sends START for the shards without a status and only
    then evaluates the abort policy.  While an abort is retried because one
    spoke's buffer is full, the other spokes therefore receive START again
    after their STOP. *)

Fixpoint fill (n : nat) (id : string) (s : Server) : Server :=
  match n with
  | O => s
  | S n => match queueDirective id demo_directive s with Ret (s, _) => fill n id s | Panic => s end
  end.

Definition demo_hub_full : Server :=
  fill 8 "b" (foldl (λ s '(id, cell),
      match RegisterSpoke demo_ctx 5 (demo_register id cell) s with Ret (s', _) => s' | Panic => s end)
    (SetDirectiveBufferSize 8 (NewServer ":9443")) [("a", "east"); ("b", "west")]).

Definition demo_retry (s : rstate (store CaptureLoadTestSpec CaptureLoadTestStatus) Server) :=
  match Reconcile demo_cfg (demo_clock (61 * Second)) "prod" "lt" s with
  | Ret (s', _) => s' | Panic => s
  end.

Theorem abort_retry_resends_start :
  option_map (map directive_id) (r_server (demo_retry (demo_retry
      (RState {[ ("prod", "lt") := demo_running None ]} (Some demo_hub_full) [])))
      ≫= λ srv, spoke_queue srv "a")
  = Some ["prod-lt-shard-0"; "prod-lt-shard-1"; "prod-lt-stop";
          "prod-lt-shard-0"; "prod-lt-shard-1"; "prod-lt-stop"].
Proof. vm_compute. reflexivity. Qed.
