(* ===== verification/Shard.v ===== *)
(** * Sharding of a capture

    [shardOf], [ShardOwns] and [ShardIndexOf] of
    [internal/plugin/replay/engine.go], with the 64-bit FNV-1a hash of
    [hash/fnv], and [ShardSliceCaptureID] of [internal/dataset/preshard.go]. *)

From S2P Require Import Prelude GoStd.
From Stdlib Require Import Ascii.

Local Open Scope Z_scope.

(** ** FNV-1a *)

Definition fnv_offset64 : Z := 14695981039346656037.
Definition fnv_prime64 : Z := 1099511628211.

Definition byte_val (a : ascii) : Z := Z.of_nat (nat_of_ascii a).

(** One byte: xor, then multiply modulo 2^64. *)
Definition fnv1a_step (h : Z) (a : ascii) : Z := uint64 (Z.lxor h (byte_val a) * fnv_prime64).

Fixpoint fnv1a_write (h : Z) (s : string) : Z :=
  match s with
  | "" => h
  | String a s => fnv1a_write (fnv1a_step h a) s
  end.

Definition fnv1a_64 (s : string) : Z := fnv1a_write fnv_offset64 s.

(** ** Shard assignment *)

Definition shardOf (requestID : string) (shardCount : Z) : Z := fnv1a_64 requestID mod shardCount.

Definition ShardOwns (requestID : string) (index count : Z) : bool :=
  if count <=? 1 then true
  else shardOf requestID (uint64 count) =? uint64 index.

Definition ShardIndexOf (requestID : string) (count : Z) : Z :=
  if count <=? 1 then 0 else int64 (shardOf requestID (uint64 count)).

Definition ShardSliceCaptureID (captureID : string) (index count : Z) : string :=
  captureID +:+ "/shards/" +:+ Itoa index +:+ "-of-" +:+ Itoa count.

(** ** Lemmas *)

Lemma uint64_id z : 0 <= z < 2 ^ 64 → uint64 z = z.
Proof. intros. by apply Z.mod_small. Qed.

Lemma fnv1a_write_range h s : 0 <= h < 2 ^ 64 → 0 <= fnv1a_write h s < 2 ^ 64.
Proof.
  revert h. induction s as [|a s IH]; intros h Hh; simpl; [done|].
  apply IH. apply Z.mod_pos_bound. lia.
Qed.

Lemma fnv1a_64_range s : 0 <= fnv1a_64 s < 2 ^ 64.
Proof. apply fnv1a_write_range. unfold fnv_offset64. lia. Qed.

Lemma fnv1a_write_app h s t : fnv1a_write h (s +:+ t) = fnv1a_write (fnv1a_write h s) t.
Proof. revert h. induction s as [|a s IH]; intros h; [done|]. rewrite append_cons. simpl. apply IH. Qed.

Lemma shardOf_range id count : 0 < count → 0 <= shardOf id count < count.
Proof. intros. by apply Z.mod_pos_bound. Qed.

(** For a shard count Go's [int] can hold, ownership is equality with the index. *)
Lemma ShardOwns_index id index count :
  1 < count < 2 ^ 63 → 0 <= index < count →
  ShardOwns id index count = true ↔ index = ShardIndexOf id count.
Proof.
  intros Hc Hi. unfold ShardOwns, ShardIndexOf.
  replace (count <=? 1) with false by (symmetry; apply Z.leb_gt; lia).
  rewrite !uint64_id by lia. rewrite Z.eqb_eq.
  pose proof (shardOf_range id count ltac:(lia)).
  rewrite int64_id by (unfold in_int64; lia). lia.
Qed.

Lemma ShardIndexOf_range id count : 0 < count < 2 ^ 63 → 0 <= ShardIndexOf id count < count.
Proof.
  intros Hc. unfold ShardIndexOf. destruct (count <=? 1) eqn:E; zbool; [lia|].
  rewrite uint64_id by lia. pose proof (shardOf_range id count ltac:(lia)).
  rewrite int64_id by (unfold in_int64; lia). lia.
Qed.

(** Published FNV-1a test vectors. *)
Example fnv1a_empty : fnv1a_64 "" = 0xcbf29ce484222325.
Proof. reflexivity. Qed.
Example fnv1a_a : fnv1a_64 "a" = 0xaf63dc4c8601ec8c.
Proof. reflexivity. Qed.
Example fnv1a_foobar : fnv1a_64 "foobar" = 0x85944171f73967e8.
Proof. reflexivity. Qed.

(** ** Theorems *)

(** Shards are disjoint and exhaustive: for every request id and every
    shard count, the index [ShardIndexOf] routes a request to is in range, and
    it is the one and only index in [0, count) that owns the request. *)
Theorem shards_disjoint_exhaustive id count :
  0 < count < 2 ^ 63 →
  0 <= ShardIndexOf id count < count ∧
  ∀ index, 0 <= index < count →
    (ShardOwns id index count = true ↔ index = ShardIndexOf id count).
Proof.
  intros Hc. split; [by apply ShardIndexOf_range|]. intros index Hi.
  destruct (decide (count = 1)) as [->|Hne].
  - unfold ShardOwns, ShardIndexOf. simpl. lia.
  - apply ShardOwns_index; lia.
Qed.

Lemma shards_disjoint_exhaustive_witness :
  0 <= ShardIndexOf "req-00007" 4 < 4 ∧
  ∀ index, 0 <= index < 4 →
    (ShardOwns "req-00007" index 4 = true ↔ index = ShardIndexOf "req-00007" 4).
Proof. apply (shards_disjoint_exhaustive "req-00007" 4). lia. Defined.
