(* ===== verification/GoTime.v ===== *)
(** * Go dates

    [time.Time.UTC().Format("2006-01-02")], [time.Parse("2006-01-02", s)] and
    [Truncate(24h)] of the Go [time] package on the proleptic Gregorian
    calendar, for dates from year 0 on.  A time is nanoseconds since the Unix
    epoch; the zero [time.Time] is midnight of January 1 of year 1. *)

From S2P Require Import Prelude GoStd.
From Stdlib Require Import Ascii.

Local Open Scope Z_scope.

Definition zero_time : Z := -62135596800 * Second.
Definition IsZero (t : Z) : bool := t =? zero_time.

Definition day_ns : Z := 86400 * Second.

(** Days since the epoch of the day a time falls on, and the start of a day. *)
Definition day_of (t : Z) : Z := t / day_ns.
Definition day_start (d : Z) : Z := d * day_ns.

(** [t.Truncate(24*time.Hour)]. *)
Definition Truncate24h (t : Z) : Z := day_start (day_of t).

(** ** Calendar *)

Definition is_leap (y : Z) : bool :=
  (y mod 4 =? 0) && (negb (y mod 100 =? 0) || (y mod 400 =? 0)).

Definition days_in_month (y m : Z) : Z :=
  if m =? 2 then (if is_leap y then 29 else 28)
  else if (m =? 4) || (m =? 6) || (m =? 9) || (m =? 11) then 30 else 31.

Definition year_len (y : Z) : Z := if is_leap y then 366 else 365.

(** Days from January 1 of year 0 to January 1 of year [y]. *)
Definition days_before_year (y : Z) : Z :=
  365 * y + (y + 3) / 4 - (y + 99) / 100 + (y + 399) / 400.

(** Days from January 1 to the first day of month [m]. *)
Definition days_before_month (y m : Z) : Z :=
  sumZ (days_in_month y) (seqZ 1 (m - 1)).

(** January 1 1970, in days from January 1 of year 0. *)
Definition epoch_days : Z := 719528.

Definition days_from_civil (y m d : Z) : Z :=
  days_before_year y + days_before_month y m + (d - 1) - epoch_days.

(** Skips whole years from [y] on, then whole months. *)
Fixpoint find_year (fuel : nat) (y rem : Z) : Z * Z :=
  match fuel with
  | O => (y, rem)
  | S fuel => if rem <? year_len y then (y, rem) else find_year fuel (y + 1) (rem - year_len y)
  end.

Fixpoint find_month (fuel : nat) (y m rem : Z) : Z * Z :=
  match fuel with
  | O => (m, rem)
  | S fuel => if rem <? days_in_month y m then (m, rem)
              else find_month fuel y (m + 1) (rem - days_in_month y m)
  end.

Definition civil_from_days (z : Z) : Z * Z * Z :=
  let n := z + epoch_days in
  let '(y, rem) := find_year (Z.to_nat (n / 365 + 1)) 0 n in
  let '(m, rem) := find_month 12 y 1 rem in
  (y, m, rem + 1).

(** ** Formatting and parsing *)

Definition format_day (day : Z) : string :=
  let '(y, m, d) := civil_from_days day in
  pad 4 y +:+ "-" +:+ pad 2 m +:+ "-" +:+ pad 2 d.

Definition FormatDate (t : Z) : string := format_day (day_of t).

Definition digit (a : ascii) : option Z :=
  let n := Z.of_nat (nat_of_ascii a) in
  if (48 <=? n) && (n <=? 57) then Some (n - 48) else None.

Definition two_digits (a b : ascii) : option Z :=
  x ← digit a; y ← digit b; Some (10 * x + y).

(** The parsed date as days since the epoch; [None] is an error. *)
Definition ParseDate (s : string) : option Z :=
  match s with
  | String y1 (String y2 (String y3 (String y4 (String h1
      (String m1 (String m2 (String h2 (String d1 (String d2 ""))))))))) =>
      if Ascii.eqb h1 "-" && Ascii.eqb h2 "-" then
        c ← two_digits y1 y2; l ← two_digits y3 y4;
        m ← two_digits m1 m2; d ← two_digits d1 d2;
        let y := 100 * c + l in
        if (1 <=? m) && (m <=? 12) && (1 <=? d) && (d <=? days_in_month y m)
        then Some (days_from_civil y m d) else None
      else None
  | _ => None
  end.

(** ** Lemmas on the calendar *)

Lemma year_len_bounds y : 365 <= year_len y <= 366.
Proof. unfold year_len. case_match; lia. Qed.

Lemma days_before_year_succ y : 0 <= y → days_before_year (y + 1) = days_before_year y + year_len y.
Proof.
  intros Hy. unfold days_before_year, year_len, is_leap.
  destruct (Z.eqb_spec (y mod 4) 0), (Z.eqb_spec (y mod 100) 0), (Z.eqb_spec (y mod 400) 0);
    simpl; Z.to_euclidean_division_equations; lia.
Qed.

Lemma find_year_spec fuel y rem :
  0 <= y → 0 <= rem < 365 * Z.of_nat fuel →
  let '(y', rem') := find_year fuel y rem in
  y <= y' ∧ 0 <= rem' < year_len y' ∧
  days_before_year y' + rem' = days_before_year y + rem.
Proof.
  revert y rem. induction fuel as [|fuel IH]; intros y rem Hy Hr; [lia|]. simpl.
  destruct (rem <? year_len y) eqn:E; zbool; [lia|].
  pose proof (year_len_bounds y).
  specialize (IH (y + 1) (rem - year_len y) ltac:(lia) ltac:(lia)).
  destruct (find_year fuel (y + 1) (rem - year_len y)) as [y' rem'].
  rewrite days_before_year_succ in IH by lia. lia.
Qed.

Lemma days_in_month_bounds y m : 28 <= days_in_month y m <= 31.
Proof. unfold days_in_month. repeat case_match; lia. Qed.

Lemma days_before_month_succ y m : 1 <= m →
  days_before_month y (m + 1) = days_before_month y m + days_in_month y m.
Proof.
  intros Hm. unfold days_before_month. replace (m + 1 - 1) with ((m - 1) + 1) by lia.
  rewrite seqZ_app, sumZ_app by lia. assert (seqZ (1 + (m - 1)) 1 = [m]) as -> by (rewrite seqZ_cons, seqZ_nil by lia; f_equal; lia).
  rewrite sumZ_cons, sumZ_nil. lia.
Qed.

Lemma days_before_month_13 y : days_before_month y 13 = year_len y.
Proof.
  unfold days_before_month, year_len. change (seqZ 1 (13 - 1)) with [1;2;3;4;5;6;7;8;9;10;11;12].
  rewrite !sumZ_cons, sumZ_nil. unfold days_in_month. simpl. destruct (is_leap y); lia.
Qed.

Lemma find_month_spec fuel y m rem :
  1 <= m → m + Z.of_nat fuel = 13 →
  0 <= rem → days_before_month y m + rem < year_len y →
  let '(m', rem') := find_month fuel y m rem in
  1 <= m' <= 12 ∧ 0 <= rem' < days_in_month y m' ∧
  days_before_month y m' + rem' = days_before_month y m + rem.
Proof.
  revert m rem. induction fuel as [|fuel IH]; intros m rem Hm Hf Hr Hb.
  { replace m with 13 in Hb by lia. rewrite days_before_month_13 in Hb. lia. }
  simpl. destruct (rem <? days_in_month y m) eqn:E; zbool; [lia|].
  specialize (IH (m + 1) (rem - days_in_month y m) ltac:(lia) ltac:(lia) ltac:(lia)).
  rewrite days_before_month_succ in IH by lia. specialize (IH ltac:(lia)).
  destruct (find_month fuel y (m + 1) _). lia.
Qed.

Lemma civil_from_days_spec z :
  0 <= z + epoch_days →
  let '(y, m, d) := civil_from_days z in
  0 <= y ∧ 1 <= m <= 12 ∧ 1 <= d <= days_in_month y m ∧ days_from_civil y m d = z.
Proof.
  intros Hz. unfold civil_from_days, days_from_civil. set (n := z + epoch_days) in *.
  pose proof (find_year_spec (Z.to_nat (n / 365 + 1)) 0 n ltac:(lia)) as Hy.
  destruct (find_year _ 0 n) as [y rem].
  destruct Hy as (Hy0 & Hrem & Heq).
  { assert (0 <= n / 365) by (apply Z.div_pos; lia). pose proof (Z.mod_pos_bound n 365).
    pose proof (Z.div_mod n 365). lia. }
  pose proof (find_month_spec 12 y 1 rem ltac:(lia) ltac:(lia) ltac:(lia)) as Hm.
  change (days_before_month y 1) with 0 in Hm. specialize (Hm ltac:(lia)).
  destruct (find_month 12 y 1 rem) as [m rem']. change (days_before_year 0) with 0 in Heq.
  destruct Hm as (? & ? & ?). split_and!; try lia.
Qed.

Lemma civil_year_bound z :
  0 <= z + epoch_days < days_before_year 10000 →
  let '(y, _, _) := civil_from_days z in y < 10000.
Proof.
  intros Hz. pose proof (civil_from_days_spec z ltac:(lia)) as Hs.
  destruct (civil_from_days z) as [[y m] d]. destruct Hs as (Hy & Hm & Hd & Heq).
  destruct (decide (y < 10000)); [done|]. exfalso.
  assert (days_before_year 10000 <= days_before_year y).
  { unfold days_before_year. clear Heq. Z.to_euclidean_division_equations. lia. }
  unfold days_from_civil in Heq.
  assert (0 <= days_before_month y m); [|lia].
  unfold days_before_month. apply sumZ_nonneg. intros k _. pose proof (days_in_month_bounds y k). lia.
Qed.

Example format_epoch : FormatDate 0 = "1970-01-01".
Proof. vm_compute. reflexivity. Qed.
Example format_leap : format_day 19782 = "2024-02-29".
Proof. vm_compute. reflexivity. Qed.
Example parse_no_leap : ParseDate "2023-02-29" = None.
Proof. vm_compute. reflexivity. Qed.

Lemma day_of_start d : day_of (day_start d) = d.
Proof. unfold day_of, day_start. apply Z.div_mul. unfold day_ns, Second. lia. Qed.

Lemma day_start_le d t : day_start d <= t ↔ d <= day_of t.
Proof.
  unfold day_start, day_of. assert (0 < day_ns) by (unfold day_ns, Second; lia). split; intros H'.
  - apply Z.div_le_lower_bound; lia.
  - pose proof (Z.mul_div_le t day_ns). nia.
Qed.

(** ** Parsing what was formatted *)

Lemma digit_digit_char z : 0 <= z < 10 → digit (digit_char z) = Some z.
Proof.
  intros Hz. assert (z = 0 ∨ z = 1 ∨ z = 2 ∨ z = 3 ∨ z = 4 ∨ z = 5 ∨ z = 6 ∨ z = 7 ∨ z = 8 ∨ z = 9)
    as Hc by lia.
  repeat destruct Hc as [->|Hc]; [reflexivity..|]. subst. reflexivity.
Qed.

Lemma two_digits_fixed z : 0 <= z < 100 →
  two_digits (digit_char (z / 10 mod 10)) (digit_char (z mod 10)) = Some z.
Proof.
  intros Hz. unfold two_digits.
  rewrite !digit_digit_char by (apply Z.mod_pos_bound; lia). simpl. f_equal.
  rewrite (Z.mod_small (z / 10)) by (split; [apply Z.div_pos|apply Z.div_lt_upper_bound]; lia).
  pose proof (Z.div_mod z 10). lia.
Qed.

Lemma ParseDate_pads y m d :
  0 <= y < 10000 → 1 <= m <= 12 → 1 <= d <= days_in_month y m →
  ParseDate (pad 4 y +:+ "-" +:+ pad 2 m +:+ "-" +:+ pad 2 d) = Some (days_from_civil y m d).
Proof.
  intros Hy Hm Hd. pose proof (days_in_month_bounds y m).
  rewrite !pad_fixed by lia. cbn [fixed]. rewrite !append_nil_l, !append_assoc.
  rewrite ?append_cons, ?append_nil_l. unfold ParseDate.
  replace (Ascii.eqb "-" "-" && Ascii.eqb "-" "-") with true by reflexivity.
  rewrite (two_digits_fixed m), (two_digits_fixed d) by lia.
  assert (0 <= y / 100 < 100) as Hc
    by (split; [apply Z.div_pos; lia|apply Z.div_lt_upper_bound; lia]).
  replace (y / 10 / 10 / 10) with (y / 100 / 10) by (rewrite !Z.div_div by lia; done).
  replace (y / 10 / 10) with (y / 100) by (rewrite Z.div_div by lia; done).
  rewrite (two_digits_fixed (y / 100)) by done.
  replace (two_digits (digit_char (y / 10 mod 10)) (digit_char (y mod 10))) with (Some (y mod 100)).
  2:{ rewrite <- (two_digits_fixed (y mod 100)) by (apply Z.mod_pos_bound; lia). f_equal; f_equal.
      - Z.to_euclidean_division_equations. lia.
      - Z.to_euclidean_division_equations. lia. }
  cbn [mbind option_bind]. replace (100 * (y / 100) + y mod 100) with y
    by (pose proof (Z.div_mod y 100 ltac:(lia)); lia).
  replace ((1 <=? m) && (m <=? 12) && (1 <=? d) && (d <=? days_in_month y m)) with true; [done|].
  symmetry. rewrite !andb_true_iff, !Z.leb_le. lia.
Qed.

(** A formatted date parses back to its day. *)
Lemma ParseDate_format day :
  0 <= day + epoch_days < days_before_year 10000 → ParseDate (format_day day) = Some day.
Proof.
  intros Hd. pose proof (civil_from_days_spec day ltac:(lia)) as Hs.
  pose proof (civil_year_bound day Hd) as Hb. unfold format_day.
  destruct (civil_from_days day) as [[y m] d]. destruct Hs as (? & ? & ? & <-).
  rewrite ParseDate_pads by lia. done.
Qed.

(** ** Dates sort like days *)

Definition formattable (day : Z) : Prop := 0 <= day + epoch_days < days_before_year 10000.

Lemma format_day_fixed day : formattable day →
  ∃ y m d, format_day day = fixed 4 y +:+ "-" +:+ fixed 2 m +:+ "-" +:+ fixed 2 d ∧
    0 <= y < 10000 ∧ 1 <= m <= 12 ∧ 1 <= d <= days_in_month y m ∧ days_from_civil y m d = day.
Proof.
  intros Hd. pose proof (civil_from_days_spec day ltac:(unfold formattable in *; lia)) as Hs.
  pose proof (civil_year_bound day Hd) as Hb. unfold format_day.
  destruct (civil_from_days day) as [[y m] d]. exists y, m, d.
  pose proof (days_in_month_bounds y m). split; [by rewrite !pad_fixed by lia|]. split_and!; lia.
Qed.

Lemma days_before_year_mono y z : 0 <= y → y < z → days_before_year y + year_len y <= days_before_year z.
Proof.
  intros Hy Hyz. rewrite <- days_before_year_succ by done. unfold days_before_year.
  Z.to_euclidean_division_equations. lia.
Qed.

Lemma days_before_month_mono y m n : 1 <= m → m < n →
  days_before_month y m + days_in_month y m <= days_before_month y n.
Proof.
  intros Hm Hmn. rewrite <- days_before_month_succ by done. unfold days_before_month.
  replace (n - 1) with ((m + 1 - 1) + (n - 1 - m)) by lia. rewrite seqZ_app, sumZ_app by lia.
  assert (0 <= sumZ (days_in_month y) (seqZ (1 + (m + 1 - 1)) (n - 1 - m))); [|lia].
  apply sumZ_nonneg. intros k _. pose proof (days_in_month_bounds y k). lia.
Qed.

Lemma day_in_year y m d : 1 <= m <= 12 → 1 <= d <= days_in_month y m →
  0 <= days_before_month y m + (d - 1) < year_len y.
Proof.
  intros Hm Hd. rewrite <- days_before_month_13.
  pose proof (days_before_month_mono y m 13 ltac:(lia) ltac:(lia)).
  assert (0 <= days_before_month y m); [|lia].
  apply sumZ_nonneg. intros k _. pose proof (days_in_month_bounds y k). lia.
Qed.

Lemma format_day_lt a b : formattable a → formattable b → a < b →
  String.compare (format_day a) (format_day b) = Lt.
Proof.
  intros (y & m & d & -> & Hy & Hm & Hd & <-)%format_day_fixed
    (y' & m' & d' & -> & Hy' & Hm' & Hd' & <-)%format_day_fixed Hlt.
  unfold days_from_civil in Hlt.
  pose proof (day_in_year y m d Hm Hd). pose proof (day_in_year y' m' d' Hm' Hd').
  pose proof (days_in_month_bounds y m). pose proof (days_in_month_bounds y' m').
  destruct (decide (y < y')) as [?|?].
  { apply compare_app_lt; [by rewrite !length_fixed|]. apply fixed_lt; simpl; lia. }
  destruct (decide (y' < y)) as [?|?].
  { pose proof (days_before_year_mono y' y). lia. }
  assert (y' = y) as -> by lia. rewrite !compare_app_l.
  destruct (decide (m < m')) as [?|?].
  { apply compare_app_lt; [by rewrite !length_fixed|]. apply fixed_lt; simpl; lia. }
  destruct (decide (m' < m)) as [?|?].
  { pose proof (days_before_month_mono y m' m). lia. }
  assert (m' = m) as -> by lia. rewrite !compare_app_l. apply fixed_lt; simpl; lia.
Qed.

Lemma format_day_length day : formattable day → String.length (format_day day) = 10%nat.
Proof.
  intros (y & m & d & -> & _)%format_day_fixed. by rewrite !append_length, !length_fixed.
Qed.

Lemma format_day_noslash day : formattable day → Contains (format_day day) "/" = false.
Proof.
  intros (y & m & d & -> & Hy & Hm & Hd & _)%format_day_fixed.
  by rewrite !Contains_char_app, !fixed_noslash by lia.
Qed.

Lemma format_day_plain day : formattable day → plain_path (format_day day).
Proof.
  intros Hd. unfold plain_path. rewrite split_noslash by by apply format_day_noslash.
  constructor; [|done]. pose proof (format_day_length day Hd) as Hl. unfold plain_elem.
  split_and!; intros Heq; rewrite Heq in Hl; done.
Qed.
