(* ===== verification/GoFloat.v ===== *)
(** * Binary64 rounding

    What the program needs to know about a rounded product: the index that
    [int(float64(n) * p)] computes for a fraction [p] of a count is in range and
    grows with [p]. *)

From S2P Require Import Prelude.

Local Open Scope Z_scope.

(** Truncation of a float to an integer. *)
Definition f64_trunc (x : float64) : Z :=
  match x with
  | S754_finite s m ex =>
      let v := if 0 <=? ex then Z.pos m * 2 ^ ex else Z.pos m / 2 ^ (- ex) in
      if s then - v else v
  | _ => 0
  end.

Lemma digits_bounds p : 2 ^ (Z.pos (digits2_pos p) - 1) <= Z.pos p < 2 ^ Z.pos (digits2_pos p).
Proof.
  induction p as [p IH|p IH|]; cbn [digits2_pos]; [| |done].
  - rewrite Pos2Z.inj_succ. replace (Z.succ _ - 1) with (1 + (Z.pos (digits2_pos p) - 1)) by lia.
    rewrite Z.pow_succ_r, Z.pow_add_r by lia. lia.
  - rewrite Pos2Z.inj_succ. replace (Z.succ _ - 1) with (1 + (Z.pos (digits2_pos p) - 1)) by lia.
    rewrite Z.pow_succ_r, Z.pow_add_r by lia. lia.
Qed.

Lemma digits_unique p d : 0 < d → 2 ^ (d - 1) <= Z.pos p < 2 ^ d → Z.pos (digits2_pos p) = d.
Proof.
  intros Hd [Hl Hu]. destruct (digits_bounds p) as [Hl' Hu'].
  destruct (Z.lt_trichotomy (Z.pos (digits2_pos p)) d) as [Hlt|[He|Hgt]]; [|done|].
  - exfalso. assert (2 ^ Z.pos (digits2_pos p) <= 2 ^ (d - 1)) by (apply Z.pow_le_mono_r; lia). lia.
  - exfalso. assert (2 ^ d <= 2 ^ (Z.pos (digits2_pos p) - 1)) by (apply Z.pow_le_mono_r; lia). lia.
Qed.

Lemma shr_1_m r : 0 <= shr_m r → shr_m (shr_1 r) = shr_m r / 2.
Proof.
  destruct r as [m a b]. simpl. intros Hm. destruct m as [|p|p]; [done| |lia].
  destruct p as [p|p|]; simpl; [| |done].
  - rewrite Pos2Z.inj_xI. apply (Z.div_unique _ _ _ 1); lia.
  - rewrite Pos2Z.inj_xO. apply (Z.div_unique _ _ _ 0); lia.
Qed.

Lemma div_pow_div c a b : 0 <= a → 0 <= b → c / 2 ^ a / 2 ^ b = c / 2 ^ (a + b).
Proof.
  intros Ha Hb. pose proof (Z.pow_pos_nonneg 2 a ltac:(lia) Ha). pose proof (Z.pow_pos_nonneg 2 b ltac:(lia) Hb).
  by rewrite Z.pow_add_r, Z.div_div by lia.
Qed.

Lemma iter_shr_m p r : 0 <= shr_m r →
  0 <= shr_m (iter_pos shr_1 p r) ∧ shr_m (iter_pos shr_1 p r) = shr_m r / 2 ^ Z.pos p.
Proof.
  assert (∀ c q, 0 <= c → 0 <= c / 2 ^ Z.pos q) as Hnn.
  { intros c q Hc. apply Z.div_pos; [done|]. apply Z.pow_pos_nonneg; lia. }
  revert r. induction p as [p IH|p IH|]; intros r Hr; cbn [iter_pos].
  - assert (0 <= shr_m (shr_1 r)) as H1 by (rewrite shr_1_m by done; apply Z.div_pos; lia).
    destruct (IH _ H1) as [H2 E2]. destruct (IH _ H2) as [H3 E3]. split; [done|].
    rewrite E3, E2, shr_1_m by done. change (shr_m r / 2) with (shr_m r / 2 ^ 1).
    rewrite !div_pow_div by lia. do 2 f_equal. lia.
  - destruct (IH _ Hr) as [H2 E2]. destruct (IH _ H2) as [H3 E3]. split; [done|].
    rewrite E3, E2, div_pow_div by lia. do 2 f_equal. lia.
  - rewrite shr_1_m by done. split; [apply Z.div_pos; lia|done].
Qed.

(** Rounding a positive mantissa of more than 53 bits: with [s] the bits too
    many, the result is [m * 2 ^ e] with [e >= ex + s], and [r = m * 2 ^ (e - ex - s)]
    is the mantissa cut by [s] bits, or one more. *)
Lemma round_bounds M ex s : 0 < s → Zpos (digits2_pos M) = 53 + s → -1000 <= ex + s <= 900 →
  ∃ m e, binary_round_aux 53 1024 false (Z.pos M) ex loc_Exact = S754_finite false m e ∧
    ex + s <= e ∧ Z.pos M / 2 ^ s <= Z.pos m * 2 ^ (e - (ex + s)) <= Z.pos M / 2 ^ s + 1.
Proof.
  intros Hs Hd Hex. destruct (digits_bounds M) as [Hl Hu]. rewrite Hd in Hl, Hu.
  unfold binary_round_aux, shr_fexp. cbn [Zdigits2 shr_record_of_loc]. rewrite Hd.
  replace (fexp 53 1024 (53 + s + ex) - ex) with s by (unfold fexp, emin; lia).
  destruct s as [|ps|ps]; [lia| |lia]. cbn [shr].
  destruct (iter_shr_m ps (Build_shr_record (Z.pos M) false false) ltac:(simpl; lia)) as [_ Em].
  cbn [shr_m] in Em. set (rec := iter_pos shr_1 ps _) in *.
  set (q := Z.pos M / 2 ^ Z.pos ps) in *.
  assert (2 ^ 52 <= q < 2 ^ 53) as Hq.
  { assert (0 < 2 ^ Z.pos ps) by (apply Z.pow_pos_nonneg; lia). unfold q. split.
    - apply Z.div_le_lower_bound; [done|]. rewrite <-Z.pow_add_r by lia.
      replace (Z.pos ps + 52) with (53 + Z.pos ps - 1) by lia. done.
    - apply Z.div_lt_upper_bound; [done|]. rewrite <-Z.pow_add_r by lia.
      replace (Z.pos ps + 53) with (53 + Z.pos ps) by lia. done. }
  rewrite Em. set (r := round_nearest_even q (loc_of_shr_record rec)).
  assert (q <= r <= q + 1) as Hr.
  { unfold r, round_nearest_even. destruct (loc_of_shr_record rec) as [|[]]; try case_match; lia. }
  clearbody r. destruct r as [|pr|pr]; [lia| |lia]. cbn [Zdigits2].
  destruct (decide (Z.pos pr = 2 ^ 53)) as [Hmax|Hmax].
  - assert (pr = Pos.pow 2 53) as -> by (apply Pos2Z.inj; rewrite Hmax; done).
    replace (fexp 53 1024 _ - _) with 1 by (rewrite (digits_unique _ 54) by (simpl; lia); unfold fexp, emin; lia).
    cbn [shr iter_pos]. vm_compute (shr_m (shr_1 _)). eexists _, _.
    destruct (_ <=? _) eqn:E; [|zbool; lia]. split; [reflexivity|]. split; [lia|].
    replace (ex + Z.pos ps + 1 - (ex + Z.pos ps)) with 1 by lia. simpl in *. lia.
  - assert (Zpos (digits2_pos pr) = 53) as E53 by (apply digits_unique; lia). rewrite E53.
    replace (fexp 53 1024 (53 + (ex + Z.pos ps)) - (ex + Z.pos ps)) with 0 by (unfold fexp, emin; lia).
    cbn [shr shr_m]. eexists _, _.
    destruct (_ <=? _) eqn:E; [|zbool; lia]. split; [reflexivity|]. split; [lia|].
    rewrite Z.sub_diag. lia.
Qed.

Lemma iter_xO d p : Z.pos (Pos.iter xO p d) = Z.pos p * 2 ^ Z.pos d.
Proof.
  induction d as [|d IH] using Pos.peano_ind; [simpl; lia|].
  rewrite Pos.iter_succ, Pos2Z.inj_succ, Z.pow_succ_r by lia. lia.
Qed.

(** A mantissa of exactly 53 bits is not rounded. *)
Lemma round_exact mx ex : 2 ^ 52 <= Z.pos mx < 2 ^ 53 → -1000 <= ex <= 900 →
  binary_round_aux 53 1024 false (Z.pos mx) ex loc_Exact = S754_finite false mx ex.
Proof.
  intros Hm He. assert (Zpos (digits2_pos mx) = 53) as Hd by (apply digits_unique; lia).
  unfold binary_round_aux, shr_fexp. cbn [Zdigits2 shr_record_of_loc]. rewrite Hd.
  replace (fexp 53 1024 (53 + ex) - ex) with 0 by (unfold fexp, emin; lia).
  cbn [shr shr_m loc_of_shr_record round_nearest_even Zdigits2 shr_record_of_loc]. rewrite Hd.
  replace (fexp 53 1024 (53 + ex) - ex) with 0 by (unfold fexp, emin; lia). cbn [shr shr_m].
  destruct (_ <=? _) eqn:E; [done|]. zbool. lia.
Qed.

(** Integers of less than 53 bits are floats. *)
Lemma f64_of_Z_pos n : 0 < n < 2 ^ 53 → ∃ mx d, 0 < d <= 53 ∧ f64_of_Z n = S754_finite false mx (d - 53) ∧
  2 ^ 52 <= Z.pos mx < 2 ^ 53 ∧ Z.pos mx = n * 2 ^ (53 - d).
Proof.
  intros Hn. destruct n as [|p|p]; [lia| |lia]. destruct (digits_bounds p) as [Hl Hu].
  set (d := Z.pos (digits2_pos p)) in *.
  assert (d <= 53) as Hd.
  { destruct (decide (d <= 53)) as [|Hg]; [done|]. exfalso.
    assert (2 ^ 53 <= 2 ^ (d - 1)) by (apply Z.pow_le_mono_r; lia). lia. }
  assert (0 < d) as Hd0 by (unfold d; lia).
  unfold f64_of_Z, binary_normalize, binary_round, shl_align. fold d.
  replace (fexp 53 1024 (d + 0)) with (d - 53) by (unfold fexp, emin; lia).
  assert (2 ^ 52 <= Z.pos p * 2 ^ (53 - d) < 2 ^ 53) as Hb.
  { split.
    - replace 52 with ((d - 1) + (53 - d)) by lia. rewrite Z.pow_add_r by lia.
      apply Z.mul_le_mono_nonneg_r; [apply Z.pow_nonneg; lia|done].
    - replace 53 with (d + (53 - d)) at 2 by lia. rewrite Z.pow_add_r by lia.
      apply Z.mul_lt_mono_pos_r; [apply Z.pow_pos_nonneg; lia|done]. }
  destruct (d - 53 - 0) as [|q|q] eqn:E; [|lia|].
  - replace (53 - d) with 0 in * by lia. rewrite Z.mul_1_r in Hb.
    exists p, d. split; [lia|]. replace (53 - d) with 0 by lia.
    replace (d - 53) with 0 by lia. split; [apply round_exact|]; lia.
  - exists (Pos.iter xO p q), d. assert (Z.pos (Pos.iter xO p q) = Z.pos p * 2 ^ (53 - d)) as Em.
    { rewrite iter_xO. f_equal. f_equal. lia. }
    split; [lia|]. split; [apply round_exact; rewrite ?Em; lia|]. by rewrite Em.
Qed.

(** [int(float64(n) * p)]. *)
Definition f64_index (n : Z) (p : float64) : Z := f64_trunc (f64_mul (f64_of_Z n) p).

Lemma trunc_scaled m e F : F <= 0 → F <= e →
  f64_trunc (S754_finite false m e) = (Z.pos m * 2 ^ (e - F)) / 2 ^ (- F).
Proof.
  intros HF He. unfold f64_trunc. case_match eqn:E; zbool.
  - replace (e - F) with (e + - F) by lia. rewrite Z.pow_add_r, Z.mul_assoc by lia.
    rewrite Z.div_mul; [done|]. apply Z.pow_nonzero; lia.
  - replace (- F) with (- e + (e - F)) by lia. rewrite (Z.pow_add_r 2 (- e)) by lia.
    rewrite Z.div_mul_cancel_r by (apply Z.pow_nonzero; lia). done.
Qed.

(** A fraction of a count: [p] in [[1/2, 1)]. *)
Definition fraction (my : positive) : float64 := S754_finite false my (-53).

Definition is_fraction (my : positive) : Prop := 2 ^ 52 <= Z.pos my < 2 ^ 53.

(** The product is rounded to an integer multiple [r] of a power of two. *)
Lemma index_rounded n my mx d : is_fraction my → 0 < d <= 53 →
  f64_of_Z n = S754_finite false mx (d - 53) → 2 ^ 52 <= Z.pos mx < 2 ^ 53 →
  ∃ s r, 52 <= s <= 53 ∧ 2 ^ (52 + s) <= Z.pos mx * Z.pos my < 2 ^ (53 + s) ∧
    Z.pos mx * Z.pos my / 2 ^ s <= r <= Z.pos mx * Z.pos my / 2 ^ s + 1 ∧
    f64_index n (fraction my) = r / 2 ^ (106 - d - s).
Proof.
  intros Hmy Hd Hf Hmx. unfold is_fraction in Hmy.
  assert (2 ^ 104 <= Z.pos (mx * my) < 2 ^ 106) as HM by nia.
  destruct (digits_bounds (mx * my)) as [Hl Hu]. set (dm := Z.pos (digits2_pos (mx * my))) in *.
  assert (105 <= dm <= 106) as Hdm.
  { split.
    - destruct (decide (105 <= dm)) as [|Hg]; [done|]. exfalso.
      assert (2 ^ dm <= 2 ^ 104) by (apply Z.pow_le_mono_r; lia). lia.
    - destruct (decide (dm <= 106)) as [|Hg]; [done|]. exfalso.
      assert (2 ^ 106 <= 2 ^ (dm - 1)) by (apply Z.pow_le_mono_r; lia). lia. }
  destruct (round_bounds (mx * my) (d - 53 + -53) (dm - 53)) as (m & e & Hr & He & Hb); [lia|fold dm; lia|lia|].
  exists (dm - 53), (Z.pos m * 2 ^ (e - (d - 53 + -53 + (dm - 53)))).
  split; [lia|]. rewrite <-Pos2Z.inj_mul.
  split; [replace (52 + (dm - 53)) with (dm - 1) by lia; replace (53 + (dm - 53)) with dm by lia; done|].
  split; [done|]. unfold f64_index, f64_mul, fraction. rewrite Hf. cbn [SFmul xorb]. rewrite Hr.
  rewrite (trunc_scaled m e (d - 53 + -53 + (dm - 53))) by lia. do 2 f_equal. lia.
Qed.

(** The index is in range ... *)
Lemma f64_index_range n my : 0 <= n < 2 ^ 53 → is_fraction my → 0 <= f64_index n (fraction my) <= n.
Proof.
  intros Hn Hmy. destruct (decide (n = 0)) as [->|Hne]; [done|].
  destruct (f64_of_Z_pos n ltac:(lia)) as (mx & d & Hd & Hf & Hmx & Emx).
  destruct (index_rounded n my mx d Hmy Hd Hf Hmx) as (s & r & Hs & HM & Hr & ->).
  unfold is_fraction in Hmy. assert (0 < 2 ^ s) as Hps by (apply Z.pow_pos_nonneg; lia).
  assert (0 < 2 ^ (106 - d - s)) as HpF by (apply Z.pow_pos_nonneg; lia).
  assert (0 <= Z.pos mx * Z.pos my / 2 ^ s) by (apply Z.div_pos; lia).
  split; [apply Z.div_pos; lia|]. apply Z.div_le_upper_bound; [done|].
  assert (Z.pos mx * Z.pos my / 2 ^ s < Z.pos mx * 2 ^ (53 - s)) as Hlt.
  { apply Z.div_lt_upper_bound; [done|]. replace (2 ^ s * (Z.pos mx * 2 ^ (53 - s))) with (Z.pos mx * (2 ^ s * 2 ^ (53 - s))) by ring.
    rewrite <-Z.pow_add_r by lia. replace (s + (53 - s)) with 53 by lia. nia. }
  assert (Z.pos mx * 2 ^ (53 - s) = 2 ^ (106 - d - s) * n) as HK; [|lia].
  rewrite Emx, <-Z.mul_assoc, <-Z.pow_add_r by lia. replace (53 - d + (53 - s)) with (106 - d - s) by lia. lia.
Qed.

(** ... and a fraction larger by [2 ^ -52] or more has no smaller index. *)
Lemma f64_index_mono n p q : 0 <= n < 2 ^ 53 → is_fraction p → is_fraction q → Z.pos p + 2 <= Z.pos q →
  f64_index n (fraction p) <= f64_index n (fraction q).
Proof.
  intros Hn Hp Hq Hpq. destruct (decide (n = 0)) as [->|Hne]; [done|].
  destruct (f64_of_Z_pos n ltac:(lia)) as (mx & d & Hd & Hf & Hmx & Emx).
  destruct (index_rounded n p mx d Hp Hd Hf Hmx) as (s & r & Hs & HM & Hr & ->).
  destruct (index_rounded n q mx d Hq Hd Hf Hmx) as (s' & r' & Hs' & HM' & Hr' & ->).
  set (M := Z.pos mx * Z.pos p) in *. set (M' := Z.pos mx * Z.pos q) in *.
  assert (M + 2 ^ 53 <= M') as HMM by (unfold M, M'; nia).
  assert (s = s' ∨ s = 52 ∧ s' = 53 ∨ s = 53 ∧ s' = 52) as [<-|[[-> ->]|[-> ->]]] by lia.
  - apply Z.div_le_mono; [apply Z.pow_pos_nonneg; lia|].
    assert (0 < 2 ^ s <= 2 ^ 53) as Hps by (split; [apply Z.pow_pos_nonneg|apply Z.pow_le_mono_r]; lia).
    assert (M / 2 ^ s + 1 <= M' / 2 ^ s); [|lia].
    replace (M / 2 ^ s + 1) with ((M + 1 * 2 ^ s) / 2 ^ s) by (apply Z.div_add; lia). apply Z.div_le_mono; lia.
  - assert (M / 2 ^ 52 <= 2 ^ 53 - 1) by (apply Z.lt_le_pred, Z.div_lt_upper_bound; lia).
    assert (2 ^ 52 <= M' / 2 ^ 53) by (apply Z.div_le_lower_bound; lia).
    replace (106 - d - 52) with (106 - d - 53 + 1) by lia. rewrite Z.pow_add_r, <-Z.div_div by
      (try apply Z.pow_nonzero; lia).
    rewrite Z.div_div, Z.mul_comm, <-Z.div_div by (try apply Z.pow_pos_nonneg; try apply Z.pow_nonzero; lia).
    apply Z.div_le_mono; [apply Z.pow_pos_nonneg; lia|]. apply Z.div_le_upper_bound; lia.
  - simpl in *. lia.
Qed.
