(* ===== verification/Storage.v ===== *)
(** * Capture storage ([internal/storage])

    The stored request, the buffered object writer behind every storage
    backend, and the object layout.  The JSON codec and gzip are the Go
    standard library's; the development uses only the laws of the class
    [RequestCodec].  Byte slices and strings are [string]; a nil and an empty
    map or slice are identified. *)

From S2P Require Import Prelude GoStd GoTime.
From Stdlib Require Import Ascii.

Local Open Scope Z_scope.

Definition defaultFlushInterval : Z := 5 * Second.
Definition defaultMaxBufferSize : Z := 10 * 1024 * 1024.
Definition ManifestObjectName : string := "manifest.json".
Definition ErrWriterClosed : go_error := Sentinel "storage writer is closed".

Record CapturedRequest := {
  cr_ID : string;
  cr_Timestamp : Z;
  cr_Method : string;
  cr_Path : string;
  cr_Headers : gmap string (list string);
  cr_Body : string;
  cr_ContentLength : Z;
  cr_Protocol : string;
  cr_Metadata : gmap string string
}.

#[global] Instance CapturedRequest_eq_dec : EqDecision CapturedRequest.
Proof. solve_decision. Defined.

Definition newline : string := String "010" "".
Definition carriage_return : string := String "013" "".

(** [encoding/json] on [CapturedRequest] and [compress/gzip].  Encoding fails on
    a timestamp outside the years 0 to 9999 and is not faithful on invalid
    UTF-8, so decoding gives back the request only where [json_faithful]. *)
Class RequestCodec := {
  json_Marshal : CapturedRequest → result string;
  json_Unmarshal : string → result CapturedRequest;
  json_faithful : CapturedRequest → Prop;
  gzip : string → string;
  gunzip : string → result string;
  unmarshal_marshal : ∀ r line, json_Marshal r = Ok line → json_faithful r →
    json_Unmarshal line = Ok r;
  marshal_no_newline : ∀ r line, json_Marshal r = Ok line →
    Contains line newline = false ∧ Contains line carriage_return = false;
  gunzip_gzip : ∀ s, gunzip (gzip s) = Ok s
}.

(** ** Object names *)

Definition objectFileName (agentPod : string) (seq : Z) : string :=
  let agentPod := TrimSpace agentPod in
  let agentPod := if bool_decide (agentPod = "") then "unknown-agent" else agentPod in
  agentPod +:+ "-" +:+ pad 6 seq +:+ ".jsonl.gz".

Definition newCloudObjectName (prefix captureID agentPod : string) (ts seq : Z) : string :=
  let prefix := TrimSlash prefix in
  path_Join ((if bool_decide (prefix ≠ "") then [prefix] else [])
             ++ [captureID; FormatDate ts; objectFileName agentPod seq]).

Definition newFilesystemObjectName (mountPath captureID agentPod : string) (ts seq : Z) : string :=
  path_Join [mountPath; captureID; FormatDate ts; objectFileName agentPod seq].

(** The key the S3 and GCS factories store a manifest under, and the path of the
    file system factories. *)
Definition cloudManifestKey (prefix captureID : string) : string :=
  path_Join [TrimSlash prefix; captureID; ManifestObjectName].

Definition filesystemManifestPath (mountPath captureID : string) : string :=
  path_Join [mountPath; captureID; ManifestObjectName].

(** ** The buffered object writer *)

Record bufferedObjectWriter := MkWriter {
  bow_flushInterval : Z;
  bow_maxBufferBytes : Z;
  bow_sequence : Z;
  bow_buffer : string;
  bow_closed : bool;
  bow_lastFlush : Z
}.

Definition normalizeFlushInterval (interval : Z) : Z :=
  if interval <=? 0 then defaultFlushInterval else interval.

Definition normalizeMaxBufferBytes (size : Z) : Z :=
  if size <=? 0 then defaultMaxBufferSize else size.

Definition newBufferedObjectWriter (now flushInterval maxBufferBytes : Z) : bufferedObjectWriter :=
  MkWriter (normalizeFlushInterval flushInterval) (normalizeMaxBufferBytes maxBufferBytes)
    0 "" false now.

(** The readings of [w.now()] in one call, in program order: the threshold test
    of [Write], the object name and the new [lastFlush]. *)
Record write_clock := { wc_check : Z; wc_name : Z; wc_flush : Z }.

Definition str_len (s : string) : Z := Z.of_nat (String.length s).

Section Writer.
Context {CO : RequestCodec}.
Context {U : Type} (objectName : Z → Z → string)
  (upload : string → string → U → U * option go_error).

Definition marshalRequestLine (req : CapturedRequest) : result string :=
  match json_Marshal req with
  | Err e => Err (WrapError "marshal captured request: %w" [] e)
  | Ok line => Ok (line +:+ newline)
  end.

Definition flushLocked (c : write_clock) (w : bufferedObjectWriter) (u : U)
    : bufferedObjectWriter * U * option go_error :=
  if bool_decide (bow_buffer w = "") then
    (MkWriter (bow_flushInterval w) (bow_maxBufferBytes w) (bow_sequence w) (bow_buffer w)
       (bow_closed w) (wc_flush c), u, None)
  else
    match upload (objectName (wc_name c) (uint64 (bow_sequence w + 1))) (gzip (bow_buffer w)) u with
    | (u, Some e) => (w, u, Some e)
    | (u, None) =>
        (MkWriter (bow_flushInterval w) (bow_maxBufferBytes w) (uint64 (bow_sequence w + 1)) ""
           (bow_closed w) (wc_flush c), u, None)
    end.

Definition Write (c : write_clock) (req : CapturedRequest) (w : bufferedObjectWriter) (u : U)
    : bufferedObjectWriter * U * option go_error :=
  match marshalRequestLine req with
  | Err e => (w, u, Some e)
  | Ok line =>
      if bow_closed w then (w, u, Some ErrWriterClosed)
      else
        let w := MkWriter (bow_flushInterval w) (bow_maxBufferBytes w) (bow_sequence w)
                   (bow_buffer w +:+ line) (bow_closed w) (bow_lastFlush w) in
        if (bow_maxBufferBytes w <=? str_len (bow_buffer w))
           || (bow_flushInterval w <=? time_Sub (wc_check c) (bow_lastFlush w))
        then flushLocked c w u
        else (w, u, None)
  end.

Definition Flush (c : write_clock) (w : bufferedObjectWriter) (u : U)
    : bufferedObjectWriter * U * option go_error :=
  if bow_closed w then (w, u, Some ErrWriterClosed) else flushLocked c w u.

Definition Close (c : write_clock) (w : bufferedObjectWriter) (u : U)
    : bufferedObjectWriter * U * option go_error :=
  if bow_closed w then (w, u, None)
  else match flushLocked c w u with
  | (w, u, Some e) => (w, u, Some e)
  | (w, u, None) =>
      (MkWriter (bow_flushInterval w) (bow_maxBufferBytes w) (bow_sequence w) (bow_buffer w)
         true (bow_lastFlush w), u, None)
  end.
End Writer.

(** ** Scanning stored lines

    [bufio.Scanner] with [ScanLines] and a 10 MiB token limit: the lines up to
    the first one that does not fit, and whether it stopped there. *)

Definition max_token : Z := 10 * 1024 * 1024.

Definition drop_cr (line : string) : string := TrimSuffix line carriage_return.

(** The text split at newlines; a last line without newline counts if it is not
    empty. *)
Fixpoint split_lines (s : string) : list string :=
  match s with
  | "" => []
  | String a s' =>
      if Ascii.eqb a "010" then "" :: split_lines s'
      else match split_lines s' with
           | [] => [String a ""]
           | l :: ls => String a l :: ls
           end
  end.

(** The lines before the first that exceeds the limit, and the scanner's error. *)
Fixpoint scan_tokens (lines : list string) : list string * option go_error :=
  match lines with
  | [] => ([], None)
  | l :: ls =>
      if max_token <=? str_len l then ([], Some (Sentinel "bufio.Scanner: token too long"))
      else let '(ts, e) := scan_tokens ls in (drop_cr l :: ts, e)
  end.

Definition scan (s : string) : list string * option go_error := scan_tokens (split_lines s).

(** ** Runs of a writer

    A run is a sequence of calls; each call performs at most one upload, whose
    outcome the call carries.  The log collects the uploads that succeeded. *)

Inductive writer_op :=
  | OpWrite (c : write_clock) (r : CapturedRequest) (o : option go_error)
  | OpFlush (c : write_clock) (o : option go_error)
  | OpClose (c : write_clock) (o : option go_error).

Definition upload_log : Type := list (string * string).

Definition log_upload (o : option go_error) (name payload : string) (log : upload_log)
    : upload_log * option go_error :=
  match o with
  | None => (log ++ [(name, payload)], None)
  | Some e => (log, Some e)
  end.

Section Runs.
Context {CO : RequestCodec} (objectName : Z → Z → string).

Definition writer_step (st : bufferedObjectWriter * upload_log) (op : writer_op)
    : bufferedObjectWriter * upload_log * option go_error :=
  let '(w, log) := st in
  match op with
  | OpWrite c r o => Write objectName (log_upload o) c r w log
  | OpFlush c o => Flush objectName (log_upload o) c w log
  | OpClose c o => Close objectName (log_upload o) c w log
  end.

(** A request is accepted when it is appended to the buffer, whatever the
    outcome of the flush the same call may trigger. *)
Definition accepts (w : bufferedObjectWriter) (op : writer_op) : list CapturedRequest :=
  match op with
  | OpWrite _ r _ =>
      match json_Marshal r with
      | Ok _ => if bow_closed w then [] else [r]
      | Err _ => []
      end
  | _ => []
  end.

Fixpoint writer_run (st : bufferedObjectWriter * upload_log) (acc : list CapturedRequest)
    (ops : list writer_op) : bufferedObjectWriter * upload_log * list CapturedRequest :=
  match ops with
  | [] => (st, acc)
  | op :: ops =>
      writer_run (fst (writer_step st op)) (acc ++ accepts (fst st) op) ops
  end.

Definition request_line (r : CapturedRequest) : string :=
  match json_Marshal r with Ok line => line +:+ newline | Err _ => "" end.

Fixpoint text_of (rs : list CapturedRequest) : string :=
  match rs with [] => "" | r :: rs => request_line r +:+ text_of rs end.

(** What a reader makes of one stored object. *)
Definition decode_object (payload : string) : result (list CapturedRequest) :=
  match gunzip payload with
  | Err e => Err e
  | Ok s =>
      match scan s with
      | (_, Some e) => Err e
      | (ts, None) => Ok (omap (λ t, match json_Unmarshal t with Ok r => Some r | Err _ => None end) ts)
      end
  end.

(** The accepted requests are the uploaded chunks followed by the buffered ones. *)
Definition chunked (w : bufferedObjectWriter) (log : upload_log) (acc : list CapturedRequest) : Prop :=
  ∃ chunks pending, acc = concat chunks ++ pending ∧
    log.*2 = (λ rs, gzip (text_of rs)) <$> chunks ∧ bow_buffer w = text_of pending.

Lemma text_of_app rs1 rs2 : text_of (rs1 ++ rs2) = text_of rs1 +:+ text_of rs2.
Proof. induction rs1; simpl; [done|]. by rewrite IHrs1, append_assoc. Qed.

Lemma flush_chunked c o w log acc :
  chunked w log acc →
  let '(w', log', r) := flushLocked objectName (log_upload o) c w log in
  chunked w' log' acc ∧ bow_closed w' = bow_closed w ∧ (r = None → bow_buffer w' = "").
Proof.
  intros (chunks & pending & -> & Hlog & Hbuf). unfold flushLocked.
  case_bool_decide as Hb; simpl.
  { split; [by exists chunks, pending|]. done. }
  destruct o as [e|]; simpl; [split; [by exists chunks, pending|done]|].
  split; [|done]. exists (chunks ++ [pending]), []. rewrite concat_app. simpl.
  rewrite !app_nil_r. split; [done|]. split; [|done].
  rewrite !fmap_app, Hlog. simpl. by rewrite Hbuf.
Qed.

Lemma step_chunked st op acc :
  chunked (fst st) (snd st) acc → (bow_closed (fst st) = true → bow_buffer (fst st) = "") →
  let '(w', log', _) := writer_step st op in
  chunked w' log' (acc ++ accepts (fst st) op) ∧ (bow_closed w' = true → bow_buffer w' = "").
Proof.
  destruct st as [w log]. simpl. intros Hc Hcl. destruct op as [c r o|c o|c o]; simpl.
  - unfold Write, marshalRequestLine. destruct (json_Marshal r) as [line|e] eqn:Hm; simpl.
    2:{ by rewrite app_nil_r. }
    destruct (bow_closed w) eqn:Hclosed.
    { rewrite app_nil_r. split; [done|]. intros _. by apply Hcl. }
    set (w1 := MkWriter _ _ _ _ _ _).
    assert (chunked w1 log (acc ++ [r])) as Hc1.
    { destruct Hc as (chunks & pending & -> & Hlog & Hbuf). exists chunks, (pending ++ [r]).
      split; [by rewrite app_assoc|]. split; [done|]. subst w1. simpl.
      rewrite text_of_app, Hbuf. simpl. unfold request_line. rewrite Hm, append_nil_r. done. }
    destruct (_ || _); [|by split].
    pose proof (flush_chunked c o w1 log _ Hc1) as Hf.
    destruct (flushLocked objectName (log_upload o) c w1 log) as [[w' log'] rr].
    destruct Hf as (? & Hcl' & _). split; [done|]. rewrite Hcl'. done.
  - rewrite app_nil_r. unfold Flush. destruct (bow_closed w) eqn:Hclosed.
    { split; [done|]. intros _. by apply Hcl. }
    pose proof (flush_chunked c o w log acc Hc) as Hf.
    destruct (flushLocked objectName (log_upload o) c w log) as [[w' log'] rr].
    destruct Hf as (? & Hcl' & _). split; [done|]. rewrite Hcl', Hclosed. done.
  - rewrite app_nil_r. unfold Close. destruct (bow_closed w) eqn:Hclosed.
    { split; [done|]. intros _. by apply Hcl. }
    pose proof (flush_chunked c o w log acc Hc) as Hf.
    destruct (flushLocked objectName (log_upload o) c w log) as [[w' log'] [e|]].
    + destruct Hf as (? & Hcl' & _). split; [done|]. rewrite Hcl', Hclosed. done.
    + destruct Hf as (Hch & _ & Hb). split; [|by intros _; apply Hb].
      destruct Hch as (chunks & pending & ? & ? & ?). by exists chunks, pending.
Qed.

Lemma run_chunked ops st acc :
  chunked (fst st) (snd st) acc → (bow_closed (fst st) = true → bow_buffer (fst st) = "") →
  let '(w', log', acc') := writer_run st acc ops in
  chunked w' log' acc' ∧ (bow_closed w' = true → bow_buffer w' = "").
Proof.
  revert st acc. induction ops as [|op ops IH]; intros [w log] acc Hc Hcl; [by split|].
  cbn [writer_run]. pose proof (step_chunked (w, log) op acc Hc Hcl) as Hs.
  destruct (writer_step (w, log) op) as [[w' log'] r]. destruct Hs. by apply IH.
Qed.

(** ** Reading back what was written *)

Lemma split_lines_line line rest :
  Contains line newline = false → split_lines (line +:+ newline +:+ rest) = line :: split_lines rest.
Proof.
  induction line as [|a line IH]; intros Hl; [done|].
  unfold newline in *. rewrite Contains_cons, HasPrefix_char in Hl.
  apply orb_false_iff in Hl as [Ha Hl]. rewrite append_cons. cbn [split_lines].
  rewrite Ascii.eqb_sym, Ha. rewrite IH by done. done.
Qed.

Lemma drop_cr_none line : Contains line carriage_return = false → drop_cr line = line.
Proof.
  intros Hl. apply TrimSuffix_none. destruct (HasSuffix line carriage_return) eqn:Hs; [|done].
  apply HasSuffix_spec in Hs as [x ->]. exfalso.
  assert (Contains (x +:+ carriage_return) carriage_return = true); [|congruence].
  apply Contains_spec. exists x, "". by rewrite append_nil_r.
Qed.

(** The request can be stored and read back: it encodes faithfully, to a line
    within the scanner's limit. *)
Definition storable (r : CapturedRequest) : Prop :=
  json_faithful r ∧ ∃ line, json_Marshal r = Ok line ∧ str_len line < max_token.

Lemma decode_text rs :
  Forall storable rs →
  ∃ ts, scan (text_of rs) = (ts, None) ∧
    omap (λ t, match json_Unmarshal t with Ok r => Some r | Err _ => None end) ts = rs.
Proof.
  unfold scan. induction 1 as [|r rs (Hf & line & Hm & Hl) Hrs IH]; [by exists []|].
  destruct IH as (ts & Hts & Ho). exists (line :: ts).
  destruct (marshal_no_newline _ _ Hm) as [Hn Hcr].
  cbn [text_of]. unfold request_line. rewrite Hm, append_assoc, split_lines_line by done.
  cbn [scan_tokens]. replace (max_token <=? str_len line) with false by (symmetry; apply Z.leb_gt; lia).
  rewrite Hts, drop_cr_none by done. split; [done|].
  cbn. rewrite (unmarshal_marshal _ _ Hm Hf). f_equal. exact Ho.
Qed.

Lemma decode_object_text rs : Forall storable rs → decode_object (gzip (text_of rs)) = Ok rs.
Proof.
  intros Hrs. unfold decode_object. rewrite gunzip_gzip.
  destruct (decode_text rs Hrs) as (ts & -> & ->). done.
Qed.

Lemma decode_chunks chunks : Forall storable (concat chunks) →
  decode_object <$> ((λ rs, gzip (text_of rs)) <$> chunks) = Ok <$> chunks.
Proof.
  induction chunks as [|rs chunks IH]; intros Hch; [done|].
  simpl in Hch. apply Forall_app in Hch as [Hrs Hch].
  by rewrite !fmap_cons, decode_object_text, IH by done.
Qed.

Lemma text_of_empty rs : Forall storable rs → text_of rs = "" → rs = [].
Proof.
  intros [|r rs' (_ & line & Hm & _) _]; [done|]. cbn [text_of]. unfold request_line. rewrite Hm.
  intros Heq%(f_equal String.length). rewrite !append_length in Heq. simpl in Heq. lia.
Qed.

(** ** Theorems *)

(** A storage writer loses and duplicates nothing.  Over any sequence of
    [Write], [Flush] and [Close] calls, with uploads failing at any point, the
    objects uploaded successfully decode, in upload order, to the accepted
    requests in the order they were written, except for those still in the
    buffer; after a [Close] that succeeded every accepted request is in an
    object. *)
Theorem writer_stores_accepted now fi mb ops w log acc :
  writer_run (newBufferedObjectWriter now fi mb, []) [] ops = (w, log, acc) →
  Forall storable acc →
  ∃ chunks pending, acc = concat chunks ++ pending ∧
    decode_object <$> log.*2 = Ok <$> chunks ∧
    bow_buffer w = text_of pending ∧ (bow_closed w = true → pending = []).
Proof.
  intros Hrun Hst. pose proof (run_chunked ops (newBufferedObjectWriter now fi mb, []) []) as Hr.
  rewrite Hrun in Hr. destruct Hr as [(chunks & pending & -> & Hlog & Hbuf) Hcl]; [|done|].
  { exists [], []. by split_and!. }
  apply Forall_app in Hst as [Hch Hpe]. exists chunks, pending. split_and!; [done| |done|].
  - rewrite Hlog. by apply decode_chunks.
  - intros Hc. apply text_of_empty; [done|]. rewrite <- Hbuf. by apply Hcl.
Qed.

(** The reading of the clock an upload of this call is named with. *)
Definition name_time (op : writer_op) : Z :=
  match op with OpWrite c _ _ | OpFlush c _ | OpClose c _ => wc_name c end.

(** The uploads are named with the times [ts] and the sequence numbers 1, 2, ... *)
Definition named (ts : list Z) (w : bufferedObjectWriter) (log : upload_log) : Prop :=
  log.*1 = zip_with objectName ts (seqZ 1 (len log)) ∧ len ts = len log ∧ bow_sequence w = len log.

Lemma flush_names c o w log ts :
  named ts w log → len log + 1 < 2 ^ 64 →
  let '(w', log', _) := flushLocked objectName (log_upload o) c w log in
  len log' <= len log + 1 ∧
  ∃ us, us `sublist_of` [wc_name c] ∧ named (ts ++ us) w' log'.
Proof.
  intros (Hn & Ht & Hs) Hb. unfold flushLocked.
  case_bool_decide; [simpl; split; [lia|]; exists []; rewrite app_nil_r; split; [apply sublist_nil_l|done]|].
  destruct o as [e|]; simpl;
    [split; [lia|]; exists []; rewrite app_nil_r; split; [apply sublist_nil_l|done]|].
  pose proof (len_nonneg log).
  assert (uint64 (len log + 1) = len log + 1) as Hu by (apply Z.mod_small; lia).
  rewrite Hs, Hu. set (entry := (objectName _ _, gzip _)). unfold named. simpl.
  assert (len (log ++ [entry]) = len log + 1) as -> by (rewrite len_app; unfold len; simpl; lia).
  split; [lia|]. exists [wc_name c]. split; [done|].
  split_and!; [|rewrite len_app; unfold len in *; simpl; lia|done].
  rewrite fmap_app, Hn, seqZ_app by lia.
  rewrite zip_with_app by (rewrite length_seqZ; unfold len in *; lia). f_equal.
  rewrite (seqZ_cons _ 1), seqZ_nil by lia. simpl. f_equal. f_equal. lia.
Qed.

Lemma named_closed ts w log c : named ts w log →
  named ts (MkWriter (bow_flushInterval w) (bow_maxBufferBytes w) (bow_sequence w) (bow_buffer w)
    c (bow_lastFlush w)) log.
Proof. intros (? & ? & ?). by split_and!. Qed.

Lemma step_names st op ts :
  let '(w, log) := st in
  named ts w log → len log + 1 < 2 ^ 64 →
  let '(w', log', _) := writer_step st op in
  len log' <= len log + 1 ∧ ∃ us, us `sublist_of` [name_time op] ∧ named (ts ++ us) w' log'.
Proof.
  destruct st as [w log]. intros Hn Hb.
  assert (∃ us, us `sublist_of` [name_time op] ∧ named (ts ++ us) w log) as Hsame.
  { exists []. rewrite app_nil_r. split; [apply sublist_nil_l|done]. }
  destruct op as [c r o|c o|c o]; simpl in *.
  - unfold Write. destruct (marshalRequestLine r); [|split; [lia|done]].
    destruct (bow_closed w) eqn:Hc; [split; [lia|done]|].
    destruct (_ || _); [by apply flush_names|]. split; [lia|exact Hsame].
  - unfold Flush. destruct (bow_closed w); [split; [lia|done]|]. by apply flush_names.
  - unfold Close. destruct (bow_closed w); [split; [lia|done]|].
    pose proof (flush_names c o w log ts Hn Hb) as Hf.
    destruct (flushLocked objectName (log_upload o) c w log) as [[w' log'] [e|]]; [done|].
    destruct Hf as (? & us & ? & ?). split; [done|]. exists us. split; [done|]. by apply named_closed.
Qed.

Lemma run_names ops w log acc ts :
  named ts w log → len log + len ops < 2 ^ 64 →
  let '(w', log', _) := writer_run (w, log) acc ops in
  len log' <= len log + len ops ∧
  ∃ us, us `sublist_of` (name_time <$> ops) ∧ named (ts ++ us) w' log'.
Proof.
  revert w log acc ts. induction ops as [|op ops IH]; intros w log acc ts Hn Hb.
  { split; [unfold len; simpl; lia|]. exists []. by rewrite app_nil_r. }
  assert (len (op :: ops) = 1 + len ops) as Hl by (unfold len; simpl length; lia).
  pose proof (len_nonneg ops). cbn [writer_run].
  pose proof (step_names (w, log) op ts Hn ltac:(lia)) as Hst.
  destruct (writer_step (w, log) op) as [[w' log'] r].
  destruct Hst as (Hle & us & Hsub & Hn').
  specialize (IH w' log' (acc ++ accepts w op) (ts ++ us) Hn' ltac:(lia)).
  simpl. destruct (writer_run _ _ ops) as [[w2 log2] acc2].
  destruct IH as (? & us2 & Hsub2 & Hn2). split; [lia|]. exists (us ++ us2).
  rewrite app_assoc. split; [|done]. exact (sublist_app _ [name_time op] _ _ Hsub Hsub2).
Qed.
End Runs.

Lemma objectFileName_inj pod x y :
  0 <= x < 1000000 → 0 <= y < 1000000 → objectFileName pod x = objectFileName pod y → x = y.
Proof.
  intros Hx Hy Heq. unfold objectFileName in Heq.
  apply (inj (String.app _)) in Heq. apply (inj (String.app "-")) in Heq.
  apply append_inj_r in Heq. rewrite !pad_fixed in Heq by lia. by apply (fixed_inj 6).
Qed.

(** A writer never overwrites its own objects: the [i]-th successful upload
    is named with sequence number [i], a failed upload is retried under the
    same number, and the file names of the first million uploads are
    pairwise distinct. *)
Theorem object_names_sequential {CO : RequestCodec} objectName now fi mb ops w log acc :
  writer_run objectName (newBufferedObjectWriter now fi mb, []) [] ops = (w, log, acc) →
  len ops < 1000000 →
  (∃ ts, log.*1 = zip_with objectName ts (seqZ 1 (len log)) ∧ len ts = len log) ∧
  ∀ pod i j, 1 <= i <= len log → 1 <= j <= len log →
    objectFileName pod i = objectFileName pod j → i = j.
Proof.
  intros Hrun Hlen.
  pose proof (run_names objectName ops (newBufferedObjectWriter now fi mb) [] [] [] ltac:(by split_and!)
    ltac:(unfold len in *; simpl; lia)) as Hn.
  unfold upload_log in *. rewrite Hrun in Hn. destruct Hn as (Hle & ts & _ & Hn & Ht & _). split; [eauto|].
  intros pod i j Hi Hj. change (len []) with 0 in Hle. apply objectFileName_inj; lia.
Qed.

(** ** Manifest keys *)

(** [buildObjectPrefix] of the readers ([reader_s3.go]). *)
Definition buildObjectPrefix (storagePrefix captureID : string) : string :=
  let storagePrefix := TrimSlash storagePrefix in
  let parts := (if bool_decide (storagePrefix ≠ "") then [storagePrefix] else [])
               ++ (if bool_decide (captureID ≠ "") then [captureID] else []) in
  if bool_decide (parts = []) then "" else join_slash parts +:+ "/".

(** The key [LoadManifest] of the S3 and GCS readers asks for. *)
Definition loadManifestKey (prefix captureID : string) : string :=
  buildObjectPrefix prefix captureID +:+ "/" +:+ ManifestObjectName.

(** The S3 and GCS readers never find a manifest: for every prefix and
    capture the key [LoadManifest] asks for differs from the key [PutManifest]
    stores under (it has an empty path element, which a cleaned key never
    has). *)
Theorem cloud_manifest_never_found prefix captureID :
  captureID ≠ "" → loadManifestKey prefix captureID ≠ cloudManifestKey prefix captureID.
Proof.
  intros Hid Heq.
  assert (Contains (cloudManifestKey prefix captureID) "//" = false) as Hc
    by apply path_Join_no_double.
  rewrite <- Heq in Hc. unfold loadManifestKey, buildObjectPrefix in Hc.
  rewrite bool_decide_eq_false_2 in Hc.
  2:{ rewrite (bool_decide_eq_true_2 (captureID ≠ "")) by done. intros Hx; case_bool_decide; discriminate. }
  assert (∀ s t, Contains (s +:+ "//" +:+ t) "//" = true) as Ht
    by (intros s t; apply Contains_spec; eauto).
  rewrite append_assoc in Hc. change ("/" +:+ "/" +:+ ManifestObjectName)
    with ("//" +:+ ManifestObjectName) in Hc. rewrite Ht in Hc. done.
Qed.

(** ** A concrete codec, for the witnesses

    Requests as the bits of their [Countable] encoding; no compression. *)

Definition request_tuple (r : CapturedRequest) :=
  (cr_ID r, cr_Timestamp r, cr_Method r, cr_Path r, cr_Headers r, cr_Body r,
   cr_ContentLength r, cr_Protocol r, cr_Metadata r).
Definition tuple_request (t : string * Z * string * string * gmap string (list string) * string
    * Z * string * gmap string string) : CapturedRequest :=
  let '(a, b, c, d, e, f, g, h, i) := t in
  {| cr_ID := a; cr_Timestamp := b; cr_Method := c; cr_Path := d; cr_Headers := e; cr_Body := f;
     cr_ContentLength := g; cr_Protocol := h; cr_Metadata := i |}.

#[global] Instance CapturedRequest_countable : Countable CapturedRequest.
Proof. apply (inj_countable' request_tuple tuple_request). by intros []. Defined.

Fixpoint bits_of (p : positive) : string :=
  match p with xH => "" | xO p => String "0" (bits_of p) | xI p => String "1" (bits_of p) end.
Fixpoint of_bits (s : string) : positive :=
  match s with
  | "" => xH
  | String a s => if Ascii.eqb a "1" then xI (of_bits s) else xO (of_bits s)
  end.

Lemma of_bits_of p : of_bits (bits_of p) = p.
Proof. induction p; simpl; by f_equal. Qed.

Lemma bits_contains p a : a ≠ "0"%char → a ≠ "1"%char → Contains (bits_of p) (String a "") = false.
Proof.
  intros H0 H1. induction p; [..|done]; cbn [bits_of]; rewrite Contains_cons, HasPrefix_char, IHp, orb_false_r;
    by apply Ascii.eqb_neq.
Qed.

Definition demo_codec : RequestCodec.
Proof.
  refine {|
    json_Marshal r := Ok (bits_of (encode r));
    json_Unmarshal s := match decode (of_bits s) with Some r => Ok r | None => Err (Sentinel "json") end;
    json_faithful _ := True;
    gzip s := s;
    gunzip s := Ok s |}.
  - intros r line [= <-] _. by rewrite of_bits_of, decode_encode.
  - intros r line [= <-]. split; by apply bits_contains.
  - done.
Defined.

#[local] Existing Instance demo_codec.

Definition demo_request (id : string) : CapturedRequest :=
  {| cr_ID := id; cr_Timestamp := 1; cr_Method := "GET"; cr_Path := "/"; cr_Headers := ∅;
     cr_Body := ""; cr_ContentLength := 0; cr_Protocol := "HTTP"; cr_Metadata := ∅ |}.

Definition demo_write_clock : write_clock := {| wc_check := 0; wc_name := 0; wc_flush := 0 |}.

(** Two requests; the first flush fails and is retried by [Close]. *)
Definition demo_ops : list writer_op :=
  [OpWrite demo_write_clock (demo_request "a") None;
   OpFlush demo_write_clock (Some (Sentinel "timeout"));
   OpWrite demo_write_clock (demo_request "b") None;
   OpClose demo_write_clock None].

Definition demo_names : Z → Z → string := newCloudObjectName "captures" "prod/orders" "agent-0".

Lemma demo_storable id : str_len (bits_of (encode (demo_request id))) < max_token →
  storable (demo_request id).
Proof. intros Hl. split; [exact I|]. eexists. split; [reflexivity|exact Hl]. Qed.

