(* ===== verification/Readers.v ===== *)
(** * Capture readers ([internal/plugin/replay/reader_*.go])

    The S3, GCS and file system readers stream the objects of a capture in key
    order, line by line.  They share their loop, which is modelled once over
    two parameters: listing the keys under a prefix, and the decompressed text
    of an object (with the read error that cuts it short, if any). *)

From S2P Require Import Prelude GoStd GoTime Storage.
From Stdlib Require Import Ascii.

Local Open Scope Z_scope.

Definition ErrReaderDone : go_error := Sentinel "reader: no more requests".

(** The zero time is "unset". *)
Record ReadOptions := {
  ro_CaptureID : string;
  ro_StartTime : Z;
  ro_EndTime : Z;
  ro_PathPrefix : string;
  ro_Methods : list string;
  ro_Limit : Z
}.

(** ** Filters *)

Definition matchesReadOptions (req : CapturedRequest) (opts : ReadOptions) : bool :=
  if negb (IsZero (ro_StartTime opts)) && (cr_Timestamp req <? ro_StartTime opts) then false
  else if negb (IsZero (ro_EndTime opts)) && (ro_EndTime opts <? cr_Timestamp req) then false
  else if bool_decide (ro_PathPrefix opts ≠ "") && negb (HasPrefix (cr_Path req) (ro_PathPrefix opts))
  then false
  else if 0 <? len (ro_Methods opts) then existsb (EqualFold (cr_Method req)) (ro_Methods opts)
  else true.

(** The first path element that parses as a date decides. *)
Fixpoint filter_parts (startTime endTime : Z) (parts : list string) : bool :=
  match parts with
  | [] => true
  | part :: parts =>
      match ParseDate part with
      | None => filter_parts startTime endTime parts
      | Some day =>
          if negb (IsZero startTime) && (day_start day <? Truncate24h startTime) then false
          else if negb (IsZero endTime) && (Truncate24h endTime <? day_start day) then false
          else true
      end
  end.

Definition filterObjectByTime (key : string) (startTime endTime : Z) : bool :=
  if IsZero startTime && IsZero endTime then true
  else filter_parts startTime endTime (split_slash key).

Definition data_suffix : string := ".jsonl.gz".

(** The data objects of a listing that can hold requests of the time range. *)
Definition select_objects (opts : ReadOptions) (keys : list string) : list string :=
  sort_Strings (List.filter (λ key,
    HasSuffix key data_suffix && filterObjectByTime key (ro_StartTime opts) (ro_EndTime opts)) keys).

(** ** Resuming: [seekTo]

    [sort.Search]: binary search for the smallest index where [f] holds. *)
Fixpoint sort_Search (fuel : nat) (f : Z → bool) (i j : Z) : Z :=
  match fuel with
  | O => i
  | S fuel =>
      if i <? j then
        let h := (i + j) / 2 in
        if f h then sort_Search fuel f i h else sort_Search fuel f (h + 1) j
      else i
  end.

Definition str_at (keys : list string) (i : Z) : string := default "" (keys !! Z.to_nat i).

Definition SearchStrings (keys : list string) (x : string) : Z :=
  sort_Search (length keys) (λ i, bool_decide (String.le x (str_at keys i))) 0 (len keys).

Definition seekTo (keys : list string) (resumeKey : string) : Z :=
  if bool_decide (resumeKey = "") then 0
  else
    let idx := SearchStrings keys resumeKey in
    if (idx <? len keys) && bool_decide (str_at keys idx = resumeKey) then idx + 1 else idx.

(** ** The reader *)

(** [rd_scanner] is the scanner of the current object: the tokens it has not
    delivered yet and the error it will end with. *)
Record ObjectReader := MkReader {
  rd_objects : list string;
  rd_index : Z;
  rd_scanner : option (list string * option go_error);
  rd_opts : ReadOptions;
  rd_opened : bool;
  rd_closed : bool;
  rd_totalRead : Z
}.

Definition emptyOptions : ReadOptions :=
  {| ro_CaptureID := ""; ro_StartTime := zero_time; ro_EndTime := zero_time;
     ro_PathPrefix := ""; ro_Methods := []; ro_Limit := 0 |}.

Definition newReader : ObjectReader := MkReader [] 0 None emptyOptions false false 0.

Section Reader.
Context {CO : RequestCodec}.

(** [Open], after the listing [listed] of the prefix. *)
Definition reader_Open (what : string) (opts : ReadOptions) (listed : result (list string))
    (r : ObjectReader) : ObjectReader * option go_error :=
  if rd_opened r then (r, Some (FmtError "reader already opened" []))
  else
    let r := MkReader (rd_objects r) (rd_index r) (rd_scanner r) opts true (rd_closed r)
               (rd_totalRead r) in
    match listed with
    | Err e => (r, Some (WrapError ("list " +:+ what +:+ ": %w") [] e))
    | Ok keys =>
        (MkReader (select_objects opts keys) (-1) (rd_scanner r) opts true (rd_closed r)
           (rd_totalRead r), None)
    end.

(** What the scan loop does with the tokens of one object. *)
Inductive scan_outcome :=
  | ScanYield (req : CapturedRequest) (rest : list string)
  | ScanLimit (rest : list string)
  | ScanEnd.

Fixpoint scan_next (opts : ReadOptions) (totalRead : Z) (tokens : list string) : scan_outcome :=
  match tokens with
  | [] => ScanEnd
  | t :: tokens =>
      match json_Unmarshal t with
      | Err _ => scan_next opts totalRead tokens
      | Ok req =>
          if negb (matchesReadOptions req opts) then scan_next opts totalRead tokens
          else if (0 <? ro_Limit opts) && (ro_Limit opts <=? totalRead) then ScanLimit tokens
          else ScanYield req tokens
      end
  end.

Context (open_object : string → result (string * option go_error)) (what : string).

(** Opening an object: its tokens and the error its scanner ends with. *)
Definition open_scanner (key : string) : result (list string * option go_error) :=
  match open_object key with
  | Err e => Err e
  | Ok (text, read_err) =>
      let '(ts, e) := scan text in
      Ok (ts, match e with Some e => Some e | None => read_err end)
  end.

(** The scanner part of one iteration of [Next]: an answer, or nothing left. *)
Definition scan_current (key : string) (r : ObjectReader)
    : ObjectReader * option (result CapturedRequest) :=
  match rd_scanner r with
  | None => (r, None)
  | Some (tokens, err) =>
      let upd tokens n := MkReader (rd_objects r) (rd_index r) (Some (tokens, err)) (rd_opts r)
                            (rd_opened r) (rd_closed r) n in
      match scan_next (rd_opts r) (rd_totalRead r) tokens with
      | ScanYield req rest => (upd rest (int64 (rd_totalRead r + 1)), Some (Ok req))
      | ScanLimit rest => (upd rest (rd_totalRead r), Some (Err ErrReaderDone))
      | ScanEnd =>
          match err with
          | Some e => (upd [] (rd_totalRead r),
                       Some (Err (WrapError ("scan " +:+ what +:+ " %q: %w") [FStr key] e)))
          | None => (upd [] (rd_totalRead r), None)
          end
      end
  end.

(** Moving on through the objects [rest] that come after the current one. *)
Fixpoint advance (rest : list string) (r : ObjectReader) : ObjectReader * result CapturedRequest :=
  match rest with
  | [] =>
      (MkReader (rd_objects r) (rd_index r + 1) None (rd_opts r) (rd_opened r) (rd_closed r)
         (rd_totalRead r), Err ErrReaderDone)
  | key :: rest =>
      let r := MkReader (rd_objects r) (rd_index r + 1) None (rd_opts r) (rd_opened r)
                 (rd_closed r) (rd_totalRead r) in
      match open_scanner key with
      | Err e => (r, Err (WrapError ("open " +:+ what +:+ " %q: %w") [FStr key] e))
      | Ok sc =>
          let r := MkReader (rd_objects r) (rd_index r) (Some sc) (rd_opts r) (rd_opened r)
                     (rd_closed r) (rd_totalRead r) in
          match scan_current key r with
          | (r, Some answer) => (r, answer)
          | (r, None) => advance rest r
          end
      end
  end.

Definition reader_Next (r : ObjectReader) : ObjectReader * result CapturedRequest :=
  if negb (rd_opened r) then (r, Err (FmtError "reader not opened" []))
  else if rd_closed r then (r, Err ErrReaderDone)
  else
    match scan_current (str_at (rd_objects r) (rd_index r)) r with
    | (r, Some answer) => (r, answer)
    | (r, None) => advance (drop (Z.to_nat (rd_index r + 1)) (rd_objects r)) r
    end.

Definition reader_Close (r : ObjectReader) : ObjectReader :=
  if rd_closed r then r
  else MkReader (rd_objects r) (rd_index r) None (rd_opts r) (rd_opened r) true (rd_totalRead r).

End Reader.

(** ** The three readers *)

Section Backends.
Context {CO : RequestCodec}.

Definition S3Reader_Open (prefix : string) (opts : ReadOptions)
    (list_keys : string → result (list string)) : ObjectReader → ObjectReader * option go_error :=
  reader_Open "s3 objects" opts (list_keys (buildObjectPrefix prefix (ro_CaptureID opts))).

Definition GCSReader_Open (prefix : string) (opts : ReadOptions)
    (list_keys : string → result (list string)) : ObjectReader → ObjectReader * option go_error :=
  reader_Open "gcs objects" opts (list_keys (buildObjectPrefix prefix (ro_CaptureID opts))).

Definition FilesystemReader_Open (mountPath : string) (opts : ReadOptions)
    (list_keys : string → result (list string)) : ObjectReader → ObjectReader * option go_error :=
  reader_Open "files" opts
    (list_keys (if bool_decide (ro_CaptureID opts ≠ "")
                then path_Join [mountPath; ro_CaptureID opts] else mountPath)).

Definition S3Reader_Next (open_object : string → result (string * option go_error)) :=
  reader_Next open_object "object".
Definition GCSReader_Next (open_object : string → result (string * option go_error)) :=
  reader_Next open_object "object".
Definition FilesystemReader_Next (open_file : string → result (string * option go_error)) :=
  reader_Next open_file "file".
End Backends.

(** [S3Reader.listObjects] gathers the pages of the listing; [fetch] is
    [ListObjectsV2]: the keys of the page at a continuation token and, when the
    listing is truncated, the token of the next page.  [None]: out of fuel. *)
Fixpoint s3_listPages (fetch : option string → result (list string * option string))
    (fuel : nat) (token : option string) : option (result (list string)) :=
  match fuel with
  | O => None
  | S fuel =>
      match fetch token with
      | Err e => Some (Err e)
      | Ok (keys, None) => Some (Ok keys)
      | Ok (keys, Some next) =>
          match s3_listPages fetch fuel (Some next) with
          | Some (Ok more) => Some (Ok (keys ++ more))
          | other => other
          end
      end
  end.

(** ** Reading a capture to its end *)

Section ReadAll.
Context {CO : RequestCodec}.
Context (open_object : string → result (string * option go_error)) (what : string).

(** Calls [Next] until it fails; [None] when [fuel] calls were not enough. *)
Fixpoint read_all (fuel : nat) (r : ObjectReader) : option (list CapturedRequest * go_error) :=
  match fuel with
  | O => None
  | S fuel =>
      match reader_Next open_object what r with
      | (_, Err e) => Some ([], e)
      | (r, Ok req) =>
          match read_all fuel r with
          | Some (reqs, e) => Some (req :: reqs, e)
          | None => None
          end
      end
  end.

(** The requests of an object's tokens that pass the filter. *)
Definition token_requests (opts : ReadOptions) (tokens : list string) : list CapturedRequest :=
  List.filter (λ r, matchesReadOptions r opts)
    (omap (λ t, match json_Unmarshal t with Ok r => Some r | Err _ => None end) tokens).

Definition object_requests (opts : ReadOptions) (key : string) : list CapturedRequest :=
  match open_scanner open_object key with
  | Ok (tokens, _) => token_requests opts tokens
  | Err _ => []
  end.

(** The object opens and its text scans without error. *)
Definition readable (key : string) : Prop :=
  ∃ tokens, open_scanner open_object key = Ok (tokens, None).

Definition limited (opts : ReadOptions) (rs : list CapturedRequest) : list CapturedRequest :=
  if 0 <? ro_Limit opts then take (Z.to_nat (ro_Limit opts)) rs else rs.

Lemma scan_next_spec opts n tokens :
  match scan_next opts n tokens with
  | ScanYield req rest => token_requests opts tokens = req :: token_requests opts rest ∧
      ((0 <? ro_Limit opts) && (ro_Limit opts <=? n) = false)
  | ScanLimit _ => (0 <? ro_Limit opts) && (ro_Limit opts <=? n) = true
  | ScanEnd => token_requests opts tokens = []
  end.
Proof.
  induction tokens as [|t tokens IH]; [done|]. cbn [scan_next]. unfold token_requests in *. cbn.
  destruct (json_Unmarshal t) as [req|e]; [|exact IH].
  cbn [List.filter]. destruct (matchesReadOptions req opts); cbn [negb]; [|exact IH].
  destruct (_ && _) eqn:E; done.
Qed.

(** What an opened reader still has to deliver: its current tokens, then its
    remaining objects. *)
Definition remaining (r : ObjectReader) : list CapturedRequest :=
  match rd_scanner r with
  | Some (tokens, _) => token_requests (rd_opts r) tokens
  | None => []
  end ++ concat (object_requests (rd_opts r) <$> drop (Z.to_nat (rd_index r + 1)) (rd_objects r)).

Definition reading (r : ObjectReader) : Prop :=
  rd_opened r = true ∧ rd_closed r = false ∧ -1 <= rd_index r ∧
  Forall readable (rd_objects r) ∧ 0 <= rd_totalRead r ∧
  (∀ tokens e, rd_scanner r = Some (tokens, e) → e = None).

Definition limit_hit (r : ObjectReader) : bool :=
  (0 <? ro_Limit (rd_opts r)) && (ro_Limit (rd_opts r) <=? rd_totalRead r).

(** One answer of a reader in a good state: the next remaining request, or the
    end because the limit was reached or nothing remains. *)
Definition answered (r r' : ObjectReader) (a : result CapturedRequest) : Prop :=
  match a with
  | Ok req => remaining r = req :: remaining r' ∧ reading r' ∧ rd_opts r' = rd_opts r ∧
      limit_hit r = false ∧ rd_totalRead r' = rd_totalRead r + 1
  | Err e => e = ErrReaderDone ∧ (limit_hit r = true ∨ remaining r = [])
  end.

Lemma scan_current_spec key r :
  reading r → rd_totalRead r < max_int64 →
  match scan_current what key r with
  | (r', Some a) => answered r r' a
  | (r', None) => reading r' ∧ remaining r' = remaining r ∧ rd_opts r' = rd_opts r ∧
      rd_totalRead r' = rd_totalRead r ∧ rd_objects r' = rd_objects r ∧ rd_index r' = rd_index r ∧
      (∀ tokens e, rd_scanner r' = Some (tokens, e) → tokens = [])
  end.
Proof.
  intros Hr Hn. pose proof Hr as (Ho & Hc & Hi & Hread & Ht & Hsc). unfold scan_current.
  destruct (rd_scanner r) as [[tokens err]|] eqn:Hs.
  2:{ split_and!; [done..|]. intros ??. congruence. }
  specialize (Hsc _ _ eq_refl) as ->.
  pose proof (scan_next_spec (rd_opts r) (rd_totalRead r) tokens) as Hnext.
  destruct (scan_next _ _ tokens) as [req rest|rest|].
  - destruct Hnext as [Htok Hlim]. unfold answered, remaining, reading, limit_hit. simpl.
    rewrite Hs, Htok, int64_id by (unfold in_int64, max_int64 in *; lia).
    split_and!; try done; [lia|]. by intros ?? [= ? ?].
  - split; [done|]. by left.
  - unfold reading, remaining. simpl. rewrite Hs, Hnext.
    split_and!; try done; by intros ?? [= <- <-].
Qed.

Lemma advance_spec rest r :
  reading r → rd_totalRead r < max_int64 →
  (∀ tokens e, rd_scanner r = Some (tokens, e) → tokens = []) →
  rest = drop (Z.to_nat (rd_index r + 1)) (rd_objects r) →
  let '(r', a) := advance open_object what rest r in answered r r' a.
Proof.
  revert r. induction rest as [|key rest IH]; intros r Hr Hn Hs Hd; cbn [advance].
  { split; [done|]. right. unfold remaining. rewrite <- Hd.
    destruct (rd_scanner r) as [[tokens e]|] eqn:E; [|done]. by rewrite (Hs _ _ eq_refl). }
  pose proof Hr as (Ho & Hc & Hi & Hread & Ht & _).
  assert (rest = drop (Z.to_nat (rd_index r + 1 + 1)) (rd_objects r)) as Hrest.
  { replace (Z.to_nat (rd_index r + 1 + 1)) with (1 + Z.to_nat (rd_index r + 1))%nat by lia.
    rewrite Nat.add_comm, <- drop_drop, <- Hd. done. }
  assert (readable key) as [tokens Hk].
  { apply (Forall_drop _ (Z.to_nat (rd_index r + 1))) in Hread. rewrite <- Hd in Hread.
    by inversion Hread. }
  rewrite Hk. cbn [rd_objects rd_index rd_opts rd_opened rd_closed rd_totalRead].
  set (r1 := MkReader _ _ _ _ _ _ _).
  assert (remaining r = remaining r1) as Hrem.
  { unfold remaining, r1. simpl. rewrite <- Hd, <- Hrest. simpl. unfold object_requests at 1.
    rewrite Hk. destruct (rd_scanner r) as [[tk e]|] eqn:E; [|done]. by rewrite (Hs _ _ eq_refl). }
  assert (reading r1) as Hr1.
  { unfold reading, r1. simpl. split_and!; try done; [lia|]. by intros ?? [= ??]. }
  pose proof (scan_current_spec key r1 Hr1 Hn) as Hsc. unfold answered in *.
  destruct (scan_current what key r1) as [r2 [a|]].
  { by rewrite Hrem. }
  destruct Hsc as (Hr2 & Hrem2 & Hopts & Htot & Hobj & Hidx & Hs2).
  specialize (IH r2 Hr2 ltac:(rewrite Htot; done) Hs2 ltac:(rewrite Hidx, Hobj; exact Hrest)).
  destruct (advance open_object what rest r2) as [r3 a].
  unfold limit_hit in *. rewrite Hrem2, Hopts, Htot in IH. rewrite Hrem. exact IH.
Qed.

Lemma Next_spec r :
  reading r → rd_totalRead r < max_int64 →
  let '(r', a) := reader_Next open_object what r in answered r r' a.
Proof.
  intros Hr Hn. pose proof Hr as (Ho & Hc & _). unfold reader_Next. rewrite Ho, Hc. cbn [negb].
  pose proof (scan_current_spec (str_at (rd_objects r) (rd_index r)) r Hr Hn) as Hsc.
  destruct (scan_current _ _ r) as [r1 [a|]]; [done|].
  destruct Hsc as (Hr1 & Hrem & Hopts & Htot & Hobj & Hidx & Hs).
  pose proof (advance_spec _ r1 Hr1 ltac:(rewrite Htot; done) Hs eq_refl) as Had.
  destruct (advance _ _ _ r1) as [r2 a]. unfold answered, limit_hit in *.
  by rewrite Hrem, Hopts, Htot in Had.
Qed.

(** The requests a reader still returns: the remaining ones, up to the limit. *)
Definition still (r : ObjectReader) : list CapturedRequest :=
  if 0 <? ro_Limit (rd_opts r)
  then take (Z.to_nat (ro_Limit (rd_opts r) - rd_totalRead r)) (remaining r) else remaining r.

Lemma read_all_spec fuel r :
  reading r → rd_totalRead r + len (remaining r) < max_int64 →
  (length (still r) < fuel)%nat → read_all fuel r = Some (still r, ErrReaderDone).
Proof.
  revert r. induction fuel as [|fuel IH]; intros r Hr Hn Hf; [lia|]. cbn [read_all].
  pose proof (len_nonneg (remaining r)).
  pose proof (Next_spec r Hr ltac:(lia)) as Ha. destruct (reader_Next _ _ r) as [r' [req|e]].
  - destruct Ha as (Hrem & Hr' & Hopts & Hlim & Htot).
    assert (still r = req :: still r') as Hst.
    { unfold still, limit_hit in *. rewrite Hrem, Hopts, Htot.
      destruct (0 <? ro_Limit (rd_opts r)) eqn:El; [|done]. simpl in Hlim. zbool.
      replace (Z.to_nat (ro_Limit (rd_opts r) - rd_totalRead r))
        with (S (Z.to_nat (ro_Limit (rd_opts r) - (rd_totalRead r + 1)))) by lia. done. }
    rewrite Hst in Hf |- *. rewrite IH; [done|done| |simpl in Hf; lia].
    rewrite Hrem in Hn. unfold len in *. simpl in Hn. lia.
  - destruct Ha as [-> Hend]. do 2 f_equal. unfold still, limit_hit in *.
    destruct Hend as [Hl| ->]; [|by destruct (_ <? _); [rewrite take_nil|]].
    zbool. rewrite (proj2 (Z.ltb_lt _ _)) by done.
    replace (Z.to_nat _) with 0%nat by lia. done.
Qed.

(** What a reader opened on a listing has to deliver. *)
Lemma opened_reading listing opts listed r :
  reader_Open listing opts (Ok listed) newReader = (r, None) →
  Forall readable (select_objects opts listed) →
  reading r ∧ rd_totalRead r = 0 ∧
  remaining r = concat (object_requests opts <$> select_objects opts listed) ∧
  still r = limited opts (concat (object_requests opts <$> select_objects opts listed)).
Proof.
  unfold reader_Open. cbn. intros [= <-] Hread.
  unfold reading, still, limited, remaining. simpl. rewrite Z.sub_0_r. split_and!; try done; lia.
Qed.

Lemma limited_length opts rs : (length (limited opts rs) <= length rs)%nat.
Proof. unfold limited. destruct (_ <? _); [rewrite length_take|]; lia. Qed.

(** Reading a capture delivers exactly what it holds.  A reader opened on a
    listing whose selected objects are readable returns, one [Next] at a time,
    the requests of these objects in key order and line order that match the
    options, malformed lines skipped, up to the limit, and then reports the
    end. *)
Theorem reader_delivers_capture listing opts listed r fuel :
  reader_Open listing opts (Ok listed) newReader = (r, None) →
  Forall readable (select_objects opts listed) →
  len (concat (object_requests opts <$> select_objects opts listed)) < max_int64 →
  (length (concat (object_requests opts <$> select_objects opts listed)) < fuel)%nat →
  read_all fuel r
    = Some (limited opts (concat (object_requests opts <$> select_objects opts listed)),
            ErrReaderDone).
Proof.
  intros Hopen Hread Hlen Hfuel.
  destruct (opened_reading listing opts listed r Hopen Hread) as (Hr & Ht & Hrem & Hst).
  rewrite <- Hst. apply read_all_spec; [done|by rewrite Ht, Hrem|].
  rewrite Hst. eapply Nat.le_lt_trans; [apply limited_length|done].
Qed.
End ReadAll.

(** ** Listing pages *)

(** The pages of a listing at [token], as the store hands them out. *)
Inductive pages (fetch : option string → result (list string * option string))
    : option string → list (list string) → Prop :=
  | pages_last token keys : fetch token = Ok (keys, None) → pages fetch token [keys]
  | pages_more token keys next rest : fetch token = Ok (keys, Some next) →
      pages fetch (Some next) rest → pages fetch token (keys :: rest).

Lemma listPages_complete fetch token ps :
  pages fetch token ps → s3_listPages fetch (length ps) token = Some (Ok (concat ps)).
Proof.
  induction 1 as [token keys Hf|token keys next rest Hf _ IH]; cbn; rewrite Hf; [by rewrite app_nil_r|].
  by rewrite IH.
Qed.

(** ** Resuming *)

Lemma sort_Search_spec fuel f i j :
  i <= j → j - i <= Z.of_nat fuel →
  (∀ a b, i <= a → a <= b → b < j → f a = true → f b = true) →
  let k := sort_Search fuel f i j in
  i <= k <= j ∧ (∀ a, i <= a < k → f a = false) ∧ (∀ a, k <= a < j → f a = true).
Proof.
  revert i j. induction fuel as [|fuel IH]; intros i j Hij Hfuel Hmono; cbn [sort_Search].
  { split_and!; intros; lia. }
  destruct (i <? j) eqn:E; zbool; [|split_and!; intros; lia].
  set (h := (i + j) / 2). assert (i <= h < j) as Hh by (subst h; Z.to_euclidean_division_equations; lia).
  destruct (f h) eqn:Hf.
  - destruct (IH i h) as (Hk & Hlo & Hhi); [lia|lia|intros; apply (Hmono a b); lia || done|].
    split_and!; [lia|lia|done|]. intros a Ha. destruct (decide (a < h)); [apply Hhi; lia|].
    apply (Hmono h a); lia || done.
  - destruct (IH (h + 1) j) as (Hk & Hlo & Hhi); [lia|lia|intros; apply (Hmono a b); lia || done|].
    split_and!; [lia|lia| |done]. intros a Ha. destruct (decide (h < a)); [apply Hlo; lia|].
    destruct (f a) eqn:Hfa; [|done]. rewrite <- Hf. symmetry. apply (Hmono a h); lia || done.
Qed.

Lemma sorted_lookup_le (keys : list string) (i j : nat) a b :
  StronglySorted String.le keys → (i <= j)%nat → keys !! i = Some a → keys !! j = Some b → String.le a b.
Proof.
  intros Hs. revert i j. induction Hs as [|k keys Hs IH Hall]; intros i j Hij Hi Hj; [done|].
  destruct i as [|i], j as [|j]; simplify_eq/=; [done|..].
  - eapply Forall_forall; [exact Hall|]. by eapply list_elem_of_lookup_2.
  - lia.
  - by eapply (IH i j); [lia|..].
Qed.

Lemma str_at_lookup (keys : list string) i : 0 <= i < len keys → keys !! Z.to_nat i = Some (str_at keys i).
Proof.
  intros Hi. unfold str_at. destruct (keys !! Z.to_nat i) eqn:E; [done|].
  apply lookup_ge_None in E. unfold len in Hi. lia.
Qed.

Lemma SearchStrings_spec keys x :
  StronglySorted String.le keys →
  0 <= SearchStrings keys x <= len keys ∧
  (∀ i, 0 <= i < SearchStrings keys x → ¬ String.le x (str_at keys i)) ∧
  (∀ i, SearchStrings keys x <= i < len keys → String.le x (str_at keys i)).
Proof.
  intros Hs. unfold SearchStrings.
  destruct (sort_Search_spec (length keys) (λ i, bool_decide (String.le x (str_at keys i))) 0 (len keys))
    as (Hk & Hlo & Hhi); [apply len_nonneg|unfold len; lia| |].
  - intros a b Ha Hab Hb Hfa. apply bool_decide_eq_true in Hfa. apply bool_decide_eq_true.
    etrans; [exact Hfa|].
    eapply (sorted_lookup_le keys (Z.to_nat a) (Z.to_nat b)); [done|lia|apply str_at_lookup; lia..].
  - split_and!; [lia|lia|..]; intros i Hi.
    + by eapply bool_decide_eq_false, Hlo.
    + by eapply bool_decide_eq_true, Hhi.
Qed.

(** A checkpoint resumes after exactly the completed objects: over sorted
    distinct keys, [seekTo] returns the index that separates the keys up to and
    including the last completed one from the keys after it, whether or not
    that key is still listed. *)
Theorem seek_skips_completed keys resumeKey :
  StronglySorted String.le keys → NoDup keys → resumeKey ≠ "" →
  0 <= seekTo keys resumeKey <= len keys ∧
  ∀ (i : nat) key, keys !! i = Some key → (Z.of_nat i < seekTo keys resumeKey ↔ String.le key resumeKey).
Proof.
  intros Hs Hnd Hne. destruct (SearchStrings_spec keys resumeKey Hs) as (Hk & Hlo & Hhi).
  unfold seekTo. rewrite bool_decide_eq_false_2 by done. set (idx := SearchStrings keys resumeKey) in *.
  assert (∀ (i : nat) key, keys !! i = Some key → str_at keys (Z.of_nat i) = key ∧ Z.of_nat i < len keys)
    as Hat.
  { intros i key Hi. unfold str_at. rewrite Nat2Z.id, Hi. split; [done|].
    apply lookup_lt_Some in Hi. unfold len. lia. }
  assert (∀ (i : nat) key, keys !! i = Some key → Z.of_nat i < idx → String.le key resumeKey) as Hbelow.
  { intros i key Hi Hlt. destruct (Hat i key Hi) as [<- _].
    destruct (total String.le (str_at keys (Z.of_nat i)) resumeKey) as [|Hge]; [done|].
    destruct (Hlo (Z.of_nat i)); [lia|done]. }
  assert (∀ (i : nat) key, keys !! i = Some key → idx <= Z.of_nat i → String.le key resumeKey → key = resumeKey)
    as Habove.
  { intros i key Hi Hge Hle. destruct (Hat i key Hi) as [<- Hl]. apply (anti_symm String.le); [done|].
    apply Hhi. lia. }
  destruct ((idx <? len keys) && bool_decide (str_at keys idx = resumeKey)) eqn:E.
  - apply andb_true_iff in E as [E1 E2]. apply bool_decide_eq_true in E2. zbool.
    split; [lia|]. intros i key Hi. split.
    + intros Hlt. destruct (decide (Z.of_nat i < idx)) as [|Hn]; [by eapply Hbelow|].
      destruct (Hat i key Hi) as [<- _]. assert (Z.of_nat i = idx) as -> by lia. by rewrite E2.
    + intros Hle. destruct (decide (Z.of_nat i < idx)) as [|Hn]; [lia|].
      pose proof (Habove i key Hi ltac:(lia) Hle) as ->.
      pose proof (str_at_lookup keys idx ltac:(lia)) as Hidx. rewrite E2 in Hidx.
      pose proof (NoDup_lookup _ _ _ _ Hnd Hi Hidx). lia.
  - split; [lia|]. intros i key Hi. split; [by eapply Hbelow|]. intros Hle.
    destruct (decide (Z.of_nat i < idx)) as [|Hn]; [done|exfalso].
    pose proof (Habove i key Hi ltac:(lia) Hle) as ->. destruct (Hat i resumeKey Hi) as [Hstr Hl].
    rewrite (proj2 (Z.ltb_lt idx (len keys))) in E by lia. simpl in E.
    apply bool_decide_eq_false in E. apply E.
    assert (String.le (str_at keys idx) resumeKey).
    { rewrite <- Hstr. eapply (sorted_lookup_le keys (Z.to_nat idx) i); [done|lia|apply str_at_lookup; lia|].
      by rewrite Hstr. }
    apply (anti_symm String.le); [done|]. apply Hhi. lia.
Qed.
