(* ===== verification/RoundTrip.v ===== *)
(** * From the storage writer to the capture reader

    The two ends of a capture meet in the object store: the agent's writer names
    and fills objects ([internal/storage]), the replay reader lists and decodes
    them ([internal/plugin/replay]).  This file puts the two components
    together: what one agent wrote is what a reader replays, in the order it was
    captured. *)

From S2P Require Import Prelude GoStd GoTime Storage Readers.

Local Open Scope Z_scope.

(** ** The bucket *)

(** The successful uploads are the bucket's data objects. *)
Definition find_upload (log : upload_log) (key : string) : option string :=
  snd <$> List.find (λ e, bool_decide (fst e = key)) log.

Definition bucket_open {CO : RequestCodec} (log : upload_log) (key : string)
    : result (string * option go_error) :=
  match find_upload log key with
  | None => Err (Sentinel "NoSuchKey")
  | Some payload =>
      match gunzip payload with
      | Err e => Err (WrapError "open gzip reader: %w" [] e)
      | Ok text => Ok (text, None)
      end
  end.

Definition bucket_list (bucket : list string) (prefix : string) : result (list string) :=
  Ok (List.filter (λ key, HasPrefix key prefix) bucket).

(** ** Object names *)

(** The path of a capture's objects in the bucket. *)
Definition capture_base (prefix captureID : string) : string :=
  join_slash ((if bool_decide (TrimSlash prefix ≠ "") then [TrimSlash prefix] else []) ++ [captureID]).

Record plain_names (prefix captureID agentPod : string) : Prop := {
  pn_prefix : TrimSlash prefix = "" ∨ plain_path (TrimSlash prefix);
  pn_capture : plain_path captureID;
  pn_agent : Contains (TrimSpace agentPod) "/" = false
}.

Definition file_prefix (agentPod : string) : string :=
  (if bool_decide (TrimSpace agentPod = "") then "unknown-agent" else TrimSpace agentPod) +:+ "-".

Lemma objectFileName_fixed agentPod seq : 0 <= seq < 1000000 →
  objectFileName agentPod seq = file_prefix agentPod +:+ fixed 6 seq +:+ data_suffix.
Proof.
  intros Hs. unfold objectFileName, file_prefix. rewrite pad_fixed by (simpl; lia).
  by rewrite append_assoc.
Qed.

Lemma objectFileName_plain agentPod seq : 0 <= seq < 1000000 →
  Contains (TrimSpace agentPod) "/" = false → plain_path (objectFileName agentPod seq).
Proof.
  intros Hs Hpod. rewrite objectFileName_fixed by done. unfold plain_path.
  rewrite split_noslash.
  2:{ rewrite !Contains_char_app, fixed_noslash by lia. unfold file_prefix.
      rewrite Contains_char_app. case_bool_decide; [done|]. by rewrite Hpod. }
  constructor; [|done].
  assert (9 <= String.length (file_prefix agentPod +:+ fixed 6 seq +:+ data_suffix))%nat as Hl.
  { rewrite !append_length. simpl. lia. }
  unfold plain_elem. split_and!; intros Heq; rewrite Heq in Hl; simpl in Hl; lia.
Qed.

Lemma object_key prefix captureID agentPod ts seq :
  plain_names prefix captureID agentPod → formattable (day_of ts) → 0 <= seq < 1000000 →
  newCloudObjectName prefix captureID agentPod ts seq
  = capture_base prefix captureID +:+ "/" +:+ FormatDate ts +:+ "/" +:+ objectFileName agentPod seq.
Proof.
  intros [Hpre Hcap Hpod] Hday Hseq. unfold newCloudObjectName, capture_base.
  assert (Forall plain_path [FormatDate ts; objectFileName agentPod seq]) as Htl.
  { repeat constructor; [by apply format_day_plain|by apply objectFileName_plain]. }
  assert (Forall plain_path ((if bool_decide (TrimSlash prefix ≠ "") then [TrimSlash prefix] else []) ++ [captureID])) as Hhd.
  { apply Forall_app_2; [|by repeat constructor]. case_bool_decide; [|done].
    destruct Hpre; [done|]. by repeat constructor. }
  rewrite path_Join_plain.
  - change [captureID; FormatDate ts; objectFileName agentPod seq]
      with ([captureID] ++ [FormatDate ts; objectFileName agentPod seq]).
    rewrite app_assoc, join_slash_app; [done|by case_bool_decide|done].
  - by case_bool_decide.
  - change [captureID; FormatDate ts; objectFileName agentPod seq]
      with ([captureID] ++ [FormatDate ts; objectFileName agentPod seq]).
    rewrite app_assoc. by apply Forall_app_2.
Qed.

Lemma capture_prefix prefix captureID : captureID ≠ "" →
  buildObjectPrefix prefix captureID = capture_base prefix captureID +:+ "/".
Proof.
  intros Hc. unfold buildObjectPrefix, capture_base.
  rewrite (bool_decide_eq_true_2 (captureID ≠ "")) by done.
  rewrite bool_decide_eq_false_2; [done|]. by case_bool_decide.
Qed.

(** Later uploads have later keys. *)
Lemma object_key_lt prefix captureID agentPod ts ts' seq seq' :
  plain_names prefix captureID agentPod →
  formattable (day_of ts) → formattable (day_of ts') → ts <= ts' →
  0 <= seq → seq < seq' → seq' < 1000000 →
  String.compare (newCloudObjectName prefix captureID agentPod ts seq)
    (newCloudObjectName prefix captureID agentPod ts' seq') = Lt.
Proof.
  intros Hn Hd Hd' Hts Hs Hlt Hs'. rewrite !object_key by (done || lia). rewrite !compare_app_l.
  unfold FormatDate. assert (day_of ts <= day_of ts') as Hle by (apply Z.div_le_mono; [done|lia]).
  destruct (decide (day_of ts < day_of ts')) as [Hdlt|].
  - apply compare_app_lt; [by rewrite !format_day_length|]. by apply format_day_lt.
  - replace (day_of ts') with (day_of ts) by lia. rewrite !compare_app_l.
    rewrite !objectFileName_fixed, compare_app_l by lia.
    apply compare_app_lt; [by rewrite !length_fixed|]. apply fixed_lt; simpl; lia.
Qed.

(** A strictly sorted list of keys. *)
Definition key_lt (a b : string) : Prop := String.compare a b = Lt.

Lemma key_lt_irrefl a : ¬ key_lt a a.
Proof.
  unfold key_lt. induction a as [|x a IH]; cbn; [done|]. by rewrite ascii_compare_refl.
Qed.

Lemma object_keys_sorted prefix captureID agentPod ts from :
  plain_names prefix captureID agentPod → Forall (λ t, formattable (day_of t)) ts →
  StronglySorted Z.le ts → 0 <= from → from + len ts <= 1000000 →
  StronglySorted key_lt
    (zip_with (newCloudObjectName prefix captureID agentPod) ts (seqZ from (len ts))).
Proof.
  intros Hn Hf Hs. revert from. induction Hs as [|t ts Hs IH Hall]; intros from Hfrom Hb; [constructor|].
  inversion Hf as [|?? Ht Hts]; subst. pose proof (len_nonneg ts).
  assert (len (t :: ts) = len ts + 1) as Hlen by (unfold len; simpl; lia). rewrite Hlen in Hb |- *.
  rewrite seqZ_cons by lia. replace (Z.pred (len ts + 1)) with (len ts) by lia. simpl.
  replace (Z.succ from) with (from + 1) by lia.
  constructor; [by apply IH; [|lia..]|]. apply Forall_lookup. intros i key Hi.
  rewrite lookup_zip_with in Hi. destruct (ts !! i) as [t'|] eqn:Et; [|done]. simpl in Hi.
  destruct (seqZ (from + 1) (len ts) !! i) as [q|] eqn:Eq; simplify_eq/=.
  apply lookup_seqZ in Eq as [-> Hil].
  apply object_key_lt; try done; [|by eapply Forall_lookup_1|lia..].
  by eapply Forall_lookup_1 in Hts.
Qed.

Lemma key_lt_NoDup keys : StronglySorted key_lt keys → NoDup keys.
Proof.
  induction 1 as [|k keys _ IH Hall]; constructor; [|done].
  intros Hk. rewrite Forall_forall in Hall. by apply (key_lt_irrefl k), Hall.
Qed.

Lemma key_lt_le keys : StronglySorted key_lt keys → StronglySorted String.le keys.
Proof.
  induction 1; constructor; [done|]. eapply Forall_impl; [done|]. intros ?. apply compare_lt_le.
Qed.

Lemma sort_Strings_of_sorted l k : StronglySorted String.le l → k ≡ₚ l → sort_Strings k = l.
Proof.
  intros Hl Hp. apply (StronglySorted_unique String.le); [apply sort_Strings_sorted|done|].
  by rewrite sort_Strings_perm.
Qed.

(** ** Opening the objects *)

Lemma find_upload_lookup log (i : nat) key payload :
  NoDup log.*1 → log !! i = Some (key, payload) → find_upload log key = Some payload.
Proof.
  unfold find_upload. revert i. induction log as [|[k p] log IH]; intros i Hnd Hi; [done|].
  cbn. inversion Hnd as [|?? Hk Hnd']; subst. destruct i as [|i]; simplify_eq/=.
  - by rewrite bool_decide_eq_true_2.
  - rewrite bool_decide_eq_false_2; [by eapply IH|]. intros ->. apply Hk.
    apply list_elem_of_fmap. exists (key, payload). split; [done|]. by eapply list_elem_of_lookup_2.
Qed.

Section Opening.
Context {CO : RequestCodec}.

Lemma bucket_open_decodes log key payload opts rs :
  find_upload log key = Some payload → decode_object payload = Ok rs →
  readable (bucket_open log) key ∧
  object_requests (bucket_open log) opts key = List.filter (λ r, matchesReadOptions r opts) rs.
Proof.
  intros Hf Hd. unfold readable, object_requests, open_scanner, bucket_open. rewrite Hf.
  unfold decode_object in Hd. destruct (gunzip payload) as [text|e]; [|done].
  destruct (scan text) as [ts [e|]]; simplify_eq/=. split; [by exists ts|]. done.
Qed.

Lemma uploads_decode log chunks opts :
  NoDup log.*1 → decode_object <$> log.*2 = Ok <$> chunks →
  Forall (readable (bucket_open log)) log.*1 ∧
  concat (object_requests (bucket_open log) opts <$> log.*1)
  = List.filter (λ r, matchesReadOptions r opts) (concat chunks).
Proof.
  intros Hnd Hdec.
  assert (∀ i : nat, ∀ key payload, log !! i = Some (key, payload) → ∃ rs, chunks !! i = Some rs ∧
    readable (bucket_open log) key ∧
    object_requests (bucket_open log) opts key = List.filter (λ r, matchesReadOptions r opts) rs) as Hall.
  { intros i key payload Hi. apply (f_equal (lookup i)) in Hdec. rewrite !list_lookup_fmap, Hi in Hdec.
    destruct (chunks !! i) as [rs|]; simplify_eq/=. exists rs. split; [done|].
    eapply bucket_open_decodes; [by eapply find_upload_lookup|done]. }
  split.
  { apply Forall_lookup. intros i key Hi. rewrite list_lookup_fmap in Hi.
    destruct (log !! i) as [[k p]|] eqn:E; simplify_eq/=. by destruct (Hall i _ _ E) as (? & _ & ? & _). }
  assert (object_requests (bucket_open log) opts <$> log.*1
    = List.filter (λ r, matchesReadOptions r opts) <$> chunks) as ->.
  { apply list_eq. intros i. rewrite !list_lookup_fmap. destruct (log !! i) as [[k p]|] eqn:E; simpl.
    - destruct (Hall i _ _ E) as (rs & -> & _ & Hr). simpl. by rewrite Hr.
    - apply (f_equal (lookup i)) in Hdec. rewrite !list_lookup_fmap, E in Hdec.
      by destruct (chunks !! i). }
  clear. induction chunks as [|rs chunks IH]; [done|]. simpl. rewrite List.filter_app. f_equal. exact IH.
Qed.
End Opening.

(** Selecting from the bucket finds the capture's uploads, in upload order. *)
Lemma select_uploads opts prefix bucket keys others :
  ro_StartTime opts = zero_time → ro_EndTime opts = zero_time →
  bucket ≡ₚ keys ++ others → StronglySorted String.le keys →
  Forall (λ k, HasPrefix k prefix = true ∧ HasSuffix k data_suffix = true) keys →
  Forall (λ k, HasPrefix k prefix && HasSuffix k data_suffix = false) others →
  select_objects opts (List.filter (λ k, HasPrefix k prefix) bucket) = keys.
Proof.
  intros Hs He Hb Hsorted Hkeys Hothers. unfold select_objects, filterObjectByTime. rewrite Hs, He.
  change (IsZero zero_time && IsZero zero_time) with true.
  apply sort_Strings_of_sorted; [done|]. rewrite (filter_bool_perm _ _ _ (filter_bool_perm _ _ _ Hb)).
  rewrite !List.filter_app.
  assert (List.filter (λ key, HasSuffix key data_suffix && true)
    (List.filter (λ key, HasPrefix key prefix) others) = []) as ->.
  { clear Hb. induction Hothers as [|k others Hk _ IH]; [done|]. cbn [List.filter].
    destruct (HasPrefix k prefix); cbn [List.filter andb] in *; [|exact IH]. by rewrite Hk. }
  rewrite app_nil_r. clear Hsorted Hb. induction Hkeys as [|k keys [Hp Hsf] _ IH]; [done|].
  cbn [List.filter]. rewrite Hp. cbn [List.filter]. rewrite Hsf. cbn [andb]. by rewrite IH.
Qed.

(** Times that never go back, on days with a four-digit year. *)
Definition steady_clock (ops : list writer_op) : Prop :=
  StronglySorted Z.le (name_time <$> ops) ∧ Forall (λ t, formattable (day_of t)) (name_time <$> ops).

Lemma Forall_sublist {A} (P : A → Prop) l k : l `sublist_of` k → Forall P k → Forall P l.
Proof. intros Hs%sublist_subseteq. rewrite !Forall_forall. set_solver. Qed.

Lemma StronglySorted_sublist {A} (R : relation A) l k : l `sublist_of` k → StronglySorted R k → StronglySorted R l.
Proof.
  induction 1 as [|x l k Hlk IH|x l k Hlk IH]; intros Hs; inversion Hs as [|?? Hk Hx]; subst; auto.
  constructor; [auto|]. eapply Forall_sublist; eauto.
Qed.


(** ** Time ranges *)

Lemma filter_parts_skip s e ps qs : Forall (λ p, ParseDate p = None) ps →
  filter_parts s e (ps ++ qs) = filter_parts s e qs.
Proof. induction 1 as [|p ps Hp _ IH]; [done|]. cbn. by rewrite Hp. Qed.

(** The reader prunes objects by the day in their name: whatever the capture,
    as long as no element of its path is itself a date, an object flushed at
    time [ts] is kept exactly when the UTC day of [ts] lies within the days of
    the requested time range. *)
Theorem time_filter_by_day prefix captureID agentPod ts seq startTime endTime :
  plain_names prefix captureID agentPod → formattable (day_of ts) → 0 <= seq < 1000000 →
  Forall (λ p, ParseDate p = None) (split_slash (capture_base prefix captureID)) →
  filterObjectByTime (newCloudObjectName prefix captureID agentPod ts seq) startTime endTime = true
  ↔ (startTime = zero_time ∨ day_of startTime <= day_of ts) ∧
    (endTime = zero_time ∨ day_of ts <= day_of endTime).
Proof.
  intros Hn Hd Hs Hdates. rewrite object_key by done. unfold filterObjectByTime.
  rewrite !split_slash_app, filter_parts_skip by done.
  rewrite (split_noslash (FormatDate ts)) by by apply format_day_noslash.
  cbn [filter_parts app]. unfold FormatDate. rewrite ParseDate_format by done.
  assert (∀ a b, (day_start a <? day_start b) = (a <? b)) as Hday.
  { intros a b. unfold day_start. assert (0 < day_ns) by done.
    destruct (Z.ltb_spec a b), (Z.ltb_spec (a * day_ns) (b * day_ns)); try done; nia. }
  unfold Truncate24h, IsZero. rewrite !Hday.
  destruct (Z.eqb_spec startTime zero_time), (Z.eqb_spec endTime zero_time),
    (Z.ltb_spec (day_of ts) (day_of startTime)), (Z.ltb_spec (day_of endTime) (day_of ts));
    simpl; split; intros ?; try done; try lia; naive_solver lia.
Qed.

(** ** Concrete runs *)

#[local] Existing Instance demo_codec.

Definition at_time (t : Z) : write_clock := {| wc_check := t; wc_name := t; wc_flush := t |}.

Definition demo_read (id : string) : ReadOptions :=
  {| ro_CaptureID := id; ro_StartTime := zero_time; ro_EndTime := zero_time;
     ro_PathPrefix := "/"; ro_Methods := ["get"]; ro_Limit := 0 |}.

(** Two objects: the first flush is triggered explicitly, the second by [Close]
    after midnight. *)
Definition demo_run : list writer_op :=
  [OpWrite (at_time 5) (demo_request "a") None;
   OpFlush (at_time 6) None;
   OpWrite (at_time 7) (demo_request "b") None;
   OpClose (at_time day_ns) None].

Lemma demo_plain : plain_names "captures" "prod/orders" "agent-0".
Proof.
  constructor; [right| |reflexivity].
  - apply (bool_decide_unpack (plain_path "captures")). exact I.
  - apply (bool_decide_unpack (plain_path "prod/orders")). exact I.
Defined.


(** A request captured one second before midnight and flushed after it is in an
    object dated the next day; a reader asking for times up to a quarter of a
    second before midnight skips that object although the request matches. *)
Theorem late_flush_hidden :
  ∃ req w log r opts,
    matchesReadOptions req opts = true ∧
    writer_run (newCloudObjectName "captures" "prod/orders" "agent-0") (newBufferedObjectWriter (day_ns - 2 * Second) 0 0, []) []
      [OpWrite (at_time (day_ns - Second)) req None; OpClose (at_time (day_ns + Second)) None]
      = (w, log, [req]) ∧
    length log = 1%nat ∧ bow_closed w = true ∧
    S3Reader_Open "captures" opts (bucket_list log.*1) newReader = (r, None) ∧
    read_all (bucket_open log) "object" 9 r = Some ([], ErrReaderDone).
Proof.
  set (req := {| cr_ID := "a"; cr_Timestamp := day_ns - Second; cr_Method := "GET"; cr_Path := "/";
                 cr_Headers := ∅; cr_Body := ""; cr_ContentLength := 0; cr_Protocol := "HTTP"; cr_Metadata := ∅ |}).
  set (opts := {| ro_CaptureID := "prod/orders"; ro_StartTime := zero_time; ro_EndTime := day_ns - Second / 4;
                  ro_PathPrefix := ""; ro_Methods := []; ro_Limit := 0 |}).
  eexists req, _, _, _, opts. split_and!; reflexivity.
Qed.
