(* ===== verification/Engine.v ===== *)
(** * The replay engine ([internal/plugin/replay/engine.go])

    [Engine.Run] starts one reader goroutine and [concurrency] sender goroutines
    around a bounded channel.  The goroutines are modelled as a step relation
    over the shared state, one step per channel operation, [select] or call of
    an interface, in any interleaving; the context may be cancelled at any
    point.  The reader is a state type with its [Next], the transformers are
    functions, and the sender may answer anything.  Waiting for the pacing timer
    is a step; the length of the wait is [pace].  Shard filtering is that of
    [Shard]. *)

From S2P Require Import Prelude GoStd GoTime GoFloat Storage Shard Readers.

Local Open Scope Z_scope.

(** ** Configuration *)

Inductive RateMode := RateModeConstant | RateModeOriginalTiming | RateModeUnlimited.

(** [Transform] returns no request ([nil]) to skip it. *)
Record Transformer := {
  tr_Name : string;
  tr_Transform : CapturedRequest → result (option CapturedRequest)
}.

(** [NewTransformerFunc]. *)
Definition NewTransformerFunc (name : string)
    (fn : CapturedRequest → result (option CapturedRequest)) : Transformer :=
  {| tr_Name := name; tr_Transform := fn |}.

(** [ec_Reader] and [ec_Sender] tell whether the interface value is set; the
    default logger and result handler need no field. *)
Record EngineConfig := {
  ec_Reader : bool;
  ec_Sender : bool;
  ec_Transformers : list Transformer;
  ec_ReadOptions : ReadOptions;
  ec_RateMode : RateMode;
  ec_RatePerSecond : float64;
  ec_TimeScale : float64;
  ec_Concurrency : Z;
  ec_ShardIndex : Z;
  ec_ShardCount : Z
}.

Record Engine := {
  eng_transformers : list Transformer;
  eng_readOpts : ReadOptions;
  eng_rateMode : RateMode;
  eng_ratePerSecond : float64;
  eng_timeScale : float64;
  eng_concurrency : Z;
  eng_shardIndex : Z;
  eng_shardCount : Z
}.

Definition f64_one : float64 := f64_of_Z 1.
Definition f64_leb (x y : float64) : bool := SFleb x y.

Definition NewEngine (cfg : EngineConfig) : result Engine :=
  if negb (ec_Reader cfg) then Err (FmtError "reader is required" [])
  else if negb (ec_Sender cfg) then Err (FmtError "sender is required" [])
  else
    let concurrency := if ec_Concurrency cfg <=? 0 then 1 else ec_Concurrency cfg in
    let timeScale := if f64_leb (ec_TimeScale cfg) f64_zero then f64_one else ec_TimeScale cfg in
    let mk index count := Ok {|
      eng_transformers := ec_Transformers cfg; eng_readOpts := ec_ReadOptions cfg;
      eng_rateMode := ec_RateMode cfg; eng_ratePerSecond := ec_RatePerSecond cfg;
      eng_timeScale := timeScale; eng_concurrency := concurrency;
      eng_shardIndex := uint64 index; eng_shardCount := uint64 count |} in
    if 1 <? ec_ShardCount cfg then
      if (ec_ShardIndex cfg <? 0) || (ec_ShardCount cfg <=? ec_ShardIndex cfg)
      then Err (FmtError "shard index %d out of range [0, %d)"
                  [FInt (ec_ShardIndex cfg); FInt (ec_ShardCount cfg)])
      else mk (ec_ShardIndex cfg) (ec_ShardCount cfg)
    else mk 0 1.

(** ** The reader goroutine, between two channel operations *)

(** The transformer chain: [None] when a transformer skips the request or fails. *)
Fixpoint transform (ts : list Transformer) (current : CapturedRequest) : option CapturedRequest :=
  match ts with
  | [] => Some current
  | t :: ts =>
      match tr_Transform t current with
      | Err _ | Ok None => None
      | Ok (Some current) => transform ts current
      end
  end.

(** [errors.Is]. *)
Fixpoint errors_Is (e : go_error) (name : string) : bool :=
  match e with
  | Sentinel n => bool_decide (n = name)
  | WrapError _ _ inner => errors_Is inner name
  | _ => false
  end.

Definition is_done (e : go_error) : bool := errors_Is e "reader: no more requests".

(** The shard filter of [readLoop]. *)
Definition engine_owns (e : Engine) (req : CapturedRequest) : bool :=
  negb ((1 <? eng_shardCount e) && negb (shardOf (cr_ID req) (eng_shardCount e) =? eng_shardIndex e)).

(** What one request read becomes. *)
Inductive fetched :=
  | FetchSkip
  | FetchFiltered
  | FetchSend (current : CapturedRequest).

Definition fetch (e : Engine) (req : CapturedRequest) : fetched :=
  if negb (engine_owns e req) then FetchSkip
  else match transform (eng_transformers e) req with
       | None => FetchFiltered
       | Some current => FetchSend current
       end.

Definition limiter_active (e : Engine) : bool :=
  match eng_rateMode e with
  | RateModeConstant => f64_gtb (eng_ratePerSecond e) f64_zero
  | _ => false
  end.

(** The period of the ticker; [time.NewTicker] panics when it is not positive. *)
Definition limiter_interval (e : Engine) : Z :=
  f64_trunc (f64_div (f64_of_Z Second) (eng_ratePerSecond e)).

Definition limiter_ok (e : Engine) : bool := negb (limiter_active e) || (0 <? limiter_interval e).

(** How a request is held back, given the timestamp of the request before it,
    and the timestamp to remember. *)
Inductive pacing := NoWait | WaitTick | WaitFor (delay : Z).

Definition pace (e : Engine) (prevTimestamp : Z) (req : CapturedRequest) : pacing * Z :=
  match eng_rateMode e with
  | RateModeConstant => (if limiter_active e then WaitTick else NoWait, prevTimestamp)
  | RateModeOriginalTiming =>
      let delay := time_Sub (cr_Timestamp req) prevTimestamp in
      (if negb (IsZero prevTimestamp) && negb (IsZero (cr_Timestamp req)) && (0 <? delay)
       then WaitFor (f64_trunc (f64_mul (f64_of_Z delay) (eng_timeScale e)))
       else NoWait, cr_Timestamp req)
  | RateModeUnlimited => (NoWait, prevTimestamp)
  end.

(** ** Results *)

Record Result := {
  res_RequestID : string;
  res_StatusCode : Z;
  res_ResponseBody : string;
  res_Duration : Z;
  res_Error : option go_error;
  res_Timestamp : Z
}.

(** What [Sender.Send] returns: a result, or an error with or without one. *)
Inductive send_answer :=
  | Sent (r : Result)
  | SendFailed (r : option Result) (e : go_error).

Definition answer_ok (a : send_answer) : bool := match a with Sent _ => true | _ => false end.

(** The result handed to the handler. *)
Definition answer_result (req : CapturedRequest) (now : Z) (a : send_answer) : Result :=
  match a with
  | Sent r | SendFailed (Some r) _ => r
  | SendFailed None e =>
      {| res_RequestID := cr_ID req; res_StatusCode := 0; res_ResponseBody := ""; res_Duration := 0;
         res_Error := Some e; res_Timestamp := now |}
  end.

(** ** The shared state of a run *)

(** Where the reader goroutine is: before the ticker is set up, at the head of
    its loop, holding back or sending a request, returned. *)
Inductive read_pc :=
  | RLStart
  | RLTop
  | RLWait (current : CapturedRequest)
  | RLSend (current : CapturedRequest)
  | RLDone (err : option go_error).

(** Where a sender goroutine is: receiving, about to look at the context,
    inside [Send], returned. *)
Inductive worker :=
  | WRecv
  | WCheck (req : CapturedRequest)
  | WSend (req : CapturedRequest)
  | WExit.

Section Run.
Context {R : Type} (Next : R → R * result CapturedRequest) (e : Engine) (ctxErr : go_error).

Record run_state := RunState {
  st_reader : R;
  st_pc : read_pc;
  st_prev : Z;
  st_chan : list CapturedRequest;
  st_workers : list worker;
  st_cancelled : bool;
  st_sent : Z;
  st_errors : Z;
  st_filtered : Z;
  st_skipped : Z;
  st_results : list Result;
  st_log : list (CapturedRequest * bool)
}.

(** [st_log] records the completed [Send] calls and whether they succeeded. *)

Definition initial (r : R) : run_state :=
  RunState r RLStart zero_time [] (replicate (Z.to_nat (eng_concurrency e)) WRecv)
    false 0 0 0 0 [] [].

(** The channel is closed when the reader goroutine returns. *)
Definition chan_closed (st : run_state) : bool :=
  match st_pc st with RLDone _ => true | _ => false end.

Definition chan_cap : Z := eng_concurrency e * 2.

Definition set_pc (pc : read_pc) (st : run_state) : run_state :=
  RunState (st_reader st) pc (st_prev st) (st_chan st) (st_workers st) (st_cancelled st)
    (st_sent st) (st_errors st) (st_filtered st) (st_skipped st) (st_results st) (st_log st).

Definition set_worker (i : nat) (w : worker) (st : run_state) : run_state :=
  RunState (st_reader st) (st_pc st) (st_prev st) (st_chan st) (<[i:=w]> (st_workers st))
    (st_cancelled st) (st_sent st) (st_errors st) (st_filtered st) (st_skipped st)
    (st_results st) (st_log st).

(** One pass of [readLoop] from its head, context not cancelled, to its first
    blocking point. *)
Definition read_pass (st : run_state) : run_state :=
  match Next (st_reader st) with
  | (r, Err err) =>
      RunState r (RLDone (if is_done err then None else Some err)) (st_prev st) (st_chan st)
        (st_workers st) (st_cancelled st) (st_sent st) (st_errors st) (st_filtered st)
        (st_skipped st) (st_results st) (st_log st)
  | (r, Ok req) =>
      let upd pc prev filtered skipped :=
        RunState r pc prev (st_chan st) (st_workers st) (st_cancelled st) (st_sent st)
          (st_errors st) filtered skipped (st_results st) (st_log st) in
      match fetch e req with
      | FetchSkip => upd RLTop (st_prev st) (st_filtered st) (int64 (st_skipped st + 1))
      | FetchFiltered => upd RLTop (st_prev st) (int64 (st_filtered st + 1)) (st_skipped st)
      | FetchSend current =>
          let '(wait, prev) := pace e (st_prev st) req in
          upd (match wait with NoWait => RLSend current | _ => RLWait current end) prev
            (st_filtered st) (st_skipped st)
      end
  end.

(** A completed [Send] and the handling of its result. *)
Definition complete (i : nat) (req : CapturedRequest) (now : Z) (a : send_answer)
    (st : run_state) : run_state :=
  RunState (st_reader st) (st_pc st) (st_prev st) (st_chan st) (<[i:=WRecv]> (st_workers st))
    (st_cancelled st)
    (if answer_ok a then int64 (st_sent st + 1) else st_sent st)
    (if answer_ok a then st_errors st else int64 (st_errors st + 1))
    (st_filtered st) (st_skipped st)
    (st_results st ++ [answer_result req now a]) (st_log st ++ [(req, answer_ok a)]).

Definition push (req : CapturedRequest) (st : run_state) : run_state :=
  RunState (st_reader st) RLTop (st_prev st) (st_chan st ++ [req]) (st_workers st)
    (st_cancelled st) (st_sent st) (st_errors st) (st_filtered st) (st_skipped st)
    (st_results st) (st_log st).

Definition pop (i : nat) (req : CapturedRequest) (rest : list CapturedRequest) (st : run_state)
    : run_state :=
  RunState (st_reader st) (st_pc st) (st_prev st) rest (<[i:=WCheck req]> (st_workers st))
    (st_cancelled st) (st_sent st) (st_errors st) (st_filtered st) (st_skipped st)
    (st_results st) (st_log st).

Definition cancel (st : run_state) : run_state :=
  RunState (st_reader st) (st_pc st) (st_prev st) (st_chan st) (st_workers st) true
    (st_sent st) (st_errors st) (st_filtered st) (st_skipped st) (st_results st) (st_log st).

(** The steps of the goroutines. *)
Inductive go_step (st : run_state) : run_state → Prop :=
  | step_limiter : st_pc st = RLStart → limiter_ok e = true → go_step st (set_pc RLTop st)
  | step_top_cancelled : st_pc st = RLTop → st_cancelled st = true →
      go_step st (set_pc (RLDone (Some ctxErr)) st)
  | step_top : st_pc st = RLTop → st_cancelled st = false → go_step st (read_pass st)
  | step_wait_cancelled req : st_pc st = RLWait req → st_cancelled st = true →
      go_step st (set_pc (RLDone (Some ctxErr)) st)
  | step_wait req : st_pc st = RLWait req → go_step st (set_pc (RLSend req) st)
  | step_send_cancelled req : st_pc st = RLSend req → st_cancelled st = true →
      go_step st (set_pc (RLDone (Some ctxErr)) st)
  | step_send req : st_pc st = RLSend req → len (st_chan st) < chan_cap → go_step st (push req st)
  | step_recv i req rest : st_workers st !! i = Some WRecv → st_chan st = req :: rest →
      go_step st (pop i req rest st)
  | step_recv_closed i : st_workers st !! i = Some WRecv → st_chan st = [] → chan_closed st = true →
      go_step st (set_worker i WExit st)
  | step_check_cancelled i req : st_workers st !! i = Some (WCheck req) → st_cancelled st = true →
      go_step st (set_worker i WExit st)
  | step_check i req : st_workers st !! i = Some (WCheck req) → st_cancelled st = false →
      go_step st (set_worker i (WSend req) st)
  | step_complete i req now a : st_workers st !! i = Some (WSend req) →
      go_step st (complete i req now a st).

(** ... and the cancellation of the context. *)
Inductive step (st : run_state) : run_state → Prop :=
  | step_go st' : go_step st st' → step st st'
  | step_cancel : st_cancelled st = false → step st (cancel st).

(** All goroutines have returned: [wg.Wait] and the receive of [readErr] pass. *)
Definition finished (st : run_state) : Prop :=
  Forall (λ w, w = WExit) (st_workers st) ∧ ∃ err, st_pc st = RLDone err.

(** [Run] before it starts the goroutines: one run at a time, and the reader must
    open. *)
Definition run_begin (running : bool) (opened : option go_error) : option go_error :=
  if running then Some (FmtError "engine is already running" [])
  else match opened with
  | Some err => Some (WrapError "open reader: %w" [] err)
  | None => None
  end.

(** The error [Run] returns when it passes [wg.Wait], before summarizing. *)
Definition run_error (st : run_state) : option go_error :=
  match st_pc st with
  | RLDone (Some err) => Some (WrapError "reader: %w" [] err)
  | _ => None
  end.

(** ** Specification *)

(** The reader delivers [reqs] and then fails with [err]. *)
Inductive reads : R → list CapturedRequest → go_error → Prop :=
  | reads_end r r' err : Next r = (r', Err err) → reads r [] err
  | reads_cons r r' req reqs err : Next r = (r', Ok req) → reads r' reqs err →
      reads r (req :: reqs) err.

(** What of a capture this engine replays. *)
Definition replayed (reqs : list CapturedRequest) : list CapturedRequest :=
  omap (transform (eng_transformers e)) (List.filter (engine_owns e) reqs).

Definition filtered_out (reqs : list CapturedRequest) : Z :=
  len (List.filter (λ r, engine_owns e r && negb (bool_decide (is_Some (transform (eng_transformers e) r)))) reqs).

Definition other_shards (reqs : list CapturedRequest) : Z :=
  len (List.filter (λ r, negb (engine_owns e r)) reqs).

(** ** Invariant *)

Definition pc_holds (pc : read_pc) : list CapturedRequest :=
  match pc with RLWait r | RLSend r => [r] | _ => [] end.

Definition worker_holds (w : worker) : list CapturedRequest :=
  match w with WCheck r | WSend r => [r] | _ => [] end.

(** The requests on their way to the sender. *)
Definition in_flight (st : run_state) : list CapturedRequest :=
  concat (worker_holds <$> st_workers st) ++ st_chan st ++ pc_holds (st_pc st).

(** [seen] has been read, [rest] is still to be read; every request seen that is
    to be replayed was sent once, is in flight, or was dropped because of a
    cancellation. *)
Record run_inv (r0 : R) (stream : list CapturedRequest) (err : go_error) (st : run_state)
    (seen rest dropped : list CapturedRequest) : Prop := {
  ri_stream : stream = seen ++ rest;
  ri_reader : (∃ x, st_pc st = RLDone x) ∨ reads (st_reader st) rest err;
  ri_end : ∀ x, st_pc st = RLDone x →
    (st_cancelled st = true ∧ x = Some ctxErr) ∨
    (rest = [] ∧ x = if is_done err then None else Some err);
  ri_sent : replayed seen ≡ₚ (st_log st).*1 ++ in_flight st ++ dropped;
  ri_dropped : st_cancelled st = false → dropped = [];
  ri_exit : ∀ i, st_workers st !! i = Some WExit →
    st_cancelled st = true ∨ (st_chan st = [] ∧ chan_closed st = true);
  ri_filtered : st_filtered st = int64 (filtered_out seen);
  ri_skipped : st_skipped st = int64 (other_shards seen);
  ri_ok : st_sent st = int64 (len (List.filter snd (st_log st)));
  ri_failed : st_errors st = int64 (len (List.filter (λ x, negb (snd x)) (st_log st)));
  ri_results : length (st_results st) = length (st_log st);
  ri_workers : length (st_workers st) = Z.to_nat (eng_concurrency e);
  ri_cap : 0 <= eng_concurrency e → len (st_chan st) <= chan_cap
}.

(** ** Preservation *)

Lemma replayed_snoc seen req : replayed (seen ++ [req]) = replayed seen ++
  match fetch e req with FetchSend current => [current] | _ => [] end.
Proof.
  unfold replayed, fetch. rewrite List.filter_app, omap_app. simpl. f_equal.
  destruct (engine_owns e req); simpl; [|done]. by destruct (transform _ req).
Qed.

Lemma filtered_snoc seen req : filtered_out (seen ++ [req]) = filtered_out seen +
  match fetch e req with FetchFiltered => 1 | _ => 0 end.
Proof.
  unfold filtered_out, fetch. rewrite List.filter_app, len_app. f_equal. simpl.
  destruct (engine_owns e req); simpl; [|done].
  destruct (transform _ req); [by rewrite bool_decide_eq_true_2|by rewrite bool_decide_eq_false_2 by by intros []].
Qed.

Lemma other_shards_snoc seen req : other_shards (seen ++ [req]) = other_shards seen +
  match fetch e req with FetchSkip => 1 | _ => 0 end.
Proof.
  unfold other_shards, fetch. rewrite List.filter_app, len_app. f_equal. simpl.
  destruct (engine_owns e req); simpl; [|done]. by destruct (transform _ req).
Qed.

Lemma initial_inv r0 stream err :
  reads r0 stream err → run_inv r0 stream err (initial r0) [] stream [].
Proof.
  intros Hr. unfold initial. constructor; try done; simpl.
  - by right.
  - assert (∀ n, concat (worker_holds <$> replicate n WRecv) = []) as Hrep by (intros n; by induction n).
    unfold in_flight. simpl. by rewrite Hrep.
  - intros i [? _]%lookup_replicate. done.
  - by rewrite length_replicate.
  - intros Hc. unfold chan_cap, len. simpl. lia.
Qed.

(** The steps that leave the reader's stream alone: what they must show. *)
Lemma inv_change r0 stream err st st' seen rest dropped dropped' :
  run_inv r0 stream err st seen rest dropped →
  st_reader st' = st_reader st →
  st_pc st' = st_pc st ∨ (st_cancelled st = true ∧ st_pc st' = RLDone (Some ctxErr)) ∨
    (chan_closed st = false ∧ chan_closed st' = false) →
  st_filtered st' = st_filtered st → st_skipped st' = st_skipped st →
  (st_cancelled st = true → st_cancelled st' = true) →
  (st_log st).*1 ++ in_flight st ++ dropped ≡ₚ (st_log st').*1 ++ in_flight st' ++ dropped' →
  (st_cancelled st' = false → dropped' = []) →
  (∀ i, st_workers st' !! i = Some WExit →
    st_cancelled st' = true ∨ (st_chan st' = [] ∧ chan_closed st' = true)) →
  st_sent st' = int64 (len (List.filter snd (st_log st'))) →
  st_errors st' = int64 (len (List.filter (λ x, negb (snd x)) (st_log st'))) →
  length (st_results st') = length (st_log st') →
  length (st_workers st') = length (st_workers st) →
  (len (st_chan st') <= len (st_chan st) ∨ len (st_chan st') <= chan_cap) →
  run_inv r0 stream err st' seen rest dropped'.
Proof.
  intros [] Hrd Hpc Hf Hs Hc Hperm Hdrop Hexit Hok Hbad Hres Hw Hcap. constructor; try done.
  - destruct Hpc as [Hpc|[[Hpc1 Hpc2]|[H1 H2]]].
    + by rewrite Hpc, Hrd.
    + left. by eexists.
    + rewrite Hrd. destruct ri_reader0 as [[x Hx]|]; [|by right].
      unfold chan_closed in H1. by rewrite Hx in H1.
  - intros x Hx. destruct Hpc as [Hpc|[[Hpc1 Hpc2]|[H1 H2]]].
    + rewrite Hpc in Hx. destruct (ri_end0 x Hx) as [[]|]; [left; split; [auto|done]|by right].
    + rewrite Hpc2 in Hx. simplify_eq. left. auto.
    + unfold chan_closed in H2. by rewrite Hx in H2.
  - by rewrite <- Hperm.
  - by rewrite Hf.
  - by rewrite Hs.
  - by rewrite Hw.
  - intros Hconc. specialize (ri_cap0 Hconc). destruct Hcap; lia.
Qed.

Lemma exit_insert st (i : nat) w : w ≠ WExit →
  (∀ j, st_workers st !! j = Some WExit → st_cancelled st = true ∨ (st_chan st = [] ∧ chan_closed st = true)) →
  ∀ j, <[i:=w]> (st_workers st) !! j = Some WExit →
    st_cancelled st = true ∨ (st_chan st = [] ∧ chan_closed st = true).
Proof.
  intros Hw Hex j Hj. apply list_lookup_insert_Some in Hj as [(_ & Heq & _)|[_ Hj]]; [done|eauto].
Qed.

(** Applies [inv_change]; leaves the conditions on the program counter, the
    cancellation, the requests on their way, the dropped ones, the exited
    senders, the three counters, the sender list and the channel. *)
Ltac inv_change_with Hinv drop :=
  match goal with
  | |- run_inv _ _ _ ?st' _ _ _ =>
      refine (inv_change _ _ _ _ st' _ _ _ drop Hinv eq_refl _ eq_refl eq_refl _ _ _ _ _ _ _ _ _)
  end; simpl.

(** Moving the reader's program counter. *)
Lemma set_pc_inv r0 stream err st seen rest dropped pc :
  run_inv r0 stream err st seen rest dropped →
  chan_closed st = false →
  (st_cancelled st = true ∧ pc = RLDone (Some ctxErr)) ∨
    ((∀ x, pc ≠ RLDone x) ∧ pc_holds pc = pc_holds (st_pc st)) →
  ∃ dropped', run_inv r0 stream err (set_pc pc st) seen rest dropped'.
Proof.
  intros Hinv Hopen Hpc.
  assert (∀ i, st_workers st !! i = Some WExit → st_cancelled st = true) as Hexit.
  { intros i Hi. destruct (ri_exit _ _ _ _ _ _ _ Hinv i Hi) as [|[_ Hcl]]; [done|congruence]. }
  destruct Hpc as [[Hc ->]|[Hpc Hh]].
  - exists (pc_holds (st_pc st) ++ dropped). inv_change_with Hinv (pc_holds (st_pc st) ++ dropped);
      try (by apply Hinv); [by auto|done| |by rewrite Hc|by eauto|done|by left].
    unfold in_flight. simpl. rewrite app_nil_r, <- !app_assoc. done.
  - exists dropped. inv_change_with Hinv dropped;
      try (by apply Hinv); [|done| |by eauto|done|by left].
    + right. right. split; [done|]. unfold chan_closed. simpl. destruct pc; naive_solver.
    + unfold in_flight. simpl. by rewrite Hh.
Qed.

(** Moving one sender goroutine; what it held is kept or, on cancellation, dropped. *)
Lemma set_worker_inv r0 stream err st seen rest dropped i w w' :
  run_inv r0 stream err st seen rest dropped →
  st_workers st !! i = Some w →
  (w' = WExit → st_cancelled st = true ∨ (st_chan st = [] ∧ chan_closed st = true)) →
  worker_holds w' = worker_holds w ∨ (st_cancelled st = true ∧ worker_holds w' = []) →
  ∃ dropped', run_inv r0 stream err (set_worker i w' st) seen rest dropped'.
Proof.
  intros Hinv Hi Hw' Hh. destruct (concat_insert worker_holds (st_workers st) i w w' Hi) as (others & H1 & H2).
  assert (∀ j, <[i:=w']> (st_workers st) !! j = Some WExit →
    st_cancelled st = true ∨ (st_chan st = [] ∧ chan_closed st = true)) as Hexit.
  { intros j Hj. apply list_lookup_insert_Some in Hj as [(_ & -> & _)|[_ Hj]]; [by apply Hw'|].
    by eapply Hinv. }
  destruct Hh as [Hh|[Hc Hh]].
  - exists dropped. inv_change_with Hinv dropped;
      try (by apply Hinv); [by left|done| |done|by rewrite length_insert|by left].
    unfold in_flight. simpl. by rewrite H1, H2, Hh.
  - exists (worker_holds w ++ dropped). inv_change_with Hinv (worker_holds w ++ dropped);
      try (by apply Hinv); [by left|done| |by rewrite Hc|done|by rewrite length_insert|by left].
    unfold in_flight. simpl. rewrite H1, H2, Hh. solve_Permutation.
Qed.

Lemma push_inv r0 stream err st seen rest dropped req :
  run_inv r0 stream err st seen rest dropped →
  st_pc st = RLSend req → len (st_chan st) < chan_cap →
  run_inv r0 stream err (push req st) seen rest dropped.
Proof.
  intros Hinv Hpc Hcap.
  inv_change_with Hinv dropped; try (by apply Hinv); [|done| | |done|].
  - right. right. unfold chan_closed. by rewrite Hpc.
  - unfold in_flight. simpl. rewrite Hpc. simpl. by rewrite app_nil_r, !app_assoc.
  - intros i Hi. destruct (ri_exit _ _ _ _ _ _ _ Hinv i Hi) as [|[_ Hcl]]; [by left|].
    unfold chan_closed in Hcl. by rewrite Hpc in Hcl.
  - right. rewrite len_app. unfold len in *. simpl. lia.
Qed.

Lemma pop_inv r0 stream err st seen rest dropped i req chan :
  run_inv r0 stream err st seen rest dropped →
  st_workers st !! i = Some WRecv → st_chan st = req :: chan →
  run_inv r0 stream err (pop i req chan st) seen rest dropped.
Proof.
  intros Hinv Hi Hch. destruct (concat_insert worker_holds (st_workers st) i _ (WCheck req) Hi) as (others & H1 & H2).
  inv_change_with Hinv dropped; try (by apply Hinv); [by left|done| | |by rewrite length_insert|].
  - unfold in_flight. simpl. rewrite H1, H2, Hch. simpl. solve_Permutation.
  - intros j Hj. apply list_lookup_insert_Some in Hj as [(_ & ? & _)|[_ Hj]]; [done|].
    destruct (ri_exit _ _ _ _ _ _ _ Hinv j Hj) as [|[Hnil _]]; [by left|congruence].
  - left. rewrite Hch. unfold len. simpl. lia.
Qed.

Lemma complete_inv r0 stream err st seen rest dropped i req now a :
  run_inv r0 stream err st seen rest dropped →
  st_workers st !! i = Some (WSend req) →
  run_inv r0 stream err (complete i req now a st) seen rest dropped.
Proof.
  intros Hinv Hi. destruct (concat_insert worker_holds (st_workers st) i _ WRecv Hi) as (others & H1 & H2).
  inv_change_with Hinv dropped; try (by apply Hinv); [by left|done| | | | | |by rewrite length_insert|by left].
  - rewrite fmap_app. simpl. unfold in_flight. simpl. rewrite H1, H2. simpl. solve_Permutation.
  - apply (exit_insert st i WRecv); [done|]. apply (ri_exit _ _ _ _ _ _ _ Hinv).
  - rewrite List.filter_app, len_app, (ri_ok _ _ _ _ _ _ _ Hinv). simpl.
    destruct (answer_ok a); simpl; [by rewrite int64_add_l|]. by rewrite Z.add_0_r.
  - rewrite List.filter_app, len_app, (ri_failed _ _ _ _ _ _ _ Hinv). simpl.
    destruct (answer_ok a); simpl; [by rewrite Z.add_0_r|]. by rewrite int64_add_l.
  - rewrite !length_app, (ri_results _ _ _ _ _ _ _ Hinv). done.
Qed.

Lemma reads_inv r reqs err r' a :
  reads r reqs err → Next r = (r', a) →
  match a with
  | Err e' => reqs = [] ∧ e' = err
  | Ok req => ∃ reqs', reqs = req :: reqs' ∧ reads r' reqs' err
  end.
Proof.
  destruct 1 as [r r1 err Hn|r r1 req reqs err Hn Hr]; intros Heq; rewrite Hn in Heq;
    injection Heq as <- <-; eauto.
Qed.

Lemma read_pass_inv r0 stream err st seen rest dropped :
  run_inv r0 stream err st seen rest dropped →
  st_pc st = RLTop → st_cancelled st = false →
  ∃ seen' rest', run_inv r0 stream err (read_pass st) seen' rest' dropped.
Proof.
  intros Hinv Hpc Hc. pose proof Hinv as [].
  assert (chan_closed st = false) as Hopen by (unfold chan_closed; by rewrite Hpc).
  assert (∀ i, st_workers st !! i ≠ Some WExit) as Hnoexit.
  { intros i Hi. destruct (ri_exit0 i Hi) as [|[_ ?]]; congruence. }
  destruct ri_reader0 as [[x Hx]|Hreads]; [congruence|].
  unfold read_pass. destruct (Next (st_reader st)) as [r' a] eqn:Hn.
  pose proof (reads_inv _ _ _ _ _ Hreads Hn) as Ha. destruct a as [req|e'].
  - destruct Ha as (rest' & -> & Hreads'). exists (seen ++ [req]), rest'.
    pose proof (replayed_snoc seen req) as Hrep. pose proof (filtered_snoc seen req) as Hfil.
    pose proof (other_shards_snoc seen req) as Hoth.
    assert (pc_holds (st_pc st) = []) as Hh by by rewrite Hpc.
    destruct (fetch e req) as [| |current]; [| |destruct (pace e (st_prev st) req) as [wait prev]];
      constructor; simpl; try done; try (by rewrite <- app_assoc); try (by right);
      try (by destruct wait); try (by intros i Hi; by apply Hnoexit in Hi).
    all: rewrite ?Hrep, ?Hfil, ?Hoth, ?app_nil_r, ?Z.add_0_r, ?ri_filtered0, ?ri_skipped0, ?int64_add_l;
      try done.
    + rewrite ri_sent0. unfold in_flight. simpl. by rewrite Hh.
    + rewrite ri_sent0. unfold in_flight. simpl. by rewrite Hh.
    + rewrite ri_sent0. unfold in_flight. simpl. rewrite Hh.
      replace (pc_holds match wait with NoWait => RLSend current | _ => RLWait current end) with [current]
        by by destruct wait. solve_Permutation.
  - destruct Ha as [-> ->]. exists seen, []. constructor; simpl; try done.
    + left. by eexists.
    + intros x [= <-]. by right.
    + rewrite ri_sent0. unfold in_flight. simpl. by rewrite Hpc.
    + intros i Hi. by apply Hnoexit in Hi.
Qed.

(** The invariant of all executions. *)
Lemma step_inv r0 stream err st st' seen rest dropped :
  run_inv r0 stream err st seen rest dropped → step st st' →
  ∃ seen' rest' dropped', run_inv r0 stream err st' seen' rest' dropped'.
Proof.
  intros Hinv [st1 Hstep|Hc].
  2:{ exists seen, rest, dropped. inv_change_with Hinv dropped; try (by apply Hinv); try done;
      intros; by left. }
  assert (∀ pc, chan_closed st = false →
    (st_cancelled st = true ∧ pc = RLDone (Some ctxErr)) ∨
      ((∀ x, pc ≠ RLDone x) ∧ pc_holds pc = pc_holds (st_pc st)) →
    ∃ seen' rest' dropped', run_inv r0 stream err (set_pc pc st) seen' rest' dropped') as Hset.
  { intros pc H1 H2. destruct (set_pc_inv _ _ _ _ _ _ _ pc Hinv H1 H2). eauto. }
  assert (∀ pc, st_pc st = pc → (∀ x, pc ≠ RLDone x) → chan_closed st = false) as Hopen.
  { intros pc Hpc Hne. unfold chan_closed. rewrite Hpc. destruct pc; naive_solver. }
  assert (∀ i w w', st_workers st !! i = Some w →
    (w' = WExit → st_cancelled st = true ∨ (st_chan st = [] ∧ chan_closed st = true)) →
    worker_holds w' = worker_holds w ∨ (st_cancelled st = true ∧ worker_holds w' = []) →
    ∃ seen' rest' dropped', run_inv r0 stream err (set_worker i w' st) seen' rest' dropped') as Hwork.
  { intros i w w' H1 H2 H3. destruct (set_worker_inv _ _ _ _ _ _ _ i w w' Hinv H1 H2 H3). eauto. }
  destruct Hstep as [Hpc _|Hpc Hc|Hpc Hc|req Hpc Hc|req Hpc|req Hpc Hc|req Hpc Hcap
    |i req chan Hi Hch|i Hi Hch Hcl|i req Hi Hc|i req Hi Hc|i req now a Hi].
  - apply Hset; [by eapply Hopen|]. right. rewrite Hpc. done.
  - apply Hset; [by eapply Hopen|]. by left.
  - destruct (read_pass_inv _ _ _ _ _ _ _ Hinv Hpc Hc) as (? & ? & ?). eauto.
  - apply Hset; [by eapply Hopen|]. by left.
  - apply Hset; [by eapply Hopen|]. right. rewrite Hpc. done.
  - apply Hset; [by eapply Hopen|]. by left.
  - eauto using push_inv.
  - eauto using pop_inv.
  - eapply Hwork; [done|auto|by left].
  - eapply Hwork; [done|auto|by right].
  - eapply Hwork; [done|done|by left].
  - eauto using complete_inv.
Qed.

Lemma reachable_inv r0 stream err st :
  reads r0 stream err → rtc step (initial r0) st →
  ∃ seen rest dropped, run_inv r0 stream err st seen rest dropped.
Proof.
  intros Hr Hst. pose proof (initial_inv r0 stream err Hr) as Hinv.
  assert (∃ seen rest dropped, run_inv r0 stream err (initial r0) seen rest dropped) as H0 by eauto.
  clear Hinv. induction Hst as [st|st1 st2 st3 Hstep _ IH]; [done|].
  destruct H0 as (? & ? & ? & Hinv). apply IH. by eapply step_inv.
Qed.

(** ** Termination *)

Definition pc_weight (pc : read_pc) : nat :=
  match pc with RLStart => 2 | RLTop => 1 | RLWait _ => 6 | RLSend _ => 5 | RLDone _ => 0 end.

Definition worker_weight (w : worker) : nat :=
  match w with WRecv => 1 | WCheck _ => 3 | WSend _ => 2 | WExit => 0 end.

(** A bound on the steps left when [rest] is still to be read. *)
Definition weight (rest : list CapturedRequest) (st : run_state) : nat :=
  ((if st_cancelled st then 0 else 1) + pc_weight (st_pc st) + 6 * length rest
   + 3 * length (st_chan st) + sum_list_with worker_weight (st_workers st))%nat.

Definition bounded (err : go_error) (n : nat) (st : run_state) : Prop :=
  ∃ rest, ((∃ x, st_pc st = RLDone x) ∨ reads (st_reader st) rest err) ∧ (weight rest st <= n)%nat.

Lemma step_bounded err n st st' : bounded err n st → step st st' → ∃ m, (m < n)%nat ∧ bounded err m st'.
Proof.
  intros (rest & Hr & Hn) [st1 Hstep|Hc].
  2:{ exists (n - 1)%nat. unfold bounded, weight in *. rewrite Hc in Hn. split; [lia|].
      exists rest. split; [done|]. simpl. lia. }
  assert (∀ rest' st2, (∃ x, st_pc st2 = RLDone x) ∨ reads (st_reader st2) rest' err →
    (weight rest' st2 < weight rest st)%nat → ∃ m, (m < n)%nat ∧ bounded err m st2) as Hlow.
  { intros rest' st2 H1 H2. exists (weight rest' st2). split; [lia|]. by exists rest'. }
  assert (∀ pc, st_pc st = pc → (∀ x, pc ≠ RLDone x) → reads (st_reader st) rest err) as Hreads.
  { intros pc Hpc Hne. destruct Hr as [[x Hx]|]; [|done]. destruct (Hne x). congruence. }
  unfold weight in Hlow. clear Hn.
  destruct Hstep as [Hpc _|Hpc Hc|Hpc Hc|req Hpc Hc|req Hpc|req Hpc Hc|req Hpc Hcap
    |i req chan Hi Hch|i Hi Hch Hcl|i req Hi Hc|i req Hi Hc|i req now a Hi].
  - apply (Hlow rest); [right; by eapply Hreads|]. rewrite Hpc. simpl. lia.
  - apply (Hlow rest); [left; by eexists|]. rewrite Hpc. simpl. lia.
  - specialize (Hreads _ Hpc ltac:(done)). unfold read_pass.
    destruct (Next (st_reader st)) as [r' a] eqn:Hnx.
    pose proof (reads_inv _ _ _ _ _ Hreads Hnx) as Ha. destruct a as [req|e'].
    + destruct Ha as (rest' & -> & Hreads').
      destruct (fetch e req) as [| |current]; [| |destruct (pace e (st_prev st) req) as [wait prev]];
        (apply (Hlow rest'); [by right|]); rewrite Hpc; simpl; try lia. destruct wait; simpl; lia.
    + apply (Hlow rest); [left; by eexists|]. rewrite Hpc. simpl. lia.
  - apply (Hlow rest); [left; by eexists|]. rewrite Hpc. simpl. lia.
  - apply (Hlow rest); [right; by eapply Hreads|]. rewrite Hpc. simpl. lia.
  - apply (Hlow rest); [left; by eexists|]. rewrite Hpc. simpl. lia.
  - apply (Hlow rest); [right; by eapply Hreads|]. rewrite Hpc. simpl. rewrite length_app. simpl. lia.
  - apply (Hlow rest); [done|]. rewrite Hch. simpl.
    pose proof (sum_insert worker_weight _ _ _ (WCheck req) Hi) as W. simpl in W. lia.
  - apply (Hlow rest); [done|]. simpl. pose proof (sum_insert worker_weight _ _ _ WExit Hi) as W. simpl in W. lia.
  - apply (Hlow rest); [done|]. simpl. pose proof (sum_insert worker_weight _ _ _ WExit Hi) as W. simpl in W. lia.
  - apply (Hlow rest); [done|]. simpl. pose proof (sum_insert worker_weight _ _ _ (WSend req) Hi) as W. simpl in W. lia.
  - apply (Hlow rest); [done|]. simpl. pose proof (sum_insert worker_weight _ _ _ WRecv Hi) as W. simpl in W. lia.
Qed.

Lemma nsteps_bounded err n st k st' : bounded err n st → nsteps step k st st' → (k <= n)%nat.
Proof.
  intros Hb Hk. revert n Hb. induction Hk as [|k st1 st2 st3 Hstep _ IH]; intros n Hb; [lia|].
  destruct (step_bounded _ _ _ _ Hb Hstep) as (m & Hm & Hb'). specialize (IH m Hb'). lia.
Qed.

Lemma initial_bounded r0 stream err : reads r0 stream err →
  bounded err (3 + 6 * length stream + Z.to_nat (eng_concurrency e)) (initial r0).
Proof.
  intros Hr. exists stream. split; [by right|]. unfold weight, initial. simpl.
  assert (∀ n, sum_list_with worker_weight (replicate n WRecv) = n) as Hrep
    by (intros n; induction n; simpl; lia).
  rewrite Hrep. lia.
Qed.

(** ** Progress *)

Lemma reader_progress r0 stream err st seen rest dropped :
  run_inv r0 stream err st seen rest dropped → limiter_ok e = true →
  chan_closed st = false → st_cancelled st = true ∨ len (st_chan st) < chan_cap →
  ∃ st', go_step st st'.
Proof.
  intros Hinv Hl Hopen Hgo. unfold chan_closed in Hopen.
  destruct (st_pc st) as [| |req|req|x] eqn:Hpc; [..|done].
  - eexists. by apply step_limiter.
  - destruct (st_cancelled st) eqn:Hc; eexists; [by apply step_top_cancelled|by apply step_top].
  - eexists. by eapply step_wait.
  - destruct Hgo as [Hc|Hcap]; eexists; [by eapply step_send_cancelled|by eapply step_send].
Qed.

Lemma engine_progress r0 stream err st seen rest dropped :
  run_inv r0 stream err st seen rest dropped → limiter_ok e = true → 0 < eng_concurrency e →
  finished st ∨ ∃ st', go_step st st'.
Proof.
  intros Hinv Hl Hconc.
  destruct (decide (Forall (λ w, worker_weight w = 0%nat) (st_workers st))) as [Hall|Hsome].
  - destruct (chan_closed st) eqn:Hcl.
    + left. split; [eapply Forall_impl; [exact Hall|]; by intros []|].
      unfold chan_closed in Hcl. destruct (st_pc st) eqn:E; try done. by eexists.
    + right. eapply reader_progress; [done..|]. left.
      pose proof (ri_workers _ _ _ _ _ _ _ Hinv) as Hw.
      destruct (st_workers st) as [|w ws] eqn:E; [simpl in Hw; lia|].
      destruct (ri_exit _ _ _ _ _ _ _ Hinv 0%nat) as [|[_ ?]]; [|done|congruence].
      rewrite E. inversion_clear Hall as [|?? H0 _]. by destruct w.
  - right. apply not_Forall_Exists in Hsome; [|apply _]. apply Exists_exists in Hsome as (w & Hw & Hne).
    apply list_elem_of_lookup in Hw as [i Hi]. destruct w as [|req|req|]; [| | |by destruct Hne].
    + destruct (st_chan st) as [|req chan] eqn:Hch; [|eexists; by eapply step_recv].
      destruct (chan_closed st) eqn:Hcl; [eexists; by eapply step_recv_closed|].
      eapply reader_progress; [done..|]. right. rewrite Hch. unfold chan_cap, len. simpl. lia.
    + destruct (st_cancelled st) eqn:Hc; eexists; [by eapply step_check_cancelled|by eapply step_check].
    + eexists. eapply (step_complete _ i req 0 (SendFailed None ctxErr)). done.
Qed.
End Run.

(** ** Theorems *)

Section Theorems.
Context {R : Type} (Next : R → R * result CapturedRequest).

Lemma replayed_app e l k : replayed e (l ++ k) = replayed e l ++ replayed e k.
Proof. unfold replayed. by rewrite List.filter_app, omap_app. Qed.

Lemma finished_empty e ctxErr r0 stream err st seen rest dropped :
  run_inv Next e ctxErr r0 stream err st seen rest dropped →
  finished st → st_cancelled st = false → 0 < eng_concurrency e →
  rest = [] ∧ dropped = [] ∧ in_flight st = [] ∧
  st_pc st = RLDone (if is_done err then None else Some err).
Proof.
  intros Hinv [Hall [x Hx]] Hc Hconc.
  destruct (ri_end _ _ _ _ _ _ _ _ _ _ Hinv x Hx) as [[? _]|[-> ->]]; [congruence|].
  split; [done|]. split; [by eapply ri_dropped|]. split; [|done].
  pose proof (ri_workers _ _ _ _ _ _ _ _ _ _ Hinv) as Hw.
  assert (concat (worker_holds <$> st_workers st) = []) as Hh.
  { clear Hw. induction Hall as [|w ws -> _ IH]; done. }
  destruct (st_workers st) as [|w ws] eqn:E; [simpl in Hw; lia|]. inversion Hall as [|?? H0 _]; subst.
  destruct (ri_exit _ _ _ _ _ _ _ _ _ _ Hinv 0%nat) as [|[Hch _]]; [by rewrite E|congruence|].
  unfold in_flight. by rewrite E, Hh, Hch, Hx.
Qed.

(** C6: the engine sends every request exactly once.  In every interleaving of
    the reader and sender goroutines, with any sender answers, no request is
    sent twice or without being in the capture; and when a run that was not
    cancelled has finished, the requests sent are exactly those of this shard
    that the transformers keep, the progress counters and the results handed to
    the handler account for each of them, and [Run] fails exactly when the
    reader did. *)
Theorem engine_sends_exactly_once e ctxErr r0 stream err st :
  reads Next r0 stream err → rtc (step Next e ctxErr) (initial e r0) st →
  (∃ others, replayed e stream ≡ₚ (st_log st).*1 ++ others) ∧
  (finished st → st_cancelled st = false → 0 < eng_concurrency e →
   (st_log st).*1 ≡ₚ replayed e stream ∧
   length (st_results st) = length (replayed e stream) ∧
   int64 (st_sent st + st_errors st) = int64 (len (replayed e stream)) ∧
   st_filtered st = int64 (filtered_out e stream) ∧
   st_skipped st = int64 (other_shards e stream) ∧
   run_error st = if is_done err then None else Some (WrapError "reader: %w" [] err)).
Proof.
  intros Hr Hst. destruct (reachable_inv Next e ctxErr r0 stream err st Hr Hst) as (seen & rest & dropped & Hinv).
  pose proof Hinv as []. split.
  { exists (in_flight st ++ dropped ++ replayed e rest). by rewrite ri_stream0, replayed_app, ri_sent0, <- !app_assoc. }
  intros Hfin Hc Hconc.
  destruct (finished_empty _ _ _ _ _ _ _ _ _ Hinv Hfin Hc Hconc) as (-> & -> & Hfl & Hpc).
  rewrite app_nil_r in ri_stream0. subst stream. rewrite Hfl, !app_nil_r in ri_sent0.
  split; [done|]. split; [by rewrite ri_results0, ri_sent0, length_fmap|]. split.
  { rewrite ri_ok0, ri_failed0, int64_add_l, int64_add_r. f_equal.
    assert (∀ l : list (CapturedRequest * bool),
      len (List.filter snd l) + len (List.filter (λ x, negb (snd x)) l) = len l) as Hcount.
    { induction l as [|[? []] l IH]; unfold len in *; simpl; lia. }
    rewrite Hcount. unfold len. by rewrite ri_sent0, length_fmap. }
  split; [done|]. split; [done|]. unfold run_error. rewrite Hpc. by destruct (is_done err).
Qed.


(** ** Distributed runs *)

Definition with_shard (cfg : EngineConfig) (index count : Z) : EngineConfig :=
  {| ec_Reader := ec_Reader cfg; ec_Sender := ec_Sender cfg; ec_Transformers := ec_Transformers cfg;
     ec_ReadOptions := ec_ReadOptions cfg; ec_RateMode := ec_RateMode cfg;
     ec_RatePerSecond := ec_RatePerSecond cfg; ec_TimeScale := ec_TimeScale cfg;
     ec_Concurrency := ec_Concurrency cfg; ec_ShardIndex := index; ec_ShardCount := count |}.

Lemma shard_engine cfg index count e :
  1 < count → 0 <= index < count → in_int64 count →
  ec_ShardIndex cfg = index → ec_ShardCount cfg = count → NewEngine cfg = Ok e →
  eng_transformers e = ec_Transformers cfg ∧ eng_readOpts e = ec_ReadOptions cfg ∧ 0 < eng_concurrency e ∧
  ∀ req, engine_owns e req = (shardOf (cr_ID req) count =? index).
Proof.
  intros Hc Hi Hin <- <-. unfold NewEngine.
  rewrite (proj2 (Z.ltb_lt 1 _)), (proj2 (Z.ltb_ge _ 0)), (proj2 (Z.leb_gt _ _)) by lia.
  destruct (ec_Reader cfg), (ec_Sender cfg); simpl; try done. intros [= <-].
  unfold in_int64 in Hin. split; [done|]. split; [done|]. split; [simpl; case_match; zbool; lia|].
  intros req. unfold engine_owns. simpl. rewrite !uint64_id by lia.
  rewrite (proj2 (Z.ltb_lt 1 _)) by lia. simpl. by rewrite negb_involutive.
Qed.

(** An engine of one shard owns every request. *)
Lemma whole_engine cfg e : ec_ShardCount cfg <= 1 → NewEngine cfg = Ok e →
  eng_transformers e = ec_Transformers cfg ∧ eng_readOpts e = ec_ReadOptions cfg ∧ 0 < eng_concurrency e ∧
  ∀ req, engine_owns e req = true.
Proof.
  intros Hc. unfold NewEngine. rewrite (proj2 (Z.ltb_ge 1 _)) by lia.
  destruct (ec_Reader cfg), (ec_Sender cfg); simpl; try done. intros [= <-].
  split; [done|]. split; [done|]. split; [simpl; case_match; zbool; lia|]. done.
Qed.

(** Splitting a list by the shard of its elements and putting the parts
    together again. *)
Lemma concat_zip {A B} (f g : A → list B) l :
  concat ((λ i, f i ++ g i) <$> l) ≡ₚ concat (f <$> l) ++ concat (g <$> l).
Proof. induction l as [|i l IH]; [done|]. simpl. rewrite IH. solve_Permutation. Qed.

Lemma concat_single {B} (k n : nat) (v : list B) : (k < n)%nat →
  concat ((λ i, if Z.of_nat k =? Z.of_nat i then v else []) <$> seq 0 n) = v.
Proof.
  intros Hk. replace n with (k + (1 + (n - k - 1)))%nat by lia. rewrite seq_app. simpl.
  rewrite fmap_app, concat_app. simpl. rewrite Z.eqb_refl.
  assert (∀ l, k ∉ l → concat ((λ i, if Z.of_nat k =? Z.of_nat i then v else []) <$> l) = []) as Hz.
  { induction l as [|i l IH]; intros Hl; [done|]. simpl. apply not_elem_of_cons in Hl as [Hki Hl].
    rewrite (proj2 (Z.eqb_neq _ _)) by lia. by apply IH. }
  rewrite !Hz, app_nil_r by (rewrite elem_of_seq; lia). done.
Qed.

Lemma shards_cover (ts : list Transformer) (count : nat) reqs :
  (0 < count)%nat →
  concat ((λ i, omap (transform ts) (List.filter (λ r, shardOf (cr_ID r) (Z.of_nat count) =? Z.of_nat i) reqs))
    <$> seq 0 count) ≡ₚ omap (transform ts) reqs.
Proof.
  intros Hc. induction reqs as [|r reqs IH].
  { simpl. generalize (seq 0 count). intros l. by induction l. }
  assert (0 <= shardOf (cr_ID r) (Z.of_nat count) < Z.of_nat count) as Hr by (apply Z.mod_pos_bound; lia).
  set (own := λ i : nat, if shardOf (cr_ID r) (Z.of_nat count) =? Z.of_nat i
                 then option_list (transform ts r) else []).
  etrans; [|etrans; [apply (concat_zip own (λ i, omap (transform ts)
    (List.filter (λ r, shardOf (cr_ID r) (Z.of_nat count) =? Z.of_nat i) reqs)) (seq 0 count))|]].
  - apply reflexive_eq. f_equal. apply list_fmap_ext. intros _ i _. unfold own. simpl.
    destruct (_ =? _); [|done]. simpl. by destruct (transform ts r).
  - rewrite IH. assert (concat (own <$> seq 0 count) = option_list (transform ts r)) as ->.
    { unfold own. rewrite <- (Z2Nat.id (shardOf _ _)) by lia. apply concat_single. lia. }
    simpl. by destruct (transform ts r).
Qed.

(** A run that ended sent what its engine replays of the capture. *)
Lemma finished_sends e ctxErr r0 stream err st :
  reads Next r0 stream err → rtc (step Next e ctxErr) (initial e r0) st →
  finished st → st_cancelled st = false → 0 < eng_concurrency e → (st_log st).*1 ≡ₚ replayed e stream.
Proof.
  intros Hr Hst Hfin Hc Hconc.
  destruct (reachable_inv Next e ctxErr _ _ _ _ Hr Hst) as (seen & rest & dropped & Hinv).
  destruct (finished_empty _ _ _ _ _ _ _ _ _ Hinv Hfin Hc Hconc) as (-> & -> & Hfl & _).
  destruct Hinv. rewrite app_nil_r in ri_stream0. subst.
  by rewrite Hfl, !app_nil_r in ri_sent0.
Qed.

(** Every completed send has a result, and nothing is filtered out without
    transformers. *)
Lemma run_counts e ctxErr r0 stream err st :
  reads Next r0 stream err → rtc (step Next e ctxErr) (initial e r0) st →
  length (st_results st) = length (st_log st) ∧ (eng_transformers e = [] → st_filtered st = 0).
Proof.
  intros Hr Hst. destruct (reachable_inv Next e ctxErr _ _ _ _ Hr Hst) as (seen & rest & dropped & []).
  split; [done|]. intros Hts. rewrite ri_filtered0. unfold filtered_out. rewrite Hts.
  assert (∀ l, List.filter (λ r, engine_owns e r && negb (bool_decide (is_Some (transform [] r)))) l = []) as ->; [|done].
  induction l as [|r l IH]; [done|]. cbn [List.filter transform]. rewrite bool_decide_eq_true_2, andb_false_r by by eexists.
  exact IH.
Qed.

Lemma concat_perm {A B} (f g : A → list B) l : (∀ i, i ∈ l → f i ≡ₚ g i) → concat (f <$> l) ≡ₚ concat (g <$> l).
Proof.
  induction l as [|i l IH]; intros Hall; [done|].
  simpl. rewrite (Hall i) by by left. rewrite IH; [done|]. intros j Hj. apply Hall. by right.
Qed.

(** The engine of one shard, run to its end. *)
Lemma shard_sends cfg (i count : nat) e r0 st ctxErr stream err :
  (i < count)%nat → (1 < count)%nat → in_int64 (Z.of_nat count) →
  ec_ShardIndex cfg = Z.of_nat i → ec_ShardCount cfg = Z.of_nat count → NewEngine cfg = Ok e →
  reads Next r0 stream err → rtc (step Next e ctxErr) (initial e r0) st →
  finished st → st_cancelled st = false →
  (st_log st).*1 ≡ₚ omap (transform (ec_Transformers cfg))
    (List.filter (λ r, shardOf (cr_ID r) (Z.of_nat count) =? Z.of_nat i) stream).
Proof.
  intros Hi Hcount Hin Hidx Hcnt Hnew Hr Hst Hfin Hc.
  destruct (shard_engine cfg (Z.of_nat i) (Z.of_nat count) e ltac:(lia) ltac:(lia) Hin Hidx Hcnt Hnew)
    as (Hts & _ & Hconc & Hown).
  rewrite (finished_sends e ctxErr r0 stream err st Hr Hst Hfin Hc Hconc). unfold replayed. rewrite Hts.
  apply reflexive_eq. f_equal. by apply List.filter_ext.
Qed.

(** A distributed replay sends every captured request exactly once.  For
    engines configured alike but for their shard index, one per index, that
    each read the same capture and finished without cancellation, in any
    interleaving, the requests all of them sent together are exactly the
    capture's requests that the transformers keep. *)
Theorem sharded_replay_exactly_once cfg (count : nat) (engines : nat → Engine)
    (readers : nat → R) (finals : nat → run_state) ctxErr stream err :
  (1 < count)%nat → in_int64 (Z.of_nat count) →
  (∀ i, (i < count)%nat →
    NewEngine (with_shard cfg (Z.of_nat i) (Z.of_nat count)) = Ok (engines i) ∧
    reads Next (readers i) stream err ∧
    rtc (step Next (engines i) ctxErr) (initial (engines i) (readers i)) (finals i) ∧
    finished (finals i) ∧ st_cancelled (finals i) = false) →
  concat ((λ i, (st_log (finals i)).*1) <$> seq 0 count)
    ≡ₚ omap (transform (ec_Transformers cfg)) stream.
Proof.
  intros Hcount Hin Hruns. rewrite <- (shards_cover (ec_Transformers cfg) count stream) by lia.
  apply concat_perm. intros i Hi%elem_of_seq. destruct (Hruns i ltac:(lia)) as (Hnew & Hr & Hst & Hfin & Hc).
  eapply (shard_sends (with_shard cfg (Z.of_nat i) (Z.of_nat count))); [..|exact Hr|exact Hst|done|done];
    [lia|done|done|done|done|done].
Qed.
End Theorems.

(** The capture readers of [Readers] are readers of the engine: what [read_all]
    returns is what the engine reads. *)
Lemma read_all_reads {CO : RequestCodec} open_object what fuel r reqs err :
  read_all open_object what fuel r = Some (reqs, err) → reads (reader_Next open_object what) r reqs err.
Proof.
  revert r reqs. induction fuel as [|fuel IH]; intros r reqs H; [done|]. cbn in H.
  destruct (reader_Next open_object what r) as [r' [req|e]] eqn:Hn.
  - destruct (read_all open_object what fuel r') as [[reqs' e']|] eqn:Ha; simplify_eq/=.
    eapply reads_cons; [exact Hn|]. by apply IH.
  - simplify_eq. by eapply reads_end.
Qed.

(** ** Concrete runs *)

(** A reader over a list. *)
Definition list_Next (l : list CapturedRequest) : list CapturedRequest * result CapturedRequest :=
  match l with [] => ([], Err ErrReaderDone) | r :: l => (l, Ok r) end.

Lemma list_reads l : reads list_Next l l ErrReaderDone.
Proof. induction l as [|r l IH]; [by eapply reads_end|by eapply reads_cons]. Qed.

Definition demo_config : EngineConfig :=
  {| ec_Reader := true; ec_Sender := true; ec_Transformers := []; ec_ReadOptions := emptyOptions;
     ec_RateMode := RateModeUnlimited; ec_RatePerSecond := f64_zero; ec_TimeScale := f64_zero;
     ec_Concurrency := 1; ec_ShardIndex := 0; ec_ShardCount := 0 |}.

Definition demo_engine_for (opts : ReadOptions) (index : Z) : Engine :=
  {| eng_transformers := []; eng_readOpts := opts; eng_rateMode := RateModeUnlimited;
     eng_ratePerSecond := f64_zero; eng_timeScale := f64_one; eng_concurrency := 1;
     eng_shardIndex := index; eng_shardCount := 2 |}.

Definition demo_engine : Z → Engine := demo_engine_for emptyOptions.

Example demo_engine_new index : (index = 0 ∨ index = 1) →
  NewEngine (with_shard demo_config index 2) = Ok (demo_engine index).
Proof. by intros [->| ->]. Qed.

(** [demo_request "a"] belongs to shard 0, [demo_request "b"] to shard 1. *)
Definition demo_stream : list CapturedRequest := [demo_request "a"; demo_request "b"].

Definition demo_result (id : string) : Result :=
  {| res_RequestID := id; res_StatusCode := 200; res_ResponseBody := ""; res_Duration := 5;
     res_Error := None; res_Timestamp := 9 |}.

Definition demo_final (id : string) : run_state :=
  RunState ([] : list CapturedRequest) (RLDone None) zero_time [] [WExit] false 1 0 0 1
    [demo_result id] [(demo_request id, true)].

Tactic Notation "go_to" uconstr(H) := eapply rtc_l; [apply step_go; eapply H; reflexivity|cbn].

Lemma demo_run_0 opts : rtc (step list_Next (demo_engine_for opts 0) (Sentinel "context canceled"))
  (initial (demo_engine_for opts 0) demo_stream) (demo_final "a").
Proof.
  go_to step_limiter. go_to step_top. go_to step_send.
  go_to (step_recv _ _ _ _ 0%nat).
  go_to (step_check _ _ _ _ 0%nat).
  eapply rtc_l; [apply step_go; eapply (step_complete _ _ _ _ 0%nat _ 0 (Sent (demo_result "a"))); reflexivity|cbn].
  go_to step_top. go_to step_top.
  go_to (step_recv_closed _ _ _ _ 0%nat).
  apply rtc_refl.
Qed.

Lemma demo_run_1 opts : rtc (step list_Next (demo_engine_for opts 1) (Sentinel "context canceled"))
  (initial (demo_engine_for opts 1) demo_stream) (demo_final "b").
Proof.
  go_to step_limiter. go_to step_top. go_to step_top. go_to step_send.
  go_to (step_recv _ _ _ _ 0%nat).
  go_to (step_check _ _ _ _ 0%nat).
  eapply rtc_l; [apply step_go; eapply (step_complete _ _ _ _ 0%nat _ 0 (Sent (demo_result "b"))); reflexivity|cbn].
  go_to step_top.
  go_to (step_recv_closed _ _ _ _ 0%nat).
  apply rtc_refl.
Qed.

Lemma demo_finished id : finished (demo_final id).
Proof. split; [by repeat constructor|by eexists]. Qed.

Lemma engine_sends_exactly_once_witness :
  (st_log (demo_final "a")).*1 ≡ₚ replayed (demo_engine 0) demo_stream ∧
  replayed (demo_engine 0) demo_stream = [demo_request "a"].
Proof.
  split; [|reflexivity].
  destruct (engine_sends_exactly_once list_Next (demo_engine 0) (Sentinel "context canceled") demo_stream
    demo_stream ErrReaderDone (demo_final "a") (list_reads _) (demo_run_0 _)) as [_ Hfin].
  by destruct (Hfin (demo_finished "a") eq_refl eq_refl).
Defined.


