(* ===== verification/Validation.v ===== *)
(** * Plugin constraint validation ([internal/plugin/validation])

    The registry of plugin constraints and [ValidatePipeline].  Plugin
    configurations are opaque values of a type [Config]; the registry is a map
    by plugin name, and ranging over a map may use any order. *)

From S2P Require Import Prelude.

Local Open Scope Z_scope.

Inductive ResourceAccess := Shared | Exclusive.

#[global] Instance ResourceAccess_eq_dec : EqDecision ResourceAccess.
Proof. solve_decision. Defined.

Definition access_String (a : ResourceAccess) : string :=
  match a with Shared => "shared" | Exclusive => "exclusive" end.

Record ResourceClaim := { rc_Name : string; rc_Access : ResourceAccess }.

Inductive ErrorCategory :=
  | CategoryConfig | CategoryConflict | CategoryOrder | CategoryResource | CategoryUnknown.

Record ValidationError := {
  ve_Plugin : string;
  ve_Related : string;
  ve_Category : ErrorCategory;
  ve_Message : text
}.

Section Validation.
Context {MR : MapRange} {Config : Type}.

Record Constraints := {
  co_ConfigValidator : option (Config → option go_error);
  co_ConflictsWith : list string;
  co_ConflictReasons : gmap string string;
  co_MustRunBefore : list string;
  co_MustRunAfter : list string;
  co_Resources : list ResourceClaim
}.

Definition noConstraints : Constraints :=
  {| co_ConfigValidator := None; co_ConflictsWith := []; co_ConflictReasons := ∅;
     co_MustRunBefore := []; co_MustRunAfter := []; co_Resources := [] |}.

Record PluginRef := { pr_Name : string; pr_Config : Config }.

Definition ValidationRegistry : Type := gmap string Constraints.

(** [Register]; a nil constraint pointer registers no constraints. *)
Definition Validation_Register (name : string) (c : option Constraints) (r : ValidationRegistry)
    : ValidationRegistry * option go_error :=
  if bool_decide (name = "") then (r, Some (FmtError "plugin name must not be empty" []))
  else match r !! name with
  | Some _ => (r, Some (FmtError "validation constraints for plugin %q already registered" [FStr name]))
  | None => (<[name := default noConstraints c]> r, None)
  end.

Definition Has (name : string) (r : ValidationRegistry) : bool := bool_decide (is_Some (r !! name)).

Definition ValidateConfig (r : ValidationRegistry) (name : string) (config : Config) : option go_error :=
  match r !! name with
  | None => Some (FmtError "unknown plugin %q" [FStr name])
  | Some c => match co_ConfigValidator c with None => None | Some f => f config end
  end.

(** The positions of each name: ascending, as the loop of [ValidatePipeline]
    appends them. *)
Fixpoint build_positions (i : Z) (pipeline : list PluginRef) (positions : gmap string (list Z))
    : gmap string (list Z) :=
  match pipeline with
  | [] => positions
  | ref :: pipeline =>
      build_positions (i + 1) pipeline
        (<[pr_Name ref := default [] (positions !! pr_Name ref) ++ [i]]> positions)
  end.

Fixpoint checkUnknown_loop (r : ValidationRegistry) (seen : gset string) (pipeline : list PluginRef)
    : list ValidationError :=
  match pipeline with
  | [] => []
  | ref :: pipeline =>
      if bool_decide (pr_Name ref ∈ seen) then checkUnknown_loop r seen pipeline
      else
        let seen := {[pr_Name ref]} ∪ seen in
        match r !! pr_Name ref with
        | None =>
            {| ve_Plugin := pr_Name ref; ve_Related := ""; ve_Category := CategoryUnknown;
               ve_Message := Fmt "plugin %q is not registered" [FStr (pr_Name ref)] |}
            :: checkUnknown_loop r seen pipeline
        | Some _ => checkUnknown_loop r seen pipeline
        end
  end.

Definition checkUnknown (r : ValidationRegistry) (pipeline : list PluginRef) : list ValidationError :=
  checkUnknown_loop r ∅ pipeline.

Definition check_config (r : ValidationRegistry) (ref : PluginRef) : list ValidationError :=
  match r !! pr_Name ref with
  | None => []
  | Some c =>
      match co_ConfigValidator c with
      | None => []
      | Some f =>
          match f (pr_Config ref) with
          | None => []
          | Some e => [{| ve_Plugin := pr_Name ref; ve_Related := ""; ve_Category := CategoryConfig;
                          ve_Message := ErrText e |}]
          end
      end
  end.

Definition checkConfigs (r : ValidationRegistry) (pipeline : list PluginRef) : list ValidationError :=
  concat (check_config r <$> pipeline).

Definition normalizePair (a b : string) : string * string :=
  if String.ltb b a then (b, a) else (a, b).

(** A loop body that reports a pair of plugins at most once. *)
Definition report_once (pair : string * string) (err : ValidationError)
    (acc : gset (string * string) * list ValidationError) : gset (string * string) * list ValidationError :=
  let '(reported, errs) := acc in
  if bool_decide (pair ∈ reported) then acc else ({[pair]} ∪ reported, errs ++ [err]).

Definition check_conflict (positions : gmap string (list Z)) (name : string) (c : Constraints)
    (acc : gset (string * string) * list ValidationError) (conflictName : string)
    : gset (string * string) * list ValidationError :=
  match positions !! conflictName with
  | None => acc
  | Some _ =>
      report_once (normalizePair name conflictName)
        {| ve_Plugin := name; ve_Related := conflictName; ve_Category := CategoryConflict;
           ve_Message := Fmt (default "plugins are incompatible" (co_ConflictReasons c !! conflictName)) [] |}
        acc
  end.

Definition checkConflicts (r : ValidationRegistry) (pipeline : list PluginRef)
    (positions : gmap string (list Z)) : list ValidationError :=
  snd (foldl (λ acc ref,
    match r !! pr_Name ref with
    | None => acc
    | Some c => foldl (check_conflict positions (pr_Name ref) c) acc (co_ConflictsWith c)
    end) (∅, []) pipeline).

Definition order_error (fmt name other : string) (i otherPos : Z) : ValidationError :=
  {| ve_Plugin := name; ve_Related := other; ve_Category := CategoryOrder;
     ve_Message := Fmt fmt [FStr name; FStr other; FInt i; FStr other; FInt otherPos] |}.

Definition check_order (r : ValidationRegistry) (positions : gmap string (list Z)) (i : Z)
    (ref : PluginRef) : list ValidationError :=
  match r !! pr_Name ref with
  | None => []
  | Some c =>
      concat ((λ before, concat ((λ otherPos,
        if otherPos <=? i then
          [order_error "%q must appear before %q (at index %d, but %q is at index %d)"
             (pr_Name ref) before i otherPos]
        else []) <$> default [] (positions !! before))) <$> co_MustRunBefore c)
      ++ concat ((λ after, concat ((λ otherPos,
        if i <=? otherPos then
          [order_error "%q must appear after %q (at index %d, but %q is at index %d)"
             (pr_Name ref) after i otherPos]
        else []) <$> default [] (positions !! after))) <$> co_MustRunAfter c)
  end.

Fixpoint checkOrdering (r : ValidationRegistry) (positions : gmap string (list Z)) (i : Z)
    (pipeline : list PluginRef) : list ValidationError :=
  match pipeline with
  | [] => []
  | ref :: pipeline => check_order r positions i ref ++ checkOrdering r positions (i + 1) pipeline
  end.

(** All claims by resource, in pipeline order. *)
Definition add_claim (name : string) (claims : gmap string (list (string * ResourceAccess)))
    (rc : ResourceClaim) : gmap string (list (string * ResourceAccess)) :=
  <[rc_Name rc := default [] (claims !! rc_Name rc) ++ [(name, rc_Access rc)]]> claims.

Definition collect_claims (r : ValidationRegistry) (pipeline : list PluginRef)
    : gmap string (list (string * ResourceAccess)) :=
  foldl (λ claims ref,
    match r !! pr_Name ref with
    | None => claims
    | Some c => foldl (add_claim (pr_Name ref)) claims (co_Resources c)
    end) ∅ pipeline.

(** The inner loops of [checkResources] over the claims of one resource; two
    claims of the same plugin, and so a claim with itself, are skipped. *)
Definition check_pair (resource : string) (a : string * ResourceAccess)
    (acc : gset (string * string) * list ValidationError) (b : string * ResourceAccess)
    : gset (string * string) * list ValidationError :=
  if bool_decide (fst a = fst b) then acc
  else report_once (normalizePair (fst a) (fst b))
    {| ve_Plugin := fst a; ve_Related := fst b; ve_Category := CategoryResource;
       ve_Message := Fmt "resource %q contention: %q claims exclusive access but %q also claims %s access"
         [FStr resource; FStr (fst a); FStr (fst b); FStr (access_String (snd b))] |} acc.

Definition check_resource (acc : gset (string * string) * list ValidationError)
    (rc : string * list (string * ResourceAccess)) : gset (string * string) * list ValidationError :=
  foldl (λ acc a,
    if bool_decide (snd a = Exclusive) then foldl (check_pair (fst rc) a) acc (snd rc) else acc)
    acc (snd rc).

Definition checkResources (r : ValidationRegistry) (pipeline : list PluginRef) : list ValidationError :=
  snd (foldl check_resource (∅, []) (go_range (collect_claims r pipeline))).

Definition ValidatePipeline (r : ValidationRegistry) (pipeline : list PluginRef) : list ValidationError :=
  let positions := build_positions 0 pipeline ∅ in
  checkUnknown r pipeline ++ checkConfigs r pipeline ++ checkConflicts r pipeline positions
  ++ checkOrdering r positions 0 pipeline ++ checkResources r pipeline.

(** ** Specification *)

(** What the declared constraints ask of a pipeline. *)
Record pipeline_valid (r : ValidationRegistry) (pipeline : list PluginRef) : Prop := {
  pv_known : ∀ ref, ref ∈ pipeline → is_Some (r !! pr_Name ref);
  pv_config : ∀ ref, ref ∈ pipeline → ValidateConfig r (pr_Name ref) (pr_Config ref) = None;
  pv_conflict : ∀ ref other c, ref ∈ pipeline → other ∈ pipeline → r !! pr_Name ref = Some c →
    (pr_Name other ∉ co_ConflictsWith c);
  pv_before : ∀ (i j : nat) ref other c, pipeline !! i = Some ref → pipeline !! j = Some other →
    r !! pr_Name ref = Some c → pr_Name other ∈ co_MustRunBefore c → (i < j)%nat;
  pv_after : ∀ (i j : nat) ref other c, pipeline !! i = Some ref → pipeline !! j = Some other →
    r !! pr_Name ref = Some c → pr_Name other ∈ co_MustRunAfter c → (j < i)%nat;
  pv_resource : ∀ ref other c d x y, ref ∈ pipeline → other ∈ pipeline →
    r !! pr_Name ref = Some c → r !! pr_Name other = Some d →
    x ∈ co_Resources c → y ∈ co_Resources d → rc_Name x = rc_Name y → rc_Access x = Exclusive →
    pr_Name ref = pr_Name other
}.
End Validation.

Arguments Constraints : clear implicits.
Arguments PluginRef : clear implicits.
Arguments ValidationRegistry : clear implicits.

(** ** Positions *)

Section Lemmas.
Context {MR : MapRange} {Config : Type}.
Implicit Types (r : ValidationRegistry Config) (p : list (PluginRef Config)).

Lemma build_positions_spec p k m n :
  (∀ z, z ∈ default [] (build_positions k p m !! n) ↔
    z ∈ default [] (m !! n) ∨ ∃ (i : nat) ref, p !! i = Some ref ∧ pr_Name ref = n ∧ z = k + Z.of_nat i) ∧
  (is_Some (build_positions k p m !! n) ↔ is_Some (m !! n) ∨ ∃ ref, ref ∈ p ∧ pr_Name ref = n).
Proof.
  revert k m. induction p as [|ref p IH]; intros k m; cbn [build_positions].
  { split; [intros z; split; [by left|intros [?|(i & ? & ? & _)]; done]|].
    split; [by left|]. intros [?|(? & ?%elem_of_nil & _)]; done. }
  specialize (IH (k + 1) (<[pr_Name ref := default [] (m !! pr_Name ref) ++ [k]]> m)) as [IHz IHs]. split.
  - intros z. rewrite IHz. destruct (decide (pr_Name ref = n)) as [<-|Hne].
    + rewrite lookup_insert_eq. simpl. rewrite elem_of_app, list_elem_of_singleton. split.
      * intros [[?| ->]|(i & x & Hi & Hn & ->)]; [by left|right; exists 0%nat, ref; split_and!; [done..|lia]|].
        right. exists (S i), x. split_and!; [done..|lia].
      * intros [?|([|i] & x & Hi & Hn & ->)]; [by left; left|left; right; lia|].
        right. exists i, x. split_and!; [done..|lia].
    + rewrite lookup_insert_ne by done. split.
      * intros [?|(i & x & Hi & Hn & ->)]; [by left|]. right. exists (S i), x. split_and!; [done..|lia].
      * intros [?|([|i] & x & Hi & Hn & ->)]; [by left|simplify_eq/=|].
        right. exists i, x. split_and!; [done..|lia].
  - rewrite IHs, lookup_insert_is_Some'. setoid_rewrite elem_of_cons. naive_solver.
Qed.

Lemma positions_elem p n z :
  z ∈ default [] (build_positions 0 p ∅ !! n) ↔
  ∃ (i : nat) ref, p !! i = Some ref ∧ pr_Name ref = n ∧ z = Z.of_nat i.
Proof.
  rewrite (proj1 (build_positions_spec p 0 ∅ n)), lookup_empty. simpl. rewrite elem_of_nil. naive_solver.
Qed.

Lemma positions_present p n :
  is_Some (build_positions 0 p ∅ !! n) ↔ ∃ ref, ref ∈ p ∧ pr_Name ref = n.
Proof.
  rewrite (proj2 (build_positions_spec p 0 ∅ n)), lookup_empty. split; [|by right].
  intros [[? ?]|?]; done.
Qed.

(** ** Phases without shared state *)

Lemma concat_fmap_nil {A B} (f : A → list B) l : concat (f <$> l) = [] ↔ ∀ x, x ∈ l → f x = [].
Proof.
  induction l as [|x l IH]; simpl; [split; [intros _ x ?%elem_of_nil|]; done|].
  rewrite app_nil, IH. set_solver.
Qed.

Lemma checkUnknown_nil r seen p :
  checkUnknown_loop r seen p = [] ↔ ∀ ref, ref ∈ p → pr_Name ref ∈ seen ∨ is_Some (r !! pr_Name ref).
Proof.
  revert seen. induction p as [|ref p IH]; intros seen; cbn [checkUnknown_loop].
  { split; [intros _ x ?%elem_of_nil|]; done. }
  setoid_rewrite elem_of_cons. case_bool_decide as Hs.
  - rewrite IH. naive_solver.
  - destruct (r !! pr_Name ref) as [c|] eqn:E.
    + rewrite IH. split; intros H x; [|by intros Hx; destruct (H x ltac:(by right)); set_solver].
      intros [->|Hx]; [right; by eexists|]. destruct (H x Hx) as [[Hn|?]%elem_of_union|]; [|by left|by right].
      apply elem_of_singleton in Hn. right. rewrite Hn, E. by eexists.
    + split; [done|]. intros H. destruct (H ref ltac:(by left)) as [|[? ?]]; [done|congruence].
Qed.

Lemma check_config_nil r ref :
  check_config r ref = [] ↔ r !! pr_Name ref = None ∨ ValidateConfig r (pr_Name ref) (pr_Config ref) = None.
Proof.
  unfold check_config, ValidateConfig. destruct (r !! pr_Name ref) as [c|]; [|by split; [left|]].
  destruct (co_ConfigValidator c) as [f|]; [|by split; [right|]].
  destruct (f (pr_Config ref)); split; try done; [by intros [?|?]|by right].
Qed.

Lemma checkOrdering_nil r positions k p :
  checkOrdering r positions k p = [] ↔
  ∀ (i : nat) ref, p !! i = Some ref → check_order r positions (k + Z.of_nat i) ref = [].
Proof.
  revert k. induction p as [|ref p IH]; intros k; cbn [checkOrdering]; [by split|].
  rewrite app_nil, IH. split.
  - intros [H0 Hr] [|i] x Hi; simplify_eq/=; [by rewrite Z.add_0_r|].
    replace (k + Z.of_nat (S i)) with (k + 1 + Z.of_nat i) by lia. by apply Hr.
  - intros H. split; [rewrite <- (H 0%nat ref); [f_equal; lia|done]|].
    intros i x Hi. rewrite <- (H (S i) x Hi). f_equal. lia.
Qed.

Lemma check_order_nil r p i ref :
  check_order r (build_positions 0 p ∅) i ref = [] ↔
  ∀ c, r !! pr_Name ref = Some c →
    (∀ (j : nat) other, p !! j = Some other → pr_Name other ∈ co_MustRunBefore c → i < Z.of_nat j) ∧
    (∀ (j : nat) other, p !! j = Some other → pr_Name other ∈ co_MustRunAfter c → Z.of_nat j < i).
Proof.
  unfold check_order. destruct (r !! pr_Name ref) as [c|]; [|by split].
  rewrite app_nil, !concat_fmap_nil. setoid_rewrite concat_fmap_nil. split.
  - intros [Hb Ha] c' [= <-]. split; intros j other Hj Hin.
    + specialize (Hb _ Hin (Z.of_nat j)). destruct (Z.leb_spec (Z.of_nat j) i); [|lia].
      discriminate Hb. apply positions_elem. eauto.
    + specialize (Ha _ Hin (Z.of_nat j)). destruct (Z.leb_spec i (Z.of_nat j)); [|lia].
      discriminate Ha. apply positions_elem. eauto.
  - intros H. destruct (H c eq_refl) as [Hb Ha].
    split; intros n Hn z (j & other & Hj & <- & ->)%positions_elem.
    + specialize (Hb j other Hj Hn). destruct (Z.leb_spec (Z.of_nat j) i); [lia|done].
    + specialize (Ha j other Hj Hn). destruct (Z.leb_spec i (Z.of_nat j)); [lia|done].
Qed.

(** ** Loops that report each pair once

    Such a loop body leaves the empty report alone exactly on the elements that
    are in order, and never empties a report. *)

Definition report : Type := gset (string * string) * list ValidationError.

Record reporter {X} (g : report → X → report) (ok : X → bool) : Prop := {
  rp_grow : ∀ acc x, snd acc ≠ [] → snd (g acc x) ≠ [];
  rp_quiet : ∀ x, ok x = true → g (∅, []) x = (∅, []);
  rp_loud : ∀ x, ok x = false → snd (g (∅, []) x) ≠ []
}.

Lemma foldl_grow {X} (g : report → X → report) ok l acc :
  reporter g ok → snd acc ≠ [] → snd (foldl g acc l) ≠ [].
Proof. intros Hg. revert acc. induction l as [|x l IH]; intros acc Hacc; [done|]. by apply IH, Hg. Qed.

Lemma foldl_reporter {X} (g : report → X → report) ok :
  reporter g ok → reporter (foldl g) (forallb ok).
Proof.
  intros Hg. split.
  - intros acc l Hacc. by eapply foldl_grow.
  - induction x as [|x l IH]; simpl; [done|]. intros [Hx Hl]%andb_true_iff.
    rewrite (rp_quiet _ _ Hg) by done. by apply IH.
  - induction x as [|x l IH]; simpl; [done|]. destruct (ok x) eqn:Hx; simpl.
    + rewrite (rp_quiet _ _ Hg) by done. done.
    + intros _. eapply foldl_grow; [done|]. by apply (rp_loud _ _ Hg).
Qed.

Lemma reporter_nil {X} (g : report → X → report) ok x :
  reporter g ok → snd (g (∅, []) x) = [] ↔ ok x = true.
Proof.
  intros Hg. destruct (ok x) eqn:E; split; try done.
  - by rewrite (rp_quiet _ _ Hg).
  - intros H. by apply (rp_loud _ _ Hg) in E.
Qed.

Lemma report_once_grow pair err acc : snd acc ≠ [] → snd (report_once pair err acc) ≠ [].
Proof. destruct acc as [? errs]. simpl. intros He. case_bool_decide; [done|]. simpl. by destruct errs. Qed.

Lemma report_once_loud pair err : snd (report_once pair err (∅, [])) ≠ [].
Proof. simpl. by rewrite bool_decide_eq_false_2 by set_solver. Qed.

Lemma check_conflict_reporter positions name (c : Constraints Config) :
  reporter (check_conflict positions name c) (λ n, bool_decide (positions !! n = None)).
Proof.
  split; unfold check_conflict.
  - intros acc n Hacc. destruct (positions !! n); [by apply report_once_grow|done].
  - intros n Hn%bool_decide_eq_true. by rewrite Hn.
  - intros n Hn%bool_decide_eq_false. destruct (positions !! n); [apply report_once_loud|done].
Qed.

Lemma check_pair_reporter resource a :
  reporter (check_pair resource a) (λ b, bool_decide (fst a = fst b)).
Proof.
  split; unfold check_pair.
  - intros acc b Hacc. case_bool_decide; [done|by apply report_once_grow].
  - intros b Hb%bool_decide_eq_true. by rewrite bool_decide_eq_true_2.
  - intros b Hb%bool_decide_eq_false. rewrite bool_decide_eq_false_2 by done. apply report_once_loud.
Qed.

(** A reporter that only runs on some elements. *)
Lemma reporter_when {X Y} (pick : X → option Y) (g : X → report → Y → report) (ok : X → Y → bool) :
  (∀ x y, pick x = Some y → reporter (g x) (ok x)) →
  reporter (λ acc x, match pick x with None => acc | Some y => g x acc y end)
    (λ x, match pick x with None => true | Some y => ok x y end).
Proof.
  intros Hg. split.
  - intros acc x Hacc. destruct (pick x) as [y|] eqn:E; [|done]. by apply (rp_grow _ _ (Hg x y E)).
  - intros x Hx. destruct (pick x) as [y|] eqn:E; [|done]. by apply (rp_quiet _ _ (Hg x y E)).
  - intros x Hx. destruct (pick x) as [y|] eqn:E; [|done]. by apply (rp_loud _ _ (Hg x y E)).
Qed.

(** ** Phases that report pairs *)

Definition conflict_ok r (positions : gmap string (list Z)) (ref : PluginRef Config) : bool :=
  match r !! pr_Name ref with
  | None => true
  | Some c => forallb (λ n, bool_decide (positions !! n = None)) (co_ConflictsWith c)
  end.

Lemma checkConflicts_nil r p positions :
  checkConflicts r p positions = [] ↔ forallb (conflict_ok r positions) p = true.
Proof.
  apply (reporter_nil (foldl (λ acc ref, match r !! pr_Name ref with None => acc
    | Some c => foldl (check_conflict positions (pr_Name ref) c) acc (co_ConflictsWith c) end))
    (forallb (conflict_ok r positions)) p).
  apply foldl_reporter. unfold conflict_ok. split.
  - intros acc ref Hacc. destruct (r !! pr_Name ref); [|done].
    by eapply foldl_grow; [apply check_conflict_reporter|].
  - intros ref Hok. destruct (r !! pr_Name ref) as [c|]; [|done].
    by apply (rp_quiet _ _ (foldl_reporter _ _ (check_conflict_reporter positions (pr_Name ref) c))).
  - intros ref Hok. destruct (r !! pr_Name ref) as [c|]; [|done].
    by apply (rp_loud _ _ (foldl_reporter _ _ (check_conflict_reporter positions (pr_Name ref) c))).
Qed.

Definition claims_ok (claims : list (string * ResourceAccess)) : bool :=
  forallb (λ a, negb (bool_decide (snd a = Exclusive)) ||
    forallb (λ b, bool_decide (fst a = fst b)) claims) claims.

Lemma check_resource_reporter : reporter check_resource (λ rc, claims_ok (snd rc)).
Proof.
  assert (∀ resource claims, reporter
    (λ acc a, if bool_decide (snd a = Exclusive) then foldl (check_pair resource a) acc claims else acc)
    (λ a, negb (bool_decide (snd a = Exclusive)) || forallb (λ b, bool_decide (fst a = fst b)) claims)) as Hrow.
  { intros resource claims. split.
    - intros acc a Hacc. case_bool_decide; [|done]. by eapply foldl_grow; [apply check_pair_reporter|].
    - intros a. case_bool_decide; [|done]. simpl. apply (foldl_reporter _ _ (check_pair_reporter resource a)).
    - intros a. case_bool_decide; [|done]. simpl. apply (foldl_reporter _ _ (check_pair_reporter resource a)). }
  split; unfold check_resource, claims_ok.
  - intros acc rc Hacc. by eapply foldl_grow; [apply Hrow|].
  - intros rc Hok. by apply (rp_quiet _ _ (foldl_reporter _ _ (Hrow (fst rc) (snd rc)))).
  - intros rc Hok. by apply (rp_loud _ _ (foldl_reporter _ _ (Hrow (fst rc) (snd rc)))).
Qed.

(** The claims collected for a resource. *)
Lemma add_claims_spec name cs m res x :
  x ∈ default [] (foldl (add_claim name) m cs !! res) ↔
  x ∈ default [] (m !! res) ∨ ∃ rc, rc ∈ cs ∧ rc_Name rc = res ∧ x = (name, rc_Access rc).
Proof.
  revert m. induction cs as [|rc cs IH]; intros m; simpl.
  { split; [by left|]. intros [?|(? & ?%elem_of_nil & _)]; done. }
  rewrite IH. unfold add_claim. setoid_rewrite elem_of_cons. destruct (decide (rc_Name rc = res)) as [<-|Hne].
  - rewrite lookup_insert_eq. simpl. rewrite elem_of_app, list_elem_of_singleton. naive_solver.
  - rewrite lookup_insert_ne by done. naive_solver.
Qed.

Lemma collect_claims_spec r p res x :
  x ∈ default [] (collect_claims r p !! res) ↔
  ∃ ref c rc, ref ∈ p ∧ r !! pr_Name ref = Some c ∧ rc ∈ co_Resources c ∧ rc_Name rc = res ∧
    x = (pr_Name ref, rc_Access rc).
Proof.
  unfold collect_claims.
  assert (∀ m, x ∈ default [] (foldl (λ claims ref, match r !! pr_Name ref with None => claims
      | Some c => foldl (add_claim (pr_Name ref)) claims (co_Resources c) end) m p !! res) ↔
    x ∈ default [] (m !! res) ∨ ∃ ref c rc, ref ∈ p ∧ r !! pr_Name ref = Some c ∧
      rc ∈ co_Resources c ∧ rc_Name rc = res ∧ x = (pr_Name ref, rc_Access rc)) as Hgen.
  2:{ rewrite Hgen, lookup_empty. simpl. rewrite elem_of_nil. naive_solver. }
  induction p as [|ref p IH]; intros m; simpl.
  { split; [by left|]. intros [?|(? & ? & ? & ?%elem_of_nil & _)]; done. }
  rewrite IH. setoid_rewrite elem_of_cons. destruct (r !! pr_Name ref) as [c|] eqn:E; [|naive_solver].
  rewrite add_claims_spec. naive_solver.
Qed.

Lemma claims_ok_spec claims : claims_ok claims = true ↔
  ∀ a b, a ∈ claims → b ∈ claims → snd a = Exclusive → fst a = fst b.
Proof.
  unfold claims_ok. rewrite forallb_forall. setoid_rewrite <- list_elem_of_In.
  setoid_rewrite orb_true_iff. setoid_rewrite forallb_forall. setoid_rewrite <- list_elem_of_In.
  setoid_rewrite bool_decide_eq_true. setoid_rewrite negb_true_iff. setoid_rewrite bool_decide_eq_false.
  split; [intros H a b Ha Hb Hx; destruct (H a Ha); naive_solver|].
  intros H a Ha. destruct (decide (snd a = Exclusive)); [right|left]; naive_solver.
Qed.

Lemma checkResources_nil r p :
  checkResources r p = [] ↔ ∀ ref other c d x y, ref ∈ p → other ∈ p →
    r !! pr_Name ref = Some c → r !! pr_Name other = Some d →
    x ∈ co_Resources c → y ∈ co_Resources d → rc_Name x = rc_Name y → rc_Access x = Exclusive →
    pr_Name ref = pr_Name other.
Proof.
  unfold checkResources.
  rewrite (reporter_nil (foldl check_resource) (forallb (λ rc, claims_ok (snd rc))) _
    (foldl_reporter _ _ check_resource_reporter)).
  rewrite forallb_forall. setoid_rewrite <- list_elem_of_In. split.
  - intros H ref other c d x y Href Hother Hc Hd Hx Hy Hn Hex.
    pose proof (proj2 (collect_claims_spec r p (rc_Name x) (pr_Name ref, rc_Access x))
      ltac:(eauto 10)) as Ha.
    pose proof (proj2 (collect_claims_spec r p (rc_Name x) (pr_Name other, rc_Access y))
      ltac:(eauto 10)) as Hb.
    destruct (collect_claims r p !! rc_Name x) as [claims|] eqn:E; [|by apply elem_of_nil in Ha].
    specialize (H (rc_Name x, claims) ltac:(by apply elem_of_go_range)).
    rewrite claims_ok_spec in H. by apply (H _ _ Ha Hb).
  - intros H [res claims] Hin%elem_of_go_range. simpl. apply claims_ok_spec.
    intros a b Ha Hb Hex.
    assert (claims = default [] (collect_claims r p !! res)) as Hcl by by rewrite Hin.
    rewrite Hcl in Ha, Hb.
    apply collect_claims_spec in Ha as (ref & c & x & ? & ? & ? & ? & ->).
    apply collect_claims_spec in Hb as (other & d & y & ? & ? & ? & ? & ->).
    simpl in *. by eapply (H ref other c d x y); try done; congruence.
Qed.
End Lemmas.

(** ** Theorems *)

(** C40: pipeline validation is sound and complete: [ValidatePipeline] reports no
    error exactly when every plugin is registered and accepts its
    configuration, no plugin of the pipeline conflicts with another (or itself),
    every ordering requirement holds between all occurrences, and no plugin
    claims a resource exclusively that another plugin claims too. *)
Theorem validate_pipeline_sound_complete {MR : MapRange} {Config : Type}
    (r : ValidationRegistry Config) (p : list (PluginRef Config)) :
  ValidatePipeline r p = [] ↔ pipeline_valid r p.
Proof.
  unfold ValidatePipeline, checkUnknown, checkConfigs.
  rewrite !app_nil, checkUnknown_nil, concat_fmap_nil, checkConflicts_nil, checkOrdering_nil, checkResources_nil.
  setoid_rewrite check_config_nil. setoid_rewrite check_order_nil.
  rewrite forallb_forall. setoid_rewrite <- list_elem_of_In. split.
  - intros (Hu & Hcfg & Hcon & Hord & Hres). constructor; [..|exact Hres].
    + intros ref Href. destruct (Hu ref Href) as [?%elem_of_empty|]; done.
    + intros ref Href. destruct (Hu ref Href) as [?%elem_of_empty|[c Hc]]; [done|].
      destruct (Hcfg ref Href); [congruence|done].
    + intros ref other c Href Hother Hc Hin. specialize (Hcon ref Href). unfold conflict_ok in Hcon.
      rewrite Hc, forallb_forall in Hcon. setoid_rewrite <- list_elem_of_In in Hcon.
      specialize (Hcon _ Hin). apply bool_decide_eq_true in Hcon.
      destruct (proj2 (positions_present p (pr_Name other)) ltac:(eauto)) as [? ?]. congruence.
    + intros i j ref other c Hi Hj Hc Hin. destruct (Hord i ref Hi c Hc) as [Hb _].
      specialize (Hb j other Hj Hin). lia.
    + intros i j ref other c Hi Hj Hc Hin. destruct (Hord i ref Hi c Hc) as [_ Ha].
      specialize (Ha j other Hj Hin). lia.
  - intros []. split_and!; [by right; apply pv_known0|by right; apply pv_config0| | |done].
    + intros ref Href. unfold conflict_ok. destruct (r !! pr_Name ref) as [c|] eqn:E; [|done].
      apply forallb_forall. intros n Hn%list_elem_of_In. apply bool_decide_eq_true.
      apply eq_None_not_Some. intros (other & Hother & <-)%positions_present. by apply (pv_conflict0 ref other c).
    + intros i ref Hi c Hc. split; intros j other Hj Hin.
      * specialize (pv_before0 i j ref other c Hi Hj Hc Hin). lia.
      * specialize (pv_after0 i j ref other c Hi Hj Hc Hin). lia.
Qed.
