(* ===== verification/Pipeline.v ===== *)
(** * Capture and replay pipelines

    The payload pipeline between the capture agent and the storage writer and
    its plugin registry ([internal/plugin/payload/plugin.go]), and the
    [HeaderRewriter] of the replay engine.  Requests are values here, so
    [CopyRequest] is the identity on them. *)

From S2P Require Import Prelude GoStd Storage Validation Engine.

Local Open Scope Z_scope.

Definition CopyRequest (req : CapturedRequest) : CapturedRequest :=
  {| cr_ID := cr_ID req; cr_Timestamp := cr_Timestamp req; cr_Method := cr_Method req;
     cr_Path := cr_Path req; cr_Headers := cr_Headers req; cr_Body := cr_Body req;
     cr_ContentLength := cr_ContentLength req; cr_Protocol := cr_Protocol req;
     cr_Metadata := cr_Metadata req |}.

(** ** Header rewriting *)

Record HeaderRewriter := {
  hr_Set : gmap string string;
  hr_Add : gmap string string;
  hr_Remove : list string
}.

Definition with_Headers (h : gmap string (list string)) (req : CapturedRequest) : CapturedRequest :=
  {| cr_ID := cr_ID req; cr_Timestamp := cr_Timestamp req; cr_Method := cr_Method req;
     cr_Path := cr_Path req; cr_Headers := h; cr_Body := cr_Body req;
     cr_ContentLength := cr_ContentLength req; cr_Protocol := cr_Protocol req;
     cr_Metadata := cr_Metadata req |}.

Section HeaderRewriting.
Context {MR : MapRange}.

Definition rewrite_headers (h : HeaderRewriter) (headers : gmap string (list string))
    : gmap string (list string) :=
  let headers := foldl (λ m name, delete name m) headers (hr_Remove h) in
  let headers := foldl (λ m nv, <[fst nv := [snd nv]]> m) headers (go_range (hr_Set h)) in
  foldl (λ m nv, <[fst nv := default [] (m !! fst nv) ++ [snd nv]]> m) headers (go_range (hr_Add h)).

Definition HeaderRewriter_Transform (h : HeaderRewriter) (req : CapturedRequest)
    : result (option CapturedRequest) :=
  let cp := CopyRequest req in
  Ok (Some (with_Headers (rewrite_headers h (cr_Headers cp)) cp)).

Definition headerRewriter (h : HeaderRewriter) : Transformer :=
  {| tr_Name := "header-rewriter"; tr_Transform := HeaderRewriter_Transform h |}.

Lemma delete_names_lookup (names : list string) (m : gmap string (list string)) n :
  foldl (λ m name, delete name m) m names !! n = if decide (n ∈ names) then None else m !! n.
Proof.
  revert m. induction names as [|x names IH]; intros m; cbn [foldl].
  { by destruct (decide (n ∈ [])) as [?%elem_of_nil|]. }
  rewrite IH. destruct (decide (n = x)) as [->|Hne].
  - rewrite lookup_delete_eq. destruct (decide (x ∈ names)), (decide (x ∈ x :: names)); set_solver.
  - rewrite lookup_delete_ne by done.
    destruct (decide (n ∈ names)), (decide (n ∈ x :: names)); set_solver.
Qed.

(** Updating a map once per binding of another, in any order. *)
Lemma foldl_insert_lookup {A} (f : option (list string) → A → list string) (l : list (string * A))
    (m : gmap string (list string)) n :
  NoDup l.*1 →
  foldl (λ m nv, <[fst nv := f (m !! fst nv) (snd nv)]> m) m l !! n
  = match (list_to_map l : gmap string A) !! n with
    | Some v => Some (f (m !! n) v)
    | None => m !! n
    end.
Proof.
  revert m. induction l as [|[k v] l IH]; intros m Hnd; [done|]. cbn [foldl fst snd].
  inversion Hnd as [|?? Hk Hnd']; subst. rewrite IH by done. simpl.
  destruct (decide (n = k)) as [->|Hne].
  - rewrite !lookup_insert_eq. by rewrite not_elem_of_list_to_map_1.
  - by rewrite !lookup_insert_ne by done.
Qed.

Lemma go_range_lookup {A} (m : gmap string A) n : (list_to_map (go_range m) : gmap string A) !! n = m !! n.
Proof.
  apply option_eq. intros v. rewrite <- elem_of_list_to_map by apply NoDup_fst_go_range.
  apply elem_of_go_range.
Qed.

(** The header rewriter does what its three fields say, whatever the order
    the maps are ranged over: a header named in [Set] has that value alone, any
    other header loses its values when named in [Remove], and a header named in
    [Add] has that value appended; no other header and no other field of the
    request changes. *)
Theorem header_rewriter_spec h req :
  ∃ req', HeaderRewriter_Transform h req = Ok (Some req') ∧
    with_Headers (cr_Headers req) req' = req ∧
    ∀ n, cr_Headers req' !! n =
      let kept := if decide (n ∈ hr_Remove h) then None else cr_Headers req !! n in
      let set := match hr_Set h !! n with Some v => Some [v] | None => kept end in
      match hr_Add h !! n with Some v => Some (default [] set ++ [v]) | None => set end.
Proof.
  eexists. split; [reflexivity|]. split; [by destruct req|]. intros n. simpl. unfold rewrite_headers.
  rewrite (foldl_insert_lookup (λ o v, default [] o ++ [v])) by apply NoDup_fst_go_range.
  rewrite (foldl_insert_lookup (λ _ v, [v])) by apply NoDup_fst_go_range.
  rewrite !go_range_lookup, delete_names_lookup. done.
Qed.
End HeaderRewriting.

(** ** The payload pipeline *)

(** [Process] returns no request to drop it. *)
Record Plugin := {
  pl_Name : string;
  pl_Process : CapturedRequest → result (option CapturedRequest);
  pl_Close : option go_error
}.

Inductive ErrorHandler := ErrorHandlerDrop | ErrorHandlerSkip | ErrorHandlerAbort.

Record Pipeline := MkPipeline {
  pp_plugins : list Plugin;
  pp_onError : ErrorHandler;
  pp_closed : bool
}.

(** [NewPipeline]: the downstream writer must be set. *)
Definition NewPipeline (downstream : bool) (plugins : list Plugin) (onError : ErrorHandler)
    : result Pipeline :=
  if negb downstream then Err (FmtError "downstream writer is required" [])
  else Ok (MkPipeline plugins onError false).

(** The plugin loop of [Write]: the request for the writer, [Ok None] when it
    was dropped. *)
Fixpoint process (onError : ErrorHandler) (plugins : list Plugin) (current : CapturedRequest)
    : result (option CapturedRequest) :=
  match plugins with
  | [] => Ok (Some current)
  | pl :: plugins =>
      match pl_Process pl current with
      | Err err =>
          match onError with
          | ErrorHandlerAbort => Err (WrapError "plugin %q: %w" [FStr (pl_Name pl)] err)
          | ErrorHandlerSkip => process onError plugins current
          | ErrorHandlerDrop => Ok None
          end
      | Ok None => Ok None
      | Ok (Some current) => process onError plugins current
      end
  end.

Section Pipeline.
Context {W : Type} (write : CapturedRequest → W → W * option go_error)
  (flush close : W → W * option go_error) (closePlugin : Plugin → W → W).

Definition Pipeline_Write (req : CapturedRequest) (p : Pipeline) (w : W) : Pipeline * W * option go_error :=
  if pp_closed p then (p, w, Some ErrWriterClosed)
  else match process (pp_onError p) (pp_plugins p) req with
  | Err e => (p, w, Some e)
  | Ok None => (p, w, None)
  | Ok (Some current) => let '(w, e) := write current w in (p, w, e)
  end.

Definition Pipeline_Flush (p : Pipeline) (w : W) : Pipeline * W * option go_error :=
  if pp_closed p then (p, w, Some ErrWriterClosed) else let '(w, e) := flush w in (p, w, e).

(** Closing the plugins from the last; the errors are collected. *)
Fixpoint close_plugins (plugins : list Plugin) (w : W) (errs : list go_error) : W * list go_error :=
  match plugins with
  | [] => (w, errs)
  | pl :: plugins =>
      close_plugins plugins (closePlugin pl w)
        (match pl_Close pl with
         | Some err => errs ++ [WrapError "close plugin %q: %w" [FStr (pl_Name pl)] err]
         | None => errs
         end)
  end.

(** The answer is [errors.Join] of the list: nil when it is empty. *)
Definition Pipeline_Close (p : Pipeline) (w : W) : Pipeline * W * list go_error :=
  if pp_closed p then (p, w, [])
  else
    let p := MkPipeline (pp_plugins p) (pp_onError p) true in
    let '(w, errs) := close_plugins (reverse (pp_plugins p)) w [] in
    match close w with
    | (w, Some err) => (p, w, errs ++ [WrapError "close downstream: %w" [] err])
    | (w, None) => (p, w, errs)
    end.
End Pipeline.

(** ** Runs of a pipeline, over a log of the calls it makes *)

Inductive pipeline_op :=
  | PWrite (req : CapturedRequest) (answer : option go_error)
  | PFlush (answer : option go_error)
  | PClose (answer : option go_error).

Inductive pipeline_call :=
  | CallWrite (req : CapturedRequest)
  | CallFlush
  | CallClosePlugin (name : string)
  | CallClose.

Definition pipeline_step (st : Pipeline * list pipeline_call) (op : pipeline_op)
    : Pipeline * list pipeline_call :=
  let '(p, log) := st in
  match op with
  | PWrite req a => fst (Pipeline_Write (λ r w, (w ++ [CallWrite r], a)) req p log)
  | PFlush a => fst (Pipeline_Flush (λ w, (w ++ [CallFlush], a)) p log)
  | PClose a =>
      fst (Pipeline_Close (λ w, (w ++ [CallClose], a))
        (λ pl w, w ++ [CallClosePlugin (pl_Name pl)]) p log)
  end.

(** What the calls before the first [Close] should cause downstream. *)
Definition expected_call (p : Pipeline) (op : pipeline_op) : list pipeline_call :=
  match op with
  | PWrite req _ =>
      match process (pp_onError p) (pp_plugins p) req with
      | Ok (Some current) => [CallWrite current]
      | _ => []
      end
  | PFlush _ => [CallFlush]
  | PClose _ => []
  end.

Definition is_close (op : pipeline_op) : bool := match op with PClose _ => true | _ => false end.

Fixpoint expected_log (p : Pipeline) (ops : list pipeline_op) : list pipeline_call :=
  match ops with
  | [] => []
  | op :: ops =>
      if is_close op then
        ((λ pl, CallClosePlugin (pl_Name pl)) <$> reverse (pp_plugins p)) ++ [CallClose]
      else expected_call p op ++ expected_log p ops
  end.

Lemma close_plugins_log plugins log errs :
  fst (close_plugins (λ pl w, w ++ [CallClosePlugin (pl_Name pl)]) plugins log errs)
  = log ++ ((λ pl, CallClosePlugin (pl_Name pl)) <$> plugins).
Proof.
  revert log errs. induction plugins as [|pl plugins IH]; intros log errs; simpl; [by rewrite app_nil_r|].
  rewrite IH, <- app_assoc. done.
Qed.

Lemma pipeline_closed_run ops p log :
  pp_closed p = true → foldl pipeline_step (p, log) ops = (p, log).
Proof.
  intros Hc. induction ops as [|op ops IH]; [done|]. cbn [foldl].
  assert (pipeline_step (p, log) op = (p, log)) as ->; [|done].
  destruct op; simpl; unfold Pipeline_Write, Pipeline_Flush, Pipeline_Close; by rewrite Hc.
Qed.

(** A payload pipeline is a faithful writer: over any sequence of calls and
    any answers of the writer behind it, the writer receives, in order, exactly
    the requests the plugin chain lets through and every flush; the first
    [Close] closes each plugin once, in reverse order, and then the writer once;
    and nothing is called after that. *)
Theorem pipeline_calls plugins onError p ops :
  NewPipeline true plugins onError = Ok p →
  snd (foldl pipeline_step (p, []) ops) = expected_log p ops.
Proof.
  intros [= <-]. set (p := MkPipeline plugins onError false).
  assert (∀ log, snd (foldl pipeline_step (p, log) ops) = log ++ expected_log p ops) as Hgen; [|apply Hgen].
  induction ops as [|op ops IH]; intros log; cbn [foldl expected_log]; [by rewrite app_nil_r|].
  destruct op as [req a|a|a]; cbn [is_close].
  - cbn [pipeline_step expected_call]. unfold Pipeline_Write. cbn [pp_closed p pp_onError pp_plugins].
    destruct (process onError plugins req) as [[current|]|e]; simpl; rewrite IH; [by rewrite <- app_assoc|done|done].
  - simpl. rewrite IH. by rewrite <- app_assoc.
  - cbn [pipeline_step]. unfold Pipeline_Close. cbn [pp_closed p pp_plugins pp_onError].
    pose proof (close_plugins_log (reverse plugins) log []) as Hlog.
    destruct (close_plugins _ (reverse plugins) log []) as [log' errs]. simpl in Hlog. subst log'.
    destruct a; cbn [fst]; rewrite pipeline_closed_run by done; simpl; by rewrite <- app_assoc.
Qed.

(** ** Registry

    Builders by name, of a type [B], with their constraints. *)

Section Registry.
Context {MR : MapRange} {Config B : Type}.

Record Registry := MkRegistry {
  reg_builders : gmap string B;
  reg_Validation : ValidationRegistry Config
}.

Definition NewRegistry : Registry := MkRegistry ∅ ∅.

(** [kind] is the component named in the error text. *)
Definition Register (kind name : string) (builder : B) (r : Registry) : Registry * option go_error :=
  match reg_builders r !! name with
  | Some _ => (r, Some (FmtError (kind +:+ " %q is already registered") [FStr name]))
  | None => (MkRegistry (<[name := builder]> (reg_builders r)) (reg_Validation r), None)
  end.

(** The builder is taken out again when the constraints are refused. *)
Definition RegisterWithConstraints (kind name : string) (builder : B)
    (constraints : option (Constraints Config)) (r : Registry) : Registry * option go_error :=
  match Register kind name builder r with
  | (r, Some err) => (r, Some err)
  | (r, None) =>
      match Validation_Register name constraints (reg_Validation r) with
      | (v, Some err) => (MkRegistry (delete name (reg_builders r)) v, Some err)
      | (v, None) => (MkRegistry (reg_builders r) v, None)
      end
  end.

Definition Build (kind name : string) (r : Registry) : result B :=
  match reg_builders r !! name with
  | None => Err (FmtError ("unknown " +:+ kind +:+ " %q") [FStr name])
  | Some b => Ok b
  end.

Definition Registry_ValidatePipeline (r : Registry) (refs : list (PluginRef Config)) : list ValidationError :=
  ValidatePipeline (reg_Validation r) refs.

(** Registering a plugin with constraints is all or nothing: on success the
    builder and its constraints are found under the name, which was free in
    both tables; on an error neither table has changed. *)
Theorem register_with_constraints_atomic kind name builder constraints r :
  match RegisterWithConstraints kind name builder constraints r with
  | (r', None) =>
      Build kind name r = Err (FmtError ("unknown " +:+ kind +:+ " %q") [FStr name]) ∧
      Has name (reg_Validation r) = false ∧ name ≠ "" ∧
      Build kind name r' = Ok builder ∧
      reg_Validation r' = <[name := default noConstraints constraints]> (reg_Validation r) ∧
      ∀ n, n ≠ name → Build kind n r' = Build kind n r
  | (r', Some _) => r' = r
  end.
Proof.
  destruct r as [bs v]. unfold RegisterWithConstraints, Register, Build, Has. simpl.
  destruct (bs !! name) eqn:Eb; [done|]. unfold Validation_Register. simpl.
  case_bool_decide as Hn; simpl.
  { f_equal. by rewrite delete_insert_id. }
  destruct (v !! name) as [c|] eqn:Ev; simpl.
  { f_equal. by rewrite delete_insert_id. }
  rewrite lookup_insert_eq. split_and!; try done. intros n Hne. by rewrite lookup_insert_ne.
Qed.
End Registry.
