(* ===== verification/SpokeDirectives.v ===== *)
(** * Replay shards on a spoke ([internal/spoke])

    [ReplayDirectiveHandler] ([replay_directives.go]) turns the hub's directives
    into [TrafficReplay] resources, and [OrphanShardGC] ([orphan_gc.go]) removes
    shards whose load test is gone.  Both work on the Kubernetes API through the
    interface of [Kube]. *)

From S2P Require Import Prelude GoStd HubProto Kube Api.
From S2P Require Import LoadTest LoadTestPlan.
From Stdlib Require Import Ascii.

Local Open Scope Z_scope.

Definition LabelLoadTest : string := "capture.gateway.io/load-test".
Definition LabelShardIndex : string := "capture.gateway.io/shard-index".
Definition DefaultOrphanMinAge : Z := 2 * Minute.

Definition ReplayShardName (loadTestName : string) (shardIndex : Z) : string :=
  loadTestName +:+ "-shard-" +:+ Itoa shardIndex.

(** A pointer to the value, or nil when the test fails. *)
Definition ptr_if {A} (b : bool) (a : A) : option A := if b then Some a else None.

Definition rate_from_directive (rate : ReplayRate) : ReplayRateConfig :=
  {| rrc_Mode := rr_Mode rate;
     rrc_RequestsPerSecond := ptr_if (0 <? rr_RequestsPerSecond rate) (rr_RequestsPerSecond rate);
     rrc_TimeScale := ptr_if (bool_decide (rr_TimeScale rate ≠ "")) (rr_TimeScale rate) |}.

Definition filters_from_directive (f : ReplayDataFilters) : ReplayFilters :=
  {| rf_StartTime := rdf_StartTime f; rf_EndTime := rdf_EndTime f;
     rf_PathPrefix := ptr_if (bool_decide (rdf_PathPrefix f ≠ "")) (rdf_PathPrefix f);
     rf_Methods := rdf_Methods f;
     rf_Limit := ptr_if (0 <? rdf_Limit f) (rdf_Limit f) |}.

(** The replay of a directive with the spec [spec]. *)
Definition replayFromDirective (directive : ReplayDirective) (spec : ReplaySpec) : TrafficReplay :=
  let shardIndex := match rs_Shard spec with Some s => rsh_Index s | None => 0 end in
  let shardCount := match rs_Shard spec with Some s => rsh_Count s | None => 1 end in
  let presharded := match rs_Shard spec with
                    | Some s => ptr_if (rsh_Presharded s) true | None => None end in
  MkObject
    (newObjectMeta (rd_LoadTestNamespace directive)
       (ReplayShardName (rd_LoadTestName directive) shardIndex)
       (<[LabelShardIndex := Itoa shardIndex]> {[LabelLoadTest := rd_LoadTestName directive]}))
    {| trs_SourceRef := {| tcr_Name := rs_SourceCapture spec |};
       trs_StorageRef := {| csr_Name := rs_StorageRefName spec |};
       trs_Target :=
         {| rt_Host := rs_TargetHost spec;
            rt_Port := ptr_if (negb (rs_TargetPort spec =? 0)) (rs_TargetPort spec);
            rt_TLS := ptr_if (rs_TargetTls spec) true |};
       trs_Rate := rate_from_directive <$> rs_Rate spec;
       trs_Filters := filters_from_directive <$> rs_Filters spec;
       trs_Transforms := [];
       trs_Concurrency := ptr_if (0 <? rs_Concurrency spec) (rs_Concurrency spec);
       trs_Shard := Some {| shs_Index := shardIndex; shs_Count := shardCount; shs_Presharded := presharded |};
       trs_LoadTestRef := Some {| ltr_Name := rd_LoadTestName directive |};
       trs_Engine :=
         ptr_if (bool_decide (rs_EngineName spec ≠ "") || bool_decide (rs_EngineConfigJson spec ≠ ""))
           {| res_Name := rs_EngineName spec;
              res_Config := ptr_if (bool_decide (rs_EngineConfigJson spec ≠ ""))
                              {| Raw := rs_EngineConfigJson spec |} |};
       trs_Safety := ptr_if (0 <? len (rs_AllowedHosts spec)) {| rsf_AllowedHosts := rs_AllowedHosts spec |} |}
    emptyTrafficReplayStatus.

Section Handler.
Context {W : Type} `{KubeClient W TrafficReplaySpec TrafficReplayStatus} `{!ApiErrors}.

Definition handleStart (directive : ReplayDirective) (w : W) : W * option go_error :=
  match rd_Spec directive with
  | None => (w, Some (FmtError "replay directive %s has no spec" [FStr (rd_DirectiveId directive)]))
  | Some spec =>
      if bool_decide (rd_LoadTestName directive = "" ∨ rd_LoadTestNamespace directive = "") then
        (w, Some (FmtError "replay directive %s missing load test identity" [FStr (rd_DirectiveId directive)]))
      else
        let replay := replayFromDirective directive spec in
        match client_Get (Namespace replay) (Name replay) w with
        | Ok _ => (w, None)
        | Err err => if IsNotFound err then client_Create replay w else (w, Some err)
        end
  end.

Definition handleStop (directive : ReplayDirective) (w : W) : W * option go_error :=
  if bool_decide (rd_LoadTestName directive = "" ∨ rd_LoadTestNamespace directive = "") then
    (w, Some (FmtError "replay directive %s missing load test identity" [FStr (rd_DirectiveId directive)]))
  else client_DeleteAllOf (rd_LoadTestNamespace directive) LabelLoadTest (rd_LoadTestName directive) w.

(** [Handle]; a nil directive and unknown actions are ignored. *)
Definition Handle (directive : option ReplayDirective) (w : W) : W * option go_error :=
  match directive with
  | None => (w, None)
  | Some directive =>
      match rd_Action directive with
      | REPLAY_ACTION_START => handleStart directive w
      | REPLAY_ACTION_STOP => handleStop directive w
      | _ => (w, None)
      end
  end.

(** ** Orphan collection *)

Definition gc_minAge (minAge : Z) : Z := if minAge <=? 0 then DefaultOrphanMinAge else minAge.

Definition activeSet (active : list LoadTestKey) : gset string :=
  list_to_set ((λ key, ltk_Namespace key +:+ "/" +:+ ltk_Name key) <$> active).

(** The three tests of the loop: the object is collected. *)
Definition orphaned (minAge : Z) (active : gset string) (now : Z) (tr : TrafficReplay) : bool :=
  match trs_LoadTestRef (Spec tr) with
  | None => false
  | Some ref =>
      negb (bool_decide (Namespace tr +:+ "/" +:+ ltr_Name ref ∈ active))
      && negb (time_Sub now (om_CreationTimestamp (Meta tr)) <? minAge)
  end.

(** The errors logged, with the object they are about. *)
Definition collect_one (minAge : Z) (active : gset string) (now : Z)
    (acc : W * list (TrafficReplay * go_error)) (tr : TrafficReplay) : W * list (TrafficReplay * go_error) :=
  if orphaned minAge active now tr then
    match client_Delete tr (fst acc) with
    | (w, None) => (w, snd acc)
    | (w, Some err) =>
        match IgnoreNotFound err with
        | None => (w, snd acc)
        | Some err => (w, snd acc ++ [(tr, err)])
        end
    end
  else acc.

Definition Collect (minAge : Z) (active : list LoadTestKey) (now : Z) (w : W)
    : W * list (TrafficReplay * go_error) :=
  match client_List w with
  | Err _ => (w, [])
  | Ok items => foldl (collect_one (gc_minAge minAge) (activeSet active) now) (w, []) items
  end.
End Handler.

(** ** Shard names *)

Definition is_digit (a : ascii) : bool := (48 <=? nat_of_ascii a)%nat && (nat_of_ascii a <=? 57)%nat.

Fixpoint all_digits (s : string) : bool :=
  match s with "" => true | String a s => is_digit a && all_digits s end.

(** The string without its digits at the end. *)
Fixpoint trim_digits (s : string) : string :=
  match s with
  | "" => ""
  | String a s =>
      match trim_digits s with
      | "" => if is_digit a then "" else String a ""
      | r => String a r
      end
  end.

Lemma trim_digits_all s : all_digits s = true → trim_digits s = "".
Proof.
  induction s as [|a s IH]; [done|]. simpl. intros [Ha Hs]%andb_true_iff. by rewrite IH, Ha.
Qed.

Lemma trim_digits_app s a d : is_digit a = false → all_digits d = true →
  trim_digits (s +:+ String a d) = s +:+ String a "".
Proof.
  intros Ha Hd. induction s as [|b s IH].
  - rewrite !append_nil_l. cbn [trim_digits]. by rewrite trim_digits_all, Ha.
  - rewrite !append_cons. cbn [trim_digits]. rewrite IH. by destruct s.
Qed.

Lemma digit_char_is_digit z : 0 <= z < 10 → is_digit (digit_char z) = true.
Proof.
  intros Hz. assert (z = 0 ∨ z = 1 ∨ z = 2 ∨ z = 3 ∨ z = 4 ∨ z = 5 ∨ z = 6 ∨ z = 7 ∨ z = 8 ∨ z = 9) as Hc by lia.
  repeat destruct Hc as [->|Hc]; subst; reflexivity.
Qed.

Lemma all_digits_app s t : all_digits (s +:+ t) = all_digits s && all_digits t.
Proof. induction s as [|a s IH]; [done|]. rewrite append_cons. simpl. by rewrite IH, andb_assoc. Qed.

Lemma Itoa_digits z : 0 <= z → all_digits (Itoa z) = true.
Proof.
  intros Hz. remember (Z.to_nat z) as n eqn:Hn. revert z Hz Hn.
  induction (lt_wf n) as [n _ IH]; intros z Hz ->.
  destruct (decide (z < 10)) as [Hlt|Hge].
  - rewrite Itoa_nonneg, pretty_N_digit by lia. simpl. rewrite andb_true_r.
    change (pretty_N_char (Z.to_N z)) with (digit_char z). by apply digit_char_is_digit.
  - rewrite Itoa_snoc, all_digits_app by lia.
    rewrite (IH (Z.to_nat (z / 10))) by (try done; Z.to_euclidean_division_equations; lia). simpl.
    rewrite digit_char_is_digit by (apply Z.mod_pos_bound; lia). done.
Qed.

(** The name of a shard determines its load test and its index. *)
Lemma ReplayShardName_inj lt1 lt2 i j : 0 <= i → 0 <= j →
  ReplayShardName lt1 i = ReplayShardName lt2 j → lt1 = lt2 ∧ i = j.
Proof.
  intros Hi Hj Heq. unfold ReplayShardName in Heq. change "-shard-" with ("-shard" +:+ "-") in Heq.
  rewrite !append_assoc in Heq. rewrite <- !(append_assoc _ "-shard" _) in Heq.
  assert (lt1 = lt2) as ->.
  { pose proof (f_equal trim_digits Heq) as Ht. cbn [String.append] in Ht.
    change ("-" +:+ Itoa i) with (String "-" (Itoa i)) in Ht.
    change ("-" +:+ Itoa j) with (String "-" (Itoa j)) in Ht.
    rewrite !trim_digits_app in Ht by (done || by apply Itoa_digits).
    apply append_inj_r in Ht. by apply append_inj_r in Ht. }
  split; [done|]. apply (inj (String.app _)) in Heq. apply (inj (String.app _)) in Heq.
  unfold Itoa in Heq. by apply (inj pretty) in Heq.
Qed.

(** ** Theorems *)

Section Theorems.
Context {W : Type} `{!KubeClient W TrafficReplaySpec TrafficReplayStatus, !ApiErrors}.
Context {Laws : KubeClientLaws W TrafficReplaySpec TrafficReplayStatus}.

(** A START directive is idempotent.  When the handler accepts it, the shard
    exists afterwards; a shard that existed before is left exactly as it was, a
    new one has the directive's spec and labels; no other replay is touched; and
    resending the directive does nothing at all. *)
Theorem start_idempotent d spec w w' :
  rd_Action d = REPLAY_ACTION_START → rd_Spec d = Some spec →
  Handle (Some d) w = (w', None) →
  let replay := replayFromDirective d spec in
  (∃ o, client_Get (Namespace replay) (Name replay) w' = Ok o ∧
     (client_Get (Namespace replay) (Name replay) w = Ok o ∧ w' = w ∨
      Spec o = Spec replay ∧ om_Labels (Meta o) = om_Labels (Meta replay))) ∧
  (∀ ns n, (ns, n) ≠ (Namespace replay, Name replay) → client_Get ns n w' = client_Get ns n w) ∧
  Handle (Some d) w' = (w', None).
Proof.
  intros Ha Hs Hh replay. unfold Handle in *. rewrite Ha in *. unfold handleStart in *. rewrite Hs in *.
  case_bool_decide; [done|]. fold replay in Hh |- *.
  destruct (client_Get (Namespace replay) (Name replay) w) as [o|e] eqn:Hg.
  - injection Hh as <-. rewrite Hg. split_and!; [|done|done]. exists o. split; [done|by left].
  - destruct (IsNotFound e); [|done].
    destruct (create_ok _ _ _ Hh) as (_ & o & Ho & Hsp & Hl). rewrite Ho.
    split_and!; [|intros ns n Hne; by eapply create_frame|done]. exists o. split; [done|by right].
Qed.

Definition apply_directives (ds : list ReplayDirective) (w : W) : W :=
  foldl (λ w d, fst (Handle (Some d) w)) w ds.

(** The replays named like shards of a load test carry its label. *)
Definition shards_labelled (ns lt : string) (w : W) : Prop :=
  ∀ i o, 0 <= i → client_Get ns (ReplayShardName lt i) w = Ok o →
    om_Labels (Meta o) !! LabelLoadTest = Some lt.

Definition shard_index_ok (d : ReplayDirective) : Prop :=
  ∀ spec s, rd_Spec d = Some spec → rs_Shard spec = Some s → 0 <= rsh_Index s.

Lemma replay_label d spec :
  om_Labels (Meta (replayFromDirective d spec)) !! LabelLoadTest = Some (rd_LoadTestName d).
Proof. simpl. rewrite lookup_insert_ne by done. by simplify_map_eq. Qed.

Lemma Handle_labelled ns lt d w :
  shard_index_ok d → shards_labelled ns lt w → shards_labelled ns lt (fst (Handle (Some d) w)).
Proof.
  intros Hd Hinv. unfold Handle. destruct (rd_Action d); try done.
  - unfold handleStart. destruct (rd_Spec d) as [spec|] eqn:Hs; [|done]. case_bool_decide; [done|].
    set (replay := replayFromDirective d spec).
    destruct (client_Get _ _ w) as [o|e] eqn:Hg; [done|]. destruct (IsNotFound e); [|done].
    destruct (client_Create replay w) as [w' r] eqn:Hc. simpl. intros i o Hi Ho.
    destruct (decide ((ns, ReplayShardName lt i) = (Namespace replay, Name replay))) as [Heq|Hne].
    2:{ rewrite (create_frame _ _ _ _ _ _ Hc Hne) in Ho. by eapply Hinv. }
    destruct r as [e'|].
    { apply create_err in Hc as ->. by eapply Hinv. }
    destruct (create_ok _ _ _ Hc) as (_ & o' & Ho' & _ & Hl). injection Heq as Hns Hn.
    rewrite Hns, Hn, Ho' in Ho. injection Ho as ->. rewrite Hl. unfold replay. rewrite replay_label.
    unfold Name, replay in Hn. simpl in Hn. apply ReplayShardName_inj in Hn as [-> _]; [done|done|].
    destruct (rs_Shard spec) as [s|] eqn:Hsh; [by eapply Hd|lia].
  - unfold handleStop. case_bool_decide; [done|].
    destruct (client_DeleteAllOf _ _ _ w) as [w' r] eqn:Hdel. simpl. intros i o Hi Ho.
    destruct (delete_all_frame _ _ _ _ _ _ Hdel _ _ _ Ho) as (o0 & Ho0 & ->). by eapply Hinv.
Qed.

(** C25: a STOP directive ends a load test on the spoke.  Whatever directives the
    spoke handled before, successfully or not, once a STOP for the load test is
    handled without error every shard of that load test is gone or being
    deleted, and no replay outside it (other namespaces, other load tests,
    standalone replays) has changed. *)
Theorem stop_ends_load_test ns lt ds d w0 w' :
  shards_labelled ns lt w0 → Forall shard_index_ok ds →
  rd_Action d = REPLAY_ACTION_STOP → rd_LoadTestName d = lt → rd_LoadTestNamespace d = ns →
  Handle (Some d) (apply_directives ds w0) = (w', None) →
  (∀ i o, 0 <= i → client_Get ns (ReplayShardName lt i) w' = Ok o → om_DeletionTimestamp (Meta o) ≠ None) ∧
  (∀ ns' n o, client_Get ns' n (apply_directives ds w0) = Ok o →
     ns' ≠ ns ∨ om_Labels (Meta o) !! LabelLoadTest ≠ Some lt → client_Get ns' n w' = Ok o).
Proof.
  intros Hinv Hds Ha Hlt Hns Hh.
  assert (shards_labelled ns lt (apply_directives ds w0)) as Hlab.
  { clear Hh. unfold apply_directives. revert w0 Hinv.
    induction Hds as [|d0 ds Hd0 _ IH]; intros w0 Hinv; [done|]. apply IH. by apply Handle_labelled. }
  unfold Handle in Hh. rewrite Ha in Hh. unfold handleStop in Hh. rewrite Hlt, Hns in Hh.
  case_bool_decide; [done|]. destruct (delete_all_ok _ _ _ _ _ Hh) as [Hgone Hkeep].
  split; [|exact Hkeep]. intros i o Hi Ho. eapply Hgone; [exact Ho|].
  destruct (delete_all_frame _ _ _ _ _ _ Hh _ _ _ Ho) as (o0 & Ho0 & ->). by eapply Hlab.
Qed.

(** ** Orphan collection *)

Lemma noslash_inj a b x y : Contains a "/" = false → Contains b "/" = false →
  a +:+ "/" +:+ x = b +:+ "/" +:+ y → a = b ∧ x = y.
Proof.
  revert b. induction a as [|c a IH]; intros [|d b] Ha Hb Heq; simpl in Heq.
  - injection Heq as Heq. rewrite !append_nil_l in Heq. by subst.
  - injection Heq as <- _. rewrite Contains_cons, HasPrefix_char in Hb. done.
  - injection Heq as -> _. rewrite Contains_cons, HasPrefix_char in Ha. done.
  - injection Heq as -> Heq. rewrite Contains_cons in Ha, Hb.
    apply orb_false_iff in Ha as [_ Ha]. apply orb_false_iff in Hb as [_ Hb].
    destruct (IH b Ha Hb Heq) as [-> ->]. done.
Qed.

(** What the collector must not touch: standalone replays, shards of a load test
    the hub lists, and shards younger than the grace period. *)
Definition protected (minAge : Z) (active : list LoadTestKey) (now : Z) (tr : TrafficReplay) : Prop :=
  trs_LoadTestRef (Spec tr) = None ∨
  (∃ ref key, trs_LoadTestRef (Spec tr) = Some ref ∧ key ∈ active ∧
     ltk_Namespace key = Namespace tr ∧ ltk_Name key = ltr_Name ref) ∨
  time_Sub now (om_CreationTimestamp (Meta tr)) < gc_minAge minAge.

Definition key_slash_free (active : list LoadTestKey) : Prop :=
  Forall (λ key, Contains (ltk_Namespace key) "/" = false) active.

Lemma orphaned_spec minAge active now tr :
  key_slash_free active → Contains (Namespace tr) "/" = false →
  orphaned (gc_minAge minAge) (activeSet active) now tr = false ↔ protected minAge active now tr.
Proof.
  intros Hks Hns. unfold orphaned, protected. destruct (trs_LoadTestRef (Spec tr)) as [ref|]; [|naive_solver].
  rewrite andb_false_iff, !negb_false_iff, bool_decide_eq_true, Z.ltb_lt.
  assert (Namespace tr +:+ "/" +:+ ltr_Name ref ∈ activeSet active ↔
    ∃ key, key ∈ active ∧ ltk_Namespace key = Namespace tr ∧ ltk_Name key = ltr_Name ref) as ->.
  { unfold activeSet. rewrite elem_of_list_to_set, list_elem_of_fmap. split.
    - intros (key & Heq & Hin). exists key. unfold key_slash_free in Hks; rewrite Forall_forall in Hks.
      apply noslash_inj in Heq as [<- <-]; [done|done|by apply Hks].
    - intros (key & Hin & Hk & Hn). exists key. by rewrite Hk, Hn. }
  naive_solver.
Qed.

Lemma collect_one_other minAge active now acc tr ns n :
  orphaned minAge active now tr = false ∨ (ns, n) ≠ (Namespace tr, Name tr) →
  client_Get ns n (fst (collect_one minAge active now acc tr)) = client_Get ns n (fst acc).
Proof.
  intros Hor. unfold collect_one. destruct (orphaned _ _ _ tr); [|done].
  destruct Hor as [?|Hne]; [done|]. destruct (client_Delete tr (fst acc)) as [w [err|]] eqn:Hd.
  - unfold IgnoreNotFound. destruct (IsNotFound err); simpl; by eapply delete_frame.
  - simpl. by eapply delete_frame.
Qed.

Definition going (tr : TrafficReplay) (w : W) : Prop :=
  ∀ o, client_Get (Namespace tr) (Name tr) w = Ok o → om_DeletionTimestamp (Meta o) ≠ None.

Lemma delete_going tr w w' r : client_Delete tr w = (w', r) →
  going tr w' ∨ ∃ e, r = Some e ∧ IsNotFound e = false.
Proof.
  intros Hd. destruct r as [e|]; [|left; intros o; by eapply delete_ok].
  destruct (IsNotFound e) eqn:He; [|right; by exists e]. left. intros o Ho.
  pose proof (delete_err _ _ _ _ Hd) as ->. by destruct (delete_not_found _ _ _ _ Hd He o).
Qed.

Lemma collect_one_keeps_going minAge active now acc tr x :
  going x (fst acc) → going x (fst (collect_one minAge active now acc tr)).
Proof.
  intros Hx. unfold collect_one. destruct (orphaned _ _ _ tr); [|done].
  destruct (client_Delete tr (fst acc)) as [w r] eqn:Hd.
  assert (going x w) as Hw.
  { destruct (decide ((Namespace x, Name x) = (Namespace tr, Name tr))) as [[= Hns Hn]|Hne].
    - destruct r as [e|]; [by apply delete_err in Hd as ->|]. unfold going. rewrite Hns, Hn.
      by eapply delete_ok.
    - intros o. rewrite (delete_frame _ _ _ _ _ _ Hd Hne). apply Hx. }
  destruct r as [err|]; [|done]. unfold IgnoreNotFound. by destruct (IsNotFound err).
Qed.

Lemma collect_errors minAge active now acc items x :
  x ∈ snd acc → x ∈ snd (foldl (collect_one minAge active now) acc items).
Proof.
  revert acc. induction items as [|tr items IH]; intros acc Hx; [done|]. apply IH. unfold collect_one.
  destruct (orphaned _ _ _ tr); [|done]. destruct (client_Delete tr (fst acc)) as [w [err|]]; [|done].
  destruct (IgnoreNotFound err); simpl; set_solver.
Qed.

Lemma collect_orphan minAge active now acc items tr :
  tr ∈ items → orphaned minAge active now tr = true →
  going tr (fst (foldl (collect_one minAge active now) acc items)) ∨
  ∃ e, (tr, e) ∈ snd (foldl (collect_one minAge active now) acc items).
Proof.
  revert acc. induction items as [|x items IH]; intros acc Hin Hor; [by apply elem_of_nil in Hin|].
  apply elem_of_cons in Hin as [<-|Hin]; [|by apply IH]. cbn [foldl].
  assert (going tr (fst (collect_one minAge active now acc tr)) ∨
    ∃ e, (tr, e) ∈ snd (collect_one minAge active now acc tr)) as [Hg|[e He]].
  { unfold collect_one. rewrite Hor. destruct (client_Delete tr (fst acc)) as [w r] eqn:Hd.
    destruct (delete_going _ _ _ _ Hd) as [Hg|(e & -> & He)].
    - destruct r as [err|]; [|by left]. unfold IgnoreNotFound. destruct (IsNotFound err); by left.
    - right. exists e. unfold IgnoreNotFound. rewrite He. simpl. set_solver. }
  - left. generalize dependent (collect_one minAge active now acc tr). clear -Laws.
    induction items as [|y items IH]; intros acc Hg; [done|]. cbn [foldl]. apply IH.
    by apply collect_one_keeps_going.
  - right. exists e. by apply collect_errors.
Qed.

(** Orphan collection deletes orphans and nothing else.  Given the hub's
    list of load tests, a listed shard whose load test is missing from it and
    that is past the grace period is gone or being deleted afterwards, unless
    its deletion failed, which is logged; a replay that is standalone, belongs to
    a listed load test or is still young is exactly as before. *)
Theorem collect_only_orphans minAge active now w w' items errs :
  client_List w = Ok items → Collect minAge active now w = (w', errs) →
  key_slash_free active → Forall (λ tr, Contains (Namespace tr) "/" = false) items →
  (∀ tr, tr ∈ items → ~ protected minAge active now tr →
     (∀ o, client_Get (Namespace tr) (Name tr) w' = Ok o → om_DeletionTimestamp (Meta o) ≠ None) ∨
     ∃ e, (tr, e) ∈ errs) ∧
  (∀ ns n o, client_Get ns n w = Ok o →
     (∀ tr, tr ∈ items → (Namespace tr, Name tr) = (ns, n) → protected minAge active now tr) →
     client_Get ns n w' = Ok o).
Proof.
  intros Hlist Hc Hks Hns. unfold Collect in Hc. rewrite Hlist in Hc. split.
  - intros tr Hin Hnp. pose proof (collect_orphan (gc_minAge minAge) (activeSet active) now (w, []) items tr Hin) as Ho.
    rewrite Hc in Ho. apply Ho. apply not_false_iff_true. intros Hf. apply Hnp.
    rewrite Forall_forall in Hns. apply orphaned_spec; [done|by apply Hns|done].
  - intros ns n o Hg Hprot.
    assert (∀ acc, client_Get ns n (fst (foldl (collect_one (gc_minAge minAge) (activeSet active) now) acc items))
      = client_Get ns n (fst acc)) as Hsame.
    { clear Hc Hlist. induction items as [|tr items IH]; intros acc; [done|]. cbn [foldl].
      inversion Hns as [|?? Htr Hns']; subst. rewrite IH; [|done|].
      - apply collect_one_other.
        destruct (decide ((ns, n) = (Namespace tr, Name tr))) as [Heq|]; [left|by right].
        apply orphaned_spec; [done|done|]. apply Hprot; [by left|done].
      - intros x Hx. apply Hprot. by right. }
    specialize (Hsame (w, [])). rewrite Hc in Hsame. simpl in Hsame. by rewrite Hsame.
Qed.
End Theorems.

(** ** From the load test to the shard *)

(** A pointer whose value would be read back as unset. *)
Definition no_zero {A} (zero : A → Prop) (o : option A) : Prop := ∀ a, o = Some a → ~ zero a.

(** The load test says "unset" by leaving a field out, not by its zero value. *)
Record canonical_spec (s : CaptureLoadTestSpec) : Prop := {
  cs_port : no_zero (λ p, p = 0) (rt_Port (ls_Target s));
  cs_tls : no_zero (λ b, b = false) (rt_TLS (ls_Target s));
  cs_scale : ∀ r, ls_Rate s = Some r → no_zero (λ t, t = "") (rrc_TimeScale r);
  cs_prefix : ∀ f, ls_Filters s = Some f → no_zero (λ p, p = "") (rf_PathPrefix f);
  cs_limit : ∀ f, ls_Filters s = Some f → no_zero (λ l, l <= 0) (rf_Limit f);
  cs_engine : ∀ e, ls_Engine s = Some e →
    no_zero (λ c, Raw c = "") (res_Config e) ∧ ~ (res_Name e = "" ∧ res_Config e = None);
  cs_safety : ∀ x, ls_Safety s = Some x → rsf_AllowedHosts x ≠ []
}.

(** The rate a shard should run at. *)
Definition shard_rate (lt : CaptureLoadTest) (shard : Z) : ReplayRateConfig :=
  match ls_Rate (Spec lt) with
  | Some r =>
      {| rrc_Mode := rrc_Mode r;
         rrc_RequestsPerSecond :=
           match rrc_RequestsPerSecond r with
           | Some rps =>
               if bool_decide (rrc_Mode r = ReplayRateModeConstant) then
                 ptr_if (0 <? splitRate rps (lst_TotalShards (Status lt)) shard)
                   (splitRate rps (lst_TotalShards (Status lt)) shard)
               else None
           | None => None
           end;
         rrc_TimeScale := rrc_TimeScale r |}
  | None => {| rrc_Mode := ReplayRateModeOriginalTiming; rrc_RequestsPerSecond := None; rrc_TimeScale := None |}
  end.

Lemma ptr_default {A} (P : A → Prop) (o : option A) (zero : A) (b : bool) :
  no_zero P o → (∀ a, o = Some a → ~ P a → b = true) → (o = None → b = false) →
  ptr_if b (default zero o) = o.
Proof.
  intros Hn Hs Hz. destruct o as [a|]; simpl; [by rewrite (Hs a eq_refl (Hn a eq_refl))|].
  by rewrite Hz.
Qed.

(** C38: what the hub asks for is what the spoke runs.  The START directive the hub
    builds for a shard, decoded by the spoke, gives a replay named after the
    load test and the shard with the load test's source, storage, target,
    filters, engine and safety unchanged, its shard and the test's shard count
    and presharding, its share of the rate, and the workers' concurrency. *)
Theorem directive_round_trip lt shard spec :
  canonical_spec (Spec lt) → rd_Spec (buildStartDirective lt shard) = Some spec →
  let replay := replayFromDirective (buildStartDirective lt shard) spec in
  let s := Spec lt in
  Namespace replay = Namespace lt ∧ Name replay = ReplayShardName (Name lt) shard ∧
  om_Labels (Meta replay) !! LabelLoadTest = Some (Name lt) ∧
  Spec replay =
    {| trs_SourceRef := ls_SourceRef s; trs_StorageRef := ls_StorageRef s; trs_Target := ls_Target s;
       trs_Rate := Some (shard_rate lt shard); trs_Filters := ls_Filters s; trs_Transforms := [];
       trs_Concurrency :=
         let c := default defaultConcurrencyPerWorker (ls_Distribution s ≫= ld_ConcurrencyPerWorker) in
         ptr_if (0 <? c) c;
       trs_Shard := Some {| shs_Index := shard; shs_Count := lst_TotalShards (Status lt);
         shs_Presharded := ptr_if (default false (ls_Distribution s ≫= ld_Presharded)) true |};
       trs_LoadTestRef := Some {| ltr_Name := Name lt |};
       trs_Engine := ls_Engine s; trs_Safety := ls_Safety s |}.
Proof.
  intros Hcan [= <-] replay s. pose proof Hcan as [].
  split; [done|]. split; [done|]. split; [apply replay_label|].
  unfold replay, s, replayFromDirective. cbn -[ptr_if].
  f_equal; [by destruct (ls_SourceRef _)|by destruct (ls_StorageRef _)| | | | | | |].
  - destruct (ls_Target (Spec lt)) as [host port tls]. cbn -[ptr_if] in *. f_equal.
    + apply (ptr_default (λ p, p = 0)); [done| |by intros ->].
      intros a -> Ha. simpl. destruct (Z.eqb_spec a 0); done.
    + destruct tls as [[]|]; [done| |done]. by destruct (cs_tls0 false).
  - unfold shard_rate. destruct (ls_Rate (Spec lt)) as [[mode rps scale]|]; [|done]. cbn -[ptr_if] in *.
    unfold rate_from_directive. cbn -[ptr_if]. do 2 f_equal.
    + destruct rps as [rps|]; [|done]. by case_bool_decide.
    + apply (ptr_default (λ t, t = "")); [by apply (cs_scale0 _ eq_refl)| |by intros ->].
      intros a -> Ha. by apply bool_decide_eq_true.
  - destruct (ls_Filters (Spec lt)) as [[st en pre meth lim]|]; [|done]. cbn -[ptr_if] in *.
    unfold filters_from_directive. cbn -[ptr_if]. do 2 f_equal.
    + apply (ptr_default (λ t, t = "")); [by apply (cs_prefix0 _ eq_refl)| |by intros ->].
      intros a -> Ha. by apply bool_decide_eq_true.
    + apply (ptr_default (λ l, l <= 0)); [by apply (cs_limit0 _ eq_refl)| |by intros ->].
      intros a -> Ha. simpl. apply Z.ltb_lt. lia.
  - destruct (ls_Distribution (Spec lt)) as [d|]; [|done]. simpl. by destruct (ld_ConcurrencyPerWorker d).
  - destruct (ls_Distribution (Spec lt)) as [d|]; [|done]. simpl. by destruct (ld_Presharded d).
  - destruct (ls_Engine (Spec lt)) as [[name cfg]|]; [|done]. destruct (cs_engine0 _ eq_refl) as [Hc Hne].
    cbn -[ptr_if] in *. destruct cfg as [[raw]|]; cbn -[ptr_if] in *.
    + rewrite (bool_decide_eq_true_2 (raw ≠ "")), orb_true_r by (intros ->; by apply (Hc {| Raw := "" |})).
      done.
    + rewrite (bool_decide_eq_true_2 (name ≠ "")) by naive_solver. done.
  - destruct (ls_Safety (Spec lt)) as [[hosts]|]; [|done]. cbn -[ptr_if].
    specialize (cs_safety0 _ eq_refl). by destruct hosts.
Qed.

(** ** Concrete runs *)

#[local] Existing Instances mem_errors mem_client mem_client_laws.

Abbreviation cluster := (store TrafficReplaySpec TrafficReplayStatus).

Definition demo_start (shard : Z) : ReplayDirective := buildStartDirective (demo_running None) shard.
Definition demo_stop : ReplayDirective := stopDirective (demo_running None).

Definition demo_shard (shard : Z) : TrafficReplay :=
  match rd_Spec (demo_start shard) with
  | Some spec => replayFromDirective (demo_start shard) spec
  | None => replayFromDirective (demo_start shard) {| rs_SourceCapture := ""; rs_StorageRefName := "";
      rs_TargetHost := ""; rs_TargetPort := 0; rs_TargetTls := false; rs_Rate := None; rs_Shard := None;
      rs_Concurrency := 0; rs_Filters := None; rs_EngineName := ""; rs_EngineConfigJson := "";
      rs_AllowedHosts := [] |}
  end.

Definition demo_cluster : cluster := {[("prod", "lt-shard-0") := demo_shard 0]}.

Lemma stop_ends_load_test_witness :
  ∃ w', Handle (Some demo_stop) (apply_directives [demo_start 0; demo_start 1] (∅ : cluster)) = (w', None) ∧
    ∀ i o, 0 <= i → client_Get "prod" (ReplayShardName "lt" i) w' = Ok o → om_DeletionTimestamp (Meta o) ≠ None.
Proof.
  eexists. split; [reflexivity|].
  refine (proj1 (stop_ends_load_test "prod" "lt" [demo_start 0; demo_start 1] demo_stop (∅ : cluster) _
    _ _ eq_refl eq_refl eq_refl eq_refl)).
  - intros i o _ Hg. discriminate Hg.
  - repeat constructor; intros spec s [= <-] [= <-]; done.
Defined.

Lemma demo_canonical : canonical_spec (Spec (demo_running None)).
Proof. constructor; cbn; try done; intros x [= <-]; done. Defined.

Lemma directive_round_trip_witness :
  ∃ spec, rd_Spec (demo_start 2) = Some spec ∧
    Name (replayFromDirective (demo_start 2) spec) = "lt-shard-2" ∧
    trs_SourceRef (Spec (replayFromDirective (demo_start 2) spec)) = ls_SourceRef (Spec (demo_running None)).
Proof.
  eexists. split; [reflexivity|].
  destruct (directive_round_trip (demo_running None) 2 _ demo_canonical eq_refl)
    as (_ & Hn & _ & Hs).
  split; [exact Hn|]. exact (f_equal trs_SourceRef Hs).
Defined.
