(* ===== verification/Agent.v ===== *)
(** * The capture agent ([internal/agent])

    The request filter ([filter.go]), the header redactor ([redact.go]) and the
    capture handler ([handler.go]).
    The body of a mirrored request is its full content and the error its reader
    ends with. *)

From S2P Require Import Prelude GoStd Storage.
From Stdlib Require Import Ascii.

Local Open Scope Z_scope.

(** ** [http.CanonicalHeaderKey] *)

Definition is_lower (a : ascii) : bool := (97 <=? nat_of_ascii a)%nat && (nat_of_ascii a <=? 122)%nat.
Definition is_upper (a : ascii) : bool := (65 <=? nat_of_ascii a)%nat && (nat_of_ascii a <=? 90)%nat.
Definition is_number (a : ascii) : bool := (48 <=? nat_of_ascii a)%nat && (nat_of_ascii a <=? 57)%nat.

Definition upper_ascii (a : ascii) : ascii :=
  if is_lower a then ascii_of_nat (nat_of_ascii a - 32) else a.

(** The bytes of a header field name. *)
Definition validHeaderFieldByte (a : ascii) : bool :=
  is_lower a || is_upper a || is_number a
  || existsb (Ascii.eqb a) (String.list_ascii_of_string "!#$%&'*+-.^_`|~").

Fixpoint all_valid (s : string) : bool :=
  match s with "" => true | String a s => validHeaderFieldByte a && all_valid s end.

Fixpoint canonical_loop (upper : bool) (s : string) : string :=
  match s with
  | "" => ""
  | String a s =>
      String (if upper then upper_ascii a else lower_ascii a) (canonical_loop (Ascii.eqb a "-") s)
  end.

Definition CanonicalHeaderKey (s : string) : string :=
  if all_valid s then canonical_loop true s else s.

Example canonical_1 : CanonicalHeaderKey "x-API-key" = "X-Api-Key".
Proof. reflexivity. Qed.
Example canonical_2 : CanonicalHeaderKey "set cookie" = "set cookie".
Proof. reflexivity. Qed.

(** ** Filtering *)

Record HeaderFilter := { hf_Name : string; hf_Value : string }.

(** [rf_sampleFn] is the value the sample function returns when it is called. *)
Record RequestFilter := {
  rqf_pathPrefix : string;
  rqf_headers : list HeaderFilter;
  rqf_percentage : Z
}.

Record CapturedHTTPRequest := {
  chr_Method : string;
  chr_Path : string;
  chr_Headers : gmap string (list string);
  chr_Body : string;
  chr_BodyErr : option go_error;
  chr_Protocol : string;
  chr_Metadata : gmap string string
}.

Definition NewRequestFilter (pathPrefix : string) (headers : list HeaderFilter) (percentage : Z)
    : RequestFilter :=
  let percentage := if 100 <? percentage then 100 else percentage in
  let percentage := if percentage <? 0 then 0 else percentage in
  {| rqf_pathPrefix := pathPrefix; rqf_headers := headers; rqf_percentage := percentage |}.

(** ** Redaction *)

Definition RedactedValue : string := "[REDACTED]".

Definition DefaultRedactHeaders : list string :=
  ["Authorization"; "Proxy-Authorization"; "Cookie"; "Set-Cookie"; "X-Api-Key"; "X-Auth-Token"].

Definition HeaderRedactor : Type := gset string.

Definition NewHeaderRedactor (names : list string) : HeaderRedactor :=
  list_to_set (omap (λ name,
    let name := TrimSpace name in
    if bool_decide (name = "") then None else Some (CanonicalHeaderKey name)) names).

Definition redacts (r : HeaderRedactor) (name : string) : bool :=
  bool_decide (CanonicalHeaderKey name ∈ r).

Definition Redact (r : HeaderRedactor) (headers : gmap string (list string)) : gmap string (list string) :=
  if bool_decide (r = ∅) then headers
  else map_imap (λ name values,
    Some (if redacts r name then replicate (length values) RedactedValue else values)) headers.

Section Agent.
Context {MR : MapRange}.

(** Ranging over the headers stops at the first match. *)
Definition headerMatches (headers : gmap string (list string)) (hf : HeaderFilter) : bool :=
  existsb (λ '(name, values),
    EqualFold name (hf_Name hf) && existsb (λ v, bool_decide (v = hf_Value hf)) values) (go_range headers).

(** A nil filter matches everything. *)
Definition Matches (f : option RequestFilter) (sample : Z) (req : CapturedHTTPRequest) : bool :=
  match f with
  | None => true
  | Some f =>
      if bool_decide (rqf_pathPrefix f ≠ "") && negb (HasPrefix (chr_Path req) (rqf_pathPrefix f)) then false
      else if negb (forallb (headerMatches (chr_Headers req)) (rqf_headers f)) then false
      else if 100 <=? rqf_percentage f then true
      else if rqf_percentage f <=? 0 then false
      else sample <? rqf_percentage f
  end.

(** ** The capture handler *)

Record CaptureHandler := MkHandler {
  ch_maxBodyBytes : Z;
  ch_filter : option RequestFilter;
  ch_redactor : HeaderRedactor;
  ch_requestsTotal : Z;
  ch_requestsFiltered : Z;
  ch_requestsDropped : Z;
  ch_bytesReceived : Z
}.

(** [redact] is nil or a list of names. *)
Definition NewCaptureHandler (maxBodyBytes : Z) (filter : option RequestFilter)
    (redact : option (list string)) : CaptureHandler :=
  MkHandler (if maxBodyBytes <=? 0 then 1048576 else maxBodyBytes) filter
    (NewHeaderRedactor (default DefaultRedactHeaders redact)) 0 0 0 0.

Definition str_take (n : Z) (s : string) : string := String.substring 0 (Z.to_nat n) s.

(** [io.ReadAll(io.LimitReader(body, n))]. *)
Definition read_limited (n : Z) (req : CapturedHTTPRequest) : result string :=
  if n <=? str_len (chr_Body req) then Ok (str_take n (chr_Body req))
  else match chr_BodyErr req with Some e => Err e | None => Ok (chr_Body req) end.

Context {W : Type} (write : CapturedRequest → W → W * option go_error).

Definition bump (total filtered dropped bytes : Z) (h : CaptureHandler) : CaptureHandler :=
  MkHandler (ch_maxBodyBytes h) (ch_filter h) (ch_redactor h)
    (int64 (ch_requestsTotal h + total)) (int64 (ch_requestsFiltered h + filtered))
    (int64 (ch_requestsDropped h + dropped)) (int64 (ch_bytesReceived h + bytes)).

(** [id], [now] and [sample] are the values of [uuid.New], [time.Now] and the
    sample function. *)
Definition Handle (id : string) (now sample : Z) (req : CapturedHTTPRequest) (h : CaptureHandler) (w : W)
    : CaptureHandler * W * option go_error :=
  let h := bump 1 0 0 0 h in
  if negb (Matches (ch_filter h) sample req) then (bump 0 1 0 0 h, w, None)
  else match read_limited (int64 (ch_maxBodyBytes h + 1)) req with
  | Err err => (bump 0 0 1 0 h, w, Some err)
  | Ok body =>
      let truncated := ch_maxBodyBytes h <? str_len body in
      let body := if truncated then str_take (ch_maxBodyBytes h) body else body in
      let h := bump 0 0 0 (str_len body) h in
      let captured :=
        {| cr_ID := id; cr_Timestamp := now; cr_Method := chr_Method req; cr_Path := chr_Path req;
           cr_Headers := Redact (ch_redactor h) (chr_Headers req); cr_Body := body;
           cr_ContentLength := str_len body; cr_Protocol := chr_Protocol req;
           cr_Metadata := if truncated then <["bodyTruncated" := "true"]> (chr_Metadata req)
                          else chr_Metadata req |} in
      match write captured w with
      | (w, Some err) => (bump 0 0 1 0 h, w, Some err)
      | (w, None) => (h, w, None)
      end
  end.
End Agent.

(** ** Lemmas *)

Lemma str_take_length n s : 0 <= n <= str_len s → str_len (str_take n s) = n.
Proof.
  unfold str_take, str_len. intros Hn. assert (Z.to_nat n <= String.length s)%nat as Hle by lia.
  replace n with (Z.of_nat (Z.to_nat n)) at 2 by lia. f_equal. clear Hn.
  revert s Hle. induction (Z.to_nat n) as [|k IH]; intros [|a s] Hle; simpl in *; try lia.
  rewrite IH; lia.
Qed.

Lemma str_take_take n m s : 0 <= m <= n → str_take m (str_take n s) = str_take m s.
Proof.
  unfold str_take. intros Hm. assert (Z.to_nat m <= Z.to_nat n)%nat as Hle by lia. clear Hm. revert Hle.
  generalize (Z.to_nat m), (Z.to_nat n). intros a b. revert b s.
  induction a as [|a IH]; intros [|b] [|c s] Hle; simpl; try done; try lia. rewrite IH; [done|lia].
Qed.

Lemma str_take_prefix n s : ∃ rest, s = str_take n s +:+ rest.
Proof.
  unfold str_take. generalize (Z.to_nat n). intros k. revert s.
  induction k as [|k IH]; intros [|c s]; [by exists ""|by exists (String c s)|by exists ""|].
  destruct (IH s) as [rest Hr]. exists rest. simpl. by rewrite append_cons, <- Hr.
Qed.

Lemma Redact_lookup r headers name values :
  Redact r headers !! name = Some values →
  ∃ original, headers !! name = Some original ∧
    (redacts r name = true → values = replicate (length original) RedactedValue) ∧
    (redacts r name = false → values = original).
Proof.
  unfold Redact. case_bool_decide as Hr.
  - intros Hv. exists values. split; [done|]. split; [|done]. subst r.
    unfold redacts. rewrite bool_decide_eq_false_2 by set_solver. done.
  - rewrite map_lookup_imap. destruct (headers !! name) as [original|]; [|done]. simpl.
    intros [= <-]. exists original. by destruct (redacts r name).
Qed.

(** ** Theorems *)

(** C26: no credential becomes capture data.  The handler hands its writer at most
    one request per mirrored request, and only one that passes the filter; in
    it, every header the redactor names (compared in canonical form) has only
    redacted values, all other headers are as mirrored, and the body is at most
    [maxBodyBytes] long: the whole body, or a prefix of that length marked as
    truncated. *)
Theorem handle_redacts_and_bounds {MR : MapRange} h id now sample req h' log answer err :
  0 < ch_maxBodyBytes h < max_int64 →
  Handle (λ r log, (log ++ [r], answer)) id now sample req h [] = (h', log, err) →
  log = [] ∨
  ∃ r, log = [r] ∧ Matches (ch_filter h) sample req = true ∧ cr_ID r = id ∧ cr_Path r = chr_Path req ∧
    (∀ name values, cr_Headers r !! name = Some values →
       ∃ original, chr_Headers req !! name = Some original ∧
         (redacts (ch_redactor h) name = true → Forall (λ v, v = RedactedValue) values) ∧
         (redacts (ch_redactor h) name = false → values = original)) ∧
    cr_ContentLength r = str_len (cr_Body r) ∧
    (str_len (chr_Body req) <= ch_maxBodyBytes h ∧ cr_Body r = chr_Body req ∧
       cr_Metadata r = chr_Metadata req ∨
     ch_maxBodyBytes h < str_len (chr_Body req) ∧ str_len (cr_Body r) = ch_maxBodyBytes h ∧
       (∃ rest, chr_Body req = cr_Body r +:+ rest) ∧ cr_Metadata r !! "bodyTruncated" = Some "true").
Proof.
  intros Hmax Hh. unfold Handle in Hh. cbn [ch_filter ch_maxBodyBytes ch_redactor bump] in Hh.
  destruct (Matches (ch_filter h) sample req) eqn:Hm; cbn [negb] in Hh; [|left; congruence].
  rewrite int64_id in Hh by (unfold in_int64, max_int64 in *; lia).
  unfold read_limited in Hh. destruct (_ + 1 <=? _) eqn:E; zbool.
  2: destruct (chr_BodyErr req) as [e|]; [left; congruence|].
  all: right.
  all: match type of Hh with context [if ?t then str_take _ _ else _] => set (tr := t) in * end.
  - assert (tr = true) as Ht by (subst tr; apply Z.ltb_lt; rewrite str_take_length; lia).
    rewrite Ht in Hh. rewrite str_take_take in Hh by lia.
    eexists. split; [by destruct answer; injection Hh as _ <- _|]. split; [done|]. cbn.
    split; [done|]. split; [done|]. split.
    { intros name values (o & Ho & H1 & H2)%Redact_lookup. exists o. split; [done|]. split; [|done].
      intros Hr. rewrite H1 by done. by apply Forall_replicate. }
    split; [done|]. right. split; [lia|]. split; [apply str_take_length; lia|].
    split; [apply str_take_prefix|]. by rewrite lookup_insert_eq.
  - assert (tr = false) as Ht by (subst tr; apply Z.ltb_ge; lia). rewrite Ht in Hh.
    eexists. split; [by destruct answer; injection Hh as _ <- _|]. split; [done|]. cbn.
    split; [done|]. split; [done|]. split.
    { intros name values (o & Ho & H1 & H2)%Redact_lookup. exists o. split; [done|]. split; [|done].
      intros Hr. rewrite H1 by done. by apply Forall_replicate. }
    split; [done|]. left. split; [lia|done].
Qed.

(** ** A concrete run *)

#[local] Existing Instance canonical_range.

Definition demo_mirrored : CapturedHTTPRequest :=
  {| chr_Method := "GET"; chr_Path := "/orders"; chr_Headers := {["authorization" := ["Bearer t"]]};
     chr_Body := "abcdef"; chr_BodyErr := None; chr_Protocol := "HTTP"; chr_Metadata := ∅ |}.

Definition demo_captured : CapturedRequest :=
  {| cr_ID := "id-1"; cr_Timestamp := 7; cr_Method := "GET"; cr_Path := "/orders";
     cr_Headers := {["authorization" := ["[REDACTED]"]]}; cr_Body := "abcd"; cr_ContentLength := 4;
     cr_Protocol := "HTTP"; cr_Metadata := {["bodyTruncated" := "true"]} |}.

Lemma handle_redacts_and_bounds_witness :
  ∃ h', Handle (λ r log, (log ++ [r], None)) "id-1" 7 0 demo_mirrored (NewCaptureHandler 4 None None) []
    = (h', [demo_captured], None) ∧
  ∀ name values, cr_Headers demo_captured !! name = Some values →
    redacts (NewHeaderRedactor DefaultRedactHeaders) name = true → Forall (λ v, v = RedactedValue) values.
Proof.
  eexists. split; [vm_compute; reflexivity|].
  destruct (handle_redacts_and_bounds (NewCaptureHandler 4 None None) "id-1" 7 0 demo_mirrored
    (bump 1 0 0 4 (NewCaptureHandler 4 None None)) [demo_captured] None None) as [Hnil|(r & Hr & _ & _ & _ & Hh & _)].
  - split; reflexivity.
  - vm_compute. reflexivity.
  - discriminate Hnil.
  - injection Hr as <-. intros name values Hv Hred.
    destruct (Hh name values Hv) as (o & _ & Ho & _). exact (Ho Hred).
Defined.
