(* ===== verification/AsyncWriter.v ===== *)
(** * The asynchronous capture writer ([internal/agent/asyncwriter.go])

    Writers enqueue on a bounded channel, one goroutine drains it into the
    storage writer, and [Close] shuts both down.  The goroutines are a step
    relation: any number of [Write] calls in progress, each between its test of
    [closed] and its send, the drain goroutine, the one [Close] that
    [sync.Once] lets through, and [Flush] calls.  A send on the closed channel
    panics and ends the program. *)

From S2P Require Import Prelude GoStd Storage.

Local Open Scope Z_scope.

Definition DefaultWriteQueueSize : Z := 4096.
Definition ErrWriteQueueFull : go_error := Sentinel "capture write queue is full".

(** A [Write] call: started, past the test of [closed], returned. *)
Inductive write_pc :=
  | WriteStart (req : CapturedRequest)
  | WriteLoaded (req : CapturedRequest)
  | WriteDone (req : CapturedRequest) (err : option go_error).

(** The drain goroutine: receiving, inside [inner.Write], returned. *)
Inductive drain_pc := DrainRecv | DrainWrite (req : CapturedRequest) | DrainExit.

(** [Close]: not called, flag stored, channel closed and waiting, returned. *)
Inductive close_pc := CloseIdle | CloseStored | CloseWaiting | CloseDone.

(** The calls of the storage writer. *)
Inductive inner_call := InnerWrite (req : CapturedRequest) | InnerFlush | InnerClose.

Record AsyncWriter := MkAsyncWriter {
  aw_cap : Z;
  aw_queue : list CapturedRequest;
  aw_chclosed : bool;
  aw_closed : bool;
  aw_calls : list write_pc;
  aw_drain : drain_pc;
  aw_closer : close_pc;
  aw_dropped : Z;
  aw_writeErrors : Z;
  aw_log : list inner_call;
  aw_accepted : list CapturedRequest;
  aw_panicked : bool
}.

(** [aw_log] are the calls of the inner writer so far and [aw_accepted] the
    requests whose [Write] enqueued them. *)

Definition NewAsyncWriter (queueSize : Z) : AsyncWriter :=
  MkAsyncWriter (if queueSize <=? 0 then DefaultWriteQueueSize else queueSize)
    [] false false [] DrainRecv CloseIdle 0 0 [] [] false.

Definition set_call (i : nat) (c : write_pc) (w : AsyncWriter) : AsyncWriter :=
  MkAsyncWriter (aw_cap w) (aw_queue w) (aw_chclosed w) (aw_closed w) (<[i:=c]> (aw_calls w))
    (aw_drain w) (aw_closer w) (aw_dropped w) (aw_writeErrors w) (aw_log w) (aw_accepted w)
    (aw_panicked w).

(** A new call of [Write]. *)
Definition call_Write (req : CapturedRequest) (w : AsyncWriter) : AsyncWriter :=
  MkAsyncWriter (aw_cap w) (aw_queue w) (aw_chclosed w) (aw_closed w) (aw_calls w ++ [WriteStart req])
    (aw_drain w) (aw_closer w) (aw_dropped w) (aw_writeErrors w) (aw_log w) (aw_accepted w)
    (aw_panicked w).

(** The [select] of [Write]: enqueue, drop when the queue is full, panic when
    the channel is closed. *)
Definition select_send (i : nat) (req : CapturedRequest) (w : AsyncWriter) : AsyncWriter :=
  if aw_chclosed w then
    MkAsyncWriter (aw_cap w) (aw_queue w) (aw_chclosed w) (aw_closed w) (aw_calls w)
      (aw_drain w) (aw_closer w) (aw_dropped w) (aw_writeErrors w) (aw_log w) (aw_accepted w) true
  else if len (aw_queue w) <? aw_cap w then
    MkAsyncWriter (aw_cap w) (aw_queue w ++ [req]) (aw_chclosed w) (aw_closed w)
      (<[i:=WriteDone req None]> (aw_calls w)) (aw_drain w) (aw_closer w) (aw_dropped w)
      (aw_writeErrors w) (aw_log w) (aw_accepted w ++ [req]) (aw_panicked w)
  else
    MkAsyncWriter (aw_cap w) (aw_queue w) (aw_chclosed w) (aw_closed w)
      (<[i:=WriteDone req (Some ErrWriteQueueFull)]> (aw_calls w)) (aw_drain w) (aw_closer w)
      (int64 (aw_dropped w + 1)) (aw_writeErrors w) (aw_log w) (aw_accepted w) (aw_panicked w).

Definition set_drain (d : drain_pc) (queue : list CapturedRequest) (w : AsyncWriter) : AsyncWriter :=
  MkAsyncWriter (aw_cap w) queue (aw_chclosed w) (aw_closed w) (aw_calls w)
    d (aw_closer w) (aw_dropped w) (aw_writeErrors w) (aw_log w) (aw_accepted w) (aw_panicked w).

(** [inner.Write] returns; [failed] tells whether with an error. *)
Definition drained_one (req : CapturedRequest) (failed : bool) (w : AsyncWriter) : AsyncWriter :=
  MkAsyncWriter (aw_cap w) (aw_queue w) (aw_chclosed w) (aw_closed w) (aw_calls w)
    DrainRecv (aw_closer w) (aw_dropped w)
    (if failed then int64 (aw_writeErrors w + 1) else aw_writeErrors w)
    (aw_log w ++ [InnerWrite req]) (aw_accepted w) (aw_panicked w).

Definition set_closer (c : close_pc) (closed chclosed : bool) (calls : list inner_call) (w : AsyncWriter)
    : AsyncWriter :=
  MkAsyncWriter (aw_cap w) (aw_queue w) chclosed closed (aw_calls w)
    (aw_drain w) c (aw_dropped w) (aw_writeErrors w) (aw_log w ++ calls) (aw_accepted w) (aw_panicked w).

Inductive aw_run_step (w : AsyncWriter) : AsyncWriter → Prop :=
  | aw_call req : aw_run_step w (call_Write req w)
  | aw_load_closed i req : aw_calls w !! i = Some (WriteStart req) → aw_closed w = true →
      aw_run_step w (set_call i (WriteDone req (Some ErrWriterClosed)) w)
  | aw_load i req : aw_calls w !! i = Some (WriteStart req) → aw_closed w = false →
      aw_run_step w (set_call i (WriteLoaded req) w)
  | aw_select i req : aw_calls w !! i = Some (WriteLoaded req) → aw_run_step w (select_send i req w)
  | aw_recv req queue : aw_drain w = DrainRecv → aw_queue w = req :: queue →
      aw_run_step w (set_drain (DrainWrite req) queue w)
  | aw_write req failed : aw_drain w = DrainWrite req → aw_run_step w (drained_one req failed w)
  | aw_exit : aw_drain w = DrainRecv → aw_queue w = [] → aw_chclosed w = true →
      aw_run_step w (set_drain DrainExit [] w)
  | aw_close_store : aw_closer w = CloseIdle →
      aw_run_step w (set_closer CloseStored true (aw_chclosed w) [] w)
  | aw_close_channel : aw_closer w = CloseStored →
      aw_run_step w (set_closer CloseWaiting (aw_closed w) true [] w)
  | aw_close_inner : aw_closer w = CloseWaiting → aw_drain w = DrainExit →
      aw_run_step w (set_closer CloseDone (aw_closed w) (aw_chclosed w) [InnerClose] w)
  | aw_flush : aw_queue w = [] →
      aw_run_step w (set_closer (aw_closer w) (aw_closed w) (aw_chclosed w) [InnerFlush] w).

(** A panic ends the program. *)
Definition aw_step (w w' : AsyncWriter) : Prop := aw_panicked w = false ∧ aw_run_step w w'.

(** ** Invariant *)

Definition inner_writes (log : list inner_call) : list CapturedRequest :=
  omap (λ c, match c with InnerWrite r => Some r | _ => None end) log.

Definition in_hand (d : drain_pc) : list CapturedRequest :=
  match d with DrainWrite r => [r] | _ => [] end.

Definition inner_closed (log : list inner_call) : Prop := InnerClose ∈ log.

Record aw_inv (w : AsyncWriter) : Prop := {
  ai_fifo : aw_accepted w = inner_writes (aw_log w) ++ in_hand (aw_drain w) ++ aw_queue w;
  ai_cap : 0 < aw_cap w ∧ len (aw_queue w) <= aw_cap w;
  ai_exit : aw_drain w = DrainExit → aw_queue w = [] ∧ aw_chclosed w = true;
  ai_chclosed : aw_chclosed w = true ↔ aw_closer w = CloseWaiting ∨ aw_closer w = CloseDone;
  ai_closed : aw_closed w = true ↔ aw_closer w ≠ CloseIdle;
  ai_done : aw_closer w = CloseDone → aw_drain w = DrainExit;
  ai_inner : ∀ pre post, aw_log w = pre ++ InnerClose :: post →
    aw_closer w = CloseDone ∧ inner_writes post = [] ∧ (InnerClose ∉ post);
  ai_calls : ∀ req err, WriteDone req err ∈ aw_calls w →
    match err with
    | None => req ∈ aw_accepted w
    | Some e => e = ErrWriterClosed ∧ aw_closed w = true ∨ e = ErrWriteQueueFull
    end
}.

Lemma inner_writes_app l k : inner_writes (l ++ k) = inner_writes l ++ inner_writes k.
Proof. apply omap_app. Qed.

Lemma log_snoc_split (log pre post : list inner_call) c :
  log ++ [c] = pre ++ InnerClose :: post →
  (c = InnerClose ∧ pre = log ∧ post = []) ∨ ∃ post', post = post' ++ [c] ∧ log = pre ++ InnerClose :: post'.
Proof.
  destruct post as [|x post] using rev_ind; intros Heq.
  - apply app_inj_tail in Heq as [-> ->]. by left.
  - right. rewrite app_comm_cons, app_assoc in Heq. apply app_inj_tail in Heq as [-> ->]. by exists post.
Qed.

Lemma calls_insert (calls : list write_pc) i c req err :
  WriteDone req err ∈ <[i:=c]> calls → WriteDone req err = c ∨ WriteDone req err ∈ calls.
Proof.
  intros [j Hj]%list_elem_of_lookup. apply list_lookup_insert_Some in Hj as [(_ & -> & _)|[_ Hj]]; [by left|].
  right. by eapply list_elem_of_lookup_2.
Qed.

Lemma new_inv queueSize : aw_inv (NewAsyncWriter queueSize).
Proof.
  constructor; simpl; try done; try naive_solver.
  - split; [case_match; zbool; unfold DefaultWriteQueueSize; lia|]. unfold len. simpl. case_match; zbool; [done|lia].
  - intros pre post Heq. by destruct pre.
  - intros req err Hc. by apply elem_of_nil in Hc.
Qed.

(** Steps of a [Write] call that do not enqueue. *)
Lemma set_call_inv w i c :
  aw_inv w →
  (∀ req err, c = WriteDone req err → err = Some ErrWriterClosed ∧ aw_closed w = true) →
  aw_inv (set_call i c w).
Proof.
  intros [] Hc. constructor; simpl; try done.
  intros req err [Heq|Hin]%calls_insert; [|by apply ai_calls0].
  destruct (Hc req err (eq_sym Heq)) as [-> ?]. by left.
Qed.

Lemma select_send_inv w i req : aw_inv w → aw_inv (select_send i req w).
Proof.
  intros []. unfold select_send. destruct (aw_chclosed w) eqn:Hch.
  { constructor; simpl; rewrite ?Hch; done. }
  destruct (len (aw_queue w) <? aw_cap w) eqn:Hlen; zbool.
  - constructor; simpl; rewrite ?Hch; try done.
    + by rewrite ai_fifo0, <- !app_assoc.
    + rewrite len_app. unfold len in *. simpl. lia.
    + intros Hd. destruct (ai_exit0 Hd). congruence.
    + intros r err [Heq|Hin]%calls_insert.
      * injection Heq as -> ->. set_solver.
      * specialize (ai_calls0 r err Hin). destruct err; [done|]. set_solver.
  - constructor; simpl; rewrite ?Hch; try done.
    intros r err [Heq|Hin]%calls_insert; [|by apply ai_calls0]. injection Heq as -> ->. by right.
Qed.

Lemma drained_one_inv w req failed : aw_inv w → aw_drain w = DrainWrite req → aw_inv (drained_one req failed w).
Proof.
  intros [] Hd. constructor; simpl; try done.
  - rewrite inner_writes_app, ai_fifo0, Hd. simpl. by rewrite <- app_assoc.
  - intros Hcl. by rewrite (ai_done0 Hcl) in Hd.
  - intros pre post [(? & _)|(post' & -> & Hlog)]%log_snoc_split; [done|].
    destruct (ai_inner0 _ _ Hlog) as (Hcl & _). by rewrite (ai_done0 Hcl) in Hd.
Qed.

Lemma closer_inv w c closed chclosed calls :
  aw_inv w → inner_writes calls = [] →
  (chclosed = true ↔ c = CloseWaiting ∨ c = CloseDone) → (closed = true ↔ c ≠ CloseIdle) →
  (aw_chclosed w = true → chclosed = true) → (aw_closed w = true → closed = true) →
  (c = CloseDone → aw_drain w = DrainExit) →
  (calls = [] ∨ calls = [InnerFlush] ∧ c = aw_closer w ∨
   calls = [InnerClose] ∧ aw_closer w ≠ CloseDone ∧ c = CloseDone) →
  (aw_closer w = CloseDone → c = CloseDone) →
  aw_inv (set_closer c closed chclosed calls w).
Proof.
  intros [] Hw Hch Hcl Hch' Hcl' Hdone Hcalls Hc. constructor; simpl; try done.
  - by rewrite inner_writes_app, Hw, app_nil_r.
  - intros Hd. destruct (ai_exit0 Hd). auto.
  - intros pre post Heq. destruct Hcalls as [->|[[-> ->]|(-> & Hne & ->)]].
    + rewrite app_nil_r in Heq. destruct (ai_inner0 _ _ Heq) as (? & ? & ?). auto.
    + apply log_snoc_split in Heq as [(? & _)|(post' & -> & Hlog)]; [done|].
      destruct (ai_inner0 _ _ Hlog) as (Hcd & Hp & Hn). split; [done|].
      rewrite inner_writes_app, Hp. split; [done|]. rewrite elem_of_app, list_elem_of_singleton. naive_solver.
    + apply log_snoc_split in Heq as [(_ & _ & ->)|(post' & -> & Hlog)].
      * split; [done|]. split; [done|]. apply not_elem_of_nil.
      * by destruct (ai_inner0 _ _ Hlog) as (? & _).
  - intros r err Hin. specialize (ai_calls0 r err Hin). destruct err; [|done]. naive_solver.
Qed.

Lemma aw_step_inv w w' : aw_inv w → aw_step w w' → aw_inv w'.
Proof.
  intros Hinv [_ Hstep]. pose proof Hinv as [].
  destruct Hstep as [req|i req Hi Hc|i req Hi Hc|i req Hi|req queue Hd Hq|req failed Hd|Hd Hq Hch|Hc|Hc|Hc Hd|Hq].
  - constructor; simpl; try done. intros r err Hin. rewrite elem_of_app, list_elem_of_singleton in Hin.
    destruct Hin as [Hin|?]; [by apply ai_calls0|done].
  - apply set_call_inv; [done|]. by intros ?? [= <- <-].
  - apply set_call_inv; [done|]. by intros ??.
  - by apply select_send_inv.
  - constructor; simpl; try done.
    + by rewrite ai_fifo0, Hd, Hq.
    + rewrite Hq in ai_cap0. unfold len in *. simpl in *. lia.
    + intros Hcl. by rewrite (ai_done0 Hcl) in Hd.
  - by apply drained_one_inv.
  - constructor; simpl; try done.
    + rewrite ai_fifo0, Hd, Hq. done.
    + destruct ai_cap0. unfold len. simpl. lia.
  - apply closer_inv; try done; rewrite ?Hc in *; naive_solver.
  - apply closer_inv; try done; rewrite ?Hc in *; naive_solver.
  - apply closer_inv; try done; rewrite ?Hc in *; naive_solver.
  - apply closer_inv; try done; naive_solver.
Qed.

Lemma aw_reachable_inv queueSize w : rtc aw_step (NewAsyncWriter queueSize) w → aw_inv w.
Proof.
  intros Hr. pose proof (new_inv queueSize) as Hinv. induction Hr as [w|w1 w2 w3 Hs _ IH]; [done|].
  apply IH. by eapply aw_step_inv.
Qed.

(** ** Theorems *)

(** C24: the asynchronous writer loses nothing it accepted.  In every interleaving
    of [Write], [Flush] and [Close] calls with the drain goroutine, the queue
    never exceeds its capacity; the storage writer has received exactly a prefix
    of the accepted requests, in acceptance order, the rest being in the queue or
    in the drain goroutine's hand; a [Write] that returned nil was accepted, and
    one that failed did so because the queue was full or [Close] had begun; and
    the storage writer is closed at most once, after it has received every
    accepted request. *)
Theorem async_writer_loses_nothing queueSize w :
  rtc aw_step (NewAsyncWriter queueSize) w →
  len (aw_queue w) <= aw_cap w ∧
  aw_accepted w = inner_writes (aw_log w) ++ in_hand (aw_drain w) ++ aw_queue w ∧
  (∀ req err, WriteDone req err ∈ aw_calls w →
     match err with
     | None => req ∈ aw_accepted w
     | Some e => e = ErrWriterClosed ∧ aw_closed w = true ∨ e = ErrWriteQueueFull
     end) ∧
  (∀ pre post, aw_log w = pre ++ InnerClose :: post →
     inner_writes pre = aw_accepted w ∧ (InnerClose ∉ post)).
Proof.
  intros Hr. pose proof (aw_reachable_inv _ _ Hr) as []. split_and!; [lia|done|done|].
  intros pre post Hlog. destruct (ai_inner0 _ _ Hlog) as (Hc & Hp & Hn). split; [|done].
  destruct (ai_exit0 (ai_done0 Hc)) as [Hq _]. rewrite ai_fifo0, (ai_done0 Hc), Hq, Hlog, inner_writes_app.
  simpl. by rewrite Hp, !app_nil_r.
Qed.

(** [Close] can always finish. *)
Lemma drain_finishes w : aw_panicked w = false → aw_inv w → aw_closer w = CloseWaiting →
  ∃ w', rtc aw_step w w' ∧ aw_closer w' = CloseDone.
Proof.
  intros Hp Hinv Hc. assert (aw_chclosed w = true) as Hch by (apply (ai_chclosed _ Hinv); by left).
  remember (length (in_hand (aw_drain w)) + 2 * length (aw_queue w))%nat as n eqn:Hn.
  revert w Hp Hinv Hc Hch Hn. induction (lt_wf n) as [n _ IH]. intros w Hp Hinv Hc Hch ->.
  destruct (aw_drain w) as [|req|] eqn:Hd.
  - destruct (aw_queue w) as [|req queue] eqn:Hq.
    + eexists. split; [|shelve]. eapply rtc_l; [split; [done|by apply aw_exit]|].
      eapply rtc_l; [split; [done|by apply aw_close_inner]|]. apply rtc_refl. Unshelve. done.
    + assert (aw_step w (set_drain (DrainWrite req) queue w)) as Hs by (split; [done|by apply aw_recv]).
      destruct (IH (1 + 2 * length queue)%nat) with (w := set_drain (DrainWrite req) queue w)
        as (w' & Hw' & Hdone); simpl; try done; [lia|by eapply aw_step_inv|].
      exists w'. split; [by eapply rtc_l|done].
  - assert (aw_step w (drained_one req false w)) as Hs by (split; [done|by apply aw_write]).
    destruct (IH (2 * length (aw_queue w))%nat) with (w := drained_one req false w)
      as (w' & Hw' & Hdone); simpl; try done; [lia|by eapply aw_step_inv|].
    exists w'. split; [by eapply rtc_l|done].
  - eexists. split; [apply rtc_once; split; [done|by apply aw_close_inner]|done].
Qed.

(** C39: [Close] never deadlocks, and the only panic is the race the code leaves
    open.  From every reachable state without a panic in which [Close] waits for
    the drain goroutine, it can return; and a panic happens only when a [Write]
    that saw the writer open sends after [Close] has closed the channel. *)
Theorem async_close_finishes queueSize w :
  rtc aw_step (NewAsyncWriter queueSize) w →
  (aw_panicked w = false → aw_closer w = CloseWaiting →
     ∃ w', rtc aw_step w w' ∧ aw_closer w' = CloseDone) ∧
  (aw_panicked w = true → aw_chclosed w = true ∧ ∃ i req, aw_calls w !! i = Some (WriteLoaded req)).
Proof.
  intros Hr. split; [intros Hp Hc; apply drain_finishes; [done|by eapply aw_reachable_inv|done]|].
  assert (∀ w0, rtc aw_step w0 w → aw_panicked w0 = false → aw_panicked w = true →
    aw_chclosed w = true ∧ ∃ i req, aw_calls w !! i = Some (WriteLoaded req)) as Hgen; [|by apply Hgen with (1 := Hr)].
  clear Hr. induction 1 as [w|w1 w2 w3 [Hp Hstep] Hrest IH]; intros Hp0 Hpw; [congruence|].
  destruct (aw_panicked w2) eqn:Hp2; [|by apply IH].
  assert (w3 = w2) as ->.
  { clear -Hp2 Hrest. inversion Hrest as [|? y ? [? _]]; [done|congruence]. }
  destruct Hstep as [| | |i req Hi| | | | | | |]; simpl in Hp2; try congruence.
  unfold select_send in *. destruct (aw_chclosed w1) eqn:Hch; simpl in *.
  - split; [done|eauto].
  - destruct (len (aw_queue w1) <? aw_cap w1); simpl in Hp2; congruence.
Qed.

(** The race is reachable: [Write] finds the writer open, [Close] closes the
    channel, and the send panics. *)
Theorem write_close_race_panics (req : CapturedRequest) :
  ∃ w, rtc aw_step (NewAsyncWriter 1) w ∧ aw_panicked w = true.
Proof.
  eexists. split.
  - eapply rtc_l; [split; [done|apply (aw_call _ req)]|]. simpl.
    eapply rtc_l; [split; [done|by apply (aw_load _ 0%nat req)]|]. simpl.
    eapply rtc_l; [split; [done|by apply aw_close_store]|]. simpl.
    eapply rtc_l; [split; [done|by apply aw_close_channel]|]. simpl.
    eapply rtc_l; [split; [done|by apply (aw_select _ 0%nat req)]|]. apply rtc_refl.
  - done.
Qed.

(** [Flush] tests only the queue: it can flush the storage writer while an
    accepted request is still on its way to it. *)
Theorem flush_misses_request_in_hand (req : CapturedRequest) :
  ∃ w, rtc aw_step (NewAsyncWriter 1) w ∧ aw_accepted w = [req] ∧ aw_log w = [InnerFlush].
Proof.
  eexists. split.
  - eapply rtc_l; [split; [done|apply (aw_call _ req)]|]. simpl.
    eapply rtc_l; [split; [done|by apply (aw_load _ 0%nat req)]|]. simpl.
    eapply rtc_l; [split; [done|by apply (aw_select _ 0%nat req)]|]. simpl.
    eapply rtc_l; [split; [done|by apply (aw_recv _ req [])]|]. simpl.
    eapply rtc_l; [split; [done|by apply aw_flush]|]. apply rtc_refl.
  - done.
Qed.

(** ** Concrete runs *)

(** One request accepted and stored, then [Close] up to waiting for the drain. *)
Definition demo_waiting : AsyncWriter :=
  MkAsyncWriter 1 [] true true [WriteDone (demo_request "a") None] DrainRecv CloseWaiting 0 0
    [InnerWrite (demo_request "a")] [demo_request "a"] false.

Lemma demo_waiting_reachable : rtc aw_step (NewAsyncWriter 1) demo_waiting.
Proof.
  eapply rtc_l; [split; [done|apply (aw_call _ (demo_request "a"))]|]. simpl.
  eapply rtc_l; [split; [done|by apply (aw_load _ 0%nat (demo_request "a"))]|]. simpl.
  eapply rtc_l; [split; [done|by apply (aw_select _ 0%nat (demo_request "a"))]|]. simpl.
  eapply rtc_l; [split; [done|by apply (aw_recv _ (demo_request "a") [])]|]. simpl.
  eapply rtc_l; [split; [done|by apply (aw_write _ (demo_request "a") false)]|]. simpl.
  eapply rtc_l; [split; [done|by apply aw_close_store]|]. simpl.
  eapply rtc_l; [split; [done|by apply aw_close_channel]|]. simpl.
  apply rtc_refl.
Qed.

Lemma async_writer_loses_nothing_witness :
  aw_accepted demo_waiting = inner_writes (aw_log demo_waiting) ++ [] ++ [].
Proof. exact (proj1 (proj2 (async_writer_loses_nothing 1 demo_waiting demo_waiting_reachable))). Defined.

Lemma async_close_finishes_witness :
  ∃ w', rtc aw_step demo_waiting w' ∧ aw_closer w' = CloseDone.
Proof. exact (proj1 (async_close_finishes 1 demo_waiting demo_waiting_reachable) eq_refl eq_refl). Defined.
