(* ===== verification/Checkpoint.v ===== *)
(** * Replay checkpoints ([internal/plugin/replay/checkpoint.go])

    The checkpointer keeps the progress of a replay in memory and writes it to a
    file with the usual protocol: write a temporary file, [fsync], [rename].
    The file system is a map from paths to contents that remembers whether a
    content has been synced; a crash keeps synced contents and leaves the others
    arbitrary.  Every system call may fail, and a crash may come at any of the
    states a write goes through (so a rename whose directory entry has not
    reached the disk is a crash just before it).  JSON is the standard
    library's, a parameter with its round-trip law.

    A run is the sequence of what the engine and the periodic flusher do between
    [Start] and the end of the process: results, object keys, filtered counts,
    ticks and [Stop].  [flush] copies the checkpoint under the mutex and
    writes the copy outside it; an update made during the write is the same as
    one made after it. *)

From S2P Require Import Prelude GoStd Storage Engine.

Local Open Scope Z_scope.

Record CheckpointEngineParams := {
  cep_RateMode : RateMode;
  cep_RatePerSecond : float64;
  cep_TimeScale : float64;
  cep_Concurrency : Z;
  cep_StorageType : string
}.

Record Checkpoint := {
  cp_ReplayID : string;
  cp_CaptureID : string;
  cp_LastObjectKey : string;
  cp_LastRequestID : string;
  cp_RequestsSent : Z;
  cp_RequestsErrored : Z;
  cp_RequestsFiltered : Z;
  cp_BytesProcessed : Z;
  cp_StartTime : Z;
  cp_LastUpdate : Z;
  cp_ElapsedDuration : Z;
  cp_EngineParams : CheckpointEngineParams
}.

Definition is_ascii (s : string) : bool :=
  forallb (λ c, N.ltb (Ascii.N_of_ascii c) 128) (String.list_ascii_of_string s).

(** JSON replaces what is not UTF-8, so only checkpoints of ASCII strings are
    promised to survive. *)
Definition cp_ascii (cp : Checkpoint) : Prop :=
  forallb is_ascii [cp_ReplayID cp; cp_CaptureID cp; cp_LastObjectKey cp; cp_LastRequestID cp;
                    cep_StorageType (cp_EngineParams cp)] = true.

#[global] Instance cp_ascii_dec cp : Decision (cp_ascii cp).
Proof. unfold cp_ascii. apply _. Defined.

(** [json.MarshalIndent] and [json.Unmarshal] on checkpoints. *)
Class CheckpointCodec := {
  cp_Marshal : Checkpoint → result string;
  cp_Unmarshal : string → result Checkpoint;
  cp_unmarshal_marshal : ∀ cp data, cp_ascii cp → cp_Marshal cp = Ok data → cp_Unmarshal data = Ok cp
}.

(** ** The file system *)

Record file := { f_data : string; f_synced : bool }.

Abbreviation filesystem := (gmap string file).

(** What may be on disk after a crash. *)
Definition crash (w w' : filesystem) : Prop :=
  ∀ p, match w !! p with
       | None => w' !! p = None
       | Some f => ∃ f', w' !! p = Some f' ∧ f_synced f' = true ∧ (f_synced f = true → f_data f' = f_data f)
       end.

(** The outcomes of the five system calls of one write: an error, or none; a
    failed write may have written a part of the data. *)
Record write_outcomes := {
  wo_open : option go_error;
  wo_write : option (string * go_error);
  wo_sync : option go_error;
  wo_close : option go_error;
  wo_rename : option go_error
}.

Definition all_ok : write_outcomes :=
  {| wo_open := None; wo_write := None; wo_sync := None; wo_close := None; wo_rename := None |}.

Definition rename (from to : string) (w : filesystem) : filesystem :=
  match w !! from with
  | Some f => <[to := f]> (delete from w)
  | None => w
  end.

(** ** The checkpointer *)

(** [ck_flusher]: nil before [Start], then whether [Stop] has closed the stop
    channel. *)
Record Checkpointer := MkCheckpointer {
  ck_dir : string;
  ck_current : option Checkpoint;
  ck_dirty : bool;
  ck_flusher : option bool
}.

Definition NewCheckpointer (dir : string) (mkdir : option go_error) : result Checkpointer :=
  if bool_decide (dir = "") then Err (FmtError "checkpoint directory is required" [])
  else match mkdir with
  | Some err => Err (WrapError "create checkpoint dir: %w" [] err)
  | None => Ok (MkCheckpointer dir None false None)
  end.

Definition checkpointPath (c : Checkpointer) (replayID : string) : string :=
  path_Join [ck_dir c; "replay-" +:+ replayID +:+ ".checkpoint.json"].

Section Checkpointing.
Context {CC : CheckpointCodec}.

(** [Load]; a file that exists can be read. *)
Definition Load (c : Checkpointer) (replayID : string) (w : filesystem) : result (option Checkpoint) :=
  match w !! checkpointPath c replayID with
  | None => Ok None
  | Some f =>
      match cp_Unmarshal (f_data f) with
      | Err err => Err (WrapError "unmarshal checkpoint: %w" [] err)
      | Ok cp => Ok (Some cp)
      end
  end.

Definition Start (initial : Checkpoint) (c : Checkpointer) : Checkpointer :=
  MkCheckpointer (ck_dir c) (Some initial) (ck_dirty c) (Some false).

Definition with_LastUpdate (t : Z) (cp : Checkpoint) : Checkpoint :=
  {| cp_ReplayID := cp_ReplayID cp; cp_CaptureID := cp_CaptureID cp;
     cp_LastObjectKey := cp_LastObjectKey cp; cp_LastRequestID := cp_LastRequestID cp;
     cp_RequestsSent := cp_RequestsSent cp; cp_RequestsErrored := cp_RequestsErrored cp;
     cp_RequestsFiltered := cp_RequestsFiltered cp; cp_BytesProcessed := cp_BytesProcessed cp;
     cp_StartTime := cp_StartTime cp; cp_LastUpdate := t;
     cp_ElapsedDuration := cp_ElapsedDuration cp; cp_EngineParams := cp_EngineParams cp |}.

Definition Update (now : Z) (fn : Checkpoint → Checkpoint) (c : Checkpointer) : Checkpointer :=
  match ck_current c with
  | Some cp => MkCheckpointer (ck_dir c) (Some (with_LastUpdate now (fn cp))) true (ck_flusher c)
  | None => c
  end.

(** The states the disk goes through, the last one first, and the answer. *)
Definition writeCheckpoint (o : write_outcomes) (cp : Checkpoint) (c : Checkpointer) (w : filesystem)
    : list filesystem * option go_error :=
  match cp_Marshal cp with
  | Err err => ([w], Some (WrapError "marshal checkpoint: %w" [] err))
  | Ok data =>
      let path := checkpointPath c (cp_ReplayID cp) in
      let tmpPath := path +:+ ".tmp" in
      match wo_open o with
      | Some err => ([w], Some (WrapError "create checkpoint tmp: %w" [] err))
      | None =>
          let w1 := <[tmpPath := {| f_data := ""; f_synced := false |}]> w in
          match wo_write o with
          | Some (part, err) =>
              ([<[tmpPath := {| f_data := part; f_synced := false |}]> w; w1; w],
               Some (WrapError "write checkpoint tmp: %w" [] err))
          | None =>
              let w2 := <[tmpPath := {| f_data := data; f_synced := false |}]> w in
              match wo_sync o with
              | Some err => ([w2; w1; w], Some (WrapError "fsync checkpoint tmp: %w" [] err))
              | None =>
                  let w3 := <[tmpPath := {| f_data := data; f_synced := true |}]> w in
                  match wo_close o with
                  | Some err => ([w3; w2; w1; w], Some (WrapError "close checkpoint tmp: %w" [] err))
                  | None =>
                      match wo_rename o with
                      | Some err => ([w3; w2; w1; w], Some (WrapError "rename checkpoint: %w" [] err))
                      | None => ([rename tmpPath path w3; w3; w2; w1; w], None)
                      end
                  end
              end
          end
      end
  end.

(** [flush] writes a copy of the current checkpoint when it is dirty. *)
Definition flush (o : write_outcomes) (c : Checkpointer) (w : filesystem)
    : Checkpointer * list filesystem * option go_error :=
  match ck_current c with
  | Some cp =>
      if ck_dirty c then
        let c := MkCheckpointer (ck_dir c) (ck_current c) false (ck_flusher c) in
        let '(ws, err) := writeCheckpoint o cp c w in (c, ws, err)
      else (c, [w], None)
  | None => (c, [w], None)
  end.

(** [Stop]: closing the stop channel twice panics. *)
Definition Stop (o : write_outcomes) (c : Checkpointer) (w : filesystem)
    : go (Checkpointer * list filesystem * option go_error) :=
  match ck_flusher c with
  | None => Ret (c, [w], None)
  | Some true => Panic
  | Some false =>
      Ret (flush o (MkCheckpointer (ck_dir c) (ck_current c) (ck_dirty c) (Some true)) w)
  end.

Definition Delete (c : Checkpointer) (replayID : string) (w : filesystem) : filesystem :=
  delete (checkpointPath c replayID) w.

(** The update of [CheckpointResultHandler.HandleResult]. *)
Definition record_result (elapsed : Z) (result : Result) (cp : Checkpoint) : Checkpoint :=
  let ok := match res_Error result with None => true | Some _ => false end in
  {| cp_ReplayID := cp_ReplayID cp; cp_CaptureID := cp_CaptureID cp;
     cp_LastObjectKey := cp_LastObjectKey cp;
     cp_LastRequestID := if ok then res_RequestID result else cp_LastRequestID cp;
     cp_RequestsSent := if ok then int64 (cp_RequestsSent cp + 1) else cp_RequestsSent cp;
     cp_RequestsErrored := if ok then cp_RequestsErrored cp else int64 (cp_RequestsErrored cp + 1);
     cp_RequestsFiltered := cp_RequestsFiltered cp;
     cp_BytesProcessed := if ok then int64 (cp_BytesProcessed cp + str_len (res_ResponseBody result))
                          else cp_BytesProcessed cp;
     cp_StartTime := cp_StartTime cp; cp_LastUpdate := cp_LastUpdate cp;
     cp_ElapsedDuration := elapsed; cp_EngineParams := cp_EngineParams cp |}.

Definition with_LastObjectKey (key : string) (cp : Checkpoint) : Checkpoint :=
  {| cp_ReplayID := cp_ReplayID cp; cp_CaptureID := cp_CaptureID cp;
     cp_LastObjectKey := key; cp_LastRequestID := cp_LastRequestID cp;
     cp_RequestsSent := cp_RequestsSent cp; cp_RequestsErrored := cp_RequestsErrored cp;
     cp_RequestsFiltered := cp_RequestsFiltered cp; cp_BytesProcessed := cp_BytesProcessed cp;
     cp_StartTime := cp_StartTime cp; cp_LastUpdate := cp_LastUpdate cp;
     cp_ElapsedDuration := cp_ElapsedDuration cp; cp_EngineParams := cp_EngineParams cp |}.

Definition UpdateObjectKey (now : Z) (key : string) (c : Checkpointer) : Checkpointer :=
  Update now (with_LastObjectKey key) c.

Definition add_filtered (n : Z) (cp : Checkpoint) : Checkpoint :=
  {| cp_ReplayID := cp_ReplayID cp; cp_CaptureID := cp_CaptureID cp;
     cp_LastObjectKey := cp_LastObjectKey cp; cp_LastRequestID := cp_LastRequestID cp;
     cp_RequestsSent := cp_RequestsSent cp; cp_RequestsErrored := cp_RequestsErrored cp;
     cp_RequestsFiltered := int64 (cp_RequestsFiltered cp + n); cp_BytesProcessed := cp_BytesProcessed cp;
     cp_StartTime := cp_StartTime cp; cp_LastUpdate := cp_LastUpdate cp;
     cp_ElapsedDuration := cp_ElapsedDuration cp; cp_EngineParams := cp_EngineParams cp |}.

Definition IncrementFiltered (now n : Z) (c : Checkpointer) : Checkpointer :=
  Update now (add_filtered n) c.

(** [inner] is the answer of the wrapped handler. *)
Definition CheckpointResultHandler_HandleResult (now elapsed : Z) (inner : option go_error)
    (result : Result) (c : Checkpointer) : Checkpointer * option go_error :=
  match inner with
  | Some err => (c, Some err)
  | None => (Update now (record_result elapsed result) c, None)
  end.

(** ** Runs *)

Inductive ck_event :=
| HandledResult (now elapsed : Z) (inner : option go_error) (r : Result)
| ObjectDone (now : Z) (key : string)
| Filtered (now n : Z)
| Tick (o : write_outcomes)
| Stopping (o : write_outcomes).

(** One event: the checkpointer after it, the disks it goes through (the last
    one first), and the error of the write, if there was one.  The flush loop
    ticks only between [Start] and [Stop]. *)
Definition ck_exec (e : ck_event) (c : Checkpointer) (w : filesystem)
    : go (Checkpointer * list filesystem * option go_error) :=
  match e with
  | HandledResult now elapsed inner r =>
      Ret (fst (CheckpointResultHandler_HandleResult now elapsed inner r c), [w], None)
  | ObjectDone now key => Ret (UpdateObjectKey now key c, [w], None)
  | Filtered now n => Ret (IncrementFiltered now n c, [w], None)
  | Tick o => if decide (ck_flusher c = Some false) then Ret (flush o c w) else Ret (c, [w], None)
  | Stopping o => Stop o c w
  end.

(** The checkpointer, the disks of the whole run, the values the checkpoint has
    had after each event and the outcomes of the writes, all with the last one
    first. *)
Fixpoint ck_run (es : list ck_event) (c : Checkpointer) (w : filesystem) (ws : list filesystem)
    (cps : list Checkpoint) (errs : list (option go_error))
    : go (Checkpointer * list filesystem * list Checkpoint * list (option go_error)) :=
  match es with
  | [] => Ret (c, ws, cps, errs)
  | e :: es =>
      match ck_exec e c w with
      | Panic => Panic
      | Ret (c, new, err) =>
          let cps := match ck_current c with Some cp => cp :: cps | None => cps end in
          ck_run es c (hd w new) (new ++ ws) cps (err :: errs)
      end
  end.

Definition ck_start (es : list ck_event) (initial : Checkpoint) (c : Checkpointer) (w : filesystem) :=
  ck_run es (Start initial c) w [w] [initial] [].

(** ** Lemmas *)

Lemma tmp_ne_path (p : string) : p +:+ ".tmp" ≠ p.
Proof.
  intros Heq. apply (f_equal String.length) in Heq. rewrite append_length in Heq. simpl in Heq. lia.
Qed.

(** A crash cannot change what a synced file holds. *)
Lemma crash_lookup w w' p f : crash w w' → w !! p = Some f → f_synced f = true →
  ∃ f', w' !! p = Some f' ∧ f_data f' = f_data f.
Proof. intros Hc Hp Hs. specialize (Hc p). rewrite Hp in Hc. destruct Hc as (f' & ? & _ & ?). eauto. Qed.

Definition synced_at (p : string) (w : filesystem) : Prop := ∀ f, w !! p = Some f → f_synced f = true.

Lemma crash_Load w w' c id : crash w w' → synced_at (checkpointPath c id) w → Load c id w' = Load c id w.
Proof.
  intros Hc Hs. unfold Load. destruct (w !! checkpointPath c id) as [f|] eqn:E.
  - destruct (crash_lookup _ _ _ _ Hc E (Hs f E)) as (f' & -> & ->). done.
  - specialize (Hc (checkpointPath c id)). rewrite E in Hc. by rewrite Hc.
Qed.

Lemma Load_ne c id p f w : p ≠ checkpointPath c id → Load c id (<[p := f]> w) = Load c id w.
Proof. intros Hne. unfold Load. by rewrite lookup_insert_ne. Qed.

Lemma synced_ne c id p f w : p ≠ checkpointPath c id →
  synced_at (checkpointPath c id) w → synced_at (checkpointPath c id) (<[p := f]> w).
Proof. intros Hne Hs g. rewrite lookup_insert_ne by done. apply Hs. Qed.

(** The checkpoint file [c] keeps for [id] is synced and reads [v]. *)
Definition holds (c : Checkpointer) (id : string) (v : result (option Checkpoint)) (w : filesystem) : Prop :=
  synced_at (checkpointPath c id) w ∧ Load c id w = v.

(** The states a write goes through: the file itself is untouched until the
    rename installs the whole new content, synced. *)
Lemma write_states o cp c w ws r v :
  cp_ascii cp → writeCheckpoint o cp c w = (ws, r) → holds c (cp_ReplayID cp) v w →
  Forall (λ st, holds c (cp_ReplayID cp) v st ∨ holds c (cp_ReplayID cp) (Ok (Some cp)) st) ws ∧
  holds c (cp_ReplayID cp) (if r is Some _ then v else Ok (Some cp)) (hd w ws) ∧ ws ≠ [].
Proof.
  intros Hasc Hw [Hs Hv]. unfold writeCheckpoint in Hw. destruct (cp_Marshal cp) as [data|e] eqn:Hm.
  2:{ injection Hw as <- <-. split; [|by split]. constructor; [left; by split|constructor]. }
  set (path := checkpointPath c (cp_ReplayID cp)) in *. set (tmp := path +:+ ".tmp") in *.
  assert (tmp ≠ path) as Hne by apply tmp_ne_path.
  assert (∀ f, holds c (cp_ReplayID cp) v (<[tmp := f]> w)) as Htmp.
  { intros f. split; [by apply synced_ne|by rewrite Load_ne]. }
  set (fin := rename tmp path _) in Hw.
  assert (holds c (cp_ReplayID cp) (Ok (Some cp)) fin) as Hfin.
  { subst fin. unfold rename. rewrite lookup_insert_eq. split.
    - intros g. rewrite lookup_insert_eq. by intros [= <-].
    - unfold Load. fold path. rewrite lookup_insert_eq. simpl.
      by rewrite (cp_unmarshal_marshal _ _ Hasc Hm). }
  assert (holds c (cp_ReplayID cp) v w) as Hw0 by done.
  clearbody fin. clear Hs Hv.
  repeat case_match; simplify_eq/=; (split; [|by split]);
    repeat (apply List.Forall_cons; [by auto|]); apply List.Forall_nil.
Qed.

(** What an event leaves alone. *)
Lemma Update_frame now fn c cp : (∀ x, cp_ReplayID (fn x) = cp_ReplayID x) → ck_current c = Some cp →
  ck_dir (Update now fn c) = ck_dir c ∧ ck_dirty (Update now fn c) = true ∧
  ∃ cp', ck_current (Update now fn c) = Some cp' ∧ cp_ReplayID cp' = cp_ReplayID cp.
Proof. intros Hid Hc. unfold Update. rewrite Hc. simpl. do 2 (split; [done|]). eexists. split; [done|apply Hid]. Qed.

Lemma flush_spec o c w c' ws r cp v :
  ck_current c = Some cp → cp_ascii cp → flush o c w = (c', ws, r) → holds c (cp_ReplayID cp) v w →
  ck_dir c' = ck_dir c ∧ ck_current c' = Some cp ∧ ck_dirty c' = false ∧ ws ≠ [] ∧
  Forall (λ st, holds c (cp_ReplayID cp) v st ∨ holds c (cp_ReplayID cp) (Ok (Some cp)) st) ws ∧
  holds c (cp_ReplayID cp) (if decide (ck_dirty c = true ∧ r = None) then Ok (Some cp) else v) (hd w ws).
Proof.
  intros Hc Hasc Hf Hv. unfold flush in Hf. rewrite Hc in Hf. destruct (ck_dirty c) eqn:Hd.
  - destruct (writeCheckpoint _ _ _ _) as [ws0 err] eqn:Hw. injection Hf as <- <- <-.
    destruct (write_states _ _ (MkCheckpointer (ck_dir c) (ck_current c) false (ck_flusher c)) _ _ _ v Hasc
      Hw Hv) as (H1 & H2 & H3).
    split_and!; try done. destruct err; case_decide; naive_solver.
  - injection Hf as <- <- <-. split_and!; try done. constructor; [by left|constructor].
Qed.

Section run.
Variables (c0 : Checkpointer) (initial : Checkpoint) (v0 : result (option Checkpoint)).
Abbreviation id := (cp_ReplayID initial).

(** The invariant of a run: the file holds what it held at the start or one of
    the values the checkpoint has had, on every disk of the run; while no
    write has failed, a clean checkpointer has its value in the file. *)
Record run_inv (c : Checkpointer) (w : filesystem) (ws : list filesystem) (cps : list Checkpoint)
    (errs : list (option go_error)) := {
  ri_dir : ck_dir c = ck_dir c0;
  ri_current : ∃ cp, ck_current c = Some cp ∧ cp_ReplayID cp = id ∧ head cps = Some cp;
  ri_disks : Forall (λ st, ∃ v, holds c0 id v st ∧ (v = v0 ∨ ∃ cp, cp ∈ cps ∧ v = Ok (Some cp))) (w :: ws);
  ri_clean : Forall (λ e, e = None) errs → ck_dirty c = false →
    (∃ cp, ck_current c = Some cp ∧ holds c0 id (Ok (Some cp)) w) ∨
    (ck_current c = Some initial ∧ holds c0 id v0 w)
}.

Lemma holds_dir c v w : ck_dir c = ck_dir c0 → holds c id v w ↔ holds c0 id v w.
Proof. intros Hd. unfold holds, Load, checkpointPath. by rewrite Hd. Qed.

Lemma disks_weaken (cps cps' : list Checkpoint) ws :
  (∀ cp, cp ∈ cps → cp ∈ cps') →
  Forall (λ st, ∃ v, holds c0 id v st ∧ (v = v0 ∨ ∃ cp, cp ∈ cps ∧ v = Ok (Some cp))) ws →
  Forall (λ st, ∃ v, holds c0 id v st ∧ (v = v0 ∨ ∃ cp, cp ∈ cps' ∧ v = Ok (Some cp))) ws.
Proof. intros Hsub HF. eapply Forall_impl; [exact HF|]. simpl. intros st (v & Hv & [->|(cp & Hin & ->)]); naive_solver. Qed.

(** An event that only updates the checkpoint. *)
Lemma run_inv_update now fn c w ws cps errs : (∀ x, cp_ReplayID (fn x) = cp_ReplayID x) →
  run_inv c w ws cps errs →
  run_inv (Update now fn c) w (w :: ws)
    (match ck_current (Update now fn c) with Some cp => cp :: cps | None => cps end) (None :: errs).
Proof.
  intros Hid [Hdir (cp & Hc & Hi & Hh) Hws Hcl].
  destruct (Update_frame now fn c cp Hid Hc) as (H1 & H2 & cp' & H3 & H4).
  rewrite H3. constructor.
  - congruence.
  - exists cp'. rewrite H3. split_and!; [done|congruence|done].
  - assert (Forall (λ st, ∃ v, holds c0 id v st ∧ (v = v0 ∨ ∃ x, x ∈ cp' :: cps ∧ v = Ok (Some x))) (w :: ws))
      as HF by (eapply disks_weaken; [|exact Hws]; set_solver).
    constructor; [by apply Forall_cons in HF as [? _]|done].
  - rewrite H2. done.
Qed.

(** An event that changes nothing. *)
Lemma run_inv_idle c w ws cps errs : run_inv c w ws cps errs →
  run_inv c w (w :: ws) (match ck_current c with Some cp => cp :: cps | None => cps end) (None :: errs).
Proof.
  intros [Hdir (cp & Hc & Hi & Hh) Hws Hcl]. rewrite Hc. constructor.
  - done.
  - exists cp. done.
  - assert (Forall (λ st, ∃ v, holds c0 id v st ∧ (v = v0 ∨ ∃ x, x ∈ cp :: cps ∧ v = Ok (Some x))) (w :: ws))
      as HF by (eapply disks_weaken; [|exact Hws]; set_solver).
    constructor; [by apply Forall_cons in HF as [? _]|done].
  - intros HF. apply Forall_cons in HF as [_ HF]. auto.
Qed.

Lemma run_inv_flush o c w ws cps errs c' new r : run_inv c w ws cps errs → Forall cp_ascii cps →
  flush o c w = (c', new, r) →
  run_inv c' (hd w new) (new ++ ws) (match ck_current c' with Some cp => cp :: cps | None => cps end) (r :: errs).
Proof.
  intros [Hdir (cp & Hc & Hi & Hh) Hws Hcl] Hasc Hf.
  assert (cp ∈ cps) as Hin by (destruct cps; simplify_eq/=; set_solver).
  assert (cp_ascii cp) as Ha by (rewrite Forall_forall in Hasc; auto).
  pose proof (proj1 (Forall_cons _ _ _) Hws) as [(v & Hv & Hor) Hws'].
  rewrite <-(holds_dir c) in Hv by done. rewrite <-Hi in Hv.
  destruct (flush_spec o c w c' new r cp v Hc Ha Hf Hv) as (Hd & Hc' & Hdirty & Hne & Hnew & Hhd).
  rewrite Hi in Hv, Hnew, Hhd. rewrite Hc'.
  assert (Forall (λ st, ∃ v, holds c0 id v st ∧ (v = v0 ∨ ∃ x, x ∈ cp :: cps ∧ v = Ok (Some x))) new) as HFn.
  { eapply Forall_impl; [exact Hnew|]. simpl. intros st [Hst|Hst]; rewrite holds_dir in Hst by done.
    - exists v. split; [done|]. destruct Hor as [->|(x & Hx & ->)]; [by left|right; exists x; set_solver].
    - exists (Ok (Some cp)). split; [done|]. right. exists cp. set_solver. }
  constructor.
  - congruence.
  - exists cp. done.
  - constructor.
    + destruct new as [|n new]; [done|]. by apply Forall_cons in HFn as [? _].
    + apply Forall_app. split; [done|]. eapply disks_weaken; [|exact Hws']. set_solver.
  - intros HF _. apply Forall_cons in HF as [-> HF]. rewrite Hc'. rewrite holds_dir in Hhd by done.
    case_decide as Hdec; [left; eauto|].
    assert (ck_dirty c = false) as Hnd by (destruct (ck_dirty c); [by destruct Hdec|done]).
    assert (hd w new = w) as ->.
    { unfold flush in Hf. rewrite Hc, Hnd in Hf. by injection Hf as <- <-. }
    rewrite Hc in Hcl. auto.
Qed.

Lemma run_inv_exec e c w ws cps errs c' new r : run_inv c w ws cps errs → Forall cp_ascii cps →
  ck_exec e c w = Ret (c', new, r) →
  run_inv c' (hd w new) (new ++ ws) (match ck_current c' with Some cp => cp :: cps | None => cps end) (r :: errs).
Proof.
  intros Hinv Hasc He. destruct e; simpl in He.
  - injection He as <- <- <-. destruct inner; simpl; [by apply run_inv_idle|by apply run_inv_update].
  - injection He as <- <- <-. by apply run_inv_update.
  - injection He as <- <- <-. by apply run_inv_update.
  - case_decide; [injection He as He; by eapply run_inv_flush|]. injection He as <- <- <-. by apply run_inv_idle.
  - unfold Stop in He. destruct (ck_flusher c) as [[]|]; [done| |injection He as <- <- <-; by apply run_inv_idle].
    injection He as He. eapply run_inv_flush; [|exact Hasc|exact He].
    destruct Hinv as [? ? ? ?]. by constructor.
Qed.
End run.

Lemma ck_run_cps es c w ws cps errs c' ws' cps' errs' :
  ck_run es c w ws cps errs = Ret (c', ws', cps', errs') → ∃ pre, cps' = pre ++ cps.
Proof.
  revert c w ws cps errs. induction es as [|e es IH]; simpl; intros c w ws cps errs Hr.
  { injection Hr as _ _ <- _. by exists []. }
  destruct (ck_exec e c w) as [[[c1 new] err]|]; [|done].
  apply IH in Hr as (pre & ->). destruct (ck_current c1) as [cp|]; [exists (pre ++ [cp])|by exists pre].
  by rewrite <-app_assoc.
Qed.

Lemma ck_run_inv c0 initial v0 es c w ws cps errs c' ws' cps' errs' :
  run_inv c0 initial v0 c w ws cps errs → hd ∅ ws = w →
  ck_run es c w ws cps errs = Ret (c', ws', cps', errs') → Forall cp_ascii cps' →
  run_inv c0 initial v0 c' (hd ∅ ws') ws' cps' errs'.
Proof.
  revert c w ws cps errs. induction es as [|e es IH]; simpl; intros c w ws cps errs Hinv Hhd Hr Ha.
  { injection Hr as <- <- <- <-. by rewrite Hhd. }
  destruct (ck_exec e c w) as [[[c1 new] err]|] eqn:He; [|done].
  destruct (ck_run_cps _ _ _ _ _ _ _ _ _ _ Hr) as (pre & ->).
  apply Forall_app in Ha as Ha'. destruct Ha' as [_ Ha'].
  eapply IH; [|..|exact Hr|exact Ha].
  - eapply run_inv_exec; [exact Hinv| |exact He].
    destruct (ck_current c1); [by apply Forall_cons in Ha' as [_ ?]|done].
  - destruct new as [|n new]; [done|reflexivity].
Qed.

(** C34: A crash loses at most progress.  Take a checkpoint file that is synced
    (or absent), start the checkpointer on [initial] and let it record results,
    object keys and filtered counts, tick and stop in any order, with any
    system call failing.  If the machine crashes on any disk this run goes
    through, what [Load] then answers is what it answered before the run or
    one of the values the checkpoint has had in the run, whole - never a torn or
    mixed one.  And while no write has failed, a checkpointer with nothing
    pending has its current value on disk: once an update was made, [Load]
    returns exactly it. *)
Theorem checkpoint_crash_safe (c0 : Checkpointer) (initial : Checkpoint) (es : list ck_event)
    (w : filesystem) (c : Checkpointer) (ws : list filesystem) (cps : list Checkpoint)
    (errs : list (option go_error)) :
  synced_at (checkpointPath c0 (cp_ReplayID initial)) w →
  ck_start es initial c0 w = Ret (c, ws, cps, errs) →
  ck_dirty c0 = false → Forall cp_ascii cps →
  (∀ disk w', disk ∈ ws → crash disk w' →
     Load c0 (cp_ReplayID initial) w' = Load c0 (cp_ReplayID initial) w ∨
     ∃ cp, cp ∈ cps ∧ Load c0 (cp_ReplayID initial) w' = Ok (Some cp)) ∧
  (Forall (λ e, e = None) errs → ck_dirty c = false → ck_current c ≠ Some initial →
   ∃ cp, ck_current c = Some cp ∧ Load c0 (cp_ReplayID initial) (hd ∅ ws) = Ok (Some cp)).
Proof.
  intros Hs Hr Hd Ha. set (v0 := Load c0 (cp_ReplayID initial) w).
  assert (run_inv c0 initial v0 c (hd ∅ ws) ws cps errs) as [_ _ Hws Hcl].
  { unfold ck_start in Hr. eapply (ck_run_inv c0 initial v0 es _ w [w]); [|reflexivity|exact Hr|exact Ha]. constructor; simpl.
    - done.
    - exists initial. done.
    - repeat constructor; exists v0; repeat split; auto.
    - right. by repeat split. }
  apply Forall_cons in Hws as [_ Hws]. rewrite Forall_forall in Hws. split.
  - intros disk w' Hin Hc. destruct (Hws disk Hin) as (v & [Hsy Hv] & Hor).
    rewrite (crash_Load _ _ _ _ Hc Hsy), Hv. destruct Hor as [->|(cp & Hcp & ->)]; eauto.
  - intros HF Hnd Hne. destruct (Hcl HF Hnd) as [(cp & Hcp & _ & HL)|[? _]]; [eauto|done].
Qed.

End Checkpointing.

(** ** A concrete run *)

#[global] Instance RateMode_eq_dec : EqDecision RateMode.
Proof. solve_decision. Defined.
#[global] Instance spec_float_eq_dec : EqDecision float64.
Proof. unfold float64. solve_decision. Defined.
#[global] Instance CheckpointEngineParams_eq_dec : EqDecision CheckpointEngineParams.
Proof. solve_decision. Defined.
#[global] Instance Checkpoint_eq_dec : EqDecision Checkpoint.
Proof. solve_decision. Defined.

Definition demo_checkpoint (id : string) (sent bytes t : Z) : Checkpoint :=
  {| cp_ReplayID := "r1"; cp_CaptureID := "c1"; cp_LastObjectKey := ""; cp_LastRequestID := id;
     cp_RequestsSent := sent; cp_RequestsErrored := 0; cp_RequestsFiltered := 0; cp_BytesProcessed := bytes;
     cp_StartTime := 0; cp_LastUpdate := t; cp_ElapsedDuration := t;
     cp_EngineParams := {| cep_RateMode := RateModeUnlimited; cep_RatePerSecond := f64_zero;
                           cep_TimeScale := f64_one; cep_Concurrency := 10; cep_StorageType := "s3" |} |}.

(** A codec that knows two checkpoints. *)
Definition demo_marshal (cp : Checkpoint) : result string :=
  if decide (cp = demo_checkpoint "" 0 0 0) then Ok "{0}"
  else if decide (cp = demo_checkpoint "a" 1 0 7) then Ok "{1}"
  else Err (Sentinel "json: unsupported value").

Definition demo_unmarshal (data : string) : result Checkpoint :=
  if decide (data = "{0}") then Ok (demo_checkpoint "" 0 0 0)
  else if decide (data = "{1}") then Ok (demo_checkpoint "a" 1 0 7)
  else Err (Sentinel "unexpected end of JSON input").

Lemma demo_round_trip cp data : cp_ascii cp → demo_marshal cp = Ok data → demo_unmarshal data = Ok cp.
Proof. intros _. unfold demo_marshal. repeat case_decide; intros [= <-]; by subst. Qed.

#[local] Instance demo_codec : CheckpointCodec :=
  {| cp_Marshal := demo_marshal; cp_Unmarshal := demo_unmarshal; cp_unmarshal_marshal := demo_round_trip |}.

Definition demo_checkpointer : Checkpointer := MkCheckpointer "/data" None false None.

(** A result, a tick and [Stop]. *)
Definition demo_events (tick : write_outcomes) : list ck_event :=
  [HandledResult 7 7 None (demo_result "a"); Tick tick; Stopping all_ok].

Definition disk_full : write_outcomes :=
  {| wo_open := None; wo_write := Some ("{", Sentinel "no space left on device"); wo_sync := None;
     wo_close := None; wo_rename := None |}.

Definition demo_outcome (es : list ck_event) :=
  match ck_start es (demo_checkpoint "" 0 0 0) demo_checkpointer ∅ with
  | Ret x => x
  | Panic => (demo_checkpointer, [], [], [])
  end.

Definition no_panic {A} (m : go A) : bool := match m with Ret _ => true | Panic => false end.

Lemma demo_outcome_ok es :
  no_panic (ck_start es (demo_checkpoint "" 0 0 0) demo_checkpointer ∅) = true →
  ck_start es (demo_checkpoint "" 0 0 0) demo_checkpointer ∅ = Ret (demo_outcome es).
Proof. unfold demo_outcome. by destruct (ck_start _ _ _ _). Qed.

Lemma checkpoint_crash_safe_witness :
  let '(c, ws, cps, errs) := demo_outcome (demo_events all_ok) in
  length ws = 8%nat ∧
  (∀ disk w', disk ∈ ws → crash disk w' →
     Load demo_checkpointer "r1" w' = Ok None ∨
     ∃ cp, cp ∈ cps ∧ Load demo_checkpointer "r1" w' = Ok (Some cp)) ∧
  ∃ cp, ck_current c = Some cp ∧ Load demo_checkpointer "r1" (hd ∅ ws) = Ok (Some cp).
Proof.
  assert (length (demo_outcome (demo_events all_ok)).1.1.2 = 8%nat) as Hlen by (vm_compute; reflexivity).
  assert ((demo_outcome (demo_events all_ok)).2 = [None; None; None]) as Herr by (vm_compute; reflexivity).
  assert (ck_dirty (demo_outcome (demo_events all_ok)).1.1.1 = false) as Hd by (vm_compute; reflexivity).
  assert (ck_current (demo_outcome (demo_events all_ok)).1.1.1 = Some (demo_checkpoint "a" 1 0 7)) as Hcur
    by (vm_compute; reflexivity).
  assert (forallb (λ cp, bool_decide (cp_ascii cp)) (demo_outcome (demo_events all_ok)).1.2 = true) as Hcps
    by (vm_compute; reflexivity).
  assert (ck_start (demo_events all_ok) (demo_checkpoint "" 0 0 0) demo_checkpointer ∅ =
    Ret (demo_outcome (demo_events all_ok))) as Hr by (apply demo_outcome_ok; vm_compute; reflexivity).
  destruct (demo_outcome (demo_events all_ok)) as [[[c ws] cps] errs].
  split; [exact Hlen|].
  destruct (checkpoint_crash_safe demo_checkpointer (demo_checkpoint "" 0 0 0) (demo_events all_ok) ∅ c ws cps errs)
    as [Hcrash Hclean].
  - intros f Hf. by rewrite lookup_empty in Hf.
  - exact Hr.
  - reflexivity.
  - apply Forall_forall. intros cp Hin. rewrite forallb_forall in Hcps.
    apply (bool_decide_unpack (cp_ascii cp)), Is_true_true_2, Hcps, list_elem_of_In, Hin.
  - split; [exact Hcrash|]. apply Hclean; simpl in *; [rewrite Herr; repeat constructor|exact Hd|].
    rewrite Hcur. discriminate.
Defined.

(** ** Findings *)

(** A tick clears [dirty] before the write; when the write fails, [Stop] has
    nothing to flush and reports success although no checkpoint is on disk. *)
Theorem failed_tick_loses_checkpoint :
  let '(c, ws, cps, errs) := demo_outcome (demo_events disk_full) in
  head errs = Some None ∧ ck_flusher c = Some true ∧ ck_current c = Some (demo_checkpoint "a" 1 0 7) ∧
  Load demo_checkpointer "r1" (hd ∅ ws) = Ok None.
Proof. vm_compute. split_and!; reflexivity. Qed.

(** A second [Stop] closes a closed channel. *)
Theorem second_stop_panics (CC : CheckpointCodec) initial o1 o2 c w c' ws err :
  Stop o1 (Start initial c) w = Ret (c', ws, err) → Stop o2 c' (hd w ws) = Panic.
Proof.
  unfold Stop, Start. simpl. unfold flush. simpl. intros Hs.
  assert (ck_flusher c' = Some true) as ->; [|done].
  destruct (ck_dirty c); [|by simplify_eq].
  destruct (writeCheckpoint _ _ _ _). by simplify_eq.
Qed.
