(* ===== verification/Preshard.v ===== *)
(** * Presharding a capture ([internal/dataset])

    [Preshard] ([preshard.go]) streams a capture once and routes every request to
    the writer of its shard; [manifest.go] describes the slices.  The storage
    writers are used through the interface [StorageWriter], which the buffered
    object writer of [Storage] implements; the factory that creates them, the
    hash and the JSON of a manifest are parameters. *)

From S2P Require Import Prelude GoStd GoTime Storage Readers Shard Engine.

Local Open Scope Z_scope.

(** ** Manifests *)

Definition ManifestFormatVersion : Z := 1.

Record Manifest := {
  mf_FormatVersion : Z;
  mf_CaptureID : string;
  mf_RecordCount : Z;
  mf_SHA256 : string;
  mf_ShardIndex : option Z;
  mf_ShardCount : option Z;
  mf_SourceCaptureID : string;
  mf_CreatedAt : Z
}.

Definition Manifest_Validate (m : Manifest) : option go_error :=
  if mf_FormatVersion m <=? 0 then Some (FmtError "manifest has no formatVersion" [])
  else if ManifestFormatVersion <? mf_FormatVersion m then
    Some (FmtError "manifest formatVersion %d is newer than supported version %d; upgrade the replay engine"
            [FInt (mf_FormatVersion m); FInt ManifestFormatVersion])
  else if mf_RecordCount m <? 0 then
    Some (FmtError "manifest recordCount %d is negative" [FInt (mf_RecordCount m)])
  else None.

(** [encoding/json] on manifests. *)
Class ManifestCodec := {
  mf_Marshal : Manifest → result string;
  mf_Unmarshal : string → result Manifest;
  mf_unmarshal_marshal : ∀ m data, mf_Marshal m = Ok data → mf_Unmarshal data = Ok m
}.

Definition ParseManifest {MC : ManifestCodec} (data : string) : result Manifest :=
  match mf_Unmarshal data with
  | Err err => Err (WrapError "parse manifest: %w" [] err)
  | Ok m => match Manifest_Validate m with Some err => Err err | None => Ok m end
  end.

(** ** The storage writer, as [Preshard] sees it

    [storage.Writer]: a successful [Write] appends the request to those the
    writer has taken, which a successful [Close] leaves stored; a failing one may
    have appended it. *)
Class StorageWriter (Wr : Type) := {
  sw_Write : CapturedRequest → Wr → Wr * option go_error;
  sw_Flush : Wr → Wr * option go_error;
  sw_Close : Wr → Wr * option go_error;
  sw_taken : Wr → list CapturedRequest;
  sw_stored : Wr → Prop;
  sw_write_ok : ∀ r w w', sw_Write r w = (w', None) → sw_taken w' = sw_taken w ++ [r];
  sw_write_err : ∀ r w w' e, sw_Write r w = (w', Some e) → sw_taken w' = sw_taken w ∨ sw_taken w' = sw_taken w ++ [r];
  sw_flush_taken : ∀ w w' e, sw_Flush w = (w', e) → sw_taken w' = sw_taken w;
  sw_close_taken : ∀ w w' e, sw_Close w = (w', e) → sw_taken w' = sw_taken w;
  sw_close_ok : ∀ w w', sw_Close w = (w', None) → sw_stored w'
}.

Record PreshardResult := { psr_Total : Z; psr_ShardCounts : list Z }.

Section Preshard.
Context {R : Type} (Next : R → R * result CapturedRequest).
Context {Wr : Type} {SW : StorageWriter Wr} {CO : RequestCodec} {MC : ManifestCodec}.
Context {F : Type} (NewWriter : string → F → F * result Wr)
  (PutManifest : option (string → string → F → F * option go_error)) (sha256_hex : string → string).

Definition closeWriters (ws : list Wr) : list Wr := (λ w, fst (sw_Close w)) <$> ws.

(** The writers of shards [i], [i+1], ...; those created before an error are
    closed. *)
Fixpoint create_writers (captureID : string) (shardCount : Z) (todo : nat) (i : Z) (ws : list Wr) (f : F)
    : F * list Wr * option go_error :=
  match todo with
  | O => (f, ws, None)
  | S todo =>
      match NewWriter (ShardSliceCaptureID captureID i shardCount) f with
      | (f, Err err) => (f, closeWriters ws, Some (WrapError "create shard %d writer: %w" [FInt i] err))
      | (f, Ok w) => create_writers captureID shardCount todo (i + 1) (ws ++ [w]) f
      end
  end.

(** What the loop has done: the writers, the text each digest has seen and the
    counts. *)
Record progress := Progress {
  pg_writers : list Wr;
  pg_digests : list string;
  pg_counts : list Z;
  pg_total : Z
}.

Definition io_EOF : string := "EOF".

(** One request: to the writer of its shard, its line to the digest, counted.
    The index is in range ([ShardIndexOf] is below the number of writers), so the
    [None] branch, where Go would panic, is never taken. *)
Definition route (shardCount : Z) (req : CapturedRequest) (p : progress) : progress * option go_error :=
  let shard := ShardIndexOf (cr_ID req) shardCount in
  let k := Z.to_nat shard in
  match pg_writers p !! k with
  | None => (p, None)
  | Some w =>
      match sw_Write req w with
      | (w, Some err) =>
          (Progress (closeWriters (<[k := w]> (pg_writers p))) (pg_digests p) (pg_counts p) (pg_total p),
           Some (WrapError "write shard %d: %w" [FInt shard] err))
      | (w, None) =>
          let ws := <[k := w]> (pg_writers p) in
          match json_Marshal req with
          | Err err =>
              (Progress (closeWriters ws) (pg_digests p) (pg_counts p) (pg_total p),
               Some (WrapError "marshal request for digest: %w" [] err))
          | Ok line =>
              (Progress ws (alter (λ t, t +:+ line +:+ newline) k (pg_digests p))
                 (alter (λ n, int64 (n + 1)) k (pg_counts p)) (int64 (pg_total p + 1)), None)
          end
      end
  end.

(** The streaming loop; [None] when the fuel runs out. *)
Fixpoint preshard_loop (shardCount : Z) (fuel : nat) (r : R) (p : progress)
    : option (R * progress * option go_error) :=
  match fuel with
  | O => None
  | S fuel =>
      match Next r with
      | (r, Err err) =>
          if is_done err || errors_Is err io_EOF then Some (r, p, None)
          else Some (r, Progress (closeWriters (pg_writers p)) (pg_digests p) (pg_counts p) (pg_total p),
                     Some (WrapError "read capture: %w" [] err))
      | (r, Ok req) =>
          match route shardCount req p with
          | (p, Some err) => Some (r, p, Some err)
          | (p, None) => preshard_loop shardCount fuel r p
          end
      end
  end.

(** Flushing and closing every slice; [done_] are closed already. *)
Fixpoint finish_writers (i : Z) (done_ ws : list Wr) : list Wr * option go_error :=
  match ws with
  | [] => (done_, None)
  | w :: ws =>
      match sw_Flush w with
      | (w, Some err) => (closeWriters (done_ ++ w :: ws), Some (WrapError "flush shard %d: %w" [FInt i] err))
      | (w, None) =>
          match sw_Close w with
          | (w, Some err) => (done_ ++ w :: closeWriters ws, Some (WrapError "close shard %d: %w" [FInt i] err))
          | (w, None) => finish_writers (i + 1) (done_ ++ [w]) ws
          end
      end
  end.

Definition slice_manifest (captureID : string) (shardCount now i : Z) (p : progress) : Manifest :=
  {| mf_FormatVersion := ManifestFormatVersion;
     mf_CaptureID := ShardSliceCaptureID captureID i shardCount;
     mf_RecordCount := default 0 (pg_counts p !! Z.to_nat i);
     mf_SHA256 := sha256_hex (default "" (pg_digests p !! Z.to_nat i));
     mf_ShardIndex := Some (int32 i); mf_ShardCount := Some (int32 shardCount);
     mf_SourceCaptureID := captureID; mf_CreatedAt := now |}.

Fixpoint put_manifests (put : string → string → F → F * option go_error) (captureID : string)
    (shardCount now : Z) (p : progress) (todo : nat) (i : Z) (f : F) : F * option go_error :=
  match todo with
  | O => (f, None)
  | S todo =>
      let m := slice_manifest captureID shardCount now i p in
      match mf_Marshal m with
      | Err err => (f, Some (WrapError "marshal shard %d manifest: %w" [FInt i] err))
      | Ok data =>
          match put (mf_CaptureID m) data f with
          | (f, Some err) => (f, Some (WrapError "write shard %d manifest: %w" [FInt i] err))
          | (f, None) => put_manifests put captureID shardCount now p todo (i + 1) f
          end
      end
  end.

(** [Preshard] over an opened reader ([opened] is the answer of [Open]).  It
    returns the factory, the writers and the result; [None] when the fuel runs
    out. *)
Definition Preshard (opened : option go_error) (captureID : string) (shardCount now : Z) (fuel : nat) (r : R) (f : F)
    : option (F * list Wr * result PreshardResult) :=
  if shardCount <? 2 then Some (f, [], Err (FmtError "shard count must be >= 2, got %d" [FInt shardCount]))
  else if bool_decide (captureID = "") then Some (f, [], Err (FmtError "capture ID is required" []))
  else match opened with
  | Some err => Some (f, [], Err (WrapError "open reader: %w" [] err))
  | None =>
      match create_writers captureID shardCount (Z.to_nat shardCount) 0 [] f with
      | (f, ws, Some err) => Some (f, ws, Err err)
      | (f, ws, None) =>
          let n := Z.to_nat shardCount in
          match preshard_loop shardCount fuel r (Progress ws (replicate n "") (replicate n 0) 0) with
          | None => None
          | Some (_, p, Some err) => Some (f, pg_writers p, Err err)
          | Some (_, p, None) =>
              match finish_writers 0 [] (pg_writers p) with
              | (ws, Some err) => Some (f, ws, Err err)
              | (ws, None) =>
                  let ok := Ok {| psr_Total := pg_total p; psr_ShardCounts := pg_counts p |} in
                  match PutManifest with
                  | None => Some (f, ws, ok)
                  | Some put =>
                      match put_manifests put captureID shardCount now p n 0 f with
                      | (f, Some err) => Some (f, ws, Err err)
                      | (f, None) => Some (f, ws, ok)
                      end
                  end
              end
          end
      end
  end.

(** ** What presharding produces *)

(** The part of a capture that belongs to shard [i]. *)
Definition slice (shardCount : Z) (i : nat) (reqs : list CapturedRequest) : list CapturedRequest :=
  List.filter (λ r, ShardIndexOf (cr_ID r) shardCount =? Z.of_nat i) reqs.

Lemma slice_snoc n i reqs r : slice n i (reqs ++ [r]) =
  if ShardIndexOf (cr_ID r) n =? Z.of_nat i then slice n i reqs ++ [r] else slice n i reqs.
Proof. unfold slice. rewrite List.filter_app. simpl. destruct (_ =? _); [done|]. by rewrite app_nil_r. Qed.

(** After the requests [seen], every writer, digest and count is that of its
    slice. *)
Definition routed (n : Z) (seen : list CapturedRequest) (p : progress) : Prop :=
  length (pg_writers p) = Z.to_nat n ∧ length (pg_counts p) = Z.to_nat n ∧ pg_total p = int64 (len seen) ∧
  ∀ i : nat, (i < Z.to_nat n)%nat →
    (∃ w, pg_writers p !! i = Some w ∧ sw_taken w = slice n i seen) ∧
    pg_digests p !! i = Some (text_of (slice n i seen)) ∧
    pg_counts p !! i = Some (int64 (len (slice n i seen))).

Lemma route_ok n seen req p p' : 1 < n < 2 ^ 63 → routed n seen p →
  route n req p = (p', None) → routed n (seen ++ [req]) p'.
Proof.
  intros Hn (Hlen & Hlc & Htot & Hall) Hr. unfold route in Hr.
  pose proof (ShardIndexOf_range (cr_ID req) n ltac:(lia)) as Hk.
  set (k := Z.to_nat (ShardIndexOf (cr_ID req) n)) in *.
  assert (k < Z.to_nat n)%nat as Hkn by lia.
  destruct (Hall k Hkn) as ((w & Hw & Htk) & Hdig & Hcnt). rewrite Hw in Hr.
  destruct (sw_Write req w) as [w1 [err|]] eqn:Hwr; [done|].
  destruct (json_Marshal req) as [line|err] eqn:Hm; [|done]. injection Hr as <-. split_and!; simpl.
  - by rewrite length_insert.
  - by rewrite length_alter.
  - rewrite Htot, int64_add_l, len_app. done.
  - intros i Hi. destruct (Hall i Hi) as ((wi & Hwi & Htki) & Hdi & Hci). rewrite !slice_snoc.
    destruct (decide (i = k)) as [->|Hne].
    + replace (_ =? _) with true by (symmetry; apply Z.eqb_eq; lia). split.
      * exists w1. rewrite list_lookup_insert_eq by (by eapply lookup_lt_Some).
        split; [done|]. by rewrite (sw_write_ok _ _ _ Hwr), Htk.
      * rewrite !list_lookup_alter_eq, Hdig, Hcnt. simpl. rewrite text_of_app, int64_add_l, len_app. simpl.
        unfold request_line. by rewrite Hm, append_nil_r.
    + replace (_ =? _) with false by (symmetry; apply Z.eqb_neq; lia).
      rewrite list_lookup_insert_ne, !list_lookup_alter_ne by done. eauto.
Qed.

Lemma loop_ok n fuel r p seen rest err : 1 < n < 2 ^ 63 → reads Next r rest err → routed n seen p →
  (length rest < fuel)%nat →
  ∃ r' p' e, preshard_loop n fuel r p = Some (r', p', e) ∧
    (e = None → (is_done err || errors_Is err io_EOF) = true ∧ routed n (seen ++ rest) p').
Proof.
  intros Hn Hr. revert fuel p seen. induction Hr as [r r' err Hnx|r r' req rest err Hnx Hr IH];
    intros [|fuel] p seen Hp Hf; simpl in Hf; try lia; simpl; rewrite Hnx.
  - destruct (_ || _) eqn:E; eexists _, _, _; (split; [reflexivity|]); [|done].
    intros _. by rewrite app_nil_r.
  - destruct (route n req p) as [p1 [e|]] eqn:Hro; [by eexists _, _, _|].
    destruct (IH fuel p1 (seen ++ [req])) as (r2 & p2 & e & Hl & He); [by eapply route_ok|lia|].
    rewrite <-app_assoc in He. eauto 6.
Qed.

Lemma finish_ok i d ws ws' : Forall sw_stored d → finish_writers i d ws = (ws', None) →
  sw_taken <$> ws' = sw_taken <$> (d ++ ws) ∧ Forall sw_stored ws'.
Proof.
  revert i d. induction ws as [|w ws IH]; intros i d Hd Hf; simpl in Hf.
  { injection Hf as <-. by rewrite app_nil_r. }
  destruct (sw_Flush w) as [w1 [e|]] eqn:Hfl; [done|].
  destruct (sw_Close w1) as [w2 [e|]] eqn:Hcl; [done|].
  apply IH in Hf as [Ht Hs]; [|apply Forall_app; split; [done|constructor; [by eapply sw_close_ok|done]]].
  split; [|done]. rewrite Ht, !fmap_app. simpl.
  by rewrite (sw_close_taken _ _ _ Hcl), (sw_flush_taken _ _ _ Hfl), <-app_assoc.
Qed.

(** New writers have taken nothing. *)
Definition fresh_writers : Prop := ∀ id f f' w, NewWriter id f = (f', Ok w) → sw_taken w = [].

Lemma create_ok captureID n todo i ws f f' ws' : fresh_writers →
  Forall (λ w, sw_taken w = []) ws → create_writers captureID n todo i ws f = (f', ws', None) →
  length ws' = (length ws + todo)%nat ∧ Forall (λ w, sw_taken w = []) ws'.
Proof.
  intros Hfresh. revert i ws f. induction todo as [|todo IH]; intros i ws f Hws Hc; simpl in Hc.
  { injection Hc as <- <-. split; [lia|done]. }
  destruct (NewWriter _ f) as [f1 [w|e]] eqn:Hn; [|done].
  apply IH in Hc as [Hl HF].
  - split; [|done]. rewrite Hl, length_app. simpl. lia.
  - apply Forall_app. split; [done|]. by repeat constructor; eapply Hfresh.
Qed.

Lemma routed_start n ws : length ws = Z.to_nat n → Forall (λ w, sw_taken w = []) ws →
  routed n [] (Progress ws (replicate (Z.to_nat n) "") (replicate (Z.to_nat n) 0) 0).
Proof.
  intros Hl Hws. split_and!; [done|by simpl; rewrite length_replicate|done|]. intros i Hi. simpl. rewrite !lookup_replicate_2 by done.
  split; [|done]. destruct (ws !! i) as [w|] eqn:Hw; [|apply lookup_ge_None in Hw; lia].
  exists w. split; [done|]. by eapply Forall_lookup in Hws.
Qed.

(** The manifests published for the slices [i], [i+1], ... *)
Definition published (put : string → string → F → F * option go_error) (ms : list (Manifest * string)) (f : F) : F :=
  foldl (λ f m, fst (put (mf_CaptureID (fst m)) (snd m) f)) f ms.

Lemma put_manifests_ok put captureID n now p todo i f f' :
  put_manifests put captureID n now p todo i f = (f', None) →
  ∃ ms, f' = published put ms f ∧ length ms = todo ∧
    ∀ (k : nat) m, ms !! k = Some m → fst m = slice_manifest captureID n now (i + Z.of_nat k) p ∧
      mf_Marshal (fst m) = Ok (snd m).
Proof.
  revert i f. induction todo as [|todo IH]; intros i f Hp; simpl in Hp.
  { injection Hp as <-. by exists []. }
  destruct (mf_Marshal _) as [data|e] eqn:Hm; [|done].
  destruct (put _ data f) as [f1 [e|]] eqn:Hput; [done|].
  apply IH in Hp as (ms & -> & Hl & Hms). exists ((slice_manifest captureID n now i p, data) :: ms).
  split; [unfold published; simpl; by rewrite Hput|]. split; [simpl; lia|].
  intros [|k] m Hk; simpl in Hk; [injection Hk as <-; by rewrite Z.add_0_r|].
  replace (i + Z.of_nat (S k)) with (i + 1 + Z.of_nat k) by lia. by apply Hms.
Qed.

Lemma omap_no_transform (l : list CapturedRequest) : omap (transform []) l = l.
Proof. induction l as [|r l IH]; [done|]. change (r :: omap (transform []) l = r :: l). by rewrite IH. Qed.

Lemma ShardIndexOf_shardOf id n : 1 < n < 2 ^ 63 → ShardIndexOf id n = shardOf id n.
Proof.
  intros Hn. unfold ShardIndexOf. rewrite (proj2 (Z.leb_gt n 1)), uint64_id by lia.
  pose proof (shardOf_range id n ltac:(lia)). apply int64_id. unfold in_int64. lia.
Qed.

(** The slices cover the capture. *)
Lemma slices_cover (count : nat) reqs : 1 < Z.of_nat count < 2 ^ 63 →
  concat ((λ i, slice (Z.of_nat count) i reqs) <$> seq 0 count) ≡ₚ reqs.
Proof.
  intros Hc. etrans; [|apply reflexive_eq, (omap_no_transform reqs)].
  rewrite <-(shards_cover [] count reqs) by lia.
  apply reflexive_eq. f_equal. apply list_fmap_ext. intros _ i _. rewrite omap_no_transform.
  unfold slice. apply List.filter_ext. intros r. by rewrite ShardIndexOf_shardOf.
Qed.

Lemma list_tabulate {A} (g : nat → A) (n : nat) (l : list A) :
  length l = n → (∀ i, (i < n)%nat → l !! i = Some (g i)) → l = g <$> seq 0 n.
Proof.
  intros Hl Hg. apply list_eq. intros i. rewrite list_lookup_fmap.
  destruct (decide (i < n)%nat) as [Hi|Hi].
  - rewrite Hg, lookup_seq_lt by done. done.
  - by rewrite lookup_ge_None_2, lookup_seq_ge by lia.
Qed.

Lemma slice_len n i reqs : 0 <= len (slice n i reqs) <= len reqs.
Proof.
  unfold slice, len. induction reqs as [|r reqs IH]; simpl; [lia|]. destruct (_ =? _); simpl; lia.
Qed.

(** What the routed requests amount to at the end of the capture. *)
Lemma routed_end n stream p : 0 < n → len stream < 2 ^ 63 → routed n stream p →
  sw_taken <$> pg_writers p = (λ i, slice n i stream) <$> seq 0 (Z.to_nat n) ∧
  pg_total p = len stream ∧ pg_counts p = (λ i, len (slice n i stream)) <$> seq 0 (Z.to_nat n).
Proof.
  intros Hn Hb (Hl & Hlc & Ht & Hall). pose proof (len_nonneg stream).
  split_and!.
  - apply list_tabulate; [by rewrite length_fmap|]. intros i Hi.
    destruct (Hall i Hi) as ((w & Hw & Htk) & _). by rewrite list_lookup_fmap, Hw, <-Htk.
  - rewrite Ht. apply int64_id. unfold in_int64. lia.
  - apply list_tabulate; [done|]. intros i Hi. destruct (Hall i Hi) as (_ & _ & ->).
    pose proof (slice_len n i stream). by rewrite int64_id by (unfold in_int64; lia).
Qed.

Lemma slice_manifest_ok captureID n now i stream p : 1 < n < 2 ^ 31 → len stream < 2 ^ 63 → routed n stream p →
  (i < Z.to_nat n)%nat →
  slice_manifest captureID n now (Z.of_nat i) p =
    {| mf_FormatVersion := 1; mf_CaptureID := ShardSliceCaptureID captureID (Z.of_nat i) n;
       mf_RecordCount := len (slice n i stream); mf_SHA256 := sha256_hex (text_of (slice n i stream));
       mf_ShardIndex := Some (Z.of_nat i); mf_ShardCount := Some n;
       mf_SourceCaptureID := captureID; mf_CreatedAt := now |}.
Proof.
  intros Hn Hb (_ & _ & _ & Hall) Hi. destruct (Hall i Hi) as (_ & Hd & Hc).
  unfold slice_manifest. rewrite Nat2Z.id, Hd, Hc. simpl. pose proof (slice_len n i stream).
  by rewrite int64_id, !int32_id by (unfold in_int64, in_int32; lia).
Qed.

(** C19: presharding splits a capture and nothing else.  Over any reader, storage
    writers and factory, with any of their calls failing, [Preshard] returns;
    and when it reports success, the reader was read to its end, every writer
    was closed, the writer of shard [i] has stored exactly the requests of shard
    [i] in the order of the capture, the slices together are the capture, the
    result counts them, and the manifests published are, one per slice and in
    order, those whose count and digest are the slice's, and each parses. *)
Theorem preshard_splits_capture opened captureID shardCount now fuel r f stream err :
  reads Next r stream err → shardCount < 2 ^ 31 → len stream < 2 ^ 63 → fresh_writers →
  (length stream < fuel)%nat →
  ∃ f' ws res,
    Preshard opened captureID shardCount now fuel r f = Some (f', ws, res) ∧
    ∀ out, res = Ok out →
      1 < shardCount ∧ (is_done err || errors_Is err io_EOF) = true ∧ Forall sw_stored ws ∧
      sw_taken <$> ws = (λ i, slice shardCount i stream) <$> seq 0 (Z.to_nat shardCount) ∧
      concat (sw_taken <$> ws) ≡ₚ stream ∧
      psr_Total out = len stream ∧
      psr_ShardCounts out = (λ i, len (slice shardCount i stream)) <$> seq 0 (Z.to_nat shardCount) ∧
      match PutManifest with
      | None => True
      | Some put => ∃ f1 ms, f' = published put ms f1 ∧ length ms = Z.to_nat shardCount ∧
          ∀ (i : nat) m data, ms !! i = Some (m, data) →
            ParseManifest data = Ok m ∧
            m = {| mf_FormatVersion := 1; mf_CaptureID := ShardSliceCaptureID captureID (Z.of_nat i) shardCount;
                   mf_RecordCount := len (slice shardCount i stream);
                   mf_SHA256 := sha256_hex (text_of (slice shardCount i stream));
                   mf_ShardIndex := Some (Z.of_nat i); mf_ShardCount := Some shardCount;
                   mf_SourceCaptureID := captureID; mf_CreatedAt := now |}
      end.
Proof.
  intros Hreads Hn Hb Hfresh Hfuel. unfold Preshard.
  destruct (shardCount <? 2) eqn:E2; [by eexists _, _, _|]. apply Z.ltb_ge in E2.
  case_bool_decide; [by eexists _, _, _|]. destruct opened as [e|]; [by eexists _, _, _|].
  destruct (create_writers _ _ _ _ _ f) as [[f1 ws] [e|]] eqn:Hcr; [by eexists _, _, _|].
  apply create_ok in Hcr as [Hlen Hws]; [|done|constructor]. simpl in Hlen.
  destruct (loop_ok shardCount fuel r _ [] stream err ltac:(lia) Hreads (routed_start _ _ Hlen Hws) Hfuel)
    as (r' & p & e & Hloop & He). rewrite Hloop. destruct e as [e|]; [by eexists _, _, _|].
  destruct (He eq_refl) as [Hdone Hro]. simpl in Hro.
  destruct (finish_writers 0 [] (pg_writers p)) as [ws' [e|]] eqn:Hfin; [by eexists _, _, _|].
  apply finish_ok in Hfin as [Htk Hst]; [|constructor]. simpl in Htk.
  destruct (routed_end shardCount stream p ltac:(lia) Hb Hro) as (Hsl & Htot & Hcnt).
  assert (concat (sw_taken <$> ws') ≡ₚ stream) as Hcov.
  { rewrite Htk, Hsl. pose proof (slices_cover (Z.to_nat shardCount) stream) as Hsc.
    rewrite Z2Nat.id in Hsc by lia. apply Hsc. lia. }
  destruct PutManifest as [put|].
  - destruct (put_manifests put _ _ _ _ _ _ f1) as [f2 [e|]] eqn:Hput; [by eexists _, _, _|].
    eexists _, _, _. split; [reflexivity|]. intros out [= <-]. split_and!; try done; [lia|by rewrite Htk|].
    apply put_manifests_ok in Hput as (ms & -> & Hl & Hms). exists f1, ms. split_and!; [done|done|].
    intros i m data Hi. destruct (Hms i _ Hi) as [Hm Hmar]. simpl in Hm, Hmar.
    assert (i < Z.to_nat shardCount)%nat by (rewrite <-Hl; by eapply lookup_lt_Some).
    rewrite Z.add_0_l, (slice_manifest_ok _ _ _ _ stream) in Hm by (done || lia). subst m. split; [|done].
    unfold ParseManifest. rewrite (mf_unmarshal_marshal _ _ Hmar). unfold Manifest_Validate. simpl.
    pose proof (slice_len shardCount i stream). by rewrite (proj2 (Z.ltb_ge _ 0)) by lia.
  - eexists _, _, _. split; [reflexivity|]. intros out [= <-]. split_and!; try done; [lia|by rewrite Htk].
Qed.
End Preshard.
(** ** The buffered object writer implements the interface

    A writer of [Storage] with the uploads it has made, the requests it has
    accepted and, for the calls still to come, the clock readings and the
    outcome of the upload each may try. *)

Section ObjectWriter.
Context {CO : RequestCodec} (objectName : Z → Z → string).

Definition writer_ok (w : bufferedObjectWriter) (log : upload_log) (acc : list CapturedRequest) : Prop :=
  chunked w log acc ∧ (bow_closed w = true → bow_buffer w = "").

Record object_writer := ObjWriter {
  ow_writer : bufferedObjectWriter;
  ow_log : upload_log;
  ow_accepted : list CapturedRequest;
  ow_script : nat → write_clock * option go_error;
  ow_ok : writer_ok ow_writer ow_log ow_accepted
}.

Lemma writer_ok_step w log acc op : writer_ok w log acc →
  let st := writer_step objectName (w, log) op in writer_ok (fst (fst st)) (snd (fst st)) (acc ++ accepts w op).
Proof.
  intros [Hc Hcl]. pose proof (step_chunked objectName (w, log) op acc Hc Hcl) as Hs. cbv zeta.
  destruct (writer_step objectName (w, log) op) as [[w' log'] e]. exact Hs.
Qed.

Definition ow_step (mk : write_clock → option go_error → writer_op) (x : object_writer)
    : object_writer * option go_error :=
  let '(c, o) := ow_script x 0%nat in
  let st := writer_step objectName (ow_writer x, ow_log x) (mk c o) in
  (ObjWriter (fst (fst st)) (snd (fst st)) (ow_accepted x ++ accepts (ow_writer x) (mk c o))
     (λ k, ow_script x (S k)) (writer_ok_step _ _ _ (mk c o) (ow_ok x)), snd st).

(** A closed writer has uploaded everything it accepted. *)
Definition ow_all_stored (x : object_writer) : Prop :=
  ∃ chunks pending, ow_accepted x = concat chunks ++ pending ∧ text_of pending = "" ∧
    (ow_log x).*2 = (λ rs, gzip (text_of rs)) <$> chunks.

Definition object_storage_writer : StorageWriter object_writer.
Proof.
  refine {|
    sw_Write r := ow_step (λ c o, OpWrite c r o);
    sw_Flush := ow_step OpFlush;
    sw_Close := ow_step OpClose;
    sw_taken := ow_accepted;
    sw_stored := ow_all_stored |}.
  - intros r x x'. unfold ow_step. destruct (ow_script x 0%nat) as [c o]. intros [= <- Hok]. simpl in *.
    unfold Write, marshalRequestLine in Hok. destruct (json_Marshal r); [|done]. by destruct (bow_closed (ow_writer x)).
  - intros r x x' e. unfold ow_step. destruct (ow_script x 0%nat) as [c o]. intros [= <- _]. simpl.
    destruct (json_Marshal r); [destruct (bow_closed (ow_writer x))|]; rewrite ?app_nil_r; auto.
  - intros x x' e. unfold ow_step. destruct (ow_script x 0%nat). intros [= <- _]. simpl. by rewrite app_nil_r.
  - intros x x' e. unfold ow_step. destruct (ow_script x 0%nat). intros [= <- _]. simpl. by rewrite app_nil_r.
  - intros x x'. unfold ow_step. destruct (ow_script x 0%nat) as [c o]. intros [= <- Hok].
    destruct (writer_ok_step _ _ _ (OpClose c o) (ow_ok x)) as [(chunks & pending & Hacc & Hlog & Hbuf) Hcl].
    exists chunks, pending. split; [exact Hacc|]. split; [|exact Hlog]. rewrite <-Hbuf. apply Hcl.
    simpl in *. unfold Close in *. destruct (bow_closed (ow_writer x)) eqn:E; [done|].
    by destruct (flushLocked _ _ _ _ _) as [[w l] [e|]].
Defined.

(** What a stored slice decodes to. *)
Lemma stored_decodes x : ow_all_stored x → Forall storable (ow_accepted x) →
  ∃ chunks, concat chunks = ow_accepted x ∧ decode_object <$> (ow_log x).*2 = Ok <$> chunks.
Proof.
  intros (chunks & pending & Hacc & Hp & Hlog) Hst. rewrite Hacc in Hst. apply Forall_app in Hst as [Hc Hpe].
  apply text_of_empty in Hp as ->; [|done]. exists chunks. rewrite Hacc, app_nil_r. split; [done|].
  rewrite Hlog. by apply decode_chunks.
Qed.

Lemma new_writer_ok now fi mb : writer_ok (newBufferedObjectWriter now fi mb) [] [].
Proof. split; [by exists [], []|done]. Qed.

Definition new_object_writer (now fi mb : Z) (script : nat → write_clock * option go_error) : object_writer :=
  ObjWriter (newBufferedObjectWriter now fi mb) [] [] script (new_writer_ok now fi mb).
End ObjectWriter.

(** ** A concrete run *)

#[local] Existing Instance Storage.demo_codec.

Definition demo_manifest_marshal (m : Manifest) : result string :=
  Ok (bits_of (encode (mf_FormatVersion m, mf_CaptureID m, mf_RecordCount m, mf_SHA256 m, mf_ShardIndex m,
                       mf_ShardCount m, mf_SourceCaptureID m, mf_CreatedAt m))).

Definition demo_manifest_unmarshal (data : string) : result Manifest :=
  match decode (of_bits data) with
  | Some (a, b, c, d, e, f, g, h) =>
      Ok {| mf_FormatVersion := a; mf_CaptureID := b; mf_RecordCount := c; mf_SHA256 := d; mf_ShardIndex := e;
            mf_ShardCount := f; mf_SourceCaptureID := g; mf_CreatedAt := h |}
  | None => Err (Sentinel "json")
  end.

Lemma demo_manifest_law m data : demo_manifest_marshal m = Ok data → demo_manifest_unmarshal data = Ok m.
Proof. intros [= <-]. unfold demo_manifest_unmarshal. rewrite of_bits_of, decode_encode. by destruct m. Qed.

#[local] Instance demo_manifests : ManifestCodec :=
  {| mf_Marshal := demo_manifest_marshal; mf_Unmarshal := demo_manifest_unmarshal;
     mf_unmarshal_marshal := demo_manifest_law |}.

#[local] Instance demo_writers : StorageWriter object_writer := object_storage_writer demo_names.

(** The factory records the writers it made and the manifests it stored. *)
Definition demo_new_writer (id : string) (f : list string) : list string * result object_writer :=
  (f ++ [id], Ok (new_object_writer 0 0 0 (λ _, (demo_write_clock, None)))).

Definition demo_put (id data : string) (f : list string) : list string * option go_error := (f ++ [id +:+ data], None).

Definition demo_preshard :=
  Preshard list_Next demo_new_writer (Some demo_put) (λ s, s) None "prod/orders" 2 0 3 demo_stream [].

Lemma demo_preshard_ok : match demo_preshard with Some (_, _, Ok _) => true | _ => false end = true.
Proof. vm_compute. reflexivity. Qed.

Lemma preshard_splits_capture_witness :
  ∃ f' ws res,
    Preshard list_Next demo_new_writer (Some demo_put) (λ s, s) None "prod/orders" 2 0 3 demo_stream []
      = Some (f', ws, res) ∧
    ∃ out, res = Ok out ∧ psr_Total out = 2 ∧ concat (sw_taken <$> ws) ≡ₚ demo_stream.
Proof.
  destruct (preshard_splits_capture list_Next demo_new_writer (Some demo_put) (λ s, s) None "prod/orders" 2 0 3
    demo_stream [] demo_stream ErrReaderDone) as (f' & ws & res & Hp & Hout).
  - apply list_reads.
  - lia.
  - vm_compute. reflexivity.
  - intros id f f' w. unfold demo_new_writer. intros [= _ <-]. reflexivity.
  - vm_compute. lia.
  - exists f', ws, res. split; [exact Hp|]. destruct res as [out|e].
    + destruct (Hout out eq_refl) as (_ & _ & _ & _ & Hc & Ht & _). exists out. split; [done|]. split; [exact Ht|exact Hc].
    + exfalso. pose proof demo_preshard_ok as Hok. unfold demo_preshard in Hok. rewrite Hp in Hok. discriminate Hok.
Defined.
