(* ===== verification/BatchWriter.v ===== *)
(** * The batching writer ([internal/agent/writer.go])

    The agent's [BufferedWriter] stands between the asynchronous writer and the
    storage writer: it flushes after a batch of writes and at intervals.  Its
    calls, the flush loop and [Close] are a step relation, one step per critical
    section or call of the storage writer, over any storage writer of
    [Preshard.StorageWriter]. *)

From S2P Require Import Prelude GoStd Storage Preshard.

Local Open Scope Z_scope.

Definition defaultBatchSize : Z := 100.

(** A call of [Write] or [Flush]: inside the storage writer's [Write], about to
    count the request, about to reset the count, inside the storage writer's
    [Flush], returned. *)
Inductive batch_call :=
  | CWrite (req : CapturedRequest)
  | CCount
  | CReset
  | CFlush
  | CReturned (err : option go_error).

(** The flush loop. *)
Inductive loop_pc := LpWait | LpReset | LpFlush | LpDone.

(** [Close]: not called, waiting for the loop, flushing, closing, returned. *)
Inductive batch_close := BcIdle | BcWait | BcFlush | BcClose | BcDone (err : option go_error).

Section Batch.
Context {Wr : Type} {SW : StorageWriter Wr}.

Record BufferedWriter := MkBatch {
  bt_writer : Wr;
  bt_batchSize : Z;
  bt_pending : Z;
  bt_closed : bool;
  bt_cancelled : bool;
  bt_loop : loop_pc;
  bt_close : batch_close;
  bt_calls : list batch_call;
  bt_accepted : list CapturedRequest;
  bt_tried : list CapturedRequest
}.

(** [bt_tried] are the requests given to the storage writer's [Write], and
    [bt_accepted] those for which it returned no error. *)

Definition NewBufferedWriter (batchSize : Z) (w : Wr) : BufferedWriter :=
  MkBatch w (if batchSize <=? 0 then defaultBatchSize else batchSize) 0 false false LpWait BcIdle [] [] [].

Definition set_call (i : nat) (c : batch_call) (b : BufferedWriter) : BufferedWriter :=
  MkBatch (bt_writer b) (bt_batchSize b) (bt_pending b) (bt_closed b) (bt_cancelled b) (bt_loop b) (bt_close b)
    (<[i := c]> (bt_calls b)) (bt_accepted b) (bt_tried b).

Definition new_call (c : batch_call) (b : BufferedWriter) : BufferedWriter :=
  MkBatch (bt_writer b) (bt_batchSize b) (bt_pending b) (bt_closed b) (bt_cancelled b) (bt_loop b) (bt_close b)
    (bt_calls b ++ [c]) (bt_accepted b) (bt_tried b).

Definition set_writer (w : Wr) (b : BufferedWriter) : BufferedWriter :=
  MkBatch w (bt_batchSize b) (bt_pending b) (bt_closed b) (bt_cancelled b) (bt_loop b) (bt_close b)
    (bt_calls b) (bt_accepted b) (bt_tried b).

Definition set_pending (n : Z) (b : BufferedWriter) : BufferedWriter :=
  MkBatch (bt_writer b) (bt_batchSize b) n (bt_closed b) (bt_cancelled b) (bt_loop b) (bt_close b)
    (bt_calls b) (bt_accepted b) (bt_tried b).

Definition set_loop (l : loop_pc) (b : BufferedWriter) : BufferedWriter :=
  MkBatch (bt_writer b) (bt_batchSize b) (bt_pending b) (bt_closed b) (bt_cancelled b) l (bt_close b)
    (bt_calls b) (bt_accepted b) (bt_tried b).

Definition set_close (closed cancelled : bool) (c : batch_close) (b : BufferedWriter) : BufferedWriter :=
  MkBatch (bt_writer b) (bt_batchSize b) (bt_pending b) closed cancelled (bt_loop b) c (bt_calls b) (bt_accepted b) (bt_tried b).

Definition accept (req : CapturedRequest) (b : BufferedWriter) : BufferedWriter :=
  MkBatch (bt_writer b) (bt_batchSize b) (bt_pending b) (bt_closed b) (bt_cancelled b) (bt_loop b) (bt_close b)
    (bt_calls b) (bt_accepted b ++ [req]) (bt_tried b).

Definition try_write (req : CapturedRequest) (b : BufferedWriter) : BufferedWriter :=
  MkBatch (bt_writer b) (bt_batchSize b) (bt_pending b) (bt_closed b) (bt_cancelled b) (bt_loop b) (bt_close b)
    (bt_calls b) (bt_accepted b) (bt_tried b ++ [req]).

(** [Write] up to its call of the storage writer. *)
Definition begin_Write (req : CapturedRequest) (b : BufferedWriter) : BufferedWriter :=
  if bt_closed b then new_call (CReturned (Some ErrWriterClosed)) b else new_call (CWrite req) b.

(** The storage writer's answer. *)
Definition inner_write (i : nat) (req : CapturedRequest) (b : BufferedWriter) : BufferedWriter :=
  match sw_Write req (bt_writer b) with
  | (w, Some err) => set_call i (CReturned (Some err)) (try_write req (set_writer w b))
  | (w, None) => set_call i CCount (accept req (try_write req (set_writer w b)))
  end.

Definition count_write (i : nat) (b : BufferedWriter) : BufferedWriter :=
  let n := int64 (bt_pending b + 1) in
  set_call i (if bt_batchSize b <=? n then CReset else CReturned None) (set_pending n b).

Inductive batch_step (b : BufferedWriter) : BufferedWriter → Prop :=
  | bt_write req : batch_step b (begin_Write req b)
  | bt_flush_call : batch_step b (new_call CReset b)
  | bt_inner i req : bt_calls b !! i = Some (CWrite req) → batch_step b (inner_write i req b)
  | bt_count i : bt_calls b !! i = Some CCount → batch_step b (count_write i b)
  | bt_reset i : bt_calls b !! i = Some CReset → batch_step b (set_call i CFlush (set_pending 0 b))
  | bt_flush i w err : bt_calls b !! i = Some CFlush → sw_Flush (bt_writer b) = (w, err) →
      batch_step b (set_call i (CReturned err) (set_writer w b))
  | bt_tick : bt_loop b = LpWait → 0 < bt_pending b → batch_step b (set_loop LpReset b)
  | bt_loop_reset : bt_loop b = LpReset → batch_step b (set_loop LpFlush (set_pending 0 b))
  | bt_loop_flush w err : bt_loop b = LpFlush → sw_Flush (bt_writer b) = (w, err) →
      batch_step b (set_loop LpWait (set_writer w b))
  | bt_loop_end : bt_loop b = LpWait → bt_cancelled b = true → batch_step b (set_loop LpDone b)
  | bt_close_call : bt_close b = BcIdle → batch_step b (set_close (bt_closed b) true BcWait b)
  | bt_close_wait : bt_close b = BcWait → bt_loop b = LpDone → batch_step b (set_close true (bt_cancelled b) BcFlush b)
  | bt_close_flush w err : bt_close b = BcFlush → sw_Flush (bt_writer b) = (w, err) →
      batch_step b (set_close (bt_closed b) (bt_cancelled b) BcClose (set_writer w b))
  | bt_close_close w err : bt_close b = BcClose → sw_Close (bt_writer b) = (w, err) →
      batch_step b (set_close (bt_closed b) (bt_cancelled b) (BcDone err) (set_writer w b)).

(** A tick that finds nothing pending changes nothing and is left out. *)

(** ** What it keeps *)

Definition resetting (c : batch_call) : nat := match c with CReset => 1 | _ => 0 end.

Record batch_inv (b : BufferedWriter) : Prop := {
  bi_size : 0 < bt_batchSize b;
  bi_accepted : bt_accepted b `sublist_of` sw_taken (bt_writer b);
  bi_tried : sw_taken (bt_writer b) `sublist_of` bt_tried b;
  bi_pending : bt_batchSize b < 2 ^ 62 → len (bt_calls b) < 2 ^ 62 →
    0 <= bt_pending b < bt_batchSize b + Z.of_nat (sum_list_with resetting (bt_calls b))
}.

Lemma batch_start n w : sw_taken w = [] → batch_inv (NewBufferedWriter n w).
Proof.
  intros Hw. unfold NewBufferedWriter.
  assert (0 < if n <=? 0 then defaultBatchSize else n) by (unfold defaultBatchSize; destruct (n <=? 0) eqn:E; zbool; lia).
  constructor; simpl; rewrite ?Hw; try done. lia.
Qed.

Lemma resetting_le (calls : list batch_call) : (sum_list_with resetting calls <= length calls)%nat.
Proof. induction calls as [|[] l IH]; simpl; lia. Qed.

(** A step that does not reach the storage writer and keeps the count in bounds. *)
Lemma batch_same b b' : batch_inv b → bt_batchSize b' = bt_batchSize b → bt_writer b' = bt_writer b →
  bt_accepted b' = bt_accepted b → bt_tried b' = bt_tried b → len (bt_calls b) <= len (bt_calls b') →
  (bt_batchSize b < 2 ^ 62 → len (bt_calls b) < 2 ^ 62 →
   0 <= bt_pending b < bt_batchSize b + Z.of_nat (sum_list_with resetting (bt_calls b)) →
   0 <= bt_pending b' < bt_batchSize b + Z.of_nat (sum_list_with resetting (bt_calls b'))) → batch_inv b'.
Proof.
  intros [Hs Ha Ht Hp] E1 E2 E3 E4 El Hb. constructor; rewrite ?E1, ?E2, ?E3, ?E4; try done.
  intros H1 H2. apply Hb; [done|lia|]. apply Hp; [done|lia].
Qed.

(** A flush of the storage writer. *)
Lemma batch_flushed b b' w : batch_inv b → bt_batchSize b' = bt_batchSize b → bt_writer b' = w →
  sw_taken w = sw_taken (bt_writer b) → bt_accepted b' = bt_accepted b → bt_tried b' = bt_tried b →
  bt_pending b' = bt_pending b → len (bt_calls b') = len (bt_calls b) →
  sum_list_with resetting (bt_calls b') = sum_list_with resetting (bt_calls b) → batch_inv b'.
Proof.
  intros [Hs Ha Ht Hp] E1 E2 Ew E3 E4 E5 E6 E7. constructor; rewrite ?E1, ?E2, ?E3, ?E4, ?E5, ?E6, ?E7, ?Ew; done.
Qed.

Lemma batch_step_inv b b' : batch_inv b → batch_step b b' → batch_inv b'.
Proof.
  intros Hinv Hstep. pose proof Hinv as [Hs Ha Ht Hp].
  destruct Hstep as [req| |i req Hi|i Hi|i Hi|i w err Hi Hf|Hl Hpos|Hl|w err Hl Hf|Hl Hc|Hc|Hc Hl|w err Hc Hf|w err Hc Hf].
  - unfold begin_Write. destruct (bt_closed b); apply (batch_same b); try done; simpl; rewrite ?len_snoc, ?sum_list_with_app; simpl; lia.
  - apply (batch_same b); try done; simpl; rewrite ?len_snoc, ?sum_list_with_app; simpl; lia.
  - unfold inner_write. destruct (sw_Write req (bt_writer b)) as [w [err|]] eqn:Hw.
    + pose proof (sum_insert resetting _ i _ (CReturned (Some err)) Hi) as Hsum. simpl in Hsum.
      assert (len (<[i := CReturned (Some err)]> (bt_calls b)) = len (bt_calls b)) as Hlen by (unfold len; by rewrite length_insert).
      constructor; simpl; [done| | |rewrite Hlen; intros H1 H2; specialize (Hp H1 H2); lia].
      * destruct (sw_write_err _ _ _ _ Hw) as [->| ->]; [done|by apply sublist_inserts_r].
      * destruct (sw_write_err _ _ _ _ Hw) as [->| ->]; [by apply sublist_inserts_r|by apply sublist_app].
    + pose proof (sum_insert resetting _ i _ CCount Hi) as Hsum. simpl in Hsum.
      assert (len (<[i := CCount]> (bt_calls b)) = len (bt_calls b)) as Hlen by (unfold len; by rewrite length_insert).
      constructor; simpl; [done| | |rewrite Hlen; intros H1 H2; specialize (Hp H1 H2); lia];
        rewrite (sw_write_ok _ _ _ Hw); by apply sublist_app.
  - unfold count_write. set (c := if bt_batchSize b <=? int64 (bt_pending b + 1) then CReset else CReturned None).
    pose proof (sum_insert resetting _ i _ c Hi) as Hsum. simpl in Hsum.
    assert (len (<[i := c]> (bt_calls b)) = len (bt_calls b)) as Hlen by (unfold len; by rewrite length_insert).
    apply (batch_same b); try done; simpl; [by rewrite Hlen|]. intros H1 H2 H3.
    pose proof (resetting_le (bt_calls b)) as Hle. unfold len in H2.
    rewrite int64_id in * by (unfold in_int64; lia). subst c.
    destruct (bt_batchSize b <=? int64 (bt_pending b + 1)) eqn:E; rewrite int64_id in E by (unfold in_int64; lia); zbool; simpl in Hsum; lia.
  - pose proof (sum_insert resetting _ i _ CFlush Hi) as Hsum. simpl in Hsum.
    apply (batch_same b); try done; simpl; [unfold len; by rewrite length_insert|lia].
  - pose proof (sum_insert resetting _ i _ (CReturned err) Hi) as Hsum. simpl in Hsum.
    eapply (batch_flushed b _ w); simpl; try done; [by eapply sw_flush_taken|unfold len; by rewrite length_insert|lia].
  - by apply (batch_same b).
  - apply (batch_same b); try done. simpl. lia.
  - eapply (batch_flushed b _ w); try done. by eapply sw_flush_taken.
  - by apply (batch_same b).
  - by apply (batch_same b).
  - by apply (batch_same b).
  - eapply (batch_flushed b _ w); try done. by eapply sw_flush_taken.
  - eapply (batch_flushed b _ w); try done. by eapply sw_close_taken.
Qed.

(** In every interleaving of its calls, its ticks and [Close], the batching writer
    loses nothing and invents nothing: what [Write] accepted is in the storage
    writer, in order, and whatever is there was written; and fewer than a batch of
    requests are pending when no call is about to flush. *)
Theorem batch_writer_keeps n w b : sw_taken w = [] → rtc batch_step (NewBufferedWriter n w) b →
  bt_accepted b `sublist_of` sw_taken (bt_writer b) ∧ sw_taken (bt_writer b) `sublist_of` bt_tried b ∧
  (bt_batchSize b < 2 ^ 62 → len (bt_calls b) < 2 ^ 62 → CReset ∉ bt_calls b →
   0 <= bt_pending b < bt_batchSize b).
Proof.
  intros Hw Hst.
  assert (batch_inv b) as [Hs Ha Ht Hp].
  { revert b Hst. apply rtc_ind_r; [by apply batch_start|]. intros y z _ Hyz Hy. by eapply batch_step_inv. }
  split; [done|]. split; [done|]. intros H1 H2 Hr. specialize (Hp H1 H2).
  assert (sum_list_with resetting (bt_calls b) = 0%nat) as Hz; [|lia].
  clear -Hr. induction (bt_calls b) as [|c l IH]; [done|]. apply not_elem_of_cons in Hr as [Hc Hl].
  simpl. rewrite (IH Hl). by destruct c.
Qed.

(** The count is reset before the storage writer is flushed: when that flush fails,
    nothing is pending any more, and no tick tries again until the next request.
    What the failed flush left in the storage writer stays there. *)
Theorem failed_flush_not_retried b w err : bt_loop b = LpWait → bt_calls b = [] → bt_close b = BcIdle → bt_cancelled b = false →
  sw_Flush (bt_writer b) = (w, Some err) →
  let b' := set_call 0 (CReturned (Some err)) (set_writer w (set_call 0 CFlush (set_pending 0 (new_call CReset b)))) in
  rtc batch_step b b' ∧
  ∀ b'', batch_step b' b'' → bt_writer b'' = w ∧ (∃ req, b'' = begin_Write req b') ∨ b'' = new_call CReset b' ∨
    bt_close b'' = BcWait.
Proof.
  intros Hl Hc Hcl Hcan Hf b'. split.
  - eapply rtc_l; [apply bt_flush_call|]. eapply rtc_l; [apply (bt_reset _ 0); simpl; by rewrite Hc|].
    eapply rtc_l; [eapply (bt_flush _ 0 w (Some err)); [simpl; by rewrite Hc|exact Hf]|]. apply rtc_refl.
  - assert (bt_calls b' = [CReturned (Some err)]) as Hcalls by (simpl; by rewrite Hc).
    intros b'' Hstep.
    destruct Hstep as [req| |i req Hi|i Hi|i Hi|i w' e Hi Hf'|Hl' Hpos|Hl'|w' e Hl' Hf'|Hl' Hc'|Hc'|Hc' Hl'|w' e Hc' Hf'|w' e Hc' Hf'];
      try (rewrite Hcalls in Hi; apply list_lookup_singleton_Some in Hi as [_ ?]; done); try (simpl in *; congruence); try (simpl in *; lia).
    + left. split; [unfold begin_Write; by destruct (bt_closed b')|eauto].
    + right. by left.
    + right. by right.
Qed.
End Batch.
Arguments BufferedWriter : clear implicits.
