(* ===== verification/GoFlag.v ===== *)
(** * Command line flags

    The parts of the Go [flag] package the replay engine uses: a set of declared
    flags, each with its kind, and [flag.Parse], which keeps the last value given
    to each flag.  Parsing integers, floats and RFC 3339 times is [strconv]'s and
    [time]'s, of which the class [GoParse] states what the program relies on. *)

From S2P Require Import Prelude GoStd GoTime.
From Stdlib Require Import Ascii.

Local Open Scope Z_scope.

(** [strconv.ParseInt(s, 0, 64)], [strconv.Atoi], [strconv.ParseFloat(s, 64)],
    [time.Parse(time.RFC3339, s)], [t.UTC().Format(time.RFC3339)],
    [time.ParseDuration] and [time.Duration.String].  A decimal numeral parses to
    its value; a time of the years 0 to 9999 comes back without the fraction of
    its second; a duration comes back. *)
Class GoParse := {
  ParseInt0 : string → result Z;
  Atoi : string → result Z;
  DurationString : Z → string;
  ParseDuration : string → result Z;
  ParseFloat : string → result float64;
  FormatRFC3339 : Z → string;
  ParseRFC3339 : string → result Z;
  parse_Itoa : ∀ z, in_int64 z → ParseInt0 (Itoa z) = Ok z;
  atoi_Itoa : ∀ z, in_int64 z → Atoi (Itoa z) = Ok z;
  parse_duration_string : ∀ d, in_int64 d → ParseDuration (DurationString d) = Ok d;
  parse_float_Itoa : ∀ z, in_int32 z → ParseFloat (Itoa z) = Ok (f64_of_Z z);
  parse_format : ∀ t, formattable (t / day_ns) → ParseRFC3339 (FormatRFC3339 t) = Ok (t / Second * Second);
  format_not_empty : ∀ t, FormatRFC3339 t ≠ ""
}.

Definition ParseBool (s : string) : option bool :=
  if bool_decide (s ∈ ["1"; "t"; "T"; "true"; "TRUE"; "True"]) then Some true
  else if bool_decide (s ∈ ["0"; "f"; "F"; "false"; "FALSE"; "False"]) then Some false
  else None.

(** The kinds of flags: [StringVar], [IntVar] and [Int64Var] (both 64 bits),
    [Float64Var], [BoolVar], [DurationVar]. *)
Inductive flag_kind := StringFlag | IntFlag | FloatFlag | BoolFlag | DurationFlag.

Section Flags.
Context {GP : GoParse}.

(** [Value.Set]. *)
Definition flag_Set (k : flag_kind) (name value : string) : option go_error :=
  let bad := Some (FmtError "invalid value %q for flag -%s" [FStr value; FStr name]) in
  match k with
  | StringFlag => None
  | IntFlag => match ParseInt0 value with Ok _ => None | Err _ => bad end
  | FloatFlag => match ParseFloat value with Ok _ => None | Err _ => bad end
  | BoolFlag => match ParseBool value with Some _ => None | None => bad end
  | DurationFlag => match ParseDuration value with Ok _ => None | Err _ => bad end
  end.

(** The name and the value of ["name=value"], cut at the first ["="] that is not
    the first character. *)
Fixpoint cut_eq (s : string) : string * option string :=
  match s with
  | "" => ("", None)
  | String a s =>
      if Ascii.eqb a "=" then ("", Some s)
      else let '(n, v) := cut_eq s in (String a n, v)
  end.

(** The flag's name with its value if it has one, or why parsing stops here. *)
Inductive flag_arg := FlagArg (name : string) (value : option string) | NotAFlag | BadFlag (e : go_error).

Definition flag_name (s name : string) : flag_arg :=
  match name with
  | "" => BadFlag (FmtError "bad flag syntax: %s" [FStr s])
  | String a rest =>
      if Ascii.eqb a "-" || Ascii.eqb a "=" then BadFlag (FmtError "bad flag syntax: %s" [FStr s])
      else let '(n, v) := cut_eq rest in FlagArg (String a n) v
  end.

Definition split_arg (s : string) : flag_arg :=
  match s with
  | String "-" (String "-" "") => NotAFlag
  | String "-" (String "-" name) => flag_name s name
  | String "-" (String a name) => flag_name s (String a name)
  | _ => NotAFlag
  end.

(** [FlagSet.Parse] over the declared flags, starting from the values [m]; what
    follows the first argument that is not a flag is left alone. *)
Fixpoint flag_Parse (formal : gmap string flag_kind) (args : list string) (m : gmap string string)
    {struct args} : result (gmap string string) :=
  match args with
  | [] => Ok m
  | s :: args =>
      match split_arg s with
      | NotAFlag => Ok m
      | BadFlag e => Err e
      | FlagArg name value =>
          match formal !! name with
          | None => Err (FmtError "flag provided but not defined: -%s" [FStr name])
          | Some BoolFlag =>
              let value := default "true" value in
              match flag_Set BoolFlag name value with
              | Some e => Err e
              | None => flag_Parse formal args (<[name := value]> m)
              end
          | Some k =>
              match value, args with
              | Some value, _ =>
                  match flag_Set k name value with
                  | Some e => Err e
                  | None => flag_Parse formal args (<[name := value]> m)
                  end
              | None, value :: args =>
                  match flag_Set k name value with
                  | Some e => Err e
                  | None => flag_Parse formal args (<[name := value]> m)
                  end
              | None, [] => Err (FmtError "flag needs an argument: -%s" [FStr name])
              end
          end
      end
  end.

(** The value of a flag after parsing, given its default. *)
Definition flag_string (m : gmap string string) (name dflt : string) : string := default dflt (m !! name).

Definition flag_int (m : gmap string string) (name : string) (dflt : Z) : Z :=
  match ParseInt0 <$> m !! name with Some (Ok z) => z | _ => dflt end.

Definition flag_float (m : gmap string string) (name : string) (dflt : float64) : float64 :=
  match ParseFloat <$> m !! name with Some (Ok x) => x | _ => dflt end.

Definition flag_duration (m : gmap string string) (name : string) (dflt : Z) : Z :=
  match ParseDuration <$> m !! name with Some (Ok d) => d | _ => dflt end.

Definition flag_bool (m : gmap string string) (name : string) (dflt : bool) : bool :=
  default dflt (m !! name ≫= ParseBool).

(** ** Command lines made of declared flags *)

(** The command line that gives a value to those flags of [l] that have one, and
    the values it leaves behind. *)
Definition args_of (l : list (string * option string)) : list string :=
  concat ((λ nv, match snd nv with Some v => ["--" +:+ fst nv; v] | None => [] end) <$> l).

Definition set_flags (l : list (string * option string)) (m : gmap string string) : gmap string string :=
  foldl (λ m nv, match snd nv with Some v => <[fst nv := v]> m | None => m end) m l.

Lemma args_of_app k l : args_of (k ++ l) = args_of k ++ args_of l.
Proof. unfold args_of. by rewrite fmap_app, concat_app. Qed.

(** The flag is declared, takes an argument and accepts the value. *)
Definition flag_ok (formal : gmap string flag_kind) (nv : string * option string) : Prop :=
  split_arg ("--" +:+ fst nv) = FlagArg (fst nv) None ∧
  ∃ k, formal !! fst nv = Some k ∧ k ≠ BoolFlag ∧ ∀ v, snd nv = Some v → flag_Set k (fst nv) v = None.

Lemma parse_args_of formal l m : Forall (flag_ok formal) l →
  flag_Parse formal (args_of l) m = Ok (set_flags l m).
Proof.
  intros Hl. revert m. induction Hl as [|[n [v|]] l (Hs & k & Hf & Hk & Hv) _ IH]; intros m; [done| |apply IH].
  unfold args_of. cbn [fmap list_fmap concat snd fst app] in *. cbn [flag_Parse].
  rewrite Hs, Hf, (Hv v eq_refl). destruct k; try done; apply IH.
Qed.

Lemma set_flags_cons n ov l m :
  set_flags ((n, ov) :: l) m = set_flags l (match ov with Some v => <[n := v]> m | None => m end).
Proof. reflexivity. Qed.

Lemma set_flags_app k l m : set_flags (k ++ l) m = set_flags l (set_flags k m).
Proof. apply foldl_app. Qed.

Lemma set_flags_notin l m n : n ∉ l.*1 → set_flags l m !! n = m !! n.
Proof.
  revert m. induction l as [|[n' ov] l IH]; intros m Hn; [done|].
  apply not_elem_of_cons in Hn as [Hne Hn]. rewrite set_flags_cons, IH by done.
  destruct ov; [by rewrite lookup_insert_ne|done].
Qed.

Lemma set_flags_lookup l m n ov : NoDup l.*1 → (n, ov) ∈ l → m !! n = None → set_flags l m !! n = ov.
Proof.
  intros Hnd Hin Hm. apply list_elem_of_split in Hin as (l1 & l2 & ->).
  rewrite fmap_app in Hnd. apply NoDup_app in Hnd as (_ & Hdis & Hnd2). simpl in *.
  apply NoDup_cons in Hnd2 as [Hn2 _].
  rewrite set_flags_app, set_flags_cons, set_flags_notin by done.
  destruct ov; [by rewrite lookup_insert_eq|]. rewrite set_flags_notin; [done|].
  intros Hl1. apply (Hdis n Hl1). by left.
Qed.
End Flags.

(** ** Parsers of decimal numerals

    A concrete [GoParse]: numerals are decimal, a time is the number of its
    second. *)

Definition digit_value (a : ascii) : option Z :=
  let n := Z.of_nat (nat_of_ascii a) - 48 in if (0 <=? n) && (n <? 10) then Some n else None.

Fixpoint parse_digits (acc : Z) (s : string) : option Z :=
  match s with
  | "" => Some acc
  | String a s => match digit_value a with Some d => parse_digits (acc * 10 + d) s | None => None end
  end.

Definition parse_decimal (s : string) : result Z :=
  let digits := match s with
    | "" => None
    | String "-" s => Z.opp <$> parse_digits 0 s
    | s => parse_digits 0 s
    end in
  match digits with Some z => Ok z | None => Err (Sentinel "strconv.ErrSyntax") end.

Lemma parse_digits_app s t acc : parse_digits acc (s +:+ t) = parse_digits acc s ≫= λ a, parse_digits a t.
Proof.
  revert acc. induction s as [|a s IH]; intros acc; [done|]. rewrite append_cons. cbn [parse_digits].
  destruct (digit_value a); [apply IH|done].
Qed.

Lemma parse_digits_Itoa z : 0 <= z → parse_digits 0 (Itoa z) = Some z.
Proof.
  induction z as [z IH] using (well_founded_induction (Z.lt_wf 0)). intros Hz.
  destruct (decide (z < 10)) as [Hs|Hb].
  - assert (z ∈ [0; 1; 2; 3; 4; 5; 6; 7; 8; 9]) as Hin.
    { rewrite !elem_of_cons. lia. }
    repeat (apply elem_of_cons in Hin as [->|Hin]; [by vm_compute|]). by apply elem_of_nil in Hin.
  - rewrite Itoa_snoc, parse_digits_app, IH by (first [lia|apply Z.div_pos; lia|split; [apply Z.div_pos; lia|apply Z.div_lt; lia]]).
    cbn [mbind option_bind parse_digits].
    assert (digit_value (digit_char (z mod 10)) = Some (z mod 10)) as ->.
    { pose proof (Z.mod_pos_bound z 10 ltac:(lia)). set (d := z mod 10) in *.
      assert (d ∈ [0; 1; 2; 3; 4; 5; 6; 7; 8; 9]) as Hin by (rewrite !elem_of_cons; lia).
      clearbody d. repeat (apply elem_of_cons in Hin as [->|Hin]; [by vm_compute|]). by apply elem_of_nil in Hin. }
    f_equal. pose proof (Z.div_mod z 10 ltac:(lia)). lia.
Qed.

(** A decimal number contains nothing but digits. *)
Lemma Itoa_without c z : 0 <= z → digit_value c = None → Contains (Itoa z) (String c "") = false.
Proof.
  intros Hz Hc. destruct (Contains (Itoa z) (String c "")) eqn:E; [|done]. exfalso.
  pose proof (parse_digits_Itoa z Hz) as Hd. apply Contains_spec in E as (x & y & E). rewrite E in Hd.
  rewrite !parse_digits_app in Hd. destruct (parse_digits 0 x); [|done].
  simpl in Hd. rewrite Hc in Hd. done.
Qed.

Lemma parse_decimal_Itoa z : parse_decimal (Itoa z) = Ok z.
Proof.
  destruct (decide (0 <= z)) as [Hz|Hz].
  - pose proof (parse_digits_Itoa z Hz) as Hp. unfold parse_decimal.
    pose proof (Itoa_length_pos z Hz) as Hl. destruct (Itoa z) as [|a s]; [simpl in Hl; lia|].
    destruct (decide (a = "-"%char)) as [->|Ha]; [done|].
    destruct a as [[] [] [] [] [] [] [] []]; try (by rewrite Hp); done.
  - assert (Itoa z = String "-" (Itoa (- z))) as -> by (destruct z; [lia|lia|reflexivity]).
    unfold parse_decimal. rewrite parse_digits_Itoa by lia. simpl. by rewrite Z.opp_involutive.
Qed.

Definition decimal_float (s : string) : result float64 :=
  match parse_decimal s with Ok z => Ok (f64_of_Z z) | Err e => Err e end.

Definition decimal_time (s : string) : result Z :=
  match parse_decimal s with Ok z => Ok (z * Second) | Err e => Err e end.

Definition decimal_parser : GoParse.
Proof.
  refine {| ParseInt0 := parse_decimal; Atoi := parse_decimal; DurationString := Itoa; ParseDuration := parse_decimal;
            ParseFloat := decimal_float; FormatRFC3339 t := Itoa (t / Second);
            ParseRFC3339 := decimal_time |}.
  - intros z _. apply parse_decimal_Itoa.
  - intros z _. apply parse_decimal_Itoa.
  - intros z _. apply parse_decimal_Itoa.
  - intros z _. unfold decimal_float. by rewrite parse_decimal_Itoa.
  - intros t _. unfold decimal_time. by rewrite parse_decimal_Itoa.
  - intros t Ht. pose proof (parse_decimal_Itoa (t / Second)) as Hp. by rewrite Ht in Hp.
Defined.
