(* ===== verification/CaptureApi.v ===== *)
(** * Capture resources ([api/v1alpha1])

    The Go structs of [TrafficCapture], [CaptureStorage] and [CaptureHub], field
    by field, with the conventions of [Api], and the spoke's helpers for conditions.  A [resource.Quantity] is its
    canonical text. *)

From S2P Require Import Prelude Kube Api.

Local Open Scope Z_scope.

(** [gwapiv1.SecretObjectReference] and [LocalPolicyTargetReference], the fields
    the program reads. *)
Record SecretObjectReference := { sor_Name : string; sor_Namespace : option string }.
Record LocalPolicyTargetReference := { ptr_Kind : string; ptr_Name : string }.

(** ** [CaptureStorage] *)

Definition CaptureStorageTypeS3 : string := "S3".
Definition CaptureStorageTypeGCS : string := "GCS".
Definition CaptureStorageTypeEFS : string := "EFS".
Definition CaptureStorageTypeEBS : string := "EBS".
Definition CaptureStorageTypePlugin : string := "Plugin".

Definition CaptureStoragePhaseReady : string := "Ready".
Definition CaptureStoragePhaseError : string := "Error".

Record RetentionPolicy := { rp_MaxAge : option string; rp_MaxSize : option string }.

Record S3Config := {
  s3c_Bucket : string;
  s3c_Region : string;
  s3c_Prefix : option string;
  s3c_CredentialsSecretRef : SecretObjectReference
}.

Record GCSConfig := {
  gcs_Bucket : string;
  gcs_Prefix : option string;
  gcs_CredentialsSecretRef : SecretObjectReference
}.

Record EFSConfig := { efs_FileSystemID : string; efs_MountPath : string; efs_Directory : option string }.

Record EBSConfig := { ebs_VolumeID : string; ebs_MountPath : string; ebs_Filesystem : option string }.

Record StoragePluginConfig := {
  spc_Path : string;
  spc_Symbol : option string;
  spc_Config : option RawExtension
}.

Record CaptureStorageSpec := {
  css_Type : string;
  css_S3 : option S3Config;
  css_GCS : option GCSConfig;
  css_EFS : option EFSConfig;
  css_EBS : option EBSConfig;
  css_Plugin : option StoragePluginConfig;
  css_Retention : option RetentionPolicy
}.

Record CaptureStorageStatus := { csst_Phase : string; csst_Conditions : list Condition }.

Definition CaptureStorage : Type := Object CaptureStorageSpec CaptureStorageStatus.

(** ** [TrafficCapture] *)

Definition TrafficCapturePhasePending : string := "Pending".
Definition TrafficCapturePhaseActive : string := "Active".
Definition TrafficCapturePhaseCompleted : string := "Completed".
Definition TrafficCapturePhaseFailed : string := "Failed".

Record HeaderMatch := { hm_Name : string; hm_Value : string }.

Record CaptureFilters := {
  cf_Headers : list HeaderMatch;
  cf_PathPrefix : option string;
  cf_Percentage : option Z
}.

Record CaptureSettings := {
  cst_IncludeHeaders : option bool;
  cst_IncludeBody : option bool;
  cst_MaxBodyBytes : option Z;
  cst_Duration : option string;
  cst_RedactHeaders : list string;
  cst_DisableHeaderRedaction : option bool
}.

Record AgentScalingSpec := {
  as_Replicas : option Z;
  as_MinReplicas : option Z;
  as_MaxReplicas : option Z;
  as_TargetCPU : option Z
}.

Record PayloadPluginRef := {
  ppr_Name : string;
  ppr_OnError : option string;
  ppr_Config : option RawExtension
}.

Record TrafficCaptureSpec := {
  tcs_TargetRef : LocalPolicyTargetReference;
  tcs_StorageRef : CaptureStorageReference;
  tcs_Capture : CaptureSettings;
  tcs_Filters : option CaptureFilters;
  tcs_Agent : option AgentScalingSpec;
  tcs_Plugins : list PayloadPluginRef
}.

Record CaptureAgentStatus := { cas_ReadyReplicas : Z; cas_DesiredReplicas : Z }.

Record TrafficCaptureStatus := {
  tcst_Phase : string;
  tcst_StartTime : option Z;
  tcst_CapturedRequests : Z;
  tcst_BytesWritten : option string;
  tcst_AgentStatus : option CaptureAgentStatus;
  tcst_Conditions : list Condition
}.

Definition TrafficCapture : Type := Object TrafficCaptureSpec TrafficCaptureStatus.

(** ** [CaptureHub] *)

Definition HubAuthenticationTypeMTLS : string := "mTLS".
Definition CaptureHubConditionActive : string := "Active".

Record CaptureHubTLSConfig := { htc_CertSecretRef : SecretObjectReference }.
Record CaptureHubAuthentication := { ha_Type : string }.

Record CaptureHubSpec := {
  chs_GRPCAddress : string;
  chs_TLS : option CaptureHubTLSConfig;
  chs_Authentication : option CaptureHubAuthentication
}.

Record CaptureHubSpokeStatus := {
  hss_Name : string;
  hss_Cell : string;
  hss_LastHeartbeat : option Z;
  hss_ActiveCaptures : Z;
  hss_ActiveReplays : Z
}.

Record CaptureHubCellStatus := {
  hcs_Name : string;
  hcs_ConnectedSpokes : Z;
  hcs_TotalSpokes : Z;
  hcs_ActiveCaptures : Z;
  hcs_ActiveReplays : Z
}.

Record CaptureHubStatus := {
  chst_ConnectedSpokes : Z;
  chst_ActiveCaptures : Z;
  chst_ActiveReplays : Z;
  chst_Spokes : list CaptureHubSpokeStatus;
  chst_Cells : list CaptureHubCellStatus;
  chst_Conditions : list Condition
}.

Definition CaptureHub : Type := Object CaptureHubSpec CaptureHubStatus.

(** ** Conditions ([internal/spoke/controller.go]) *)

(** The first condition of the type is
    replaced. *)
Fixpoint setCondition (conditions : list Condition) (c : Condition) : list Condition :=
  match conditions with
  | [] => [c]
  | d :: ds => if bool_decide (cond_Type d = cond_Type c) then c :: ds else d :: setCondition ds c
  end.

Definition conditionStatus (ok : bool) : ConditionStatus := if ok then ConditionTrue else ConditionFalse.
