(* ===== verification/Summary.v ===== *)
(** * Result summaries ([internal/plugin/replay/plugin.go], [report.go])

    The default result handler: what it keeps of each result, the summary it
    computes at the end of a run and the report the replay engine writes for the
    spoke. *)

From S2P Require Import Prelude GoStd GoTime GoFloat Storage Shard Readers Engine.

Local Open Scope Z_scope.

Record Summary := {
  sm_TotalRequests : Z;
  sm_SuccessCount : Z;
  sm_ErrorCount : Z;
  sm_FilteredCount : Z;
  sm_MeanLatency : Z;
  sm_P50Latency : Z;
  sm_P95Latency : Z;
  sm_P99Latency : Z;
  sm_StatusCodeDist : gmap Z Z;
  sm_StartTime : Z;
  sm_EndTime : Z;
  sm_TotalDuration : Z;
  sm_BytesSent : Z;
  sm_BytesReceived : Z;
  sm_ErrorsByType : gmap string Z
}.

Definition emptySummary : Summary :=
  {| sm_TotalRequests := 0; sm_SuccessCount := 0; sm_ErrorCount := 0; sm_FilteredCount := 0;
     sm_MeanLatency := 0; sm_P50Latency := 0; sm_P95Latency := 0; sm_P99Latency := 0;
     sm_StatusCodeDist := ∅; sm_StartTime := zero_time; sm_EndTime := zero_time; sm_TotalDuration := 0;
     sm_BytesSent := 0; sm_BytesReceived := 0; sm_ErrorsByType := ∅ |}.

(** ** Latencies *)

(** The inner loop of [sortDurations] at [j = n - 1]: what is above [key] moves up
    by one. *)
Fixpoint sift (ds : list Z) (key : Z) (n : nat) : list Z :=
  match n with
  | O => <[0%nat := key]> ds
  | S j =>
      match ds !! j with
      | Some d => if key <? d then sift (<[S j := d]> ds) key j else <[S j := key]> ds
      | None => ds
      end
  end.

Definition sortDurations (ds : list Z) : list Z :=
  foldl (λ ds i, match ds !! i with Some key => sift ds key i | None => ds end) ds (seq 1 (length ds - 1)).

Definition meanDuration (ds : list Z) : Z :=
  if bool_decide (ds = []) then 0
  else Z.quot (foldl (λ total d, int64 (total + d)) 0 ds) (len ds).

(** An index out of range panics. *)
Definition percentileDuration (ds : list Z) (p : float64) : go Z :=
  if bool_decide (ds = []) then Ret 0
  else
    let sorted := sortDurations ds in
    let idx := f64_index (len sorted - 1) p in
    if idx <? 0 then Panic
    else match sorted !! Z.to_nat idx with Some d => Ret d | None => Panic end.

(** The constants 0.50, 0.95 and 0.99. *)
Definition p50 : positive := 4503599627370496.
Definition p95 : positive := 8556839292003942.
Definition p99 : positive := 8917127262193582.

(** ** The summary *)

Section Summary.
(** [errors.As] finds an error whose [Timeout] method returns true. *)
Variable is_timeout : go_error → bool.

Definition errorCategory (err : option go_error) : string :=
  match err with
  | None => ""
  | Some err =>
      if errors_Is err "context canceled" then "canceled"
      else if errors_Is err "context deadline exceeded" then "deadline_exceeded"
      else if is_timeout err then "timeout"
      else if errors_Is err "EOF" then "connection_closed"
      else "unknown"
  end.

Definition incr {K} `{Countable K} (k : K) (m : gmap K Z) : gmap K Z := <[k := int64 (default 0 (m !! k) + 1)]> m.

(** The body of the loop over the results. *)
Definition add_result (s : Summary) (r : Result) : Summary :=
  let failed := match res_Error r with Some _ => true | None => false end in
  {| sm_TotalRequests := sm_TotalRequests s;
     sm_SuccessCount := if failed then sm_SuccessCount s else int64 (sm_SuccessCount s + 1);
     sm_ErrorCount := if failed then int64 (sm_ErrorCount s + 1) else sm_ErrorCount s;
     sm_FilteredCount := sm_FilteredCount s;
     sm_MeanLatency := sm_MeanLatency s; sm_P50Latency := sm_P50Latency s;
     sm_P95Latency := sm_P95Latency s; sm_P99Latency := sm_P99Latency s;
     sm_StatusCodeDist := if 0 <? res_StatusCode r then incr (res_StatusCode r) (sm_StatusCodeDist s)
                          else sm_StatusCodeDist s;
     sm_StartTime := if IsZero (sm_StartTime s) || (res_Timestamp r <? sm_StartTime s)
                     then res_Timestamp r else sm_StartTime s;
     sm_EndTime := if sm_EndTime s <? res_Timestamp r then res_Timestamp r else sm_EndTime s;
     sm_TotalDuration := sm_TotalDuration s;
     sm_BytesSent := int64 (sm_BytesSent s + Z.of_nat (String.length (res_ResponseBody r)));
     sm_BytesReceived := sm_BytesReceived s;
     sm_ErrorsByType := if failed then incr (errorCategory (res_Error r)) (sm_ErrorsByType s)
                        else sm_ErrorsByType s |}.

Definition with_Total (n : Z) (s : Summary) : Summary :=
  {| sm_TotalRequests := n; sm_SuccessCount := sm_SuccessCount s; sm_ErrorCount := sm_ErrorCount s;
     sm_FilteredCount := sm_FilteredCount s; sm_MeanLatency := sm_MeanLatency s; sm_P50Latency := sm_P50Latency s;
     sm_P95Latency := sm_P95Latency s; sm_P99Latency := sm_P99Latency s; sm_StatusCodeDist := sm_StatusCodeDist s;
     sm_StartTime := sm_StartTime s; sm_EndTime := sm_EndTime s; sm_TotalDuration := sm_TotalDuration s;
     sm_BytesSent := sm_BytesSent s; sm_BytesReceived := sm_BytesReceived s; sm_ErrorsByType := sm_ErrorsByType s |}.

Definition with_Filtered (n : Z) (s : Summary) : Summary :=
  {| sm_TotalRequests := sm_TotalRequests s; sm_SuccessCount := sm_SuccessCount s;
     sm_ErrorCount := sm_ErrorCount s; sm_FilteredCount := n; sm_MeanLatency := sm_MeanLatency s;
     sm_P50Latency := sm_P50Latency s; sm_P95Latency := sm_P95Latency s; sm_P99Latency := sm_P99Latency s;
     sm_StatusCodeDist := sm_StatusCodeDist s; sm_StartTime := sm_StartTime s; sm_EndTime := sm_EndTime s;
     sm_TotalDuration := sm_TotalDuration s; sm_BytesSent := sm_BytesSent s;
     sm_BytesReceived := sm_BytesReceived s; sm_ErrorsByType := sm_ErrorsByType s |}.

Definition with_latencies (total mean q50 q95 q99 : Z) (s : Summary) : Summary :=
  {| sm_TotalRequests := sm_TotalRequests s; sm_SuccessCount := sm_SuccessCount s;
     sm_ErrorCount := sm_ErrorCount s; sm_FilteredCount := sm_FilteredCount s; sm_MeanLatency := mean;
     sm_P50Latency := q50; sm_P95Latency := q95; sm_P99Latency := q99;
     sm_StatusCodeDist := sm_StatusCodeDist s; sm_StartTime := sm_StartTime s; sm_EndTime := sm_EndTime s;
     sm_TotalDuration := total; sm_BytesSent := sm_BytesSent s; sm_BytesReceived := sm_BytesReceived s;
     sm_ErrorsByType := sm_ErrorsByType s |}.

(** [Summarize] of the default handler over the results it was handed. *)
Definition Summarize (results : list Result) : go Summary :=
  match results with
  | [] => Ret emptySummary
  | _ =>
      let s := foldl add_result (with_Total (len results) emptySummary) results in
      let latencies := res_Duration <$> results in
      match percentileDuration latencies (fraction p50), percentileDuration latencies (fraction p95),
            percentileDuration latencies (fraction p99) with
      | Ret q50, Ret q95, Ret q99 =>
          Ret (with_latencies (time_Sub (sm_EndTime s) (sm_StartTime s)) (meanDuration latencies) q50 q95 q99 s)
      | _, _, _ => Panic
      end
  end.

(** The end of [Engine.Run]. *)
Definition run_summary {R} (st : run_state (R := R)) : result (go Summary) :=
  match run_error st with
  | Some err => Err err
  | None =>
      Ok match Summarize (st_results st) with
         | Ret s => Ret (with_Filtered (st_filtered st) s)
         | Panic => Panic
         end
  end.
End Summary.

(** ** The run report ([report.go]) *)

Record RunReport := {
  rp_TotalRequests : Z;
  rp_SentRequests : Z;
  rp_FailedRequests : Z;
  rp_FilteredRequests : Z;
  rp_DurationMs : Z;
  rp_AchievedRPS : float64;
  rp_MeanLatencyMs : Z;
  rp_P50LatencyMs : Z;
  rp_P95LatencyMs : Z;
  rp_P99LatencyMs : Z
}.

Definition Millisecond : Z := 1000000.

(** [Duration.Milliseconds] and [Duration.Seconds]. *)
Definition Milliseconds (d : Z) : Z := Z.quot d Millisecond.
Definition Seconds (d : Z) : float64 :=
  f64_add (f64_of_Z (Z.quot d Second)) (f64_div (f64_of_Z (Z.rem d Second)) (f64_of_Z Second)).

Definition NewRunReport (s : Summary) : RunReport :=
  {| rp_TotalRequests := sm_TotalRequests s;
     rp_SentRequests := sm_SuccessCount s;
     rp_FailedRequests := sm_ErrorCount s;
     rp_FilteredRequests := sm_FilteredCount s;
     rp_DurationMs := Milliseconds (sm_TotalDuration s);
     rp_AchievedRPS := if 0 <? sm_TotalDuration s
                       then f64_div (f64_of_Z (sm_SuccessCount s)) (Seconds (sm_TotalDuration s)) else f64_zero;
     rp_MeanLatencyMs := Milliseconds (sm_MeanLatency s);
     rp_P50LatencyMs := Milliseconds (sm_P50Latency s);
     rp_P95LatencyMs := Milliseconds (sm_P95Latency s);
     rp_P99LatencyMs := Milliseconds (sm_P99Latency s) |}.

(** [encoding/json] for reports: what was encoded decodes to itself. *)
Class ReportCodec := {
  rp_Marshal : RunReport → result string;
  rp_Unmarshal : string → result RunReport;
  rp_unmarshal_marshal : ∀ r data, rp_Marshal r = Ok data → rp_Unmarshal data = Ok r;
  rp_marshal_nonempty : ∀ r data, rp_Marshal r = Ok data → data ≠ ""
}.

Definition ParseRunReport {RC : ReportCodec} (data : string) : result RunReport := rp_Unmarshal data.

(** ** Sorting *)

Lemma sift_spec key rest pre x :
  ∃ l, sift (pre ++ x :: rest) key (length pre) = l ++ rest ∧ l ≡ₚ key :: pre ∧
    (StronglySorted Z.le pre → StronglySorted Z.le l).
Proof.
  revert x rest. induction pre as [|y pre IH] using rev_ind; intros x rest.
  - exists [key]. split_and!; [done|done|]. intros _. repeat constructor.
  - rewrite length_app. simpl. rewrite Nat.add_1_r. cbn [sift].
    rewrite <-!app_assoc. cbn [app]. rewrite list_lookup_middle by done.
    replace (<[S (length pre) := y]> (pre ++ y :: x :: rest)) with (pre ++ y :: y :: rest).
    2:{ rewrite insert_app_r_alt by lia. by replace (S (length pre) - length pre)%nat with 1%nat by lia. }
    replace (<[S (length pre) := key]> (pre ++ y :: x :: rest)) with (pre ++ y :: key :: rest).
    2:{ rewrite insert_app_r_alt by lia. by replace (S (length pre) - length pre)%nat with 1%nat by lia. }
    destruct (key <? y) eqn:Hlt; zbool.
    + destruct (IH y (y :: rest)) as (l & -> & Hp & Hs). exists (l ++ [y]).
      rewrite <-app_assoc. split_and!; [done|rewrite Hp; solve_Permutation|].
      intros Hsorted. apply StronglySorted_app in Hsorted as (Hall & Hpre & _).
      apply StronglySorted_app. split_and!; [|by apply Hs|repeat constructor].
      intros z w Hz ->%list_elem_of_singleton. rewrite Hp in Hz. apply elem_of_cons in Hz as [->|Hz]; [lia|].
      apply Hall; [done|by left].
    + exists (pre ++ [y; key]). rewrite <-app_assoc. split_and!; [done|solve_Permutation|].
      intros Hsorted. apply StronglySorted_app in Hsorted as (Hall & Hpre & _).
      apply StronglySorted_app. split_and!; [|done|repeat constructor; lia].
      intros z w Hz Hw. assert (z <= y) by (apply Hall; [done|by left]).
      apply elem_of_cons in Hw as [->| ->%list_elem_of_singleton]; lia.
Qed.

Lemma sort_loop ds i n l : (i + n = length ds)%nat → (1 <= i)%nat → l ≡ₚ ds → StronglySorted Z.le (take i l) →
  let r := foldl (λ ds i, match ds !! i with Some key => sift ds key i | None => ds end) l (seq i n) in
  r ≡ₚ ds ∧ StronglySorted Z.le r.
Proof.
  revert i l. induction n as [|n IH]; intros i l Hn Hi Hp Hs.
  - simpl. split; [done|]. pose proof (Permutation_length Hp). by rewrite take_ge in Hs by lia.
  - cbn [seq foldl]. pose proof (Permutation_length Hp) as Hl.
    destruct (l !! i) as [key|] eqn:Hk; [|apply lookup_ge_None in Hk; lia].
    destruct (sift_spec key (drop (S i) l) (take i l) key) as (l' & Hsift & Hp' & Hs').
    rewrite length_take_le, take_drop_middle in Hsift by (done || lia). rewrite Hsift.
    assert (length l' = S i) as Hl'.
    { rewrite (Permutation_length Hp'). simpl. by rewrite length_take_le by lia. }
    apply IH; [lia|lia| |].
    + rewrite Hp', <-Hp. rewrite <-(take_drop_middle l i key Hk) at 3. solve_Permutation.
    + rewrite take_app_length' by done. by apply Hs'.
Qed.

(** [sortDurations] sorts. *)
Lemma sortDurations_spec ds : sortDurations ds ≡ₚ ds ∧ StronglySorted Z.le (sortDurations ds).
Proof.
  destruct ds as [|d ds]; [split; [done|constructor]|].
  unfold sortDurations. apply sort_loop; simpl; [lia|lia|done|]. rewrite take_0. repeat constructor.
Qed.

(** A sorted list is determined by its elements. *)
Lemma sortDurations_perm ds ds' : ds ≡ₚ ds' → sortDurations ds = sortDurations ds'.
Proof.
  intros Hp. destruct (sortDurations_spec ds) as [H1 S1]. destruct (sortDurations_spec ds') as [H2 S2].
  apply (StronglySorted_unique Z.le); [done|done|]. by rewrite H1, H2.
Qed.

Lemma meanDuration_perm ds ds' : ds ≡ₚ ds' → meanDuration ds = meanDuration ds'.
Proof.
  intros Hp. unfold meanDuration.
  change 0 with (int64 0) at 2 4. rewrite !(foldl_int64_sum (λ d, d)), (sumZ_perm _ _ _ Hp).
  unfold len. rewrite (Permutation_length Hp).
  assert (bool_decide (ds = []) = bool_decide (ds' = [])) as ->; [|done].
  apply bool_decide_ext. split; intros ->; by (apply Permutation_nil in Hp || apply Permutation_nil_r in Hp).
Qed.

Lemma StronglySorted_lookup_1 {A} (R : relation A) l (i j : nat) a b :
  StronglySorted R l → l !! i = Some a → l !! j = Some b → (i < j)%nat → R a b.
Proof.
  intros Hs Ha Hb Hij. rewrite <-(take_drop (S i) l) in Hs.
  eapply StronglySorted_app_1_elem_of; [exact Hs| |].
  - apply (list_elem_of_lookup_2 _ i). rewrite lookup_take_lt by lia. done.
  - apply (list_elem_of_lookup_2 _ (j - S i)). rewrite lookup_drop. by replace (S i + (j - S i))%nat with j by lia.
Qed.

(** A percentile of fewer than 2^53 results is one of them: the one at its rank
    in sorted order. *)
Lemma percentile_spec ds p : 0 < len ds < 2 ^ 53 → is_fraction p →
  ∃ d, percentileDuration ds (fraction p) = Ret d ∧
    sortDurations ds !! Z.to_nat (f64_index (len ds - 1) (fraction p)) = Some d.
Proof.
  intros Hl Hp. unfold percentileDuration. rewrite bool_decide_eq_false_2 by (intros ->; unfold len in Hl; simpl in Hl; lia).
  destruct (sortDurations_spec ds) as [Hs _].
  assert (len (sortDurations ds) = len ds) as Hlen by (unfold len; by rewrite (Permutation_length Hs)).
  rewrite Hlen. pose proof (f64_index_range (len ds - 1) p ltac:(lia) Hp) as Hr.
  rewrite (proj2 (Z.ltb_ge _ 0)) by lia.
  destruct (sortDurations ds !! _) as [d|] eqn:E; [by exists d|].
  apply lookup_ge_None in E. unfold len in *. lia.
Qed.

Lemma percentile_le ds p q a b : 0 < len ds < 2 ^ 53 → is_fraction p → is_fraction q → Z.pos p + 2 <= Z.pos q →
  percentileDuration ds (fraction p) = Ret a → percentileDuration ds (fraction q) = Ret b → a <= b.
Proof.
  intros Hl Hp Hq Hpq Ha Hb.
  destruct (percentile_spec ds p Hl Hp) as (a' & Ea & La). destruct (percentile_spec ds q Hl Hq) as (b' & Eb & Lb).
  rewrite Ha in Ea. rewrite Hb in Eb. injection Ea as <-. injection Eb as <-.
  pose proof (f64_index_mono (len ds - 1) p q ltac:(lia) Hp Hq Hpq) as Hm.
  pose proof (f64_index_range (len ds - 1) p ltac:(lia) Hp) as Hr.
  set (i := f64_index _ (fraction p)) in *. set (j := f64_index _ (fraction q)) in *.
  destruct (decide (i = j)) as [Heq|Hne]; [assert (a = b) by congruence; lia|].
  destruct (sortDurations_spec ds) as [_ Hs].
  eapply (StronglySorted_lookup_1 Z.le _ (Z.to_nat i) (Z.to_nat j)); [exact Hs|exact La|exact Lb|lia].
Qed.

(** ** What a summary says *)

Section Spec.
Variable is_timeout : go_error → bool.

Definition failedb (r : Result) : bool := match res_Error r with Some _ => true | None => false end.

(** How many elements pass a test. *)
Definition countb {A} (f : A → bool) (l : list A) : Z := len (List.filter f l).

Lemma countb_snoc {A} (f : A → bool) l x : countb f (l ++ [x]) = countb f l + (if f x then 1 else 0).
Proof. unfold countb. rewrite List.filter_app, len_app. simpl. by destruct (f x). Qed.

Lemma countb_perm {A} (f : A → bool) l k : l ≡ₚ k → countb f l = countb f k.
Proof.
  unfold countb, len. induction 1 as [|x l k _ IH|x y l|l k m _ IH1 _ IH2]; simpl; [done| | |lia].
  - destruct (f x); simpl; lia.
  - by destruct (f x), (f y).
Qed.

Lemma countb_bounds {A} (f : A → bool) l : 0 <= countb f l <= len l.
Proof. unfold countb, len. pose proof (List.filter_length_le f l). lia. Qed.

(** A counter per key: the keys that occur, with how often they do. *)
Definition tally {K A} `{Countable K} (key : A → K) (counted : A → bool) (l : list A) (m : gmap K Z) : Prop :=
  ∀ k, m !! k = let n := countb (λ x, counted x && bool_decide (key x = k)) l in
                if 0 <? n then Some n else None.

Lemma tally_snoc {K A} `{Countable K} (key : A → K) counted l x m : len l < 2 ^ 62 → tally key counted l m →
  tally key counted (l ++ [x]) (if counted x then incr (key x) m else m).
Proof.
  intros Hl Hm k. pose proof (Hm k) as Hk. cbv zeta in *. rewrite countb_snoc.
  pose proof (countb_bounds (λ x, counted x && bool_decide (key x = k)) l) as Hb.
  set (n := countb _ l) in *. destruct (counted x); simpl.
  - unfold incr. case_bool_decide as E.
    + subst. rewrite lookup_insert_eq, Hk. rewrite (proj2 (Z.ltb_lt 0 (n + 1))) by lia.
      case_match; zbool; simpl; rewrite int64_id by (unfold in_int64; lia); f_equal; lia.
    + by rewrite lookup_insert_ne, Z.add_0_r.
  - by rewrite Z.add_0_r.
Qed.

Definition at_most (l : list Result) (t : Z) : Prop := Forall (λ r, t <= res_Timestamp r) l.

(** The loop over the results, on one prefix of them. *)
Record tallied (l : list Result) (s : Summary) : Prop := {
  ta_success : sm_SuccessCount s = countb (λ r, negb (failedb r)) l;
  ta_errors : sm_ErrorCount s = countb failedb l;
  ta_codes : tally res_StatusCode (λ r, 0 <? res_StatusCode r) l (sm_StatusCodeDist s);
  ta_types : tally (λ r, errorCategory is_timeout (res_Error r)) failedb l (sm_ErrorsByType s);
  ta_bytes : sm_BytesSent s = int64 (sumZ (λ r, Z.of_nat (String.length (res_ResponseBody r))) l);
  ta_start : if bool_decide (l = []) then sm_StartTime s = zero_time
             else sm_StartTime s ∈ res_Timestamp <$> l ∧ Forall (λ r, sm_StartTime s <= res_Timestamp r) l;
  ta_end : if bool_decide (l = []) then sm_EndTime s = zero_time
           else sm_EndTime s ∈ res_Timestamp <$> l ∧ Forall (λ r, res_Timestamp r <= sm_EndTime s) l
}.

(** Results are stamped after year 1. *)
Definition stamped (l : list Result) : Prop := Forall (λ r, zero_time < res_Timestamp r) l.

Lemma tallied_snoc l r s : len l < 2 ^ 53 → stamped (l ++ [r]) → tallied l s →
  tallied (l ++ [r]) (add_result is_timeout s r).
Proof.
  intros Hl [Hst Hr]%Forall_app [Hsu Her Hco Hty Hby Hstart Hend]. apply List.Forall_inv in Hr.
  assert (∀ f : Result → bool, in_int64 (countb f l + 1)) as Hin.
  { intros f. pose proof (countb_bounds f l). unfold in_int64. lia. }
  split; simpl.
  - rewrite countb_snoc, Hsu. unfold failedb. destruct (res_Error r); simpl; [lia|]. by rewrite int64_id.
  - rewrite countb_snoc, Her. unfold failedb. destruct (res_Error r); simpl; [by rewrite int64_id|lia].
  - apply (tally_snoc res_StatusCode (λ r, 0 <? res_StatusCode r)); [lia|done].
  - apply (tally_snoc (λ r, errorCategory is_timeout (res_Error r)) failedb); [lia|done].
  - rewrite Hby, int64_add_l, sumZ_app, sumZ_cons, sumZ_nil. f_equal. lia.
  - rewrite bool_decide_eq_false_2 by by destruct l. rewrite fmap_app. simpl.
    unfold IsZero. case_bool_decide as Hnil.
    + subst l. rewrite Hstart. simpl. split; [set_solver|by apply List.Forall_cons; [lia|]].
    + destruct Hstart as [Hin' Hall]. assert (zero_time < sm_StartTime s) as Hz.
      { apply list_elem_of_fmap in Hin' as (r' & -> & Hr'). eapply Forall_forall in Hst; [exact Hst|done]. }
      rewrite (proj2 (Z.eqb_neq _ _)) by lia. simpl. case_match; zbool.
      * split; [set_solver|]. apply Forall_app. split; [|by apply List.Forall_cons; [lia|]].
        eapply Forall_impl; [exact Hall|]. simpl. lia.
      * split; [set_solver|]. apply Forall_app. split; [done|by apply List.Forall_cons; [lia|]].
  - rewrite bool_decide_eq_false_2 by by destruct l. rewrite fmap_app. simpl. case_bool_decide as Hnil.
    + subst l. rewrite Hend. rewrite (proj2 (Z.ltb_lt _ _)) by done. split; [set_solver|by apply List.Forall_cons; [lia|]].
    + destruct Hend as [Hin' Hall]. case_match; zbool.
      * split; [set_solver|]. apply Forall_app. split; [|by apply List.Forall_cons; [lia|]].
        eapply Forall_impl; [exact Hall|]. simpl. lia.
      * split; [set_solver|]. apply Forall_app. split; [done|by apply List.Forall_cons; [lia|]].
Qed.

(** The fields the loop leaves alone. *)
Definition untouched (n : Z) (s : Summary) : Prop :=
  s = with_latencies 0 0 0 0 0 (with_Filtered 0 (with_Total n s)) ∧ sm_BytesReceived s = 0.

Lemma add_results_tallied n l : len l < 2 ^ 53 → stamped l →
  let s := foldl (add_result is_timeout) (with_Total n emptySummary) l in tallied l s ∧ untouched n s.
Proof.
  cbv zeta. induction l as [|r l IH] using rev_ind; intros Hl Hst.
  - split; [|done]. split; try done; intros k; simpl; by rewrite lookup_empty.
  - rewrite foldl_app. simpl. rewrite len_app in Hl. unfold len at 2 in Hl. simpl in Hl.
    destruct IH as [Hta [Heq Hb]]; [lia|by apply Forall_app in Hst as [? _]|].
    split; [apply tallied_snoc; [lia|done|done]|]. set (s := foldl _ _ _) in *.
    split; [|done]. rewrite Heq at 1. rewrite Heq. reflexivity.
Qed.

(** The counts alone do not depend on the time stamps. *)
Lemma add_results_counts n l : len l < 2 ^ 53 →
  let s := foldl (add_result is_timeout) (with_Total n emptySummary) l in
  sm_TotalRequests s = n ∧ sm_SuccessCount s + sm_ErrorCount s = len l ∧ 0 <= sm_SuccessCount s ∧
  0 <= sm_ErrorCount s ∧ sm_FilteredCount s = 0.
Proof.
  cbv zeta. induction l as [|r l IH] using rev_ind; intros Hl; [done|].
  rewrite len_app in Hl. rewrite len_app, foldl_app. unfold len at 2 in Hl. unfold len at 2. simpl in *.
  destruct (IH ltac:(lia)) as (Ht & Hsum & Hs & He & Hf).
  destruct (res_Error r); rewrite int64_id by (unfold in_int64; lia); split_and!; try done; lia.
Qed.

Lemma summarize_counts results s : len results < 2 ^ 53 → Summarize is_timeout results = Ret s →
  sm_TotalRequests s = len results ∧ sm_SuccessCount s + sm_ErrorCount s = len results ∧ 0 <= sm_SuccessCount s ∧
  0 <= sm_ErrorCount s ∧ sm_FilteredCount s = 0.
Proof.
  intros Hl Hs. pose proof (add_results_counts (len results) results Hl) as Hc. cbv zeta in Hc. revert Hs Hc.
  unfold Summarize. destruct results as [|r rs]; [by intros [= <-]|].
  generalize (res_Duration <$> r :: rs). intros ds.
  destruct (percentileDuration ds (fraction p50)), (percentileDuration ds (fraction p95)),
    (percentileDuration ds (fraction p99)); try done. by intros [= <-].
Qed.

Lemma tally_unique {K A} `{Countable K} (key : A → K) counted l l' m m' : l ≡ₚ l' →
  tally key counted l m → tally key counted l' m' → m = m'.
Proof. intros Hp Hm Hm'. apply map_eq. intros k. rewrite (Hm k), (Hm' k). cbv zeta. by rewrite (countb_perm _ _ _ Hp). Qed.

Lemma extreme_unique (l l' : list Result) (R : relation Z) a b : (∀ x y, R x y → R y x → x = y) → l ≡ₚ l' →
  a ∈ res_Timestamp <$> l → Forall (λ r, R a (res_Timestamp r)) l →
  b ∈ res_Timestamp <$> l' → Forall (λ r, R b (res_Timestamp r)) l' → a = b.
Proof.
  intros Hanti Hp (x & -> & Hx)%list_elem_of_fmap Ha (y & -> & Hy)%list_elem_of_fmap Hb.
  rewrite Forall_forall in Ha. rewrite Forall_forall in Hb. apply Hanti; [apply Ha|apply Hb].
  - by rewrite Hp.
  - by rewrite <-Hp.
Qed.

Lemma tallied_unique n l l' s s' : l ≡ₚ l' → tallied l s → tallied l' s' → untouched n s → untouched n s' → s = s'.
Proof.
  intros Hp [Hsu Her Hco Hty Hby Hst Hen] [Hsu' Her' Hco' Hty' Hby' Hst' Hen'] [Hu Hr] [Hu' Hr'].
  assert (bool_decide (l = []) = bool_decide (l' = [])) as Hnil.
  { apply bool_decide_ext. split; intros ->; by (apply Permutation_nil in Hp || apply Permutation_nil_r in Hp). }
  assert (sm_StartTime s = sm_StartTime s') as E1.
  { rewrite Hnil in Hst. case_match; [congruence|]. destruct Hst, Hst'.
    eapply (extreme_unique l l' Z.le); [lia|done..]. }
  assert (sm_EndTime s = sm_EndTime s') as E2.
  { rewrite Hnil in Hen. case_match; [congruence|]. destruct Hen, Hen'.
    eapply (extreme_unique l l' (λ x y, y <= x)); [lia|done..]. }
  assert (sm_StatusCodeDist s = sm_StatusCodeDist s') as E3 by (by eapply tally_unique).
  assert (sm_ErrorsByType s = sm_ErrorsByType s') as E4 by (by eapply tally_unique).
  rewrite Hu, Hu'. unfold with_latencies, with_Filtered, with_Total. simpl.
  rewrite E1, E2, E3, E4, Hr, Hr', Hsu, Hsu', Her, Her', Hby, Hby'.
  by rewrite (countb_perm _ _ _ Hp), (countb_perm failedb _ _ Hp), (sumZ_perm _ _ _ Hp).
Qed.

End Spec.

Definition demo_results : list Result :=
  [demo_result "a";
   {| res_RequestID := "b"; res_StatusCode := 0; res_ResponseBody := ""; res_Duration := 3;
      res_Error := Some (Sentinel "EOF"); res_Timestamp := 4 |}].

