(* ===== verification/KubeWorld.v ===== *)
(** * API servers of several resource types

    A reconciler that works on several kinds of objects has one client per kind
    over the same API server.  The class [Separate] states that writing objects of
    one kind does not change the others; the instances below put stores of
    different kinds next to each other. *)

From S2P Require Import Prelude Kube.

Local Open Scope Z_scope.

(** Writes through the client of one kind leave the reads of another alone. *)
Class Separate (W Sp St Sp' St' : Type) `{KubeClient W Sp St, KubeClient W Sp' St'} := {
  separate_create : ∀ (o : Object Sp St) w ns n,
    client_Get ns n (fst (client_Create o w)) = client_Get (Sp := Sp') (St := St') ns n w;
  separate_update : ∀ (o : Object Sp St) w ns n,
    client_Get ns n (fst (client_Update o w)) = client_Get (Sp := Sp') (St := St') ns n w;
  separate_status : ∀ (o : Object Sp St) w ns n,
    client_Get ns n (fst (client_StatusUpdate o w)) = client_Get (Sp := Sp') (St := St') ns n w;
  separate_delete : ∀ (o : Object Sp St) w ns n,
    client_Get ns n (fst (client_Delete o w)) = client_Get (Sp := Sp') (St := St') ns n w
}.

(** ** Stores as parts of a world *)

Section Part.
Context {W V Sp St : Type} `{KubeClient V Sp St, AE : !ApiErrors}.
Variable (get : W → V) (set : V → W → W).
Hypothesis get_set : ∀ v w, get (set v w) = v.
Hypothesis set_get : ∀ w, set (get w) w = w.

#[local] Instance part_client : KubeClient W Sp St := {
  client_Get ns n w := client_Get ns n (get w);
  client_List w := client_List (get w);
  client_Create o w := let '(v, e) := client_Create o (get w) in (set v w, e);
  client_Update o w := let '(v, r) := client_Update o (get w) in (set v w, r);
  client_StatusUpdate o w := let '(v, r) := client_StatusUpdate o (get w) in (set v w, r);
  client_Delete o w := let '(v, e) := client_Delete o (get w) in (set v w, e);
  client_DeleteAllOf ns k l w := let '(v, e) := client_DeleteAllOf ns k l (get w) in (set v w, e)
}.

#[local] Instance part_laws : KubeClientLaws V Sp St → KubeClientLaws W Sp St.
Proof using get_set set_get.
  intros L. split; simpl.
  - intros ns n w o. apply get_name.
  - intros o w w' o' Hu. destruct (client_Update o (get w)) as [v r] eqn:E. simplify_eq.
    rewrite get_set. by eapply update_ok.
  - intros o w w' o' e Hu. destruct (client_Update o (get w)) as [v r] eqn:E. simplify_eq.
    apply update_err in E as [-> ->]. done.
  - intros o w w' o' Hu. destruct (client_StatusUpdate o (get w)) as [v r] eqn:E. simplify_eq.
    rewrite get_set. by apply status_ok in E.
  - intros o w w' o' e Hu. destruct (client_StatusUpdate o (get w)) as [v r] eqn:E. simplify_eq.
    apply status_err in E as [-> ->]. done.
  - intros o w w' Hu. destruct (client_Create o (get w)) as [v r] eqn:E. simplify_eq.
    rewrite get_set. by apply create_ok in E.
  - intros o w w' e Hu. destruct (client_Create o (get w)) as [v r] eqn:E. simplify_eq.
    by apply create_err in E as ->.
  - intros o w w' r ns n Hu Hne. destruct (client_Create o (get w)) as [v r'] eqn:E. simplify_eq.
    rewrite get_set. by eapply create_frame.
  - intros ns k l w w' Hu. destruct (client_DeleteAllOf ns k l (get w)) as [v r] eqn:E. simplify_eq.
    rewrite get_set. exact (delete_all_ok _ _ _ _ _ E).
  - intros ns k l w w' r Hu. destruct (client_DeleteAllOf ns k l (get w)) as [v r'] eqn:E. simplify_eq.
    rewrite get_set. exact (delete_all_frame _ _ _ _ _ _ E).
  - intros o w w' Hu. destruct (client_Delete o (get w)) as [v r] eqn:E. simplify_eq.
    rewrite get_set. exact (delete_ok _ _ _ E).
  - intros o w w' e Hu. destruct (client_Delete o (get w)) as [v r] eqn:E. simplify_eq.
    by apply delete_err in E as ->.
  - intros o w w' e Hu He. destruct (client_Delete o (get w)) as [v r] eqn:E. simplify_eq.
    exact (delete_not_found _ _ _ _ E He).
  - intros o w w' r ns n Hu Hne. destruct (client_Delete o (get w)) as [v r'] eqn:E. simplify_eq.
    rewrite get_set. by eapply delete_frame.
  - intros o w w' o' old Hu Hg. destruct (client_StatusUpdate o (get w)) as [v r] eqn:E. simplify_eq.
    exact (status_spec _ _ _ _ _ E Hg).
  - intros o w w' r ns n Hu Hne. destruct (client_Update o (get w)) as [v r'] eqn:E. simplify_eq.
    rewrite get_set. by eapply update_frame.
Qed.
End Part.

Section Parts.
Context {W V Sp St V' Sp' St' : Type} `{KubeClient V Sp St, KubeClient V' Sp' St'}.
Variable (get : W → V) (set : V → W → W) (get' : W → V') (set' : V' → W → W).
Hypothesis apart : ∀ v w, get' (set v w) = get' w.

Lemma parts_separate :
  Separate W Sp St Sp' St' (H := part_client get set) (H0 := part_client get' set').
Proof using apart.
  split; intros o w ns n; simpl.
  - destruct (client_Create o (get w)). simpl. by rewrite apart.
  - destruct (client_Update o (get w)). simpl. by rewrite apart.
  - destruct (client_StatusUpdate o (get w)). simpl. by rewrite apart.
  - destruct (client_Delete o (get w)). simpl. by rewrite apart.
Qed.
End Parts.
