(* ===== verification/ReplayJob.v ===== *)
(** * From a [TrafficReplay] to a replay engine

    [internal/spoke/replay_runner.go] builds the Job that runs one shard: its
    command line carries the whole configuration.  This file models the Job and
    its command line; [ReplayMain] models the program that parses it. *)

From S2P Require Import Prelude GoStd GoTime GoFlag Kube Api CaptureApi.
From S2P Require Import Storage Readers Shard Engine SpokeDirectives.

Local Open Scope Z_scope.

(** ** Jobs ([batchv1.Job], the fields the program sets) *)

Record VolumeMount := { vm_Name : string; vm_MountPath : string; vm_ReadOnly : bool }.

Inductive VolumeSource := EmptyDir | PersistentVolumeClaim (claim : string) (readOnly : bool).

Record Container := {
  co_Name : string;
  co_Image : string;
  co_Command : list string;
  co_Args : list string;
  co_Env : list (string * string);
  co_VolumeMounts : list VolumeMount
}.

Record JobSpec := {
  js_BackoffLimit : option Z;
  js_PodLabels : gmap string string;
  js_RestartPolicy : string;
  js_Volumes : list (string * VolumeSource);
  js_InitContainers : list Container;
  js_Containers : list Container
}.

Record JobCondition := {
  jc_Type : string;
  jc_Status : ConditionStatus;
  jc_Reason : string;
  jc_Message : string
}.

Record JobStatus := {
  jst_Active : Z;
  jst_Succeeded : Z;
  jst_Failed : Z;
  jst_Conditions : list JobCondition
}.

Definition Job : Type := Object JobSpec JobStatus.

Definition emptyJobStatus : JobStatus :=
  {| jst_Active := 0; jst_Succeeded := 0; jst_Failed := 0; jst_Conditions := [] |}.

(** ** Building the Job *)

Definition replayJobBackoffLimit : Z := 2.
Definition componentReplayWorker : string := "replay-worker".
Definition managedByValue : string := "kapture".

(** The environment of the spoke: [REPLAY_PLUGIN_IMAGE], [REPLAY_PLUGIN_DIR] and
    the package variable [ReplayEngineImage]. *)
Record spoke_env := {
  env_PluginImage : string;
  env_PluginDir : string;
  env_ReplayEngineImage : string
}.

Definition ReplayJobName (tr : TrafficReplay) : string := Name tr +:+ "-replay".

Definition replayEnv (env : spoke_env) : list (string * string) :=
  if bool_decide (env_PluginDir env ≠ "") then [("REPLAY_PLUGIN_DIR", env_PluginDir env)] else [].

Definition is_presharded (tr : TrafficReplay) : bool :=
  match trs_Shard (Spec tr) with
  | Some s => default false (shs_Presharded s)
  | None => false
  end.

(** The capture a worker reads. *)
Definition job_capture_id (tr : TrafficReplay) : string :=
  let captureID := Namespace tr +:+ "/" +:+ tcr_Name (trs_SourceRef (Spec tr)) in
  match trs_Shard (Spec tr) with
  | Some s => if is_presharded tr
              then captureID +:+ "/shards/" +:+ Itoa (shs_Index s) +:+ "-of-" +:+ Itoa (shs_Count s)
              else captureID
  | None => captureID
  end.

(** ["--flag", value] when the pointer is set to a non-empty string. *)
Definition arg_if_set (flag : string) (p : option string) : list string :=
  match p with
  | Some v => if bool_decide (v ≠ "") then [flag; v] else []
  | None => []
  end.

Definition storage_args (storage : CaptureStorage) : result (list string) :=
  let spec := Spec storage in
  let t := css_Type spec in
  let missing what conf := Err (FmtError ("storage %s has type " +:+ what +:+ " but no " +:+ conf +:+ " config")
                             [FStr (Name storage)]) in
  if bool_decide (t = CaptureStorageTypeS3) then
    match css_S3 spec with
    | None => missing "S3" "s3"
    | Some c => Ok (["--storage-type"; "s3"; "--bucket"; s3c_Bucket c; "--region"; s3c_Region c]
                    ++ arg_if_set "--prefix" (s3c_Prefix c))
    end
  else if bool_decide (t = CaptureStorageTypeGCS) then
    match css_GCS spec with
    | None => missing "GCS" "gcs"
    | Some c => Ok (["--storage-type"; "gcs"; "--bucket"; gcs_Bucket c] ++ arg_if_set "--prefix" (gcs_Prefix c))
    end
  else if bool_decide (t = CaptureStorageTypeEFS) then
    match css_EFS spec with
    | None => missing "EFS" "efs"
    | Some c => Ok ["--storage-type"; "efs"; "--mount-path"; efs_MountPath c]
    end
  else if bool_decide (t = CaptureStorageTypeEBS) then
    match css_EBS spec with
    | None => missing "EBS" "ebs"
    | Some c => Ok ["--storage-type"; "ebs"; "--mount-path"; ebs_MountPath c]
    end
  else Err (FmtError "storage type %q is not supported for replay" [FStr t]).

Definition target_url (t : ReplayTarget) : string :=
  let tls := default false (rt_TLS t) in
  let port := default (if tls then 443 else 80) (rt_Port t) in
  (if tls then "https" else "http") +:+ "://" +:+ rt_Host t +:+ ":" +:+ Itoa port.

Definition rate_args (rate : option ReplayRateConfig) : list string :=
  match rate with
  | None => ["--rate-mode"; "original"]
  | Some rate =>
      if bool_decide (rrc_Mode rate = ReplayRateModeConstant) then
        ["--rate-mode"; "constant"]
        ++ match rrc_RequestsPerSecond rate with Some rps => ["--rate-per-second"; Itoa rps] | None => [] end
      else if bool_decide (rrc_Mode rate = ReplayRateModeOriginalTiming) then
        ["--rate-mode"; "original"] ++ arg_if_set "--time-scale" (rrc_TimeScale rate)
      else if bool_decide (rrc_Mode rate = ReplayRateModeUnlimited) then ["--rate-mode"; "unlimited"]
      else []
  end.

Definition shard_args (tr : TrafficReplay) : list string :=
  match trs_Shard (Spec tr) with
  | Some s => if is_presharded tr then []
              else ["--shard-index"; Itoa (shs_Index s); "--shard-count"; Itoa (shs_Count s)]
  | None => []
  end.

Definition engine_args (engine : option ReplayEngineSpec) : list string :=
  match engine with
  | Some e =>
      if bool_decide (Api.res_Name e ≠ "") && bool_decide (Api.res_Name e ≠ "builtin") then
        ["--engine"; Api.res_Name e]
        ++ match res_Config e with Some c => arg_if_set "--engine-config" (Some (Raw c)) | None => [] end
      else []
  | None => []
  end.

(** [strings.Join(methods, ",")]. *)
Fixpoint join_comma (l : list string) : string :=
  match l with
  | [] => ""
  | [x] => x
  | x :: l => x +:+ "," +:+ join_comma l
  end.

Section Job.
Context {GP : GoParse}.

Definition filter_args (f : option ReplayFilters) : list string :=
  match f with
  | None => []
  | Some f =>
      match rf_StartTime f with Some t => ["--start-time"; FormatRFC3339 t] | None => [] end
      ++ match rf_EndTime f with Some t => ["--end-time"; FormatRFC3339 t] | None => [] end
      ++ arg_if_set "--path-prefix" (rf_PathPrefix f)
      ++ (if 0 <? len (rf_Methods f) then ["--methods"; join_comma (rf_Methods f)] else [])
      ++ match rf_Limit f with Some n => if 0 <? n then ["--limit"; Itoa n] else [] | None => [] end
  end.

Definition buildReplayArgs (tr : TrafficReplay) (storage : CaptureStorage) : result (list string) :=
  match storage_args storage with
  | Err e => Err e
  | Ok sargs =>
      Ok (["--capture-id"; job_capture_id tr; "--log-format"; "json"]
          ++ sargs
          ++ ["--target-url"; target_url (trs_Target (Spec tr))]
          ++ rate_args (trs_Rate (Spec tr))
          ++ match trs_Concurrency (Spec tr) with Some c => ["--concurrency"; Itoa c] | None => [] end
          ++ shard_args tr
          ++ engine_args (trs_Engine (Spec tr))
          ++ filter_args (trs_Filters (Spec tr))
          ++ ["--summary-path"; "/dev/termination-log"])
  end.

Definition copy_label (key : string) (from to : gmap string string) : gmap string string :=
  match from !! key with Some v => <[key := v]> to | None => to end.

(** The volumes, init containers and mounts the storage and the plugin image add. *)
Definition capture_mount (storage : CaptureStorage) : option string :=
  let spec := Spec storage in
  if bool_decide (css_Type spec = CaptureStorageTypeEFS) then efs_MountPath <$> css_EFS spec
  else if bool_decide (css_Type spec = CaptureStorageTypeEBS) then ebs_MountPath <$> css_EBS spec
  else None.

Definition mountCaptureVolume (mountPath : string) (job : JobSpec) : JobSpec :=
  {| js_BackoffLimit := js_BackoffLimit job; js_PodLabels := js_PodLabels job;
     js_RestartPolicy := js_RestartPolicy job;
     js_Volumes := js_Volumes job ++ [("capture-data", PersistentVolumeClaim "capture-data" true)];
     js_InitContainers := js_InitContainers job;
     js_Containers := (λ c, {| co_Name := co_Name c; co_Image := co_Image c; co_Command := co_Command c;
                               co_Args := co_Args c; co_Env := co_Env c;
                               co_VolumeMounts := co_VolumeMounts c ++
                                 [{| vm_Name := "capture-data"; vm_MountPath := mountPath; vm_ReadOnly := true |}] |})
                      <$> js_Containers job |}.

Definition addPluginInstaller (env : spoke_env) (job : JobSpec) : JobSpec :=
  if bool_decide (env_PluginImage env = "") then job
  else
    let pluginDir := if bool_decide (env_PluginDir env = "") then "/plugins" else env_PluginDir env in
    {| js_BackoffLimit := js_BackoffLimit job; js_PodLabels := js_PodLabels job;
       js_RestartPolicy := js_RestartPolicy job;
       js_Volumes := js_Volumes job ++ [("engine-plugins", EmptyDir)];
       js_InitContainers := js_InitContainers job ++
         [{| co_Name := "install-engine-plugins"; co_Image := env_PluginImage env;
             co_Command := ["/plugin-installer"]; co_Args := [];
             co_Env := [("PLUGIN_TARGET_DIR", "/target")];
             co_VolumeMounts := [{| vm_Name := "engine-plugins"; vm_MountPath := "/target"; vm_ReadOnly := false |}] |}];
       js_Containers := (λ c, {| co_Name := co_Name c; co_Image := co_Image c; co_Command := co_Command c;
                                 co_Args := co_Args c; co_Env := co_Env c;
                                 co_VolumeMounts := co_VolumeMounts c ++
                                   [{| vm_Name := "engine-plugins"; vm_MountPath := pluginDir; vm_ReadOnly := false |}] |})
                        <$> js_Containers job |}.

(** The Job has one container, so changing every container changes that one. *)
Definition BuildReplayJob (env : spoke_env) (tr : TrafficReplay) (storage : CaptureStorage) : result Job :=
  match buildReplayArgs tr storage with
  | Err e => Err e
  | Ok args =>
      let labels := copy_label LabelShardIndex (om_Labels (Meta tr))
                      (copy_label LabelLoadTest (om_Labels (Meta tr))
                        (list_to_map [("app.kubernetes.io/name", componentReplayWorker);
                                      ("app.kubernetes.io/instance", Name tr);
                                      ("app.kubernetes.io/component", componentReplayWorker);
                                      ("app.kubernetes.io/managed-by", managedByValue)])) in
      let job := {| js_BackoffLimit := Some replayJobBackoffLimit; js_PodLabels := labels;
                    js_RestartPolicy := "Never"; js_Volumes := []; js_InitContainers := [];
                    js_Containers := [{| co_Name := "replay-engine"; co_Image := env_ReplayEngineImage env;
                                         co_Command := []; co_Args := args; co_Env := replayEnv env;
                                         co_VolumeMounts := [] |}] |} in
      let job := match capture_mount storage with Some path => mountCaptureVolume path job | None => job end in
      Ok (MkObject (newObjectMeta (Namespace tr) (ReplayJobName tr) labels)
            (addPluginInstaller env job) emptyJobStatus)
  end.
End Job.
