(* ===== verification/ReplayMain.v ===== *)
(** * The replay engine's command ([cmd/replay-engine/main.go])

    Parsing the command line, the checks of [run], the read options, and the
    engine of [runDirectReplay]; then what a Job built by [ReplayJob] makes of a
    [TrafficReplay]. *)

From S2P Require Import Prelude GoStd GoTime GoFlag Kube Api CaptureApi.
From S2P Require Import Storage Readers Shard Engine Preshard SpokeDirectives ReplayJob.
From Stdlib Require Import Ascii.

Local Open Scope Z_scope.

(** ** Flags *)

Record config := {
  cfg_storageType : string;
  cfg_bucket : string;
  cfg_region : string;
  cfg_prefix : string;
  cfg_mountPath : string;
  cfg_captureID : string;
  cfg_startTime : string;
  cfg_endTime : string;
  cfg_pathPrefix : string;
  cfg_methods : string;
  cfg_limit : Z;
  cfg_targetURL : string;
  cfg_overrideHeaders : string;
  cfg_serve : bool;
  cfg_addr : string;
  cfg_rateMode : string;
  cfg_ratePerSecond : float64;
  cfg_timeScale : float64;
  cfg_concurrency : Z;
  cfg_shardIndex : Z;
  cfg_shardCount : Z;
  cfg_engine : string;
  cfg_engineConfig : string;
  cfg_pluginDir : string;
  cfg_checkpointDir : string;
  cfg_replayID : string;
  cfg_resume : bool;
  cfg_logLevel : string;
  cfg_logFormat : string;
  cfg_summaryPath : string;
  cfg_failOnEmpty : bool
}.

Definition formal_flags : gmap string flag_kind := list_to_map
  [("storage-type", StringFlag); ("bucket", StringFlag); ("region", StringFlag); ("prefix", StringFlag);
   ("mount-path", StringFlag); ("capture-id", StringFlag); ("start-time", StringFlag); ("end-time", StringFlag);
   ("path-prefix", StringFlag); ("methods", StringFlag); ("limit", IntFlag); ("target-url", StringFlag);
   ("override-headers", StringFlag); ("serve", BoolFlag); ("addr", StringFlag); ("rate-mode", StringFlag);
   ("rate-per-second", FloatFlag); ("time-scale", FloatFlag); ("concurrency", IntFlag);
   ("shard-index", IntFlag); ("shard-count", IntFlag); ("engine", StringFlag); ("engine-config", StringFlag);
   ("plugin-dir", StringFlag); ("checkpoint-dir", StringFlag); ("replay-id", StringFlag); ("resume", BoolFlag);
   ("log-level", StringFlag); ("log-format", StringFlag); ("summary-path", StringFlag);
   ("fail-on-empty", BoolFlag)].

Definition envOrDefault (value fallback : string) : string :=
  if bool_decide (value ≠ "") then value else fallback.

(** [strings.Split(s, sep)] for a separator of one character. *)
Fixpoint split_char (sep : ascii) (s : string) : list string :=
  match s with
  | "" => [""]
  | String a s' =>
      match split_char sep s' with
      | [] => [String a ""]
      | p :: ps => if Ascii.eqb a sep then "" :: p :: ps else String a p :: ps
      end
  end.

Definition parseRateMode (mode : string) : result RateMode :=
  let m := ToLower mode in
  if bool_decide (m ∈ ["original"; "recorded"]) then Ok RateModeOriginalTiming
  else if bool_decide (m = "constant") then Ok RateModeConstant
  else if bool_decide (m ∈ ["unlimited"; "max"]) then Ok RateModeUnlimited
  else Err (FmtError "unknown rate mode %q (use: original, constant, unlimited)" [FStr mode]).

Section Main.
Context {GP : GoParse}.

Definition config_of (pluginDirEnv : string) (m : gmap string string) : config := {|
  cfg_storageType := flag_string m "storage-type" "";
  cfg_bucket := flag_string m "bucket" "";
  cfg_region := flag_string m "region" "";
  cfg_prefix := flag_string m "prefix" "";
  cfg_mountPath := flag_string m "mount-path" "";
  cfg_captureID := flag_string m "capture-id" "";
  cfg_startTime := flag_string m "start-time" "";
  cfg_endTime := flag_string m "end-time" "";
  cfg_pathPrefix := flag_string m "path-prefix" "";
  cfg_methods := flag_string m "methods" "";
  cfg_limit := flag_int m "limit" 0;
  cfg_targetURL := flag_string m "target-url" "";
  cfg_overrideHeaders := flag_string m "override-headers" "";
  cfg_serve := flag_bool m "serve" false;
  cfg_addr := flag_string m "addr" ":6565";
  cfg_rateMode := flag_string m "rate-mode" "original";
  cfg_ratePerSecond := flag_float m "rate-per-second" f64_zero;
  cfg_timeScale := flag_float m "time-scale" f64_one;
  cfg_concurrency := flag_int m "concurrency" 10;
  cfg_shardIndex := flag_int m "shard-index" 0;
  cfg_shardCount := flag_int m "shard-count" 1;
  cfg_engine := flag_string m "engine" "builtin";
  cfg_engineConfig := flag_string m "engine-config" "";
  cfg_pluginDir := flag_string m "plugin-dir" (envOrDefault pluginDirEnv "/plugins");
  cfg_checkpointDir := flag_string m "checkpoint-dir" "/tmp/kapture-checkpoints";
  cfg_replayID := flag_string m "replay-id" "";
  cfg_resume := flag_bool m "resume" false;
  cfg_logLevel := flag_string m "log-level" "info";
  cfg_logFormat := flag_string m "log-format" "text";
  cfg_summaryPath := flag_string m "summary-path" "";
  cfg_failOnEmpty := flag_bool m "fail-on-empty" true |}.

(** [parseFlags]; the command exits on a parse error. *)
Definition parseFlags (pluginDirEnv : string) (args : list string) : result config :=
  match flag_Parse formal_flags args ∅ with
  | Err e => Err e
  | Ok m => Ok (config_of pluginDirEnv m)
  end.

(** ** [run] *)

(** The checks before anything is opened. *)
Definition run_checks (cfg : config) : option go_error :=
  if bool_decide (cfg_captureID cfg = "") then Some (FmtError "--capture-id is required" [])
  else if bool_decide (cfg_storageType cfg = "") then Some (FmtError "--storage-type is required" [])
  else if negb (cfg_serve cfg) && bool_decide (cfg_targetURL cfg = "") then
    Some (FmtError "either --target-url (direct mode) or --serve (feed server mode) is required" [])
  else if cfg_resume cfg then Some (FmtError ("--resume is not yet implemented: checkpoint state is recorded but reader seek-to-position is "
      +:+ "not wired up; track progress via checkpoints and manually set --start-time on restart") [])
  else None.

(** How the capture is replayed. *)
Inductive run_mode := FeedServerMode | ExternalEngine (name : string) | DirectReplay.

Definition run_mode_of (cfg : config) : run_mode :=
  if cfg_serve cfg then FeedServerMode
  else if bool_decide (cfg_engine cfg ≠ "") && bool_decide (cfg_engine cfg ≠ "builtin")
  then ExternalEngine (cfg_engine cfg)
  else DirectReplay.

Definition buildReaderConfig (cfg : config) : gmap string string :=
  let put k v m := if bool_decide (v ≠ "") then <[k := v]> m else m in
  put "mountPath" (cfg_mountPath cfg) (put "prefix" (cfg_prefix cfg)
    (put "region" (cfg_region cfg) (put "bucket" (cfg_bucket cfg) ∅))).

(** An optional RFC 3339 time; the zero time when it is not given. *)
Definition parse_time_flag (what s : string) : result Z :=
  if bool_decide (s = "") then Ok zero_time
  else match ParseRFC3339 s with
  | Err e => Err (WrapError ("parse " +:+ what +:+ ": %w") [] e)
  | Ok t => Ok t
  end.

Definition buildReadOptions (cfg : config) : result ReadOptions :=
  match parse_time_flag "start-time" (cfg_startTime cfg) with
  | Err e => Err e
  | Ok st =>
      match parse_time_flag "end-time" (cfg_endTime cfg) with
      | Err e => Err e
      | Ok en =>
          Ok {| ro_CaptureID := cfg_captureID cfg; ro_StartTime := st; ro_EndTime := en;
                ro_PathPrefix := cfg_pathPrefix cfg;
                ro_Methods := if bool_decide (cfg_methods cfg ≠ "")
                              then TrimSpace <$> split_char "," (cfg_methods cfg) else [];
                ro_Limit := cfg_limit cfg |}
      end
  end.

(** [manifestPreflight] with the reader's [LoadManifest], when it has one. *)
Definition manifestPreflight {MC : ManifestCodec} (loader : option (string → result (option string)))
    (cfg : config) : option go_error :=
  match loader with
  | None => None
  | Some LoadManifest =>
      match LoadManifest (cfg_captureID cfg) with
      | Err e => Some (WrapError "load dataset manifest: %w" [] e)
      | Ok None => None
      | Ok (Some data) =>
          match ParseManifest data with
          | Err e => Some (WrapError "dataset manifest for %q: %w" [FStr (cfg_captureID cfg)] e)
          | Ok manifest =>
              if cfg_failOnEmpty cfg && (mf_RecordCount manifest =? 0) then
                Some (FmtError "dataset manifest for %q declares 0 records; pass --fail-on-empty=false to allow empty replays"
                        [FStr (cfg_captureID cfg)])
              else None
          end
      end
  end.

(** The engine of [runDirectReplay]: its sender needs a target, then the read
    options and the rate mode must parse. *)
Definition direct_config (cfg : config) : result EngineConfig :=
  if bool_decide (cfg_targetURL cfg = "")
  then Err (WrapError "create sender: %w" [] (FmtError "target base URL is required" []))
  else match buildReadOptions cfg with
  | Err e => Err e
  | Ok opts =>
      match parseRateMode (cfg_rateMode cfg) with
      | Err e => Err e
      | Ok rateMode =>
          Ok {| ec_Reader := true; ec_Sender := true; ec_Transformers := []; ec_ReadOptions := opts;
                ec_RateMode := rateMode; ec_RatePerSecond := cfg_ratePerSecond cfg;
                ec_TimeScale := cfg_timeScale cfg; ec_Concurrency := cfg_concurrency cfg;
                ec_ShardIndex := cfg_shardIndex cfg; ec_ShardCount := cfg_shardCount cfg |}
      end
  end.

Definition direct_engine (cfg : config) : result Engine :=
  match direct_config cfg with
  | Err e => Err e
  | Ok ec =>
      match NewEngine ec with
      | Err e => Err (WrapError "create engine: %w" [] e)
      | Ok e => Ok e
      end
  end.

(** The environment of a container. *)
Definition container_Getenv (c : Container) (key : string) : string :=
  default "" ((list_to_map (co_Env c) : gmap string string) !! key).

Definition container_config (c : Container) : result config :=
  parseFlags (container_Getenv c "REPLAY_PLUGIN_DIR") (co_Args c).

(** The builtin engine that a worker container runs, if it gets that far. *)
Definition worker_engine (c : Container) : option Engine :=
  match container_config c with
  | Ok cfg => match run_checks cfg, run_mode_of cfg, direct_engine cfg with
              | None, DirectReplay, Ok e => Some e
              | _, _, _ => None
              end
  | Err _ => None
  end.

(** ** The command line of a Job *)

Definition nonempty (p : option string) : option string :=
  p ≫= λ v, if bool_decide (v ≠ "") then Some v else None.

(** Where a storage keeps its captures: the backend, bucket, region, prefix and
    mount path. *)
Definition location (storage : CaptureStorage) : option (string * string * string * string * string) :=
  let spec := Spec storage in
  let t := css_Type spec in
  if bool_decide (t = CaptureStorageTypeS3) then
    (λ c, ("s3", s3c_Bucket c, s3c_Region c, default "" (s3c_Prefix c), "")) <$> css_S3 spec
  else if bool_decide (t = CaptureStorageTypeGCS) then
    (λ c, ("gcs", gcs_Bucket c, "", default "" (gcs_Prefix c), "")) <$> css_GCS spec
  else if bool_decide (t = CaptureStorageTypeEFS) then (λ c, ("efs", "", "", "", efs_MountPath c)) <$> css_EFS spec
  else if bool_decide (t = CaptureStorageTypeEBS) then (λ c, ("ebs", "", "", "", ebs_MountPath c)) <$> css_EBS spec
  else None.

Lemma arg_if_set_flags flag p : arg_if_set ("--" +:+ flag) p = args_of [(flag, nonempty p)].
Proof. destruct p as [v|]; [|done]. unfold args_of, nonempty. simpl. by case_bool_decide. Qed.

Lemma nonempty_default p : default "" (nonempty p) = default "" p.
Proof. destruct p as [v|]; [|done]. unfold nonempty. simpl. by case_bool_decide; [|destruct v]. Qed.

Lemma storage_args_flags storage a : storage_args storage = Ok a →
  ∃ t b r p m, a = args_of [("storage-type", Some t); ("bucket", b); ("region", r); ("prefix", p); ("mount-path", m)] ∧
    location storage = Some (t, default "" b, default "" r, default "" p, default "" m) ∧ t ≠ "".
Proof.
  unfold storage_args, location. intros Ha.
  repeat case_bool_decide; [destruct (css_S3 _) as [c|]|destruct (css_GCS _) as [c|]
    |destruct (css_EFS _) as [c|]|destruct (css_EBS _) as [c|]|]; try done; injection Ha as <-.
  - exists "s3", (Some (s3c_Bucket c)), (Some (s3c_Region c)), (nonempty (s3c_Prefix c)), None.
    rewrite nonempty_default. split; [|done]. rewrite (arg_if_set_flags "prefix"). unfold args_of. simpl.
    by destruct (nonempty _).
  - exists "gcs", (Some (gcs_Bucket c)), None, (nonempty (gcs_Prefix c)), None.
    rewrite nonempty_default. split; [|done]. rewrite (arg_if_set_flags "prefix"). unfold args_of. simpl.
    by destruct (nonempty _).
  - by exists "efs", None, None, None, (Some (efs_MountPath c)).
  - by exists "ebs", None, None, None, (Some (ebs_MountPath c)).
Qed.

(** The rate flags, and what they mean to the engine. *)
Definition rate_mode_of (rate : option ReplayRateConfig) : RateMode :=
  match rate with
  | None => RateModeOriginalTiming
  | Some r => if bool_decide (rrc_Mode r = ReplayRateModeConstant) then RateModeConstant
              else if bool_decide (rrc_Mode r = ReplayRateModeOriginalTiming) then RateModeOriginalTiming
              else if bool_decide (rrc_Mode r = ReplayRateModeUnlimited) then RateModeUnlimited
              else RateModeOriginalTiming
  end.

Definition rate_of (rate : option ReplayRateConfig) : option Z :=
  match rate with
  | Some r => if bool_decide (rrc_Mode r = ReplayRateModeConstant) then rrc_RequestsPerSecond r else None
  | None => None
  end.

Definition scale_of (rate : option ReplayRateConfig) : option string :=
  match rate with
  | Some r => if bool_decide (rrc_Mode r = ReplayRateModeOriginalTiming) then nonempty (rrc_TimeScale r) else None
  | None => None
  end.

Lemma rate_args_flags rate : ∃ mode,
  rate_args rate = args_of [("rate-mode", mode); ("rate-per-second", Itoa <$> rate_of rate); ("time-scale", scale_of rate)] ∧
  parseRateMode (default "original" mode) = Ok (rate_mode_of rate).
Proof.
  destruct rate as [r|]; [|by exists (Some "original")]. unfold rate_args, rate_of, scale_of, rate_mode_of.
  destruct (decide (rrc_Mode r = ReplayRateModeConstant)) as [E|E].
  { rewrite E. rewrite !(bool_decide_eq_true_2 (_ = ReplayRateModeConstant)) by done. exists (Some "constant").
    rewrite bool_decide_eq_false_2 by done. by destruct (rrc_RequestsPerSecond r). }
  rewrite !(bool_decide_eq_false_2 _ E). case_bool_decide.
  { exists (Some "original"). rewrite (arg_if_set_flags "time-scale"). done. }
  case_bool_decide; [by exists (Some "unlimited")|by exists None].
Qed.

Definition shard_of (tr : TrafficReplay) : Z * Z :=
  match trs_Shard (Spec tr) with
  | Some s => if is_presharded tr then (0, 1) else (shs_Index s, shs_Count s)
  | None => (0, 1)
  end.

Lemma shard_args_flags tr : ∃ i n,
  shard_args tr = args_of [("shard-index", Itoa <$> i); ("shard-count", Itoa <$> n)] ∧
  shard_of tr = (default 0 i, default 1 n) ∧
  (∀ z, i = Some z ∨ n = Some z → ∃ s, trs_Shard (Spec tr) = Some s ∧ (z = shs_Index s ∨ z = shs_Count s)).
Proof.
  unfold shard_args, shard_of. destruct (trs_Shard (Spec tr)) as [s|].
  2:{ exists None, None. split_and!; [done..|]. by intros z [|]. }
  destruct (is_presharded tr).
  - exists None, None. split_and!; [done..|]. by intros z [|].
  - exists (Some (shs_Index s)), (Some (shs_Count s)). split_and!; [done..|]. naive_solver.
Qed.

(** The external engine a replay asks for; none means the builtin one. *)
Definition external_engine (tr : TrafficReplay) : option string :=
  match trs_Engine (Spec tr) with
  | Some e => if bool_decide (Api.res_Name e ≠ "") && bool_decide (Api.res_Name e ≠ "builtin")
              then Some (Api.res_Name e) else None
  | None => None
  end.

Lemma engine_args_flags tr : ∃ c,
  engine_args (trs_Engine (Spec tr)) = args_of [("engine", external_engine tr); ("engine-config", c)].
Proof.
  unfold engine_args, external_engine. destruct (trs_Engine (Spec tr)) as [e|]; [|by exists None].
  destruct (_ && _); [|by exists None]. exists (nonempty (Raw <$> res_Config e)).
  destruct (res_Config e) as [c|]; [|done]. rewrite (arg_if_set_flags "engine-config"). done.
Qed.

(** ** Filters *)

Definition method_ok (m : string) : Prop := m ≠ "" ∧ Contains m "," = false ∧ TrimSpace m = m.

Lemma split_char_nonempty sep s : split_char sep s ≠ [].
Proof. destruct s as [|a s]; simpl; [done|]. destruct (split_char sep s); [done|]. by case_match. Qed.

Lemma split_char_none sep s : Contains s (String sep "") = false → split_char sep s = [s].
Proof.
  induction s as [|a s IH]; [done|]. rewrite Contains_cons, HasPrefix_char. intros [Ha Hs]%orb_false_iff.
  cbn [split_char]. rewrite IH by done. rewrite Ascii.eqb_sym in Ha. by rewrite Ha.
Qed.

Lemma split_char_app sep s t : Contains s (String sep "") = false →
  split_char sep (s +:+ String sep t) = s :: split_char sep t.
Proof.
  induction s as [|a s IH]; intros Hs.
  - rewrite append_nil_l. cbn [split_char]. destruct (split_char sep t) as [|p ps] eqn:E.
    { by apply split_char_nonempty in E. } by rewrite Ascii.eqb_refl.
  - rewrite Contains_cons, HasPrefix_char in Hs. apply orb_false_iff in Hs as [Ha Hs].
    rewrite append_cons. cbn [split_char]. rewrite IH by done. rewrite Ascii.eqb_sym in Ha. by rewrite Ha.
Qed.

Lemma split_join_comma l : l ≠ [] → Forall method_ok l → TrimSpace <$> split_char "," (join_comma l) = l.
Proof.
  intros Hne Hl. induction Hl as [|m l (Hm & Hc & Ht) Hl IH]; [done|]. destruct l as [|m' l].
  - cbn [join_comma]. rewrite split_char_none by done. simpl. by rewrite Ht.
  - specialize (IH ltac:(done)). cbn [join_comma] in *. change ("," +:+ ?x) with (String "," x).
    rewrite split_char_app by done. rewrite fmap_cons, Ht. by f_equal.
Qed.

Lemma join_comma_nonempty l : l ≠ [] → Forall method_ok l → join_comma l ≠ "".
Proof.
  destruct l as [|m l]; [done|]. intros _ [(Hm & _) _]%Forall_cons.
  destruct l; cbn [join_comma]; [done|]. destruct m; [done|by rewrite append_cons].
Qed.

Definition limit_of (tr : TrafficReplay) : option Z :=
  (trs_Filters (Spec tr) ≫= rf_Limit) ≫= λ n, if 0 <? n then Some n else None.

Definition methods_of (tr : TrafficReplay) : list string := default [] (rf_Methods <$> trs_Filters (Spec tr)).

Definition methods_arg (l : list string) : option string := if 0 <? len l then Some (join_comma l) else None.

Lemma filter_args_flags tr :
  let f := trs_Filters (Spec tr) in
  filter_args f = args_of [("start-time", FormatRFC3339 <$> (f ≫= rf_StartTime));
    ("end-time", FormatRFC3339 <$> (f ≫= rf_EndTime)); ("path-prefix", nonempty (f ≫= rf_PathPrefix));
    ("methods", methods_arg (methods_of tr)); ("limit", Itoa <$> limit_of tr)].
Proof.
  unfold filter_args, methods_of, limit_of, methods_arg. destruct (trs_Filters (Spec tr)) as [f|]; [|done].
  simpl. rewrite (arg_if_set_flags "path-prefix").
  destruct (rf_StartTime f), (rf_EndTime f), (rf_PathPrefix f) as [pre|], (0 <? len (rf_Methods f)),
    (rf_Limit f) as [n|]; unfold args_of, nonempty; simpl; try (destruct (0 <? n)); repeat case_bool_decide; done.
Qed.

(** The requests a replay selects: its times are cut to whole seconds. *)
Definition options_of (tr : TrafficReplay) : ReadOptions :=
  let f := trs_Filters (Spec tr) in
  let cut t := t / Second * Second in
  {| ro_CaptureID := job_capture_id tr;
     ro_StartTime := default zero_time (cut <$> (f ≫= rf_StartTime));
     ro_EndTime := default zero_time (cut <$> (f ≫= rf_EndTime));
     ro_PathPrefix := default "" (f ≫= rf_PathPrefix);
     ro_Methods := methods_of tr;
     ro_Limit := default 0 (limit_of tr) |}.

(** The values of a replay fit their fields, as the resource validation
    guarantees. *)
Record job_ok (tr : TrafficReplay) : Prop := {
  jo_times : ∀ f t, trs_Filters (Spec tr) = Some f → rf_StartTime f = Some t ∨ rf_EndTime f = Some t →
    formattable (t / day_ns);
  jo_methods : Forall method_ok (methods_of tr);
  jo_limit : ∀ n, limit_of tr = Some n → in_int64 n;
  jo_rate : ∀ n, rate_of (trs_Rate (Spec tr)) = Some n → in_int32 n;
  jo_scale : ∀ s, scale_of (trs_Rate (Spec tr)) = Some s → ∃ x, ParseFloat s = Ok x;
  jo_concurrency : ∀ n, trs_Concurrency (Spec tr) = Some n → in_int64 n;
  jo_shard : ∀ s, trs_Shard (Spec tr) = Some s → in_int64 (shs_Index s) ∧ in_int64 (shs_Count s)
}.

Definition engine_config_of (tr : TrafficReplay) : EngineConfig :=
  {| ec_Reader := true; ec_Sender := true; ec_Transformers := []; ec_ReadOptions := options_of tr;
     ec_RateMode := rate_mode_of (trs_Rate (Spec tr));
     ec_RatePerSecond := match rate_of (trs_Rate (Spec tr)) with Some n => f64_of_Z n | None => f64_zero end;
     ec_TimeScale := match ParseFloat <$> scale_of (trs_Rate (Spec tr)) with Some (Ok x) => x | _ => f64_one end;
     ec_Concurrency := default 10 (trs_Concurrency (Spec tr));
     ec_ShardIndex := fst (shard_of tr); ec_ShardCount := snd (shard_of tr) |}.

(** All flags of the command line of a Job. *)
Definition job_flags (tr : TrafficReplay) (t : string) (b r p m mode c : option string) (i n : option Z)
    : list (string * option string) :=
  let f := trs_Filters (Spec tr) in
  [("capture-id", Some (job_capture_id tr)); ("log-format", Some "json")]
  ++ [("storage-type", Some t); ("bucket", b); ("region", r); ("prefix", p); ("mount-path", m)]
  ++ [("target-url", Some (target_url (trs_Target (Spec tr))))]
  ++ [("rate-mode", mode); ("rate-per-second", Itoa <$> rate_of (trs_Rate (Spec tr)));
      ("time-scale", scale_of (trs_Rate (Spec tr)))]
  ++ [("concurrency", Itoa <$> trs_Concurrency (Spec tr))]
  ++ [("shard-index", Itoa <$> i); ("shard-count", Itoa <$> n)]
  ++ [("engine", external_engine tr); ("engine-config", c)]
  ++ [("start-time", FormatRFC3339 <$> (f ≫= rf_StartTime)); ("end-time", FormatRFC3339 <$> (f ≫= rf_EndTime));
      ("path-prefix", nonempty (f ≫= rf_PathPrefix)); ("methods", methods_arg (methods_of tr));
      ("limit", Itoa <$> limit_of tr)]
  ++ [("summary-path", Some "/dev/termination-log")].

Lemma buildReplayArgs_flags tr storage args : buildReplayArgs tr storage = Ok args →
  ∃ t b r p m mode c i n, args = args_of (job_flags tr t b r p m mode c i n) ∧
    location storage = Some (t, default "" b, default "" r, default "" p, default "" m) ∧ t ≠ "" ∧
    parseRateMode (default "original" mode) = Ok (rate_mode_of (trs_Rate (Spec tr))) ∧
    shard_of tr = (default 0 i, default 1 n) ∧
    (∀ z, i = Some z ∨ n = Some z → ∃ s, trs_Shard (Spec tr) = Some s ∧ (z = shs_Index s ∨ z = shs_Count s)).
Proof.
  unfold buildReplayArgs. destruct (storage_args storage) as [sargs|] eqn:Hs; [|done]. intros [= <-].
  apply storage_args_flags in Hs as (t & b & r & p & m & -> & Hloc & Ht).
  destruct (rate_args_flags (trs_Rate (Spec tr))) as (mode & -> & Hmode).
  destruct (shard_args_flags tr) as (i & n & -> & Hsh & Hin).
  destruct (engine_args_flags tr) as (c & ->). rewrite filter_args_flags.
  exists t, b, r, p, m, mode, c, i, n. split; [|done].
  unfold job_flags. rewrite !args_of_app. by destruct (trs_Concurrency (Spec tr)).
Qed.

Lemma string_flag_ok name ov : split_arg ("--" +:+ name) = FlagArg name None →
  formal_flags !! name = Some StringFlag → flag_ok formal_flags (name, ov).
Proof. intros Hs Hf. split; [done|]. by exists StringFlag. Qed.

Lemma int_flag_ok name (oz : option Z) : split_arg ("--" +:+ name) = FlagArg name None →
  formal_flags !! name = Some IntFlag → (∀ z, oz = Some z → in_int64 z) → flag_ok formal_flags (name, Itoa <$> oz).
Proof.
  intros Hs Hf Hz. split; [done|]. exists IntFlag. split_and!; [done..|].
  simpl. intros v (z & -> & ->)%fmap_Some. by rewrite parse_Itoa by auto.
Qed.

Lemma float_flag_ok name (ov : option string) : split_arg ("--" +:+ name) = FlagArg name None →
  formal_flags !! name = Some FloatFlag → (∀ v, ov = Some v → ∃ x, ParseFloat v = Ok x) →
  flag_ok formal_flags (name, ov).
Proof.
  intros Hs Hf Hv. split; [done|]. exists FloatFlag. split_and!; [done..|].
  simpl. intros v Ho. by destruct (Hv v Ho) as [x ->].
Qed.

Lemma job_flags_ok tr t b r p m mode c i n : job_ok tr →
  (∀ z, i = Some z ∨ n = Some z → in_int64 z) →
  Forall (flag_ok formal_flags) (job_flags tr t b r p m mode c i n).
Proof.
  intros Hok Hz. unfold job_flags. cbn [app].
  repeat (apply List.Forall_cons; [first
    [ by apply string_flag_ok | apply int_flag_ok; [done|done|]
    | apply float_flag_ok; [done|done|] ]|]); [..|apply List.Forall_nil].
  - intros v (z & Hr & ->)%fmap_Some. eexists. by apply parse_float_Itoa, (jo_rate _ Hok).
  - apply (jo_scale _ Hok).
  - apply (jo_concurrency _ Hok).
  - auto.
  - auto.
  - apply (jo_limit _ Hok).
Qed.

Lemma job_flags_nodup tr t b r p m mode c i n : NoDup (job_flags tr t b r p m mode c i n).*1.
Proof. apply (bool_decide_unpack (NoDup _)). vm_compute. exact I. Qed.

(** What parsing such a command line leaves behind. *)
Lemma job_flags_parsed tr t b r p m mode c i n : job_ok tr →
  (∀ z, i = Some z ∨ n = Some z → in_int64 z) →
  let f := trs_Filters (Spec tr) in
  ∃ mm, flag_Parse formal_flags (args_of (job_flags tr t b r p m mode c i n)) ∅ = Ok mm ∧
    mm !! "capture-id" = Some (job_capture_id tr) ∧ mm !! "storage-type" = Some t ∧ mm !! "bucket" = b ∧
    mm !! "region" = r ∧ mm !! "prefix" = p ∧ mm !! "mount-path" = m ∧
    mm !! "target-url" = Some (target_url (trs_Target (Spec tr))) ∧ mm !! "rate-mode" = mode ∧
    mm !! "rate-per-second" = Itoa <$> rate_of (trs_Rate (Spec tr)) ∧
    mm !! "time-scale" = scale_of (trs_Rate (Spec tr)) ∧
    mm !! "concurrency" = Itoa <$> trs_Concurrency (Spec tr) ∧ mm !! "shard-index" = Itoa <$> i ∧
    mm !! "shard-count" = Itoa <$> n ∧ mm !! "engine" = external_engine tr ∧
    mm !! "start-time" = FormatRFC3339 <$> (f ≫= rf_StartTime) ∧
    mm !! "end-time" = FormatRFC3339 <$> (f ≫= rf_EndTime) ∧
    mm !! "path-prefix" = nonempty (f ≫= rf_PathPrefix) ∧ mm !! "methods" = methods_arg (methods_of tr) ∧
    mm !! "limit" = Itoa <$> limit_of tr ∧ mm !! "summary-path" = Some "/dev/termination-log" ∧
    mm !! "serve" = None ∧ mm !! "resume" = None ∧ mm !! "plugin-dir" = None ∧ mm !! "fail-on-empty" = None.
Proof.
  intros Hok Hz f. set (l := job_flags tr t b r p m mode c i n).
  assert (∀ name ov, (name, ov) ∈ l → set_flags l ∅ !! name = ov) as Hget.
  { intros name ov Hl. apply set_flags_lookup; [apply job_flags_nodup|done|apply lookup_empty]. }
  assert (∀ name, bool_decide (name ∉ l.*1) = true → set_flags l ∅ !! name = None) as Hno.
  { intros name Hl%bool_decide_eq_true. by rewrite set_flags_notin, lookup_empty. }
  exists (set_flags l ∅). split; [by apply parse_args_of, job_flags_ok|].
  repeat apply conj;
    first [ by apply Hno
          | apply Hget; unfold l; simpl; repeat (first [apply list_elem_of_here|apply list_elem_of_further]) ].
Qed.

Lemma capture_id_nonempty tr : job_capture_id tr ≠ "".
Proof.
  assert (∀ a b, a +:+ "/" +:+ b ≠ "") as Hne by (intros [|? ?] b; done).
  assert (∀ a b, a ≠ "" → a +:+ b ≠ "") as Happ by (intros [|? ?] b; done).
  unfold job_capture_id. destruct (trs_Shard _); [|apply Hne]. destruct (is_presharded tr); [|apply Hne].
  apply Happ, Hne.
Qed.

Lemma target_url_nonempty t : target_url t ≠ "".
Proof. unfold target_url. by destruct (default false (rt_TLS t)). Qed.

Lemma int_back (o : option Z) d : (∀ z, o = Some z → in_int64 z) →
  match ParseInt0 <$> (Itoa <$> o) with Some (Ok z) => z | _ => d end = default d o.
Proof. intros Hz. destruct o as [z|]; [|done]. simpl. by rewrite parse_Itoa by auto. Qed.

Lemma time_back what (o : option Z) : (∀ t, o = Some t → formattable (t / day_ns)) →
  parse_time_flag what (default "" (FormatRFC3339 <$> o)) = Ok (default zero_time ((λ t, t / Second * Second) <$> o)).
Proof.
  intros Ht. destruct o as [t|]; [|done]. unfold parse_time_flag. simpl.
  rewrite bool_decide_eq_false_2 by apply format_not_empty. by rewrite parse_format by auto.
Qed.

Lemma methods_back l : Forall method_ok l →
  (if bool_decide (default "" (methods_arg l) ≠ "") then TrimSpace <$> split_char "," (default "" (methods_arg l)) else []) = l.
Proof.
  intros Hl. unfold methods_arg. destruct l as [|m l]; [done|]. cbn [default].
  replace (0 <? len (m :: l)) with true by (symmetry; apply Z.ltb_lt; unfold len; simpl; lia). cbn [default].
  rewrite bool_decide_eq_true_2 by by apply join_comma_nonempty. by apply split_join_comma.
Qed.

Lemma external_engine_ok tr e : external_engine tr = Some e → e ≠ "" ∧ e ≠ "builtin".
Proof.
  unfold external_engine. destruct (trs_Engine (Spec tr)) as [x|]; [|done].
  repeat case_bool_decide; simpl; naive_solver.
Qed.

(** The configuration the worker ends up with. *)
Lemma job_config env tr storage args : buildReplayArgs tr storage = Ok args → job_ok tr →
  ∃ cfg, parseFlags env args = Ok cfg ∧ run_checks cfg = None ∧
    run_mode_of cfg = match external_engine tr with Some e => ExternalEngine e | None => DirectReplay end ∧
    location storage = Some (cfg_storageType cfg, cfg_bucket cfg, cfg_region cfg, cfg_prefix cfg, cfg_mountPath cfg) ∧
    cfg_targetURL cfg = target_url (trs_Target (Spec tr)) ∧
    direct_config cfg = Ok (engine_config_of tr) ∧
    cfg_summaryPath cfg = "/dev/termination-log" ∧ cfg_pluginDir cfg = envOrDefault env "/plugins" ∧
    cfg_captureID cfg = job_capture_id tr ∧ cfg_failOnEmpty cfg = true.
Proof.
  intros Hargs Hok.
  destruct (buildReplayArgs_flags tr storage args Hargs)
    as (t & b & r & p & m & mode & c & i & n & -> & Hloc & Ht & Hmode & Hsh & Hin).
  assert (∀ z, i = Some z ∨ n = Some z → in_int64 z) as Hz.
  { intros z Hz. destruct (Hin z Hz) as (s & Hs & [-> | ->]); by apply (jo_shard _ Hok). }
  destruct (job_flags_parsed tr t b r p m mode c i n Hok Hz) as (mm & Hp & E0 & E1 & E2 & E3 & E4 & E5 & E6
    & E7 & E8 & E9 & E10 & E11 & E12 & E13 & E14 & E15 & E16 & E17 & E18 & E19 & Es & Er & Epd & Efe).
  exists (config_of env mm). unfold parseFlags. rewrite Hp. split; [done|]. clear Hp Hargs.
  unfold run_checks, run_mode_of, direct_config, buildReadOptions, config_of, flag_string, flag_int, flag_float,
    flag_bool. simpl.
  rewrite E0, E1, E2, E3, E4, E5, E6, E7, E8, E9, E10, E11, E12, E13, E14, E15, E16, E17, E18, E19, Es, Er, Epd, Efe. simpl.
  rewrite !(bool_decide_eq_false_2 (job_capture_id tr = "")) by apply capture_id_nonempty.
  rewrite !(bool_decide_eq_false_2 (target_url _ = "")) by apply target_url_nonempty.
  rewrite (bool_decide_eq_false_2 (t = "")) by done.
  split; [done|]. split.
  { destruct (external_engine tr) as [e|] eqn:He; [|done]. simpl.
    destruct (external_engine_ok tr e He). by rewrite !bool_decide_eq_true_2. }
  split; [done|]. split; [done|]. split; [|done].
  assert (∀ f t', trs_Filters (Spec tr) = Some f → rf_StartTime f = Some t' ∨ rf_EndTime f = Some t' →
    formattable (t' / day_ns)) as Htimes by apply Hok.
  rewrite !time_back by (destruct (trs_Filters (Spec tr)) as [f|]; simpl; naive_solver).
  rewrite Hmode, methods_back, nonempty_default by apply Hok.
  rewrite !int_back by (first [apply Hok|auto]). unfold engine_config_of, options_of. rewrite Hsh. do 2 f_equal.
  destruct (rate_of (trs_Rate (Spec tr))) as [z|] eqn:Hrate; [|done]. simpl.
  by rewrite parse_float_Itoa by by apply (jo_rate _ Hok).
Qed.

(** ** Job and worker *)

(** The one container of a Job. *)
Lemma job_container env tr storage job : BuildReplayJob env tr storage = Ok job →
  ∃ c, js_Containers (Spec job) = [c] ∧ buildReplayArgs tr storage = Ok (co_Args c) ∧
    container_Getenv c "REPLAY_PLUGIN_DIR" = env_PluginDir env ∧
    co_VolumeMounts c =
      match capture_mount storage with
      | Some path => [{| vm_Name := "capture-data"; vm_MountPath := path; vm_ReadOnly := true |}]
      | None => []
      end ++
      (if bool_decide (env_PluginImage env = "") then []
       else [{| vm_Name := "engine-plugins"; vm_MountPath := envOrDefault (env_PluginDir env) "/plugins";
                vm_ReadOnly := false |}]) ∧
    (js_Volumes (Spec job)).*1 = vm_Name <$> co_VolumeMounts c.
Proof.
  unfold BuildReplayJob. destruct (buildReplayArgs tr storage) as [args|]; [|done]. intros [= <-].
  assert (default "" ((list_to_map (replayEnv env) : gmap string string) !! "REPLAY_PLUGIN_DIR") = env_PluginDir env) as Henv.
  { unfold replayEnv. case_bool_decide as Hd.
    - unfold list_to_map. simpl. by rewrite lookup_insert_eq.
    - simpl. rewrite lookup_empty. by destruct (env_PluginDir env). }
  unfold addPluginInstaller, envOrDefault, container_Getenv.
  destruct (capture_mount storage); simpl; repeat case_bool_decide; simpl;
    (eexists; split_and!; [reflexivity|reflexivity|exact Henv|..]; simpl; try done); by destruct (env_PluginDir env).
Qed.


(** A worker never starts on an empty slice: the manifest that presharding
    publishes for a slice without requests makes the preflight of every Job fail,
    since no replay can ask for [--fail-on-empty=false]. *)
Theorem empty_slice_fails_preflight {MC : ManifestCodec} env tr storage job LoadManifest data m :
  BuildReplayJob env tr storage = Ok job → job_ok tr →
  LoadManifest (job_capture_id tr) = Ok (Some data) → ParseManifest data = Ok m → mf_RecordCount m = 0 →
  ∃ c cfg, js_Containers (Spec job) = [c] ∧ container_config c = Ok cfg ∧
    manifestPreflight (Some LoadManifest) cfg ≠ None.
Proof.
  intros Hjob Hok Hload Hparse Hm. destruct (job_container _ _ _ _ Hjob) as (c & Hc & Hargs & Henv & _).
  destruct (job_config (env_PluginDir env) tr storage _ Hargs Hok)
    as (cfg & Hp & _ & _ & _ & _ & _ & _ & _ & Hid & Hfail).
  exists c, cfg. unfold container_config. rewrite Henv. split; [done|]. split; [done|].
  unfold manifestPreflight. by rewrite Hid, Hload, Hparse, Hfail, Hm.
Qed.
End Main.

(** ** Witness *)

#[local] Existing Instance decimal_parser.

Definition demo_storage : CaptureStorage :=
  MkObject (newObjectMeta "prod" "efs" ∅)
    {| css_Type := CaptureStorageTypeEFS; css_S3 := None; css_GCS := None;
       css_EFS := Some {| efs_FileSystemID := "fs-1"; efs_MountPath := "/data"; efs_Directory := None |};
       css_EBS := None; css_Plugin := None; css_Retention := None |}
    {| csst_Phase := CaptureStoragePhaseReady; csst_Conditions := [] |}.

Definition demo_replay : TrafficReplay :=
  MkObject (newObjectMeta "prod" "lt-1" ∅)
    {| trs_SourceRef := {| tcr_Name := "shop" |}; trs_StorageRef := {| csr_Name := "efs" |};
       trs_Target := {| rt_Host := "api.staging.internal"; rt_Port := None; rt_TLS := Some true |};
       trs_Rate := Some {| rrc_Mode := ReplayRateModeConstant; rrc_RequestsPerSecond := Some 50;
                           rrc_TimeScale := None |};
       trs_Filters := Some {| rf_StartTime := Some (90 * Second + 5); rf_EndTime := None;
                              rf_PathPrefix := Some "/api"; rf_Methods := ["GET"; "POST"]; rf_Limit := Some 7 |};
       trs_Transforms := []; trs_Concurrency := Some 4;
       trs_Shard := Some {| shs_Index := 1; shs_Count := 3; shs_Presharded := None |};
       trs_LoadTestRef := None; trs_Engine := None; trs_Safety := None |}
    emptyTrafficReplayStatus.

Definition demo_env : spoke_env :=
  {| env_PluginImage := "plugins:1"; env_PluginDir := ""; env_ReplayEngineImage := "engine:1" |}.

Lemma demo_replay_ok : job_ok demo_replay.
Proof.
  split; simpl.
  - intros f t [= <-] [[= <-]|]; [|done]. unfold formattable. vm_compute. split; congruence.
  - repeat constructor; done.
  - intros n [= <-]. unfold in_int64. lia.
  - intros n [= <-]. unfold in_int32. lia.
  - done.
  - intros n [= <-]. unfold in_int64. lia.
  - intros s [= <-]. unfold in_int64. simpl. lia.
Qed.

