(* ===== verification/ReplayController.v ===== *)
(** * The replay controller ([internal/spoke/replay_controller.go])

    The reconciler that runs a [TrafficReplay] as a Job: the safety gate, the
    creation of the Job, the status it derives from the Job and the report of the
    replay engine, the summary it sends to the hub, and deletion. *)

From S2P Require Import Prelude GoStd GoTime GoFloat GoFlag HubProto Safety Kube KubeWorld Api CaptureApi.
From S2P Require Import Storage Shard Readers Engine Summary SpokeDirectives ReplayJob.

Local Open Scope Z_scope.

Definition replayFinalizerName : string := "capture.gateway.io/replay-cleanup".
Definition JobFailed : string := "Failed".

(** The status of a replay, its phase replaced and so on. *)
Definition trst_with (phase : string) (start completion : option Z) (conds : list Condition)
    (s : TrafficReplayStatus) : TrafficReplayStatus :=
  {| trst_Phase := phase; trst_StartTime := start; trst_CompletionTime := completion;
     trst_TotalRequests := trst_TotalRequests s; trst_SentRequests := trst_SentRequests s;
     trst_FailedRequests := trst_FailedRequests s; trst_FilteredRequests := trst_FilteredRequests s;
     trst_MeanLatency := trst_MeanLatency s; trst_P50Latency := trst_P50Latency s;
     trst_P95Latency := trst_P95Latency s; trst_P99Latency := trst_P99Latency s;
     trst_AchievedRPS := trst_AchievedRPS s; trst_Conditions := conds |}.

Definition is_failed_condition (c : JobCondition) : bool :=
  bool_decide (jc_Type c = JobFailed) && bool_decide (jc_Status c = ConditionTrue).

Definition jobFailed (job : Job) : bool := existsb is_failed_condition (jst_Conditions (Status job)).

Definition jobFailureMessage (job : Job) : string :=
  match List.find is_failed_condition (jst_Conditions (Status job)) with
  | Some c => if bool_decide (jc_Message c ≠ "") then jc_Message c else jc_Reason c
  | None => "replay job failed"
  end.

Definition terminal (phase : string) : bool :=
  bool_decide (phase = TrafficReplayPhaseCompleted) || bool_decide (phase = TrafficReplayPhaseFailed).

Section Reports.
Context {RC : ReportCodec} {GP : GoParse}.

Definition LatencyString (ms : Z) : string := DurationString (int64 (ms * Millisecond)).

Definition latencyMs (latency : option string) : Z :=
  match latency with
  | None => 0
  | Some s => match ParseDuration s with Ok d => Milliseconds d | Err _ => 0 end
  end.

Definition applyReport (report : option RunReport) (s : TrafficReplayStatus) : TrafficReplayStatus :=
  match report with
  | None => s
  | Some r =>
      {| trst_Phase := trst_Phase s; trst_StartTime := trst_StartTime s; trst_CompletionTime := trst_CompletionTime s;
         trst_TotalRequests := int64 (rp_TotalRequests r + rp_FilteredRequests r);
         trst_SentRequests := rp_SentRequests r;
         trst_FailedRequests := rp_FailedRequests r;
         trst_FilteredRequests := rp_FilteredRequests r;
         trst_MeanLatency := Some (LatencyString (rp_MeanLatencyMs r));
         trst_P50Latency := Some (LatencyString (rp_P50LatencyMs r));
         trst_P95Latency := Some (LatencyString (rp_P95LatencyMs r));
         trst_P99Latency := Some (LatencyString (rp_P99LatencyMs r));
         trst_AchievedRPS := if f64_gtb (rp_AchievedRPS r) f64_zero then Some (FormatFloat_f1 (rp_AchievedRPS r))
                             else trst_AchievedRPS s;
         trst_Conditions := trst_Conditions s |}
  end.

(** [scrapeRunReport] over the termination messages of the containers of each pod
    of the Job ([None] for a container that has not terminated); a failed list
    gives no report. *)
Fixpoint first_report (messages : list (option string)) : option RunReport :=
  match messages with
  | [] => None
  | Some m :: messages =>
      if bool_decide (m = "") then first_report messages
      else match ParseRunReport m with Ok r => Some r | Err _ => first_report messages end
  | None :: messages => first_report messages
  end.

Definition scrapeRunReport (pods : result (list (list (option string)))) : option RunReport :=
  match pods with Err _ => None | Ok pods => first_report (concat pods) end.

Definition proto_phase (phase : string) : ReplayPhase :=
  if bool_decide (phase = TrafficReplayPhasePending) then REPLAY_PHASE_PENDING
  else if bool_decide (phase = TrafficReplayPhaseRunning) then REPLAY_PHASE_RUNNING
  else if bool_decide (phase = TrafficReplayPhaseCompleted) then REPLAY_PHASE_COMPLETED
  else if bool_decide (phase = TrafficReplayPhaseFailed) then REPLAY_PHASE_FAILED
  else REPLAY_PHASE_UNSPECIFIED.

Definition ReplaySummaryFromStatus (tr : TrafficReplay) : option ReplayStatusSummary :=
  match trs_LoadTestRef (Spec tr) with
  | None => None
  | Some ref =>
      let st := Status tr in
      Some {| rss_LoadTestName := ltr_Name ref;
              rss_LoadTestNamespace := Namespace tr;
              rss_ReplayName := Name tr;
              rss_ShardIndex := match trs_Shard (Spec tr) with Some s => shs_Index s | None => 0 end;
              rss_ShardCount := match trs_Shard (Spec tr) with Some s => shs_Count s | None => 0 end;
              rss_Phase := proto_phase (trst_Phase st);
              rss_TotalRequests := trst_TotalRequests st;
              rss_SentRequests := trst_SentRequests st;
              rss_FailedRequests := trst_FailedRequests st;
              rss_FilteredRequests := trst_FilteredRequests st;
              rss_AchievedRps := match trst_AchievedRPS st with
                                 | Some s => match ParseFloat s with Ok x => x | Err _ => f64_zero end
                                 | None => f64_zero end;
              rss_P50LatencyMs := latencyMs (trst_P50Latency st);
              rss_P95LatencyMs := latencyMs (trst_P95Latency st);
              rss_P99LatencyMs := latencyMs (trst_P99Latency st);
              rss_Message := "" |}
  end.

(** The status and the events of [Reconcile] for the state of the Job. *)
Definition advance (now : Z) (report : option RunReport) (job : Job) (st : TrafficReplayStatus)
    : TrafficReplayStatus * list Event :=
  let finish phase status reason message ev :=
    let st' := applyReport report st in
    (trst_with phase (trst_StartTime st') (Some now)
       (setCondition (trst_Conditions st') {| cond_Type := "Complete"; cond_Status := status; cond_Reason := reason;
                                              cond_Message := message |}) st',
     if bool_decide (trst_Phase st' ≠ phase) then [ev st'] else []) in
  if 0 <? jst_Succeeded (Status job) then
    finish TrafficReplayPhaseCompleted ConditionTrue "ReplayFinished" (Fmt "replay job completed" [])
      (λ st', {| ev_Type := EventTypeNormal; ev_Reason := "Completed";
                 ev_Message := Fmt "replay finished: %d sent, %d failed"
                                 [FInt (trst_SentRequests st'); FInt (trst_FailedRequests st')] |})
  else if jobFailed job then
    finish TrafficReplayPhaseFailed ConditionFalse "ReplayFailed" (Fmt "%s" [FStr (jobFailureMessage job)])
      (λ _, {| ev_Type := EventTypeWarning; ev_Reason := "Failed"; ev_Message := Fmt "%s" [FStr (jobFailureMessage job)] |})
  else if 0 <? jst_Active (Status job) then
    (trst_with TrafficReplayPhaseRunning (Some (default now (trst_StartTime st))) (trst_CompletionTime st)
       (trst_Conditions st) st, [])
  else (trst_with TrafficReplayPhasePending (trst_StartTime st) (trst_CompletionTime st) (trst_Conditions st) st, []).
End Reports.

(** ** The reconciler *)

(** What the reconciler acts on: the API server, the events it emitted and the
    summaries it sent to the hub. *)
Record rc_world (W : Type) := RcWorld {
  rc_api : W;
  rc_events : list Event;
  rc_reports : list ReplayStatusSummary
}.
Arguments RcWorld {W} _ _ _.
Arguments rc_api {W} _.
Arguments rc_events {W} _.
Arguments rc_reports {W} _.

Section Reconcile.
Context {W : Type} {KR : KubeClient W TrafficReplaySpec TrafficReplayStatus} {KJ : KubeClient W JobSpec JobStatus}.
Context {KS : KubeClient W CaptureStorageSpec CaptureStorageStatus}.
Context {AE : ApiErrors} {CU : ControllerUtil} {RC : ReportCodec} {GP : GoParse}.
(** The environment, [controllerutil.SetControllerReference], the termination
    messages of a Job's pods, whether a recorder is configured and the hub is
    connected, and the clock. *)
Context (env : spoke_env) (SetControllerReference : TrafficReplay → Job → result Job).
Context (pods_of : Job → W → result (list (list (option string)))).
Context (recorder connected : bool) (now : Z).

Abbreviation outcome := (rc_world W * result Kube.Result)%type.

Definition no_requeue : Kube.Result := {| RequeueAfter := 0 |}.
Definition requeue_10s : Kube.Result := {| RequeueAfter := 10 * Second |}.

Definition with_api (w : W) (s : rc_world W) : rc_world W := RcWorld w (rc_events s) (rc_reports s).

Definition emit (evs : list Event) (s : rc_world W) : rc_world W :=
  RcWorld (rc_api s) (if recorder then rc_events s ++ evs else rc_events s) (rc_reports s).

(** Best effort: what the hub answers is ignored. *)
Definition reportToHub (tr : TrafficReplay) (s : rc_world W) : rc_world W :=
  if connected then
    match ReplaySummaryFromStatus tr with
    | Some summary => RcWorld (rc_api s) (rc_events s) (rc_reports s ++ [summary])
    | None => s
    end
  else s.

(** The status update, the report and the result at the end of both [setPhase]
    and [Reconcile]. *)
Definition finish_status (tr : TrafficReplay) (quiet : string → bool) (s : rc_world W) : outcome :=
  match client_StatusUpdate tr (rc_api s) with
  | (w, (_, Some err)) => (with_api w s, Err err)
  | (w, (tr, None)) =>
      (reportToHub tr (with_api w s), Ok (if quiet (trst_Phase (Status tr)) then no_requeue else requeue_10s))
  end.

Definition setPhase (tr : TrafficReplay) (phase reason : string) (message : text) (s : rc_world W) : outcome :=
  let st := Status tr in
  let c := {| cond_Type := "Ready"; cond_Status := conditionStatus (bool_decide (phase = TrafficReplayPhaseRunning));
              cond_Reason := reason; cond_Message := message |} in
  let tr := with_Status (trst_with phase (trst_StartTime st) (trst_CompletionTime st)
                           (setCondition (trst_Conditions st) c) st) tr in
  finish_status tr (λ p, bool_decide (phase = TrafficReplayPhaseFailed)) s.

Definition reconcileDelete (tr : TrafficReplay) (s : rc_world W) : outcome :=
  let job : Job := MkObject (newObjectMeta (Namespace tr) (ReplayJobName tr) ∅)
               {| js_BackoffLimit := None; js_PodLabels := ∅; js_RestartPolicy := ""; js_Volumes := [];
                  js_InitContainers := []; js_Containers := [] |} emptyJobStatus in
  let '(w, err) := client_Delete job (rc_api s) in
  let s := with_api w s in
  match err ≫= IgnoreNotFound with
  | Some err => (s, Err (WrapError "delete replay Job: %w" [] err))
  | None =>
      match client_Update (with_Meta (RemoveFinalizer (Meta tr) replayFinalizerName) tr) (rc_api s) with
      | (w, (_, Some err)) => (with_api w s, Err err)
      | (w, (_, None)) => (with_api w s, Ok no_requeue)
      end
  end.

(** The Job of the replay does not exist. *)
Definition create_job (tr : TrafficReplay) (storage : CaptureStorage) (s : rc_world W) : outcome :=
  match BuildReplayJob env tr storage with
  | Err err => setPhase tr TrafficReplayPhaseFailed "InvalidSpec" (ErrText err) s
  | Ok job =>
      match SetControllerReference tr job with
      | Err err => (s, Err (WrapError "set owner reference on Job: %w" [] err))
      | Ok job =>
          match client_Create job (rc_api s) with
          | (w, Some err) => (with_api w s, Err (WrapError "create replay Job: %w" [] err))
          | (w, None) =>
              setPhase tr TrafficReplayPhasePending "JobCreated" (Fmt "replay job created" [])
                (emit [{| ev_Type := EventTypeNormal; ev_Reason := "JobCreated";
                          ev_Message := Fmt "replay job %s created" [FStr (ReplayJobName tr)] |}] (with_api w s))
          end
      end
  end.

(** The status from the Job. *)
Definition observe_job (tr : TrafficReplay) (job : Job) (s : rc_world W) : outcome :=
  let report := if (0 <? jst_Succeeded (Status job)) || jobFailed job
                then scrapeRunReport (pods_of job (rc_api s)) else None in
  let '(st, evs) := advance now report job (Status tr) in
  finish_status (with_Status st tr) terminal (emit evs s).

Definition reconcileLive (tr : TrafficReplay) (s : rc_world W) : outcome :=
  if terminal (trst_Phase (Status tr)) then (s, Ok no_requeue)
  else
    let denied := match trs_Safety (Spec tr) with
                  | Some safety => negb (HostAllowed (rt_Host (trs_Target (Spec tr))) (rsf_AllowedHosts safety))
                  | None => false
                  end in
    let host := rt_Host (trs_Target (Spec tr)) in
    if denied then
      setPhase tr TrafficReplayPhaseFailed "TargetDenied"
        (Fmt "target host %q matches no pattern in spec.safety.allowedHosts %v"
           [FStr host; FStrs (from_option rsf_AllowedHosts [] (trs_Safety (Spec tr)))])
        (emit [{| ev_Type := EventTypeWarning; ev_Reason := "TargetDenied";
                  ev_Message := Fmt "target host %q matches no pattern in spec.safety.allowedHosts" [FStr host] |}] s)
    else
      match client_Get (Namespace tr) (csr_Name (trs_StorageRef (Spec tr))) (rc_api s) with
      | Err err =>
          if IsNotFound err then
            setPhase tr TrafficReplayPhasePending "StorageNotFound"
              (Fmt "CaptureStorage %s not found" [FStr (Namespace tr +:+ "/" +:+ csr_Name (trs_StorageRef (Spec tr)))]) s
          else (s, Err err)
      | Ok storage =>
          match client_Get (Namespace tr) (ReplayJobName tr) (rc_api s) with
          | Ok job => observe_job tr job s
          | Err err => if IsNotFound err then create_job tr storage s else (s, Err err)
          end
      end.

Definition Reconcile (namespace name : string) (s : rc_world W) : outcome :=
  match client_Get namespace name (rc_api s) with
  | Err err => (s, match IgnoreNotFound err with Some err => Err err | None => Ok no_requeue end)
  | Ok tr =>
      if bool_decide (om_DeletionTimestamp (Meta tr) ≠ None) then reconcileDelete tr s
      else if ContainsFinalizer (Meta tr) replayFinalizerName then reconcileLive tr s
      else
        match client_Update (with_Meta (AddFinalizer (Meta tr) replayFinalizerName) tr) (rc_api s) with
        | (w, (_, Some err)) => (with_api w s, Err err)
        | (w, (tr, None)) => reconcileLive tr (with_api w s)
        end
  end.
End Reconcile.

(** ** Theorems *)

Section Theorems.
Context {W : Type} {KR : KubeClient W TrafficReplaySpec TrafficReplayStatus} {KJ : KubeClient W JobSpec JobStatus}.
Context {KS : KubeClient W CaptureStorageSpec CaptureStorageStatus} {AE : ApiErrors} {CU : ControllerUtil}.
Context {LR : KubeClientLaws W TrafficReplaySpec TrafficReplayStatus} {LJ : KubeClientLaws W JobSpec JobStatus}.
Context {SRJ : Separate W TrafficReplaySpec TrafficReplayStatus JobSpec JobStatus}.
Context {SRS : Separate W TrafficReplaySpec TrafficReplayStatus CaptureStorageSpec CaptureStorageStatus}.
Context {RC : ReportCodec} {GP : GoParse}.
Context (env : spoke_env) (SetControllerReference : TrafficReplay → Job → result Job).
Context (pods_of : Job → W → result (list (list (option string)))) (recorder connected : bool) (now : Z).

(** [SetControllerReference] adds an owner and nothing else. *)
Definition owner_only : Prop := ∀ tr job job', SetControllerReference tr job = Ok job' →
  Spec job' = Spec job ∧ Namespace job' = Namespace job ∧ Name job' = Name job.

Abbreviation get_job ns n w := (client_Get ns n w : result Job).
Abbreviation get_replay ns n w := (client_Get ns n w : result TrafficReplay).
Abbreviation get_storage ns n w := (client_Get ns n w : result CaptureStorage).

Definition jobs_same (w w' : W) : Prop := ∀ ns n, get_job ns n w' = get_job ns n w.

Lemma finish_status_jobs tr quiet (s : rc_world W) :
  jobs_same (rc_api s) (rc_api (fst (finish_status connected tr quiet s))).
Proof.
  intros ns n. unfold finish_status.
  pose proof (separate_status (Sp' := JobSpec) (St' := JobStatus) tr (rc_api s) ns n) as Hs.
  destruct (client_StatusUpdate tr (rc_api s)) as [w [tr' [e|]]]; simpl in *; [done|].
  unfold reportToHub. destruct connected; [|done]. by destruct (ReplaySummaryFromStatus tr').
Qed.

Lemma observe_job_jobs tr job (s : rc_world W) :
  jobs_same (rc_api s) (rc_api (fst (observe_job pods_of recorder connected now tr job s))).
Proof.
  unfold observe_job. destruct (advance _ _ _ _) as [st evs].
  apply (finish_status_jobs _ _ (emit recorder evs s)).
Qed.

(** The replay allows its target. *)
Definition allowed (tr : TrafficReplay) : Prop := ∀ safety, trs_Safety (Spec tr) = Some safety →
  HostAllowed (rt_Host (trs_Target (Spec tr))) (rsf_AllowedHosts safety) = true.

(** What can happen to the Jobs while [tr] is reconciled. *)
Inductive job_change (w w' : W) (tr : TrafficReplay) (ns n : string) : Prop :=
  | job_same : get_job ns n w' = get_job ns n w → job_change w w' tr ns n
  | job_created storage job : (ns, n) = (Namespace tr, ReplayJobName tr) →
      (∀ j, get_job ns n w ≠ Ok j) → om_DeletionTimestamp (Meta tr) = None →
      terminal (trst_Phase (Status tr)) = false → allowed tr →
      get_storage (Namespace tr) (csr_Name (trs_StorageRef (Spec tr))) w = Ok storage →
      BuildReplayJob env tr storage = Ok job →
      (∃ j, get_job ns n w' = Ok j ∧ Spec j = Spec job) → job_change w w' tr ns n
  | job_deleted : (ns, n) = (Namespace tr, ReplayJobName tr) → om_DeletionTimestamp (Meta tr) ≠ None →
      (∀ j, get_job ns n w' = Ok j → om_DeletionTimestamp (Meta j) ≠ None) → job_change w w' tr ns n.

Lemma create_job_change tr storage (s : rc_world W) ns n : owner_only →
  om_DeletionTimestamp (Meta tr) = None → terminal (trst_Phase (Status tr)) = false → allowed tr →
  get_storage (Namespace tr) (csr_Name (trs_StorageRef (Spec tr))) (rc_api s) = Ok storage →
  job_change (rc_api s) (rc_api (fst (create_job env SetControllerReference recorder connected tr storage s))) tr ns n.
Proof.
  intros Hown Hdel Hterm Hall Hsto. unfold create_job.
  destruct (BuildReplayJob env tr storage) as [job|e] eqn:Hb; [|apply job_same, finish_status_jobs].
  destruct (SetControllerReference tr job) as [job'|e] eqn:Hset; [|by apply job_same].
  destruct (Hown _ _ _ Hset) as (Hspec & Hns & Hn).
  assert ((Namespace job', Name job') = (Namespace tr, ReplayJobName tr)) as Hkey.
  { rewrite Hns, Hn. unfold BuildReplayJob in Hb. destruct (buildReplayArgs tr storage); [|done]. by injection Hb as <-. }
  destruct (client_Create job' (rc_api s)) as [w [e|]] eqn:Hc.
  { apply job_same. by apply create_err in Hc as ->. }
  unfold setPhase. set (tr' := with_Status _ tr).
  pose proof (finish_status_jobs tr' (λ p, bool_decide (TrafficReplayPhasePending = TrafficReplayPhaseFailed))
    (emit recorder [{| ev_Type := EventTypeNormal; ev_Reason := "JobCreated";
                       ev_Message := Fmt "replay job %s created" [FStr (ReplayJobName tr)] |}] (with_api w s)) ns n) as Hf.
  simpl in Hf. set (s' := finish_status _ _ _ _) in *.
  destruct (decide ((ns, n) = (Namespace job', Name job'))) as [Hk|Hk].
  - destruct (create_ok _ _ _ Hc) as [Hno (j & Hj & Hsp & _)]. injection Hk as -> ->.
    eapply (job_created _ _ _ _ _ storage job); try done.
    exists j. rewrite Hf, Hj. split; [done|congruence].
  - apply job_same. rewrite Hf. exact (create_frame _ _ _ _ _ _ Hc Hk).
Qed.

Lemma reconcileLive_change tr (s : rc_world W) ns n : owner_only → om_DeletionTimestamp (Meta tr) = None →
  job_change (rc_api s)
    (rc_api (fst (reconcileLive env SetControllerReference pods_of recorder connected now tr s))) tr ns n.
Proof.
  intros Hown Hdel. unfold reconcileLive. destruct (terminal _) eqn:Hterm; [by apply job_same|].
  set (denied := match trs_Safety (Spec tr) with Some _ => _ | None => _ end).
  assert (denied = false → allowed tr) as Hall.
  { unfold denied, allowed. intros Hd safety Hs. rewrite Hs in Hd. by apply negb_false_iff. }
  destruct denied; [apply job_same, (finish_status_jobs _ _ (emit recorder _ s))|].
  destruct (get_storage _ _ _) as [storage|e] eqn:Hsto.
  2:{ destruct (IsNotFound e); [apply job_same, finish_status_jobs|by apply job_same]. }
  destruct (get_job _ _ _) as [job|e] eqn:Hjob; [apply job_same, observe_job_jobs|].
  destruct (IsNotFound e); [|by apply job_same]. apply create_job_change; auto.
Qed.

(** Objects that differ in their finalizers and generation only. *)
Definition same_replay (tr tr' : TrafficReplay) : Prop :=
  Spec tr' = Spec tr ∧ Status tr' = Status tr ∧ server_meta (Meta tr') = server_meta (Meta tr) ∧
  client_meta (om_with_Finalizers [] (Meta tr')) = client_meta (om_with_Finalizers [] (Meta tr)).

Lemma same_replay_meta tr tr' : same_replay tr tr' →
  Namespace tr' = Namespace tr ∧ Name tr' = Name tr ∧ om_DeletionTimestamp (Meta tr') = om_DeletionTimestamp (Meta tr) ∧
  ∀ storage, BuildReplayJob env tr' storage = BuildReplayJob env tr storage.
Proof.
  destruct tr as [[] sp st], tr' as [[] sp' st']. unfold same_replay, om_with_Finalizers, client_meta, server_meta.
  simpl. intros (-> & -> & [= -> -> ->] & [= -> -> -> -> ->]). done.
Qed.

(** Adding the finalizer. *)
Lemma finalizer_added tr (w w' : W) tr' : get_replay (Namespace tr) (Name tr) w = Ok tr →
  client_Update (with_Meta (AddFinalizer (Meta tr) replayFinalizerName) tr) w = (w', (tr', None)) →
  same_replay tr tr' ∧ jobs_same w w' ∧ ∀ ns n, get_storage ns n w' = get_storage ns n w.
Proof.
  intros Hg Hu. set (o := with_Meta _ tr) in *.
  pose proof (separate_update (Sp' := JobSpec) (St' := JobStatus) o w) as HJ.
  pose proof (separate_update (Sp' := CaptureStorageSpec) (St' := CaptureStorageStatus) o w) as HS.
  rewrite Hu in HJ, HS. destruct (update_ok _ _ _ _ Hu) as (Hm & Hsp & Hst & _).
  pose proof (add_frame (Meta tr) replayFinalizerName) as Hf.
  split; [|split; [exact HJ|exact HS]].
  destruct (Hst tr) as [Hst' Hsm].
  { unfold Namespace, Name, o in *. simpl in *.
    assert (om_Namespace (AddFinalizer (Meta tr) replayFinalizerName) = om_Namespace (Meta tr) ∧
            om_Name (AddFinalizer (Meta tr) replayFinalizerName) = om_Name (Meta tr)) as [-> ->]; [|exact Hg].
    unfold om_with_Finalizers in Hf. by injection Hf. }
  split; [exact Hsp|]. split; [done|]. split; [done|].
  rewrite <-Hf. unfold client_meta in *. simpl in *. congruence.
Qed.

Lemma job_change_same tr tr' (w w1 w' : W) ns n : same_replay tr tr' → jobs_same w w1 →
  (∀ ns n, get_storage ns n w1 = get_storage ns n w) → job_change w1 w' tr' ns n → job_change w w' tr ns n.
Proof.
  intros Hsame Hj Hs Hc. destruct (same_replay_meta _ _ Hsame) as (Hns & Hn & Hd & Hb).
  destruct Hsame as (Hsp & Hst & _ & _).
  destruct Hc as [Heq|storage job Hkey Hno Hdel Hterm Hall Hsto Hbuild Hex|Hkey Hdel Hgone].
  - apply job_same. by rewrite Heq, Hj.
  - unfold allowed, ReplayJobName in *. rewrite ?Hns, ?Hn, ?Hsp, ?Hst, ?Hd, ?Hs, ?Hb in *.
    eapply job_created; eauto. intros j. rewrite <-Hj. apply Hno.
  - unfold ReplayJobName in *. rewrite ?Hns, ?Hn, ?Hd in *. by apply job_deleted.
Qed.

Lemma reconcileDelete_change tr (s : rc_world W) : om_DeletionTimestamp (Meta tr) ≠ None →
  let s' := fst (reconcileDelete tr s) in
  (∀ ns n, job_change (rc_api s) (rc_api s') tr ns n) ∧
  ((∀ j, get_job (Namespace tr) (ReplayJobName tr) (rc_api s') = Ok j → om_DeletionTimestamp (Meta j) ≠ None) ∨
   rc_api s' = rc_api s).
Proof.
  intros Hdel. unfold reconcileDelete.
  set (job := MkObject (newObjectMeta (Namespace tr) (ReplayJobName tr) ∅) _ _ : Job).
  assert ((Namespace job, Name job) = (Namespace tr, ReplayJobName tr)) as Hkey by done.
  destruct (client_Delete job (rc_api s)) as [w err] eqn:Hd. cbv zeta.
  destruct (err ≫= IgnoreNotFound) as [e|] eqn:Hign.
  { destruct err as [err|]; [|done]. apply delete_err in Hd as ->. split; [|by right]. intros ns n. by apply job_same. }
  assert (∀ j, get_job (Namespace tr) (ReplayJobName tr) w = Ok j → om_DeletionTimestamp (Meta j) ≠ None) as Hgone.
  { destruct err as [err|]; [|intros j Hj; by eapply (delete_ok _ _ _ Hd)].
    simpl in Hign. unfold IgnoreNotFound in Hign. destruct (IsNotFound err) eqn:Hnf; [|done].
    intros j Hj. exfalso. pose proof (delete_err _ _ _ _ Hd) as ->. exact (delete_not_found _ _ _ _ Hd Hnf j Hj). }
  set (o := with_Meta _ tr). simpl.
  pose proof (separate_update (Sp' := JobSpec) (St' := JobStatus) o w) as HJ.
  destruct (client_Update o w) as [w2 [tr2 e2]]. simpl in HJ.
  assert (rc_api (fst (match e2 with Some err0 => (with_api w2 (with_api w s), Err err0)
                      | None => (with_api w2 (with_api w s), Ok no_requeue) end)) = w2) as -> by by destruct e2.
  split; [|left; intros j; rewrite HJ; apply Hgone]. intros ns n.
  destruct (decide ((ns, n) = (Namespace job, Name job))) as [Hk|Hk].
  - apply job_deleted; [by rewrite <-Hkey|done|]. injection Hk as -> ->. intros j. rewrite HJ. apply Hgone.
  - apply job_same. rewrite HJ. exact (delete_frame _ _ _ _ _ _ Hd Hk).
Qed.


(** ** What the hub is told *)

Lemma Milliseconds_bounds d : in_int64 d → in_int64 (Milliseconds d * Millisecond).
Proof.
  unfold in_int64, Milliseconds, Millisecond. intros Hd.
  pose proof (Z.quot_rem' d 1000000). pose proof (Z.rem_bound_abs d 1000000 ltac:(lia)).
  pose proof (Z.rem_sign_mul d 1000000 ltac:(lia)). nia.
Qed.

(** A latency survives the status: what the hub gets is the report's value. *)
Lemma latency_round_trip d : in_int64 d → latencyMs (Some (LatencyString (Milliseconds d))) = Milliseconds d.
Proof.
  intros Hd. unfold latencyMs, LatencyString. pose proof (Milliseconds_bounds d Hd) as Hm.
  rewrite parse_duration_string, int64_id by (try rewrite int64_id; done).
  unfold Milliseconds at 1. apply Z.quot_mul. done.
Qed.

(** A message without a report. *)
Definition no_report (m : option string) : Prop :=
  ∀ data, m = Some data → data = "" ∨ ∃ e, ParseRunReport data = Err e.

Lemma first_report_spec pre data post r : Forall no_report pre → rp_Marshal r = Ok data →
  first_report (pre ++ Some data :: post) = Some r.
Proof.
  intros Hpre Hm. induction Hpre as [|[m|] pre Hx _ IH]; simpl.
  - rewrite bool_decide_eq_false_2 by by eapply rp_marshal_nonempty.
    unfold ParseRunReport. by rewrite (rp_unmarshal_marshal _ _ Hm).
  - destruct (Hx m eq_refl) as [-> | [e He]]; [done|]. rewrite He. by case_bool_decide.
  - done.
Qed.

(** The summary of a run as the hub is to see it. *)
Definition summary_of (tr : TrafficReplay) (ref : LoadTestReference) (phase : ReplayPhase) (rps : float64) (sm : Summary)
    : ReplayStatusSummary :=
  {| rss_LoadTestName := ltr_Name ref; rss_LoadTestNamespace := Namespace tr; rss_ReplayName := Name tr;
     rss_ShardIndex := match trs_Shard (Spec tr) with Some s => shs_Index s | None => 0 end;
     rss_ShardCount := match trs_Shard (Spec tr) with Some s => shs_Count s | None => 0 end;
     rss_Phase := phase;
     rss_TotalRequests := sm_TotalRequests sm + sm_FilteredCount sm;
     rss_SentRequests := sm_SuccessCount sm; rss_FailedRequests := sm_ErrorCount sm;
     rss_FilteredRequests := sm_FilteredCount sm; rss_AchievedRps := rps;
     rss_P50LatencyMs := Milliseconds (sm_P50Latency sm); rss_P95LatencyMs := Milliseconds (sm_P95Latency sm);
     rss_P99LatencyMs := Milliseconds (sm_P99Latency sm); rss_Message := "" |}.

(** The values of a summary fit. *)
Definition summary_fits (sm : Summary) : Prop :=
  in_int64 (sm_TotalRequests sm + sm_FilteredCount sm) ∧
  Forall in_int64 [sm_P50Latency sm; sm_P95Latency sm; sm_P99Latency sm].

Lemma reported_summary tr ref job sm report : trs_LoadTestRef (Spec tr) = Some ref → summary_fits sm →
  report = Some (NewRunReport sm) → (0 <? jst_Succeeded (Status job)) = true →
  ∃ rps, ReplaySummaryFromStatus (with_Status (fst (advance now report job (Status tr))) tr) =
    Some (summary_of tr ref REPLAY_PHASE_COMPLETED rps sm).
Proof.
  intros Href [Htot Hlat] -> Hjob. unfold advance. rewrite Hjob. unfold ReplaySummaryFromStatus. simpl. rewrite Href.
  eexists. unfold summary_of. do 2 f_equal; simpl; [by rewrite int64_id|..];
    apply latency_round_trip; rewrite Forall_forall in Hlat; apply Hlat; set_solver.
Qed.

(** C11: a finished shard reports its own run.  When the Job of a replay has
    succeeded and one of its pods left the report of a run with summary [sm] as
    its termination message, the reconciler either could not update the status and
    changed nothing, or it recorded the replay as completed with exactly the
    counts of [sm], for good, and told the hub exactly those: requests seen, sent,
    failed and filtered, and the latencies in milliseconds. *)
Theorem finished_shard_reports_its_run ns n tr storage job sm pods pre data post (s : rc_world W) :
  get_replay ns n (rc_api s) = Ok tr → om_DeletionTimestamp (Meta tr) = None →
  ContainsFinalizer (Meta tr) replayFinalizerName = true → terminal (trst_Phase (Status tr)) = false → allowed tr →
  get_storage (Namespace tr) (csr_Name (trs_StorageRef (Spec tr))) (rc_api s) = Ok storage →
  get_job (Namespace tr) (ReplayJobName tr) (rc_api s) = Ok job → 0 < jst_Succeeded (Status job) →
  pods_of job (rc_api s) = Ok pods → concat pods = pre ++ Some data :: post → Forall no_report pre →
  rp_Marshal (NewRunReport sm) = Ok data → summary_fits sm →
  let '(s', r) := Reconcile env SetControllerReference pods_of recorder connected now ns n s in
  ((∃ e, r = Err e) ∧ rc_api s' = rc_api s ∧ rc_reports s' = rc_reports s) ∨
  (r = Ok no_requeue ∧
   (∃ tr', get_replay ns n (rc_api s') = Ok tr' ∧ trst_Phase (Status tr') = TrafficReplayPhaseCompleted ∧
     trst_TotalRequests (Status tr') = sm_TotalRequests sm + sm_FilteredCount sm ∧
     trst_SentRequests (Status tr') = sm_SuccessCount sm ∧ trst_FailedRequests (Status tr') = sm_ErrorCount sm ∧
     trst_FilteredRequests (Status tr') = sm_FilteredCount sm) ∧
   (connected = false → rc_reports s' = rc_reports s) ∧
   (connected = true → ∀ ref, trs_LoadTestRef (Spec tr) = Some ref →
      ∃ rps, rc_reports s' = rc_reports s ++ [summary_of tr ref REPLAY_PHASE_COMPLETED rps sm])).
Proof.
  intros Hget Hdel Hfin Hterm Hall Hsto Hjob Hsucc Hpods Hmsgs Hpre Hmar Hfits.
  destruct (get_name _ _ _ _ Hget) as [Hns Hn].
  unfold Reconcile. rewrite Hget, bool_decide_eq_false_2, Hfin by naive_solver.
  unfold reconcileLive. rewrite Hterm.
  set (denied := match trs_Safety (Spec tr) with Some _ => _ | None => _ end).
  assert (denied = false) as ->.
  { unfold denied. destruct (trs_Safety (Spec tr)) as [sf|] eqn:Hsf; [|done]. by rewrite (Hall sf Hsf). }
  rewrite Hsto, Hjob. unfold observe_job. apply Z.ltb_lt in Hsucc. rewrite Hsucc, Hpods. simpl.
  rewrite Hmsgs, (first_report_spec pre data post _ Hpre Hmar).
  set (st := fst (advance now (Some (NewRunReport sm)) job (Status tr))).
  assert (trst_Phase st = TrafficReplayPhaseCompleted ∧
    trst_TotalRequests st = sm_TotalRequests sm + sm_FilteredCount sm ∧
    trst_SentRequests st = sm_SuccessCount sm ∧ trst_FailedRequests st = sm_ErrorCount sm ∧
    trst_FilteredRequests st = sm_FilteredCount sm) as Hst.
  { unfold st, advance. rewrite Hsucc. simpl. destruct Hfits as [Hf _]. by rewrite int64_id. }
  destruct (advance _ _ _ _) as [st' evs] eqn:Hadv. simpl in st. subst st. unfold finish_status. simpl.
  destruct (client_StatusUpdate (with_Status st' tr) (rc_api s)) as [w [tr' [e|]]] eqn:Hup.
  { left. apply status_err in Hup as [-> ->]. split; [by eexists|done]. }
  right. destruct (status_ok _ _ _ _ Hup) as (Hs' & Hns' & Hn' & Hg').
  assert (Spec tr' = Spec tr) as Hspec.
  { refine (proj1 (status_spec _ _ _ _ tr Hup _)). unfold Namespace, Name in *. simpl. by rewrite Hns, Hn. }
  simpl in Hs'. destruct Hst as (Hphase & Hcounts). rewrite Hs', Hphase.
  split; [done|]. split.
  { exists tr'. unfold reportToHub. rewrite Hs'. split; [|done].
    destruct connected; [destruct (ReplaySummaryFromStatus tr')|]; simpl;
      unfold Namespace, Name in *; simpl in *; by rewrite <-Hns, <-Hn. }
  unfold reportToHub. destruct connected; (split; [|intros Hc]; try done).
  intros ref Href. destruct (reported_summary tr ref job sm _ Href Hfits eq_refl Hsucc) as [rps Hrps].
  exists rps. rewrite Hadv in Hrps. simpl in Hrps.
  assert (ReplaySummaryFromStatus tr' = ReplaySummaryFromStatus (with_Status st' tr)) as ->.
  { unfold ReplaySummaryFromStatus. by rewrite Hspec, Hs', Hns', Hn'. }
  by rewrite Hrps.
Qed.
End Theorems.

(** ** Witnesses *)

#[local] Existing Instances mem_errors mem_controllerutil decimal_parser.

(** Floats as data that can be encoded. *)
Definition f64_tuple (x : float64) : (bool + bool) + (() + (bool * positive * Z)) :=
  match x with
  | S754_zero s => inl (inl s)
  | S754_infinity s => inl (inr s)
  | S754_nan => inr (inl ())
  | S754_finite s m e => inr (inr (s, m, e))
  end.

Definition tuple_f64 (t : (bool + bool) + (() + (bool * positive * Z))) : float64 :=
  match t with
  | inl (inl s) => S754_zero s
  | inl (inr s) => S754_infinity s
  | inr (inl _) => S754_nan
  | inr (inr (s, m, e)) => S754_finite s m e
  end.

Definition demo_rp_Marshal (r : RunReport) : result string :=
  Ok (String (Ascii.Ascii true true false true true true true false) (bits_of (encode (rp_TotalRequests r, rp_SentRequests r, rp_FailedRequests r, rp_FilteredRequests r,
        rp_DurationMs r, f64_tuple (rp_AchievedRPS r), rp_MeanLatencyMs r, rp_P50LatencyMs r, rp_P95LatencyMs r,
        rp_P99LatencyMs r)))).

Definition demo_rp_Unmarshal (data : string) : result RunReport :=
  match data with
  | String _ data =>
      match decode (of_bits data) with
      | Some (a, b, c, d, e, f, g, h, i, j) =>
          Ok {| rp_TotalRequests := a; rp_SentRequests := b; rp_FailedRequests := c; rp_FilteredRequests := d;
                rp_DurationMs := e; rp_AchievedRPS := tuple_f64 f; rp_MeanLatencyMs := g; rp_P50LatencyMs := h;
                rp_P95LatencyMs := i; rp_P99LatencyMs := j |}
      | None => Err (Sentinel "json")
      end
  | "" => Err (Sentinel "json")
  end.

#[local] Instance demo_reports : ReportCodec.
Proof.
  refine {| rp_Marshal := demo_rp_Marshal; rp_Unmarshal := demo_rp_Unmarshal |}.
  - intros r data [= <-]. unfold demo_rp_Unmarshal. rewrite of_bits_of, decode_encode. destruct r as [? ? ? ? ? f].
    by destruct f.
  - by intros r data [= <-].
Defined.

(** The API server: replays, Jobs and storages. *)
Definition demo_world : Type :=
  store TrafficReplaySpec TrafficReplayStatus * store JobSpec JobStatus *
  store CaptureStorageSpec CaptureStorageStatus.

Definition set_replays v (w : demo_world) : demo_world := (v, w.1.2, w.2).
Definition set_jobs v (w : demo_world) : demo_world := (w.1.1, v, w.2).
Definition set_storages v (w : demo_world) : demo_world := (w.1.1, w.1.2, v).

#[local] Instance demo_replay_client : KubeClient demo_world TrafficReplaySpec TrafficReplayStatus :=
  part_client (H := mem_client) (λ w, w.1.1) set_replays.
#[local] Instance demo_job_client : KubeClient demo_world JobSpec JobStatus :=
  part_client (H := mem_client) (λ w, w.1.2) set_jobs.
#[local] Instance demo_storage_client : KubeClient demo_world CaptureStorageSpec CaptureStorageStatus :=
  part_client (H := mem_client) (λ w, w.2) set_storages.

#[local] Instance demo_replay_laws : KubeClientLaws demo_world TrafficReplaySpec TrafficReplayStatus.
Proof. apply part_laws; [done|by intros [[] ?]|apply mem_client_laws]. Qed.
#[local] Instance demo_job_laws : KubeClientLaws demo_world JobSpec JobStatus.
Proof. apply part_laws; [done|by intros [[] ?]|apply mem_client_laws]. Qed.
#[local] Instance demo_replay_job : Separate demo_world TrafficReplaySpec TrafficReplayStatus JobSpec JobStatus.
Proof. by apply parts_separate. Qed.
#[local] Instance demo_replay_storage :
  Separate demo_world TrafficReplaySpec TrafficReplayStatus CaptureStorageSpec CaptureStorageStatus.
Proof. by apply parts_separate. Qed.

(** A shard of a load test whose Job has succeeded ... *)
Definition demo_shard : TrafficReplay :=
  MkObject (om_with_Finalizers [replayFinalizerName] (newObjectMeta "prod" "lt-shard-1" ∅))
    {| trs_SourceRef := {| tcr_Name := "shop" |}; trs_StorageRef := {| csr_Name := "efs" |};
       trs_Target := {| rt_Host := "api.staging.internal"; rt_Port := None; rt_TLS := None |};
       trs_Rate := None; trs_Filters := None; trs_Transforms := []; trs_Concurrency := None;
       trs_Shard := Some {| shs_Index := 1; shs_Count := 3; shs_Presharded := None |};
       trs_LoadTestRef := Some {| ltr_Name := "lt" |}; trs_Engine := None;
       trs_Safety := Some {| rsf_AllowedHosts := ["*.staging.internal"] |} |}
    emptyTrafficReplayStatus.

Definition demo_efs : CaptureStorage :=
  MkObject (newObjectMeta "prod" "efs" ∅)
    {| css_Type := CaptureStorageTypeEFS; css_S3 := None; css_GCS := None;
       css_EFS := Some {| efs_FileSystemID := "fs-1"; efs_MountPath := "/data"; efs_Directory := None |};
       css_EBS := None; css_Plugin := None; css_Retention := None |}
    {| csst_Phase := CaptureStoragePhaseReady; csst_Conditions := [] |}.

Definition demo_env : spoke_env :=
  {| env_PluginImage := ""; env_PluginDir := ""; env_ReplayEngineImage := "engine:1" |}.

Definition demo_job : Job :=
  match BuildReplayJob demo_env demo_shard demo_efs with
  | Ok job => with_Status {| jst_Active := 0; jst_Succeeded := 1; jst_Failed := 0; jst_Conditions := [] |} job
  | Err _ => MkObject (newObjectMeta "" "" ∅) (Build_JobSpec None ∅ "" [] [] []) emptyJobStatus
  end.

(** ... after a run of two requests, its third pod. *)
Definition demo_summary : Summary :=
  match Summarize (λ _, false) demo_results with Ret s => s | Panic => emptySummary end.

Definition demo_message : string :=
  match rp_Marshal (NewRunReport demo_summary) with Ok data => data | Err _ => "" end.

Definition demo_pods (job : Job) (w : demo_world) : result (list (list (option string))) :=
  Ok [[Some ""]; [None]; [Some demo_message]].

Definition demo_owner (tr : TrafficReplay) (job : Job) : result Job := Ok job.

Definition demo_start (jobs : store JobSpec JobStatus) : rc_world demo_world :=
  RcWorld ({[("prod", "lt-shard-1") := demo_shard]}, jobs, {[("prod", "efs") := demo_efs]}) [] [].

Lemma demo_job_built : match BuildReplayJob demo_env demo_shard demo_efs with Ok _ => True | Err _ => False end.
Proof. exact I. Qed.


Lemma finished_shard_reports_its_run_witness :
  let '(s', r) := Reconcile demo_env demo_owner demo_pods true true 7 "prod" "lt-shard-1"
                    (demo_start {[("prod", "lt-shard-1-replay") := demo_job]}) in
  r = Ok no_requeue ∧ sm_TotalRequests demo_summary = 2 ∧
  ∃ rps, rc_reports s' = [summary_of demo_shard {| ltr_Name := "lt" |} REPLAY_PHASE_COMPLETED rps demo_summary].
Proof.
  pose proof (finished_shard_reports_its_run demo_env demo_owner demo_pods true true 7 "prod" "lt-shard-1" demo_shard
    demo_efs demo_job demo_summary [[Some ""]; [None]; [Some demo_message]] [Some ""; None] demo_message []
    (demo_start {[("prod", "lt-shard-1-replay") := demo_job]})) as Hthm.
  assert (snd (Reconcile demo_env demo_owner demo_pods true true 7 "prod" "lt-shard-1"
    (demo_start {[("prod", "lt-shard-1-replay") := demo_job]})) = Ok no_requeue) as Hr by reflexivity.
  destruct (Reconcile _ _ _ _ _ _ _ _ _) as [s' r]. simpl in Hr. subst r.
  destruct Hthm as [[[e He] _]|(_ & _ & _ & Hrep)].
  - reflexivity.
  - reflexivity.
  - reflexivity.
  - reflexivity.
  - intros sf [= <-]. reflexivity.
  - reflexivity.
  - reflexivity.
  - reflexivity.
  - reflexivity.
  - reflexivity.
  - apply List.Forall_cons; [intros d [= <-]; by left|]. apply List.Forall_cons; [done|]. constructor.
  - reflexivity.
  - split; [vm_compute; split; congruence|]. repeat (apply List.Forall_cons; [vm_compute; split; congruence|]). constructor.
  - discriminate He.
  - split; [reflexivity|]. split; [reflexivity|]. exact (Hrep eq_refl _ eq_refl).
Defined.
