(* ===== verification/FleetReplay.v ===== *)
(** * A load test, end to end

    The components put together: the hub's START directive for a shard
    ([LoadTest]), the spoke's decoding of it ([SpokeDirectives]), the Job and its
    command line ([ReplayJob]), the worker's configuration ([ReplayMain]), the
    engine ([Engine]) and the slices of a presharded capture ([Preshard]).  The
    storage is seen through [open]: the reader a worker gets for a location and
    read options. *)

From S2P Require Import Prelude GoStd GoTime GoFlag HubProto HubServer Kube Api CaptureApi LoadTest LoadTestPlan.
From S2P Require Import Storage Readers Shard Engine Summary SpokeDirectives ReplayJob ReplayMain ReplayController Preshard.

Local Open Scope Z_scope.

Section Fleet.
Context {GP : GoParse}.

(** Shard [i] of [lt] on a spoke: the replay its directive becomes and the container
    of its Job. *)
Definition shard_job (lt : CaptureLoadTest) (i : nat) (env : spoke_env) (storage : CaptureStorage)
    (tr : TrafficReplay) (c : Container) : Prop :=
  let d := buildStartDirective lt (Z.of_nat i) in
  (∃ spec, rd_Spec d = Some spec ∧ tr = replayFromDirective d spec) ∧
  (∃ job, BuildReplayJob env tr storage = Ok job ∧ js_Containers (Spec job) = [c]).

(** ... and the engine its worker builds from the command line. *)
Definition runs_shard (lt : CaptureLoadTest) (i : nat) (env : spoke_env) (storage : CaptureStorage)
    (tr : TrafficReplay) (c : Container) (e : Engine) : Prop :=
  shard_job lt i env storage tr c ∧ worker_engine c = Some e.

Definition test_presharded (lt : CaptureLoadTest) : bool :=
  default false (ls_Distribution (Spec lt) ≫= ld_Presharded).

(** ** From directive to engine *)

Lemma shard_engine_config lt i env storage tr c e : runs_shard lt i env storage tr c e → job_ok tr →
  NewEngine (engine_config_of tr) = Ok e.
Proof.
  intros ((_ & job & Hjob & Hcs) & Hw) Hok. destruct (job_container _ _ _ _ Hjob) as (c' & Hc & Hargs & Henv & _).
  rewrite Hc in Hcs. injection Hcs as ->. unfold worker_engine, container_config in Hw.
  destruct (job_config (env_PluginDir env) tr storage _ Hargs Hok) as (cfg & Hp & Hr & _ & _ & _ & Hd & _).
  rewrite Henv, Hp, Hr in Hw. destruct (run_mode_of cfg); try done. unfold direct_engine in Hw. rewrite Hd in Hw.
  destruct (NewEngine (engine_config_of tr)); congruence.
Qed.

Definition capture_of (lt : CaptureLoadTest) : string :=
  Namespace lt +:+ "/" +:+ tcr_Name (ls_SourceRef (Spec lt)).

(** What the replay of a shard says about capture, shard and selection. *)
Lemma shard_replay lt i env storage tr c : shard_job lt i env storage tr c →
  is_presharded tr = test_presharded lt ∧
  trs_Shard (Spec tr) = Some {| shs_Index := Z.of_nat i; shs_Count := lst_TotalShards (Status lt);
                                shs_Presharded := ptr_if (test_presharded lt) true |} ∧
  job_capture_id tr = (if test_presharded lt
                       then ShardSliceCaptureID (capture_of lt) (Z.of_nat i) (lst_TotalShards (Status lt))
                       else capture_of lt) ∧
  trs_Filters (Spec tr) = filters_from_directive <$>
    ((λ f, {| rdf_StartTime := rf_StartTime f; rdf_EndTime := rf_EndTime f;
              rdf_PathPrefix := default "" (rf_PathPrefix f);
              rdf_Methods := rf_Methods f; rdf_Limit := default 0 (rf_Limit f) |}) <$> ls_Filters (Spec lt)).
Proof.
  intros ((spec & [= <-] & ->) & _). unfold test_presharded, job_capture_id, is_presharded, capture_of.
  simpl. destruct (ls_Distribution (Spec lt)) as [d|]; simpl; [|done].
  destruct (ld_Presharded d) as [[]|]; simpl; split_and!; try done.
Qed.

(** The selection of a load test, on the capture [id]. *)
Definition test_options (lt : CaptureLoadTest) (id : string) : ReadOptions :=
  let f := filters_from_directive <$>
    ((λ f, {| rdf_StartTime := rf_StartTime f; rdf_EndTime := rf_EndTime f;
              rdf_PathPrefix := default "" (rf_PathPrefix f);
              rdf_Methods := rf_Methods f; rdf_Limit := default 0 (rf_Limit f) |}) <$> ls_Filters (Spec lt)) in
  let cut t := t / Second * Second in
  {| ro_CaptureID := id;
     ro_StartTime := default zero_time (cut <$> (f ≫= rf_StartTime));
     ro_EndTime := default zero_time (cut <$> (f ≫= rf_EndTime));
     ro_PathPrefix := default "" (f ≫= rf_PathPrefix);
     ro_Methods := default [] (rf_Methods <$> f);
     ro_Limit := default 0 ((f ≫= rf_Limit) ≫= λ n, if 0 <? n then Some n else None) |}.

Lemma shard_options lt i env storage tr c : shard_job lt i env storage tr c →
  options_of tr = test_options lt (job_capture_id tr).
Proof.
  intros Hjob. destruct (shard_replay _ _ _ _ _ _ Hjob) as (_ & _ & _ & Hf).
  unfold options_of, test_options, methods_of, limit_of. by rewrite Hf.
Qed.

Lemma owns_all e (l : list CapturedRequest) : (∀ r, engine_owns e r = true) → List.filter (engine_owns e) l = l.
Proof. intros He. induction l as [|r l IH]; [done|]. simpl. by rewrite He, IH. Qed.

(** Selecting from a slice is slicing the selection. *)
Lemma slice_filter n i sel l : List.filter sel (slice n i l) = slice n i (List.filter sel l).
Proof.
  unfold slice. induction l as [|r l IH]; [done|]. simpl.
  destruct (sel r) eqn:Hs, (_ =? _) eqn:Ho; simpl; rewrite ?Hs, ?Ho, IH; done.
Qed.

(** ** Theorems *)

(** ** The totals of a load test *)

Section Totals.
Context {R : Type} (is_timeout : go_error → bool).

(** The status the hub has of shard [i]: that of a completed replay with the
    summary of the run [final]. *)
Definition shard_reported (lt : CaptureLoadTest) (i : nat) (final : run_state (R := R)) (snap : ReplayStatusSnapshot) : Prop :=
  let d := buildStartDirective lt (Z.of_nat i) in
  ∃ spec ref rps sm, rd_Spec d = Some spec ∧ trs_LoadTestRef (Spec (replayFromDirective d spec)) = Some ref ∧
    run_summary is_timeout final = Ok (Ret sm) ∧
    rsn_Summary snap = summary_of (replayFromDirective d spec) ref REPLAY_PHASE_COMPLETED rps sm.

Lemma run_summary_counts (final : run_state (R := R)) sm : len (st_results final) < 2 ^ 53 →
  run_summary is_timeout final = Ok (Ret sm) →
  sm_TotalRequests sm = len (st_results final) ∧ sm_SuccessCount sm + sm_ErrorCount sm = len (st_results final) ∧
  0 <= sm_SuccessCount sm ∧ 0 <= sm_ErrorCount sm ∧ sm_FilteredCount sm = st_filtered final.
Proof.
  intros Hl. unfold run_summary. destruct (run_error final); [done|].
  destruct (Summarize is_timeout (st_results final)) as [s|] eqn:Hs; [|done]. intros [= <-]. simpl.
  destruct (summarize_counts is_timeout _ _ Hl Hs) as (? & ? & ? & ? & _). done.
Qed.

Lemma len_concat {A} (f : nat → list A) l : len (concat (f <$> l)) = sumZ (λ i, len (f i)) l.
Proof.
  induction l as [|i l IH]; [done|]. change (concat (f <$> i :: l)) with (f i ++ concat (f <$> l)).
  by rewrite len_app, IH, sumZ_cons.
Qed.

Lemma sumZ_elem_le {A} (f : A → Z) x l : (∀ y, 0 <= f y) → x ∈ l → f x <= sumZ f l.
Proof.
  intros Hf. induction l as [|y l IH]; [by intros ?%elem_of_nil|]. rewrite sumZ_cons.
  pose proof (Hf y). pose proof (sumZ_nonneg f l (λ z _, Hf z)). intros [->|Hx]%elem_of_cons; [lia|].
  specialize (IH Hx). lia.
Qed.

Lemma in_phase_all p statuses : (∀ snap, snap ∈ statuses → rss_Phase (rsn_Summary snap) = p) →
  in_phase p statuses = len statuses.
Proof.
  unfold in_phase. intros Hall. f_equal. induction statuses as [|x l IH]; [done|]. simpl.
  rewrite bool_decide_eq_true_2 by (apply Hall; set_solver). f_equal. apply IH. set_solver.
Qed.

(** Aggregating the statuses of all shards. *)
Lemma reported_totals lt (n : nat) (finals : nat → run_state (R := R)) (snaps : nat → ReplayStatusSnapshot) statuses l now :
  lst_TotalShards (Status lt) = Z.of_nat n → 1 < Z.of_nat n < 2 ^ 31 → len l < 2 ^ 53 →
  concat ((λ i, (st_log (finals i)).*1) <$> seq 0 n) ≡ₚ l →
  (∀ i, (i < n)%nat → length (st_results (finals i)) = length (st_log (finals i)) ∧ st_filtered (finals i) = 0) →
  statuses ≡ₚ snaps <$> seq 0 n → (∀ i, (i < n)%nat → shard_reported lt i (finals i) (snaps i)) →
  let st := Status (fst (aggregate now statuses lt)) in
  lst_Phase st = CaptureLoadTestPhaseCompleted ∧ lst_CompletedShards st = Z.of_nat n ∧
  lst_TotalRequests st = len l ∧ lst_SentRequests st + lst_FailedRequests st = len l.
Proof.
  intros Htot Hn Hl Hlogs Hruns Hst Hrep st.
  assert (sumZ (λ i, len (st_log (finals i))) (seq 0 n) = len l) as Hsum.
  { unfold len at 2. rewrite <-(Permutation_length Hlogs). change (Z.of_nat (length ?x)) with (len x).
    rewrite len_concat. apply sumZ_ext. intros i _. unfold len. by rewrite length_fmap. }
  assert (∀ i, (i < n)%nat → len (st_log (finals i)) <= len l) as Hle.
  { intros i Hi. rewrite <-Hsum. apply (sumZ_elem_le (λ i, len (st_log (finals i)))); [|apply elem_of_seq; lia].
    intros j. apply len_nonneg. }
  assert (∀ i, (i < n)%nat → let rs := rsn_Summary (snaps i) in rss_Phase rs = REPLAY_PHASE_COMPLETED ∧
    rss_TotalRequests rs = len (st_log (finals i)) ∧
    rss_SentRequests rs + rss_FailedRequests rs = len (st_log (finals i)) ∧
    0 <= rss_SentRequests rs ∧ 0 <= rss_FailedRequests rs) as Hsnap.
  { intros i Hi. destruct (Hrep i Hi) as (spec & ref & rps & sm & _ & _ & Hrun & ->). destruct (Hruns i Hi) as [Hlen Hfil].
    assert (len (st_results (finals i)) = len (st_log (finals i))) as Heq by (unfold len; by rewrite Hlen).
    pose proof (Hle i Hi). destruct (run_summary_counts (finals i) sm ltac:(lia) Hrun) as (Ht & Hsf & Hs & Hf & Hfl). simpl.
    split_and!; [done|lia|lia|done|done]. }
  assert (∀ f : ReplayStatusSummary → Z, sumZ (λ s, f (rsn_Summary s)) statuses = sumZ (λ i, f (rsn_Summary (snaps i))) (seq 0 n)) as Hover.
  { intros f. rewrite Hst, sumZ_fmap. done. }
  assert (∀ f : ReplayStatusSummary → Z, (∀ i, (i < n)%nat → 0 <= f (rsn_Summary (snaps i))) →
    0 <= sumZ (λ i, f (rsn_Summary (snaps i))) (seq 0 n)) as Hpos.
  { intros f Hf. apply sumZ_nonneg. intros i Hi%elem_of_seq. apply Hf. lia. }
  assert (in_phase REPLAY_PHASE_COMPLETED statuses = Z.of_nat n) as Hcompl.
  { rewrite in_phase_all.
    - unfold len. rewrite (Permutation_length Hst), length_fmap, length_seq. done.
    - intros snap. rewrite Hst. intros (i & -> & Hi%elem_of_seq)%list_elem_of_fmap. by destruct (Hsnap i ltac:(lia)). }
  destruct (aggregate_totals now statuses lt) as (A1 & A2 & A3 & _ & A5 & _). fold st in A1, A2, A3, A5.
  destruct (aggregate_phase now statuses lt) as [Hph _]; [lia|unfold len; rewrite (Permutation_length Hst), length_fmap, length_seq; lia|].
  fold st in Hph. rewrite Hcompl, Htot, decide_True in Hph by done. split; [done|].
  rewrite A5, Hcompl, int32_id by (unfold in_int32; lia). split; [done|].
  rewrite A1, A2, A3, !Hover.
  assert (sumZ (λ i, rss_TotalRequests (rsn_Summary (snaps i))) (seq 0 n) = len l) as ->.
  { rewrite <-Hsum. apply sumZ_ext. intros i Hi%elem_of_seq. by destruct (Hsnap i ltac:(lia)) as (_ & -> & _). }
  assert (sumZ (λ i, rss_SentRequests (rsn_Summary (snaps i))) (seq 0 n) +
          sumZ (λ i, rss_FailedRequests (rsn_Summary (snaps i))) (seq 0 n) = len l) as Hsf.
  { rewrite <-sumZ_add, <-Hsum. apply sumZ_ext. intros i Hi%elem_of_seq.
    by destruct (Hsnap i ltac:(lia)) as (_ & _ & -> & _). }
  assert (0 <= sumZ (λ i, rss_SentRequests (rsn_Summary (snaps i))) (seq 0 n)) by
    (apply Hpos; intros i Hi; by destruct (Hsnap i Hi) as (_ & _ & _ & ? & _)).
  assert (0 <= sumZ (λ i, rss_FailedRequests (rsn_Summary (snaps i))) (seq 0 n)) by
    (apply Hpos; intros i Hi; by destruct (Hsnap i Hi) as (_ & _ & _ & _ & ?)).
  pose proof (len_nonneg l). rewrite !int64_id by (unfold in_int64; lia). split; [done|lia].
Qed.
End Totals.

Section Runs.
Context {R : Type} (Next : R → R * result CapturedRequest)
  (open : string * string * string * string * string → ReadOptions → R) (ctxErr : go_error).

(** The worker of shard [i] ran to its end and reached [final]. *)
Definition shard_finished (loc : string * string * string * string * string) (lt : CaptureLoadTest) (i : nat)
    (final : run_state) : Prop :=
  ∃ env storage tr c e,
    runs_shard lt i env storage tr c e ∧ job_ok tr ∧ location storage = Some loc ∧
    rtc (step Next e ctxErr) (initial e (open loc (eng_readOpts e))) final ∧
    finished final ∧ st_cancelled final = false.

(** One worker of a load test that is not presharded ... *)
Lemma shard_run loc lt (n i : nat) final stream err :
  lst_TotalShards (Status lt) = Z.of_nat n → 1 < Z.of_nat n < 2 ^ 31 → test_presharded lt = false → (i < n)%nat →
  reads Next (open loc (test_options lt (capture_of lt))) stream err → shard_finished loc lt i final →
  (st_log final).*1 ≡ₚ omap (transform [])
    (List.filter (λ r, shardOf (cr_ID r) (Z.of_nat n) =? Z.of_nat i) stream) ∧
  length (st_results final) = length (st_log final) ∧ st_filtered final = 0.
Proof.
  intros Htot Hn Hpre Hi Hreads (env & storage & tr & c & e & Hrun & Hok & Hloc & Hst & Hfin & Hc).
  pose proof (shard_engine_config _ _ _ _ _ _ _ Hrun Hok) as Hnew.
  destruct (shard_replay _ _ _ _ _ _ (proj1 Hrun)) as (Hp & Hsh & Hid & _). rewrite Hpre in *.
  assert (shard_of tr = (Z.of_nat i, Z.of_nat n)) as Hs by (unfold shard_of; rewrite Hsh, Hp; simpl; by rewrite Htot).
  destruct (shard_engine (engine_config_of tr) (Z.of_nat i) (Z.of_nat n) e) as (Hts & Hopts & _ & _);
    [lia|lia|unfold in_int64; lia|simpl; by rewrite Hs..|done|].
  rewrite Hopts in Hst. simpl in Hst. rewrite (shard_options _ _ _ _ _ _ (proj1 Hrun)), Hid in Hst. split.
  - apply (shard_sends Next (engine_config_of tr) i n e (open loc (test_options lt (capture_of lt))) final
             ctxErr stream err); first [done|lia|unfold in_int64; lia|simpl; by rewrite Hs].
  - destruct (run_counts Next e ctxErr _ _ _ _ Hreads Hst) as [Hl Hf]. auto.
Qed.

(** ... and one of a presharded load test. *)
Lemma slice_run_sends loc lt (n i : nat) final stream err :
  lst_TotalShards (Status lt) = Z.of_nat n → test_presharded lt = true →
  reads Next (open loc (test_options lt (ShardSliceCaptureID (capture_of lt) (Z.of_nat i) (Z.of_nat n)))) stream err →
  shard_finished loc lt i final →
  (st_log final).*1 ≡ₚ stream ∧ length (st_results final) = length (st_log final) ∧ st_filtered final = 0.
Proof.
  intros Htot Hpre Hreads (env & storage & tr & c & e & Hrun & Hok & Hloc & Hst & Hfin & Hc).
  pose proof (shard_engine_config _ _ _ _ _ _ _ Hrun Hok) as Hnew.
  destruct (shard_replay _ _ _ _ _ _ (proj1 Hrun)) as (Hp & Hsh & Hid & _). rewrite Hpre in *.
  assert (shard_of tr = (0, 1)) as Hs by (unfold shard_of; by rewrite Hsh, Hp).
  destruct (whole_engine (engine_config_of tr) e) as (Hts & Hopts & Hconc & Hown); [simpl; by rewrite Hs|done|].
  rewrite Hopts in Hst. simpl in Hst. rewrite (shard_options _ _ _ _ _ _ (proj1 Hrun)), Hid, Htot in Hst. split.
  - etrans; [exact (finished_sends Next e ctxErr _ _ _ _ Hreads Hst Hfin Hc Hconc)|].
    unfold replayed. rewrite Hts, owns_all by done. apply reflexive_eq, omap_no_transform.
  - destruct (run_counts Next e ctxErr _ _ _ _ Hreads Hst) as [Hl Hf]. auto.
Qed.

(** C1: a load test sends every captured request exactly once.  Take the START
    directives the hub builds for all shards of a load test that is not
    presharded, decoded by any spokes, run as Jobs by the builtin engine against
    storages at one location, each worker parsing the command line it is given;
    when all workers have finished uncancelled, in any interleaving and with any
    answers of the target, the requests they sent are together exactly those the
    load test's filters select from its capture, each once; and once the hub has the
    report of each of these runs, the load test is Completed and its request total,
    and its sent plus failed requests, are the size of the selection. *)
Theorem load_test_exactly_once loc lt (n : nat) (finals : nat → run_state) stream err :
  lst_TotalShards (Status lt) = Z.of_nat n → 1 < Z.of_nat n < 2 ^ 31 → test_presharded lt = false →
  reads Next (open loc (test_options lt (capture_of lt))) stream err →
  (∀ i, (i < n)%nat → shard_finished loc lt i (finals i)) →
  concat ((λ i, (st_log (finals i)).*1) <$> seq 0 n) ≡ₚ stream ∧
  ∀ is_timeout snaps statuses now, len stream < 2 ^ 53 → statuses ≡ₚ snaps <$> seq 0 n →
    (∀ i, (i < n)%nat → shard_reported is_timeout lt i (finals i) (snaps i)) →
    let st := Status (fst (aggregate now statuses lt)) in
    lst_Phase st = CaptureLoadTestPhaseCompleted ∧ lst_CompletedShards st = Z.of_nat n ∧
    lst_TotalRequests st = len stream ∧ lst_SentRequests st + lst_FailedRequests st = len stream.
Proof.
  intros Htot Hn Hpre Hreads Hruns.
  assert (concat ((λ i, (st_log (finals i)).*1) <$> seq 0 n) ≡ₚ stream) as Hlogs.
  { etrans; [|apply reflexive_eq, omap_no_transform]. rewrite <- (shards_cover [] n stream) by lia.
    apply concat_perm. intros i [_ Hi]%elem_of_seq. by apply (shard_run loc lt n i _ stream err); auto. }
  split; [done|]. intros is_timeout snaps statuses now Hlen Hst Hrep.
  apply (reported_totals is_timeout lt n finals snaps statuses stream now); auto.
  intros i Hi. by apply (shard_run loc lt n i (finals i) stream err); auto.
Qed.

(** C2: presharding does not change what a load test sends.  When the capture was
    presharded into as many slices as the load test has shards, each worker
    reads the one slice its directive names and replays all of it; the requests
    all workers sent are together those of the capture the load test selects,
    each once, whatever the selection [sel] the readers apply; and the reported
    totals are again the size of that selection. *)
Theorem presharded_load_test_exactly_once loc lt (n : nat) (finals : nat → run_state) stream sel errs :
  lst_TotalShards (Status lt) = Z.of_nat n → 1 < Z.of_nat n < 2 ^ 31 → test_presharded lt = true →
  (∀ i, (i < n)%nat →
    reads Next (open loc (test_options lt (ShardSliceCaptureID (capture_of lt) (Z.of_nat i) (Z.of_nat n))))
      (List.filter sel (slice (Z.of_nat n) i stream)) (errs i)) →
  (∀ i, (i < n)%nat → shard_finished loc lt i (finals i)) →
  concat ((λ i, (st_log (finals i)).*1) <$> seq 0 n) ≡ₚ List.filter sel stream ∧
  ∀ is_timeout snaps statuses now, len stream < 2 ^ 53 → statuses ≡ₚ snaps <$> seq 0 n →
    (∀ i, (i < n)%nat → shard_reported is_timeout lt i (finals i) (snaps i)) →
    let st := Status (fst (aggregate now statuses lt)) in
    lst_Phase st = CaptureLoadTestPhaseCompleted ∧ lst_CompletedShards st = Z.of_nat n ∧
    lst_TotalRequests st = len (List.filter sel stream) ∧ lst_SentRequests st + lst_FailedRequests st = len (List.filter sel stream).
Proof.
  intros Htot Hn Hpre Hreads Hruns.
  assert (∀ i, (i < n)%nat → (st_log (finals i)).*1 ≡ₚ slice (Z.of_nat n) i (List.filter sel stream) ∧
    length (st_results (finals i)) = length (st_log (finals i)) ∧ st_filtered (finals i) = 0) as Hall.
  { intros i Hi. rewrite <-slice_filter. by apply (slice_run_sends loc lt n i _ _ (errs i)); auto. }
  assert (concat ((λ i, (st_log (finals i)).*1) <$> seq 0 n) ≡ₚ List.filter sel stream) as Hlogs.
  { rewrite <- (slices_cover n (List.filter sel stream)) by lia.
    apply concat_perm. intros i Hi%elem_of_seq. apply Hall. lia. }
  split; [done|]. intros is_timeout snaps statuses now Hlen Hst Hrep.
  apply (reported_totals is_timeout lt n finals snaps statuses (List.filter sel stream) now); auto.
  - pose proof (List.filter_length_le sel stream). unfold len in *. lia.
  - intros i Hi. by apply Hall.
Qed.
End Runs.
End Fleet.

(** ** Witnesses: a load test of two shards *)

#[local] Existing Instance decimal_parser.

Definition demo_test (presharded : option bool) : CaptureLoadTest :=
  MkObject (newObjectMeta "prod" "lt" ∅)
    {| ls_SourceRef := {| tcr_Name := "shop" |}; ls_StorageRef := {| csr_Name := "efs" |};
       ls_Target := {| rt_Host := "api.staging.internal"; rt_Port := Some 8080; rt_TLS := None |};
       ls_Rate := Some {| rrc_Mode := ReplayRateModeUnlimited; rrc_RequestsPerSecond := None;
                          rrc_TimeScale := None |};
       ls_Filters := Some {| rf_StartTime := Some (90 * Second); rf_EndTime := None; rf_PathPrefix := Some "/";
                             rf_Methods := ["GET"]; rf_Limit := None |};
       ls_Distribution := Some {| ld_Cells := []; ld_MaxSpokes := None; ld_WorkersPerSpoke := None;
                                  ld_ConcurrencyPerWorker := Some 1; ld_Presharded := presharded |};
       ls_Abort := None; ls_Engine := None; ls_Safety := None |}
    {| lst_Phase := CaptureLoadTestPhaseRunning; lst_StartTime := None; lst_CompletionTime := None;
       lst_TotalShards := 2; lst_AssignedSpokes := 1; lst_Assignments := []; lst_Cells := [];
       lst_TotalRequests := 0; lst_SentRequests := 0; lst_FailedRequests := 0; lst_FilteredRequests := 0;
       lst_CompletedShards := 0; lst_FailedShards := 0; lst_AchievedRPS := None; lst_Conditions := [] |}.

Definition demo_tr (lt : CaptureLoadTest) (i : nat) : TrafficReplay :=
  let d := buildStartDirective lt (Z.of_nat i) in
  match rd_Spec d with Some spec => replayFromDirective d spec | None => demo_replay end.

Definition demo_container (lt : CaptureLoadTest) (i : nat) : Container :=
  match BuildReplayJob demo_env (demo_tr lt i) demo_storage with
  | Ok job => hd (Build_Container "" "" [] [] [] []) (js_Containers (Spec job))
  | Err _ => Build_Container "" "" [] [] [] []
  end.

Definition demo_worker (lt : CaptureLoadTest) (i : nat) : Engine :=
  default (demo_engine 0) (worker_engine (demo_container lt i)).

Lemma demo_runs_shard presharded i : presharded = None ∨ presharded = Some true → (i < 2)%nat →
  runs_shard (demo_test presharded) i demo_env demo_storage (demo_tr (demo_test presharded) i)
    (demo_container (demo_test presharded) i) (demo_worker (demo_test presharded) i).
Proof.
  intros [-> | ->] Hi; (destruct i as [|[|i]]; [| |lia]);
    (split; [split; eexists; split; reflexivity|vm_compute; reflexivity]).
Qed.

Lemma demo_tr_ok presharded i : presharded = None ∨ presharded = Some true → (i < 2)%nat →
  job_ok (demo_tr (demo_test presharded) i).
Proof.
  intros Hp Hi. split; simpl.
  - intros f t [= <-] [[= <-]|]; [|done]. unfold formattable. vm_compute. split; congruence.
  - repeat constructor; done.
  - done.
  - done.
  - done.
  - intros n [= <-]. unfold in_int64. lia.
  - destruct Hp as [-> | ->]; intros s [= <-]; unfold in_int64; simpl; lia.
Qed.

Definition demo_options : ReadOptions := eng_readOpts (demo_worker (demo_test None) 0).

Lemma demo_worker_engine i : (i < 2)%nat →
  demo_worker (demo_test None) i = demo_engine_for demo_options (Z.of_nat i).
Proof. intros Hi. destruct i as [|[|i]]; [vm_compute; reflexivity|vm_compute; reflexivity|lia]. Qed.

Definition demo_loc : string * string * string * string * string := ("efs", "", "", "", "/data").

Definition shard_name (i : nat) : string := match i with O => "a" | _ => "b" end.

Lemma demo_shard_finished i : (i < 2)%nat →
  shard_finished list_Next (λ _ _, demo_stream) (Sentinel "context canceled") demo_loc (demo_test None) i
    (demo_final (shard_name i)).
Proof.
  intros Hi. exists demo_env, demo_storage, (demo_tr (demo_test None) i), (demo_container (demo_test None) i),
    (demo_worker (demo_test None) i).
  split; [by apply demo_runs_shard; [left|]|]. split; [by apply demo_tr_ok; [left|]|]. split; [done|].
  split; [|split; [apply demo_finished|done]]. rewrite demo_worker_engine by done.
  destruct i as [|[|i]]; [apply demo_run_0|apply demo_run_1|lia].
Qed.

(** The statuses the hub has of the two shards. *)
Definition demo_snap (lt : CaptureLoadTest) (final : nat → run_state (R := list CapturedRequest)) (i : nat)
    : ReplayStatusSnapshot :=
  {| rsn_SpokeID := "spoke"; rsn_Cell := "cell";
     rsn_Summary :=
       match run_summary (λ _, false) (final i), trs_LoadTestRef (Spec (demo_tr lt i)) with
       | Ok (Ret sm), Some ref => summary_of (demo_tr lt i) ref REPLAY_PHASE_COMPLETED f64_zero sm
       | _, _ => summary_of (demo_tr lt i) {| ltr_Name := "" |} REPLAY_PHASE_FAILED f64_zero emptySummary
       end |}.

Definition demo_totals (lt : CaptureLoadTest) (final : nat → run_state (R := list CapturedRequest)) : Prop :=
  let st := Status (fst (aggregate 0 (demo_snap lt final <$> seq 0 2) lt)) in
  lst_Phase st = CaptureLoadTestPhaseCompleted ∧ lst_TotalRequests st = 2.

Lemma load_test_exactly_once_witness :
  concat ((λ i, (st_log (demo_final (shard_name i))).*1) <$> seq 0 2) ≡ₚ demo_stream ∧
  demo_totals (demo_test None) (λ i, demo_final (shard_name i)).
Proof.
  destruct (load_test_exactly_once list_Next (λ _ _, demo_stream) (Sentinel "context canceled") demo_loc
    (demo_test None) 2 (λ i, demo_final (shard_name i)) demo_stream ErrReaderDone)
    as [Hlogs Htotals]; [reflexivity|lia|reflexivity|apply list_reads|exact demo_shard_finished|].
  split; [exact Hlogs|].
  destruct (Htotals (λ _, false) (demo_snap (demo_test None) (λ i, demo_final (shard_name i)))
    (demo_snap (demo_test None) (λ i, demo_final (shard_name i)) <$> seq 0 2) 0) as (Hph & _ & Ht & _).
  - vm_compute. reflexivity.
  - reflexivity.
  - intros i Hi. destruct i as [|[|i]]; [| |lia];
      (eexists _, _, _, _; split; [reflexivity|]; split; [reflexivity|]; split; reflexivity).
  - split; [exact Hph|exact Ht].
Defined.

(** The readers of a presharded capture: slice [i] under its own identifier. *)
Definition demo_open_slice (_ : string * string * string * string * string) (opts : ReadOptions) : list CapturedRequest :=
  if bool_decide (ro_CaptureID opts = ShardSliceCaptureID "prod/shop" 0 2)
  then slice 2 0 demo_stream else slice 2 1 demo_stream.

Definition slice_final (id : string) : run_state :=
  RunState ([] : list CapturedRequest) (RLDone None) zero_time [] [WExit] false 1 0 0 0
    [demo_result id] [(demo_request id, true)].

Lemma slice_run opts id :
  let e := {| eng_transformers := []; eng_readOpts := opts; eng_rateMode := RateModeUnlimited;
              eng_ratePerSecond := f64_zero; eng_timeScale := f64_one; eng_concurrency := 1;
              eng_shardIndex := 0; eng_shardCount := 1 |} in
  rtc (step list_Next e (Sentinel "context canceled")) (initial e [demo_request id]) (slice_final id).
Proof.
  go_to step_limiter. go_to step_top. go_to step_send.
  go_to (step_recv _ _ _ _ 0%nat).
  go_to (step_check _ _ _ _ 0%nat).
  eapply rtc_l; [apply step_go; eapply (step_complete _ _ _ _ 0%nat _ 0 (Sent (demo_result id))); reflexivity|cbn].
  go_to step_top.
  go_to (step_recv_closed _ _ _ _ 0%nat).
  apply rtc_refl.
Qed.

Lemma demo_slice_worker i : (i < 2)%nat →
  demo_worker (demo_test (Some true)) i =
    {| eng_transformers := []; eng_readOpts := eng_readOpts (demo_worker (demo_test (Some true)) i);
       eng_rateMode := RateModeUnlimited;
       eng_ratePerSecond := f64_zero; eng_timeScale := f64_one; eng_concurrency := 1;
       eng_shardIndex := 0; eng_shardCount := 1 |} ∧
  demo_open_slice demo_loc (eng_readOpts (demo_worker (demo_test (Some true)) i)) = [demo_request (shard_name i)].
Proof. intros Hi. destruct i as [|[|i]]; [| |lia]; split; vm_compute; reflexivity. Qed.

Lemma demo_slice_finished i : (i < 2)%nat →
  shard_finished list_Next demo_open_slice (Sentinel "context canceled") demo_loc (demo_test (Some true)) i
    (slice_final (shard_name i)).
Proof.
  intros Hi. exists demo_env, demo_storage, (demo_tr (demo_test (Some true)) i),
    (demo_container (demo_test (Some true)) i), (demo_worker (demo_test (Some true)) i).
  split; [by apply demo_runs_shard; [right|]|]. split; [by apply demo_tr_ok; [right|]|]. split; [done|].
  destruct (demo_slice_worker i Hi) as [He Ho].
  split; [|split; [split; [by repeat constructor|by eexists]|done]]. rewrite Ho, He. apply slice_run.
Qed.

Lemma presharded_load_test_exactly_once_witness :
  concat ((λ i, (st_log (slice_final (shard_name i))).*1) <$> seq 0 2)
    ≡ₚ List.filter (λ r, bool_decide (cr_ID r ≠ "c")) demo_stream.
Proof.
  refine (proj1 (presharded_load_test_exactly_once list_Next demo_open_slice (Sentinel "context canceled") demo_loc
    (demo_test (Some true)) 2 (λ i, slice_final (shard_name i)) demo_stream (λ r, bool_decide (cr_ID r ≠ "c"))
    (λ _, ErrReaderDone) _ _ _ _ _)).
  - reflexivity.
  - lia.
  - reflexivity.
  - intros i Hi. destruct i as [|[|i]]; [apply list_reads|apply list_reads|lia].
  - exact demo_slice_finished.
Defined.
