(* ===== verification/StorageBackends.v ===== *)
(** * Storage backends ([internal/storage/factory.go], [s3.go], [gcs.go], [efs.go], [ebs.go])

    The backend configurations, the factories and the upload functions they give
    to the buffered object writer of [Storage].  The cloud SDKs, the file system
    and Go plugins are interfaces. *)

From S2P Require Import Prelude GoStd GoTime Storage.
From Stdlib Require Import Ascii.

Local Open Scope Z_scope.

(** ** Configurations

    Injected clients are left out: the program never sets them. *)

Record S3WriterConfig := {
  s3w_Bucket : string;
  s3w_Region : string;
  s3w_Prefix : string;
  s3w_AgentPod : string;
  s3w_CaptureNamespace : string;
  s3w_CaptureName : string;
  s3w_FlushInterval : Z;
  s3w_MaxBufferBytes : Z
}.

Record GCSWriterConfig := {
  gcw_Bucket : string;
  gcw_Prefix : string;
  gcw_AgentPod : string;
  gcw_FlushInterval : Z;
  gcw_MaxBufferBytes : Z
}.

(** [EFSConfig] and [EBSConfig] have the same fields. *)
Record FSWriterConfig := {
  fsw_MountPath : string;
  fsw_AgentPod : string;
  fsw_FlushInterval : Z;
  fsw_MaxBufferBytes : Z
}.

(** [J] is the type of decoded JSON objects. *)
Record PluginWriterConfig (J : Type) := {
  plw_Path : string;
  plw_Symbol : string;
  plw_Config : option J
}.
Arguments plw_Path {J} _.
Arguments plw_Symbol {J} _.
Arguments plw_Config {J} _.
Arguments Build_PluginWriterConfig {J} _ _ _.

(** The dynamic type of a configuration value. *)
Inductive writer_config (J : Type) :=
  | S3Writer (c : S3WriterConfig)
  | GCSWriter (c : GCSWriterConfig)
  | EFSWriter (c : FSWriterConfig)
  | EBSWriter (c : FSWriterConfig)
  | PluginWriter (c : PluginWriterConfig J).
Arguments S3Writer {J} _.
Arguments GCSWriter {J} _.
Arguments EFSWriter {J} _.
Arguments EBSWriter {J} _.
Arguments PluginWriter {J} _.

Record ArtifactRecord := {
  ar_CaptureID : string;
  ar_CaptureNamespace : string;
  ar_CaptureName : string;
  ar_StorageBackend : string;
  ar_Bucket : string;
  ar_Key : string;
  ar_Region : string;
  ar_ContentType : string;
  ar_ContentEncoding : string;
  ar_SizeBytes : Z;
  ar_SHA256 : string;
  ar_CreatedAt : Z
}.

Definition contentTypeJSONL : string := "application/x-ndjson".
Definition contentEncodingGZIP : string := "gzip".

(** [filepath.Dir]. *)
Fixpoint upto_slash (s : string) : string :=
  match s with
  | "" => ""
  | String a s =>
      let r := upto_slash s in
      if bool_decide (r ≠ "") then String a r else if Ascii.eqb a "/"%char then String a "" else ""
  end.

Definition path_Dir (s : string) : string := path_Clean (upto_slash s).

Example dir_1 : path_Dir "/data/cap/2024-01-02/pod.gz" = "/data/cap/2024-01-02".
Proof. reflexivity. Qed.

(** ** The services

    [blob b k w] is the object [k] of bucket [b], or the file [k] when [b] is
    empty.  A successful put stores the object; no call touches another one. *)
Class Blobs (W : Type) := {
  blob : string → string → W → option string;
  s3_PutObject : string → string → string → string → string → W → W * option go_error;
  gcs_handle : Type;
  gcs_key : gcs_handle → string * string;
  gcs_Open : string → string → W → W * result gcs_handle;
  gcs_Write : gcs_handle → string → W → W * option go_error;
  gcs_Close : gcs_handle → W → W * option go_error;
  os_MkdirAll : string → W → W * option go_error;
  os_WriteFile : string → string → W → W * option go_error;
  s3_put_ok : ∀ b k p t c w w', s3_PutObject b k p t c w = (w', None) → blob b k w' = Some p;
  s3_put_frame : ∀ b k p t c w b' k', (b', k') ≠ (b, k) →
    blob b' k' (fst (s3_PutObject b k p t c w)) = blob b' k' w;
  gcs_put_ok : ∀ b k p w w1 h w2 w3, gcs_Open b k w = (w1, Ok h) → gcs_Write h p w1 = (w2, None) →
    gcs_Close h w2 = (w3, None) → blob b k w3 = Some p;
  gcs_open_frame : ∀ b k w w' h, gcs_Open b k w = (w', h) →
    (∀ b' k', blob b' k' w' = blob b' k' w) ∧ (∀ h', h = Ok h' → gcs_key h' = (b, k));
  gcs_write_frame : ∀ h p w b' k', blob b' k' (fst (gcs_Write h p w)) = blob b' k' w;
  gcs_close_frame : ∀ h w b' k', (b', k') ≠ gcs_key h → blob b' k' (fst (gcs_Close h w)) = blob b' k' w;
  mkdir_frame : ∀ d w b' k', blob b' k' (fst (os_MkdirAll d w)) = blob b' k' w;
  write_file_ok : ∀ f p w w', os_WriteFile f p w = (w', None) → blob "" f w' = Some p;
  write_file_frame : ∀ f p w b' k', (b', k') ≠ ("", f) → blob b' k' (fst (os_WriteFile f p w)) = blob b' k' w
}.

Section Backends.
Context {W : Type} {BL : Blobs W} {J : Type}.
(** The SHA-256 of a payload in hexadecimal, the history database, Go plugins
    ([goplugin.Open] of a path, [Lookup] of a symbol of it, [None] when the symbol
    is not a builder; a builder may return a nil factory), and the creation of the
    SDK clients. *)
Context (sha256_hex : string → string) (RecordArtifact : option (ArtifactRecord → W → W * option go_error)).
Context {PF : Type} (plugin_Open : string → option go_error).
Context (plugin_Lookup : string → string → result (option (option J → result (option PF)))).
Context (load_aws_config : string → option go_error) (new_gcs_client : option go_error).

(** ** Upload functions *)

Definition s3_upload (cfg : S3WriterConfig) (captureID : string) (now : Z) (objectName payload : string) (w : W)
    : W * option go_error :=
  match s3_PutObject (s3w_Bucket cfg) objectName payload contentTypeJSONL contentEncodingGZIP w with
  | (w, Some err) => (w, Some (WrapError "put s3 object %q: %w" [FStr objectName] err))
  | (w, None) =>
      match RecordArtifact with
      | None => (w, None)
      | Some record =>
          let artifact :=
            {| ar_CaptureID := captureID; ar_CaptureNamespace := s3w_CaptureNamespace cfg;
               ar_CaptureName := s3w_CaptureName cfg; ar_StorageBackend := "s3"; ar_Bucket := s3w_Bucket cfg;
               ar_Key := objectName; ar_Region := s3w_Region cfg; ar_ContentType := contentTypeJSONL;
               ar_ContentEncoding := contentEncodingGZIP; ar_SizeBytes := int64 (str_len payload);
               ar_SHA256 := sha256_hex payload; ar_CreatedAt := now |} in
          match record artifact w with
          | (w, Some err) => (w, Some (WrapError "record s3 artifact %q: %w" [FStr objectName] err))
          | (w, None) => (w, None)
          end
      end
  end.

Definition gcs_upload (cfg : GCSWriterConfig) (objectName payload : string) (w : W) : W * option go_error :=
  match gcs_Open (gcw_Bucket cfg) objectName w with
  | (w, Err err) => (w, Some (WrapError "open gcs writer for %q: %w" [FStr objectName] err))
  | (w, Ok h) =>
      match gcs_Write h payload w with
      | (w, Some err) => (fst (gcs_Close h w), Some (WrapError "write gcs object %q: %w" [FStr objectName] err))
      | (w, None) =>
          match gcs_Close h w with
          | (w, Some err) => (w, Some (WrapError "close gcs object %q: %w" [FStr objectName] err))
          | (w, None) => (w, None)
          end
      end
  end.

Definition fs_upload (objectName payload : string) (w : W) : W * option go_error :=
  match os_MkdirAll (path_Dir objectName) w with
  | (w, Some err) => (w, Some (WrapError "create directory for %q: %w" [FStr objectName] err))
  | (w, None) =>
      match os_WriteFile objectName payload w with
      | (w, Some err) => (w, Some (WrapError "write file %q: %w" [FStr objectName] err))
      | (w, None) => (w, None)
      end
  end.

(** ** Manifests *)

Definition captureID_required : go_error := FmtError "capture ID is required" [].

Definition S3_PutManifest (cfg : S3WriterConfig) (captureID data : string) (w : W) : W * option go_error :=
  if bool_decide (captureID = "") then (w, Some captureID_required)
  else
    let key := cloudManifestKey (s3w_Prefix cfg) captureID in
    match s3_PutObject (s3w_Bucket cfg) key data "application/json" "" w with
    | (w, Some err) => (w, Some (WrapError "put s3 manifest %q: %w" [FStr key] err))
    | (w, None) => (w, None)
    end.

Definition GCS_PutManifest (cfg : GCSWriterConfig) (captureID data : string) (w : W) : W * option go_error :=
  if bool_decide (captureID = "") then (w, Some captureID_required)
  else
    let key := cloudManifestKey (gcw_Prefix cfg) captureID in
    match gcs_Open (gcw_Bucket cfg) key w with
    | (w, Err err) => (w, Some (WrapError "open gcs writer for %q: %w" [FStr key] err))
    | (w, Ok h) =>
        match gcs_Write h data w with
        | (w, Some err) => (fst (gcs_Close h w), Some (WrapError "write gcs manifest %q: %w" [FStr key] err))
        | (w, None) =>
            match gcs_Close h w with
            | (w, Some err) => (w, Some (WrapError "close gcs manifest %q: %w" [FStr key] err))
            | (w, None) => (w, None)
            end
        end
    end.

Definition fs_putManifest (cfg : FSWriterConfig) (captureID data : string) (w : W) : W * option go_error :=
  if bool_decide (captureID = "") then (w, Some captureID_required)
  else
    let path := filesystemManifestPath (fsw_MountPath cfg) captureID in
    match os_MkdirAll (path_Dir path) w with
    | (w, Some err) => (w, Some (WrapError "create directory for %q: %w" [FStr path] err))
    | (w, None) =>
        match os_WriteFile path data w with
        | (w, Some err) => (w, Some (WrapError "write manifest %q: %w" [FStr path] err))
        | (w, None) => (w, None)
        end
    end.

(** ** Factories *)

Inductive WriterFactory :=
  | S3Factory (c : S3WriterConfig)
  | GCSFactory (c : GCSWriterConfig)
  | FSFactory (c : FSWriterConfig)
  | PluginFactory (f : PF).

Definition NewS3WriterFactory (c : S3WriterConfig) : result WriterFactory :=
  if bool_decide (s3w_Bucket c = "") then Err (FmtError "s3 bucket is required" [])
  else match load_aws_config (s3w_Region c) with
  | Some err => Err (WrapError "load aws config: %w" [] err)
  | None => Ok (S3Factory c)
  end.

Definition NewGCSWriterFactory (c : GCSWriterConfig) : result WriterFactory :=
  if bool_decide (gcw_Bucket c = "") then Err (FmtError "gcs bucket is required" [])
  else match new_gcs_client with
  | Some err => Err (WrapError "create gcs client: %w" [] err)
  | None => Ok (GCSFactory c)
  end.

(** Also [NewEFSWriterFactory] and [NewEBSWriterFactory]. *)
Definition newFilesystemWriterFactory (c : FSWriterConfig) : result WriterFactory :=
  if bool_decide (fsw_MountPath c = "") then Err (FmtError "mount path is required" []) else Ok (FSFactory c).

Definition loadPluginBuilder (c : PluginWriterConfig J) : result (option J → result (option PF)) :=
  if bool_decide (plw_Path c = "") then Err (FmtError "plugin path is required" [])
  else
    let symbol := if bool_decide (plw_Symbol c = "") then "NewWriterFactory" else plw_Symbol c in
    match plugin_Open (plw_Path c) with
    | Some err => Err (WrapError "open plugin %q: %w" [FStr (plw_Path c)] err)
    | None =>
        match plugin_Lookup (plw_Path c) symbol with
        | Err err => Err (WrapError "lookup plugin symbol %q: %w" [FStr symbol] err)
        | Ok None => Err (FmtError "plugin symbol %q has incompatible type %T" [FStr symbol])
        | Ok (Some builder) => Ok builder
        end
    end.

Definition ValidatePluginConfig (c : PluginWriterConfig J) : option go_error :=
  match loadPluginBuilder c with Err err => Some err | Ok _ => None end.

Definition NewPluginWriterFactory (c : PluginWriterConfig J) : result WriterFactory :=
  match loadPluginBuilder c with
  | Err err => Err err
  | Ok builder =>
      match builder (plw_Config c) with
      | Err err => Err (WrapError "invoke plugin factory builder: %w" [] err)
      | Ok None => Err (FmtError "plugin factory builder returned nil factory" [])
      | Ok (Some f) => Ok (PluginFactory f)
      end
  end.

(** The type assertions of [NewWriterFactory]; a configuration is passed by
    value. *)
Definition invalid_config (t : string) : go_error := FmtError ("invalid config type %T for " +:+ t) [].
Definition asS3Config (config : writer_config J) : result S3WriterConfig :=
  match config with S3Writer c => Ok c | _ => Err (invalid_config "s3") end.
Definition asGCSConfig (config : writer_config J) : result GCSWriterConfig :=
  match config with GCSWriter c => Ok c | _ => Err (invalid_config "gcs") end.
Definition asEFSConfig (config : writer_config J) : result FSWriterConfig :=
  match config with EFSWriter c => Ok c | _ => Err (invalid_config "efs") end.
Definition asEBSConfig (config : writer_config J) : result FSWriterConfig :=
  match config with EBSWriter c => Ok c | _ => Err (invalid_config "ebs") end.
Definition asPluginConfig (config : writer_config J) : result (PluginWriterConfig J) :=
  match config with PluginWriter c => Ok c | _ => Err (invalid_config "plugin") end.

Definition NewWriterFactory (storageType : string) (config : writer_config J) : result WriterFactory :=
  let t := ToLower (TrimSpace storageType) in
  if bool_decide (t = "s3") then match asS3Config config with Ok c => NewS3WriterFactory c | Err e => Err e end
  else if bool_decide (t = "gcs") then match asGCSConfig config with Ok c => NewGCSWriterFactory c | Err e => Err e end
  else if bool_decide (t = "efs") then match asEFSConfig config with Ok c => newFilesystemWriterFactory c | Err e => Err e end
  else if bool_decide (t = "ebs") then match asEBSConfig config with Ok c => newFilesystemWriterFactory c | Err e => Err e end
  else if bool_decide (t = "plugin") then match asPluginConfig config with Ok c => NewPluginWriterFactory c | Err e => Err e end
  else Err (FmtError "unsupported storage type %q" [FStr storageType]).

(** ** Writers

    The writer a factory makes: its buffer, the names of its objects and its
    upload function; a plugin's writer is the plugin's. *)
Record opened_writer := {
  ow_writer : bufferedObjectWriter;
  ow_objectName : Z → Z → string;
  ow_bucket : string;
  ow_upload : Z → string → string → W → W * option go_error
}.

Definition S3_NewWriter (c : S3WriterConfig) (now : Z) (captureID : string) : result opened_writer :=
  if bool_decide (captureID = "") then Err captureID_required
  else Ok {| ow_writer := newBufferedObjectWriter now (s3w_FlushInterval c) (s3w_MaxBufferBytes c);
             ow_objectName := newCloudObjectName (s3w_Prefix c) captureID (s3w_AgentPod c);
             ow_bucket := s3w_Bucket c; ow_upload := s3_upload c captureID |}.

Definition GCS_NewWriter (c : GCSWriterConfig) (now : Z) (captureID : string) : result opened_writer :=
  if bool_decide (captureID = "") then Err captureID_required
  else Ok {| ow_writer := newBufferedObjectWriter now (gcw_FlushInterval c) (gcw_MaxBufferBytes c);
             ow_objectName := newCloudObjectName (gcw_Prefix c) captureID (gcw_AgentPod c);
             ow_bucket := gcw_Bucket c; ow_upload := λ _, gcs_upload c |}.

Definition fs_newWriter (c : FSWriterConfig) (now : Z) (captureID : string) : result opened_writer :=
  if bool_decide (captureID = "") then Err captureID_required
  else Ok {| ow_writer := newBufferedObjectWriter now (fsw_FlushInterval c) (fsw_MaxBufferBytes c);
             ow_objectName := newFilesystemObjectName (fsw_MountPath c) captureID (fsw_AgentPod c);
             ow_bucket := ""; ow_upload := λ _, fs_upload |}.

Definition NewWriter (f : WriterFactory) (plugin_writer : PF → string → result opened_writer) (now : Z)
    (captureID : string) : result opened_writer :=
  match f with
  | S3Factory c => S3_NewWriter c now captureID
  | GCSFactory c => GCS_NewWriter c now captureID
  | FSFactory c => fs_newWriter c now captureID
  | PluginFactory p => plugin_writer p captureID
  end.
End Backends.

(** ** Theorems *)

Section Theorems.
Context {W : Type} {BL : Blobs W} {J PF : Type}.
Context (sha256_hex : string → string) (RecordArtifact : option (ArtifactRecord → W → W * option go_error)).
Hypothesis record_frame : ∀ record a w b k, RecordArtifact = Some record → blob b k (fst (record a w)) = blob b k w.

(** What an upload does to the store: the object is there when it succeeds, and
    nothing else changes. *)
Definition uploads (bucket : string) (upload : string → string → W → W * option go_error) : Prop :=
  ∀ name payload w, let '(w', e) := upload name payload w in
    (e = None → blob bucket name w' = Some payload) ∧
    (∀ b k, (b, k) ≠ (bucket, name) → blob b k w' = blob b k w).

Lemma s3_uploads cfg captureID now : uploads (s3w_Bucket cfg) (s3_upload sha256_hex RecordArtifact cfg captureID now).
Proof using record_frame.
  intros name payload w. unfold s3_upload.
  pose proof (s3_put_frame (s3w_Bucket cfg) name payload contentTypeJSONL contentEncodingGZIP w) as Hf.
  destruct (s3_PutObject _ _ _ _ _ w) as [w1 [e|]] eqn:Hp; [by split|]. apply s3_put_ok in Hp. simpl in Hf.
  destruct RecordArtifact as [record|] eqn:Hr; [|by split].
  set (a := Build_ArtifactRecord _ _ _ _ _ _ _ _ _ _ _ _).
  pose proof (record_frame record a w1) as Hrf.
  destruct (record a w1) as [w2 [e|]]; simpl in Hrf; (split; [intros|intros b k Hne; rewrite Hrf by done; by apply Hf]);
    [done|by rewrite Hrf].
Qed.

Lemma gcs_uploads cfg : uploads (gcw_Bucket cfg) (gcs_upload (W := W) cfg).
Proof.
  intros name payload w. unfold gcs_upload.
  destruct (gcs_Open _ name w) as [w1 [h|e]] eqn:Ho; destruct (gcs_open_frame _ _ _ _ _ Ho) as [Hof Hk]; [|by split].
  specialize (Hk h eq_refl). pose proof (gcs_write_frame h payload w1) as Hwf.
  destruct (gcs_Write h payload w1) as [w2 [e|]] eqn:Hw; simpl in Hwf; pose proof (gcs_close_frame h w2) as Hcf;
    rewrite Hk in Hcf.
  - split; [done|]. intros b k Hne. by rewrite Hcf, Hwf, Hof.
  - destruct (gcs_Close h w2) as [w3 [e|]] eqn:Hc; simpl in Hcf;
      (split; [intros|intros b k Hne; by rewrite Hcf, Hwf, Hof]); [done|by eapply gcs_put_ok].
Qed.

Lemma fs_uploads : uploads "" (fs_upload (W := W)).
Proof.
  intros name payload w. unfold fs_upload. pose proof (mkdir_frame (path_Dir name) w) as Hm.
  destruct (os_MkdirAll _ w) as [w1 [e|]]; simpl in Hm; [by split|].
  pose proof (write_file_frame name payload w1) as Hf.
  destruct (os_WriteFile name payload w1) as [w2 [e|]] eqn:Hw; simpl in Hf;
    (split; [intros|intros b k Hne; by rewrite Hf, Hm]); [done|by eapply write_file_ok].
Qed.

(** Every writer a factory of the program makes stores what it uploads. *)
Lemma writer_uploads (f : WriterFactory (PF := PF)) plugin_writer now captureID ow t :
  NewWriter sha256_hex RecordArtifact f plugin_writer now captureID = Ok ow → (∀ p, f ≠ PluginFactory p) →
  uploads (ow_bucket ow) (ow_upload ow t).
Proof using record_frame.
  intros Hn Hf. destruct f as [c|c|c|p]; simpl in Hn; [..|by destruct (Hf p)];
    unfold S3_NewWriter, GCS_NewWriter, fs_newWriter in Hn; case_bool_decide; simplify_eq/=; [apply s3_uploads|apply gcs_uploads|apply fs_uploads].
Qed.
(** An agent that restarts in its pod overwrites what it stored.  Object names
    hold the date, the pod and a sequence number that starts again with every
    writer, so the first object of a restarted agent replaces the first object of
    the day. *)
Theorem restart_overwrites {CO : RequestCodec} (f : WriterFactory (PF := PF)) plugin_writer now1 now2 captureID ow1 ow2
    w1 w2 w1' w2' c1 c2 u u1 u2 t1 t2 :
  NewWriter sha256_hex RecordArtifact f plugin_writer now1 captureID = Ok ow1 →
  NewWriter sha256_hex RecordArtifact f plugin_writer now2 captureID = Ok ow2 → (∀ p, f ≠ PluginFactory p) →
  bow_sequence w1 = bow_sequence (ow_writer ow1) → bow_sequence w2 = bow_sequence (ow_writer ow2) →
  bow_buffer w1 ≠ "" → bow_buffer w2 ≠ "" → day_of (wc_name c1) = day_of (wc_name c2) →
  flushLocked (ow_objectName ow1) (ow_upload ow1 t1) c1 w1 u = (w1', u1, None) →
  flushLocked (ow_objectName ow2) (ow_upload ow2 t2) c2 w2 u1 = (w2', u2, None) →
  ∃ key, blob (ow_bucket ow1) key u1 = Some (gzip (bow_buffer w1)) ∧
    blob (ow_bucket ow1) key u2 = Some (gzip (bow_buffer w2)).
Proof using record_frame.
  intros Hn1 Hn2 Hf Hs1 Hs2 Hb1 Hb2 Hday Hf1 Hf2.
  pose proof (writer_uploads f plugin_writer now1 captureID ow1 t1 Hn1 Hf) as Hu1.
  pose proof (writer_uploads f plugin_writer now2 captureID ow2 t2 Hn2 Hf) as Hu2.
  assert (ow_bucket ow2 = ow_bucket ow1 ∧ bow_sequence (ow_writer ow1) = 0 ∧ bow_sequence (ow_writer ow2) = 0 ∧
    ow_objectName ow2 (wc_name c2) 1 = ow_objectName ow1 (wc_name c1) 1) as (Hb & H1 & H2 & Hname).
  { destruct f as [c|c|c|p]; simpl in Hn1, Hn2; [..|by destruct (Hf p)];
      unfold S3_NewWriter, GCS_NewWriter, fs_newWriter in *; case_bool_decide; simplify_eq/=;
      unfold newCloudObjectName, newFilesystemObjectName, FormatDate; by rewrite Hday. }
  unfold flushLocked in Hf1, Hf2. rewrite bool_decide_eq_false_2 in Hf1, Hf2 by done.
  rewrite Hs1, H1 in Hf1. rewrite Hs2, H2 in Hf2. change (uint64 (0 + 1)) with 1 in *.
  specialize (Hu1 (ow_objectName ow1 (wc_name c1) 1) (gzip (bow_buffer w1)) u).
  specialize (Hu2 (ow_objectName ow2 (wc_name c2) 1) (gzip (bow_buffer w2)) u1).
  destruct (ow_upload ow1 t1 _ _ u) as [v1 [e|]]; [done|]. injection Hf1 as _ ->.
  destruct (ow_upload ow2 t2 _ _ u1) as [v2 [e|]]; [done|]. injection Hf2 as _ ->.
  exists (ow_objectName ow1 (wc_name c1) 1). split; [by apply Hu1|]. rewrite <-Hname, <-Hb. by apply Hu2.
Qed.

(** When the history database fails, the object is stored all the same and the
    writer keeps its buffer, so the same requests are stored again under the next
    name. *)
Theorem failed_record_stores_object cfg captureID now name payload w w' record :
  RecordArtifact = Some record → (∀ a, snd (record a w') ≠ None) →
  s3_PutObject (s3w_Bucket cfg) name payload contentTypeJSONL contentEncodingGZIP w = (w', None) →
  let '(w'', e) := s3_upload sha256_hex RecordArtifact cfg captureID now name payload w in
  e ≠ None ∧ blob (s3w_Bucket cfg) name w'' = Some payload.
Proof using record_frame.
  intros Hr He Hp. unfold s3_upload. rewrite Hp, Hr. set (a := Build_ArtifactRecord _ _ _ _ _ _ _ _ _ _ _ _).
  specialize (He a). pose proof (record_frame record a w' (s3w_Bucket cfg) name Hr) as Hf.
  destruct (record a w') as [w'' [e|]]; simpl in *; [|done]. split; [done|]. rewrite Hf. by eapply s3_put_ok.
Qed.
End Theorems.

(** ** An in-memory store

    Stored objects, and the data written to open cloud objects. *)

Definition mem_blobs_world : Type := gmap (string * string) string * gmap (string * string) string.

Definition put_blob (b k p : string) (w : mem_blobs_world) : mem_blobs_world := (<[(b, k) := p]> w.1, w.2).

#[local] Instance mem_blobs : Blobs mem_blobs_world.
Proof.
  refine {|
    blob b k w := w.1 !! (b, k);
    s3_PutObject b k p _ _ w := (put_blob b k p w, None);
    gcs_handle := string * string; gcs_key h := h;
    gcs_Open b k w := ((w.1, <[(b, k) := ""]> w.2), Ok (b, k));
    gcs_Write h p w := ((w.1, <[h := default "" (w.2 !! h) +:+ p]> w.2), None);
    gcs_Close h w := (put_blob h.1 h.2 (default "" (w.2 !! h)) w, None);
    os_MkdirAll _ w := (w, None);
    os_WriteFile f p w := (put_blob "" f p w, None) |}; unfold put_blob.
  - intros b k p t c w w' [= <-]. cbn. by rewrite lookup_insert_eq.
  - intros b k p t c w b' k' Hne. cbn. by rewrite lookup_insert_ne.
  - intros b k p w w1 h w2 w3 [= <- <-] [= <-] [= <-]. cbn [fst snd]. rewrite !lookup_insert_eq. cbn [default from_option]. unfold id. by rewrite append_nil_l.
  - intros b k w w' h [= <- <-]. split; [done|]. by intros h' [= <-].
  - done.
  - intros [b k] w b' k' Hne. cbn. by rewrite lookup_insert_ne.
  - done.
  - intros f p w w' [= <-]. cbn. by rewrite lookup_insert_eq.
  - intros f p w b' k' Hne. cbn. by rewrite lookup_insert_ne.
Defined.

(** Two flushes of the same day, the second by a restarted agent: one object is
    left, the second. *)
Example restart_loses_first :
  let names := newCloudObjectName "captures" "prod/shop" "agent-0" in
  let upload := s3_upload (BL := mem_blobs) (λ _, "") None
                  (Build_S3WriterConfig "b" "" "captures" "agent-0" "" "" 0 0) "prod/shop" 0 in
  let flush data w := flushLocked (CO := demo_codec) names upload demo_write_clock
                        (MkWriter 1 1 0 data false 0) w in
  let '(_, w1, _) := flush "first" (∅, ∅) in
  let '(_, w2, _) := flush "second" w1 in
  map_to_list w1.1 = [(("b", "captures/prod/shop/1970-01-01/agent-0-000001.jsonl.gz"), "first")] ∧
  map_to_list w2.1 = [(("b", "captures/prod/shop/1970-01-01/agent-0-000001.jsonl.gz"), "second")].
Proof. split; vm_compute; reflexivity. Qed.
