(* ===== verification/AgentDeployer.v ===== *)
(** * The capture agent's resources ([internal/spoke/agent_deployer.go])

    The Deployment, Service and autoscaler the spoke builds for a
    [TrafficCapture], and the environment that configures the agent.  Of the
    Kubernetes types, the fields the program sets or reads; [AgentMain] models the
    program that reads the environment. *)

From S2P Require Import Prelude GoStd Kube Api CaptureApi ReplayJob Agent.

Local Open Scope Z_scope.

(** ** Kubernetes resources *)

Inductive EnvVarSource :=
  | EnvValue (value : string)
  | EnvFieldRef (fieldPath : string)
  | EnvSecretKeyRef (name key : string).

Record EnvVar := { ev_Name : string; ev_Source : EnvVarSource }.

Record ContainerPort := { cp_Name : string; cp_ContainerPort : Z; cp_Protocol : string }.

(** The quantities by resource name. *)
Record ResourceRequirements := { rr_Requests : gmap string string; rr_Limits : gmap string string }.

Record AgentContainer := {
  ac_Name : string;
  ac_Image : string;
  ac_Ports : list ContainerPort;
  ac_Env : list EnvVar;
  ac_Resources : ResourceRequirements
}.

Record DeploymentSpec := {
  ds_Replicas : option Z;
  ds_MatchLabels : gmap string string;
  ds_TemplateLabels : gmap string string;
  ds_Containers : list AgentContainer
}.

Record DeploymentStatus := { dst_ReadyReplicas : Z }.

Definition Deployment : Type := Object DeploymentSpec DeploymentStatus.

Inductive IntOrString := FromInt (n : Z) | FromString (s : string).

Record ServicePort := { svp_Name : string; svp_Port : Z; svp_TargetPort : IntOrString; svp_Protocol : string }.

Record ServiceSpec := {
  svc_Type : string;
  svc_Selector : gmap string string;
  svc_Ports : list ServicePort
}.

(** The statuses the program neither sets nor reads. *)
Inductive ServiceStatus := EmptyServiceStatus.
Inductive HPAStatus := EmptyHPAStatus.

Definition Service : Type := Object ServiceSpec ServiceStatus.

Record CrossVersionObjectReference := { cv_APIVersion : string; cv_Kind : string; cv_Name : string }.

(** A resource metric with a utilization target. *)
Record MetricSpec := { ms_Resource : string; ms_AverageUtilization : Z }.

Record HPASpec := {
  hpa_ScaleTargetRef : CrossVersionObjectReference;
  hpa_MinReplicas : option Z;
  hpa_MaxReplicas : Z;
  hpa_Metrics : list MetricSpec
}.

Definition HorizontalPodAutoscaler : Type := Object HPASpec HPAStatus.

(** ** Names and labels ([mirror.go], [agent_deployer.go]) *)

Definition AgentServiceName (tc : TrafficCapture) : string := Name tc +:+ "-capture-agent".
Definition AgentDeploymentName (tc : TrafficCapture) : string := Name tc +:+ "-capture-agent".

Definition componentCaptureAgent : string := "capture-agent".
Definition defaultReplicas : Z := 1.
Definition defaultMinReplicas : Z := 1.
Definition defaultMaxReplicas : Z := 10.
Definition defaultTargetCPU : Z := 70.

Definition agentLabels (tc : TrafficCapture) : gmap string string := list_to_map
  [("app.kubernetes.io/name", componentCaptureAgent); ("app.kubernetes.io/instance", Name tc);
   ("app.kubernetes.io/component", componentCaptureAgent); ("app.kubernetes.io/managed-by", managedByValue)].

Definition defaultResources : ResourceRequirements :=
  {| rr_Requests := list_to_map [("cpu", "100m"); ("memory", "128Mi")];
     rr_Limits := list_to_map [("cpu", "500m"); ("memory", "512Mi")] |}.

(** ** The environment of the agent *)

(** [json.Marshal] of the header matches and [json.Unmarshal] into the agent's
    header filters, which have the same JSON fields.  Marshalling strings does not
    fail; the text of an array has no white space around it. *)
Definition header_filter_of (m : HeaderMatch) : HeaderFilter := {| hf_Name := hm_Name m; hf_Value := hm_Value m |}.

Class HeaderCodec := {
  hc_Marshal : list HeaderMatch → result string;
  hc_Unmarshal : string → result (list HeaderFilter);
  hc_marshal_ok : ∀ l, ∃ raw, hc_Marshal l = Ok raw;
  hc_round_trip : ∀ l raw, hc_Marshal l = Ok raw → hc_Unmarshal raw = Ok (header_filter_of <$> l);
  hc_trimmed : ∀ l raw, hc_Marshal l = Ok raw → raw ≠ "" ∧ TrimSpace raw = raw
}.

Definition env (n v : string) : EnvVar := {| ev_Name := n; ev_Source := EnvValue v |}.

Definition env_if_set (n : string) (v : option string) : list EnvVar :=
  match v with Some v => [env n v] | None => [] end.

Definition FormatBool (b : bool) : string := if b then "true" else "false".

(** [getenv] is the spoke's own environment. *)
Definition database_env (getenv : string → string) : list EnvVar :=
  if bool_decide (getenv "DATABASE_URL_SECRET_NAME" ≠ "") then
    let key := getenv "DATABASE_URL_SECRET_KEY" in
    [{| ev_Name := "DATABASE_URL";
        ev_Source := EnvSecretKeyRef (getenv "DATABASE_URL_SECRET_NAME")
                       (if bool_decide (key = "") then "DATABASE_URL" else key) |}]
  else if bool_decide (getenv "DATABASE_URL" ≠ "") then [env "DATABASE_URL" (getenv "DATABASE_URL")]
  else [].

Definition storage_env (spec : CaptureStorageSpec) : list EnvVar :=
  let t := css_Type spec in
  if bool_decide (t = CaptureStorageTypeS3) then
    match css_S3 spec with
    | Some c => [env "S3_BUCKET" (s3c_Bucket c); env "S3_REGION" (s3c_Region c)] ++ env_if_set "S3_PREFIX" (s3c_Prefix c)
    | None => []
    end
  else if bool_decide (t = CaptureStorageTypeGCS) then
    match css_GCS spec with
    | Some c => [env "GCS_BUCKET" (gcs_Bucket c)] ++ env_if_set "GCS_PREFIX" (gcs_Prefix c)
    | None => []
    end
  else if bool_decide (t = CaptureStorageTypeEFS) then
    match css_EFS spec with
    | Some c => [env "EFS_FILESYSTEM_ID" (efs_FileSystemID c); env "EFS_MOUNT_PATH" (efs_MountPath c)]
    | None => []
    end
  else if bool_decide (t = CaptureStorageTypeEBS) then
    match css_EBS spec with
    | Some c => [env "EBS_VOLUME_ID" (ebs_VolumeID c); env "EBS_MOUNT_PATH" (ebs_MountPath c)]
    | None => []
    end
  else if bool_decide (t = CaptureStorageTypePlugin) then
    match css_Plugin spec with
    | Some c => [env "PLUGIN_PATH" (spc_Path c)] ++ env_if_set "PLUGIN_SYMBOL" (spc_Symbol c)
                ++ match spc_Config c with
                   | Some raw => if bool_decide (Raw raw ≠ "") then [env "PLUGIN_CONFIG" (Raw raw)] else []
                   | None => []
                   end
    | None => []
    end
  else [].

Definition redact_env (c : CaptureSettings) : list EnvVar :=
  if default false (cst_DisableHeaderRedaction c) then [env "CAPTURE_REDACT_HEADERS" "none"]
  else if 0 <? len (cst_RedactHeaders c) then [env "CAPTURE_REDACT_HEADERS" (join_comma (cst_RedactHeaders c))]
  else [].

Definition settings_env (c : CaptureSettings) : list EnvVar :=
  env_if_set "CAPTURE_INCLUDE_HEADERS" (FormatBool <$> cst_IncludeHeaders c)
  ++ env_if_set "CAPTURE_INCLUDE_BODY" (FormatBool <$> cst_IncludeBody c)
  ++ env_if_set "CAPTURE_MAX_BODY_BYTES" (Itoa <$> cst_MaxBodyBytes c)
  ++ redact_env c.

Section Env.
Context {HC : HeaderCodec}.

Definition filters_env (f : option CaptureFilters) : list EnvVar :=
  match f with
  | None => []
  | Some f =>
      match cf_PathPrefix f with
      | Some p => if bool_decide (p ≠ "") then [env "FILTER_PATH_PREFIX" p] else []
      | None => []
      end
      ++ (if 0 <? len (cf_Headers f) then
            match hc_Marshal (cf_Headers f) with Ok raw => [env "FILTER_HEADERS" raw] | Err _ => [] end
          else [])
      ++ env_if_set "FILTER_PERCENTAGE" (Itoa <$> cf_Percentage f)
  end.

Definition buildEnvVars (getenv : string → string) (tc : TrafficCapture) (storage : CaptureStorage) : list EnvVar :=
  [env "CAPTURE_ID" (Namespace tc +:+ "/" +:+ Name tc);
   env "CAPTURE_NAMESPACE" (Namespace tc);
   env "CAPTURE_NAME" (Name tc);
   env "CAPTURE_TARGET_KIND" (ptr_Kind (tcs_TargetRef (Spec tc)));
   env "CAPTURE_TARGET_NAME" (ptr_Name (tcs_TargetRef (Spec tc)));
   env "CAPTURE_STORAGE_NAME" (csr_Name (tcs_StorageRef (Spec tc)));
   env "STORAGE_TYPE" (css_Type (Spec storage));
   {| ev_Name := "POD_NAME"; ev_Source := EnvFieldRef "metadata.name" |}]
  ++ database_env getenv
  ++ storage_env (Spec storage)
  ++ settings_env (tcs_Capture (Spec tc))
  ++ filters_env (tcs_Filters (Spec tc)).

(** ** The resources *)

(** [image] is the package variable [CaptureAgentImage]. *)
Definition BuildDeployment (getenv : string → string) (image : string) (tc : TrafficCapture) (storage : CaptureStorage)
    : Deployment :=
  let replicas := default defaultReplicas (tcs_Agent (Spec tc) ≫= as_Replicas) in
  let labels := agentLabels tc in
  MkObject (newObjectMeta (Namespace tc) (AgentDeploymentName tc) labels)
    {| ds_Replicas := Some replicas; ds_MatchLabels := labels; ds_TemplateLabels := labels;
       ds_Containers :=
         [{| ac_Name := "capture-agent"; ac_Image := image;
             ac_Ports := [{| cp_Name := "http"; cp_ContainerPort := 8080; cp_Protocol := "TCP" |};
                          {| cp_Name := "grpc"; cp_ContainerPort := 9090; cp_Protocol := "TCP" |}];
             ac_Env := buildEnvVars getenv tc storage;
             ac_Resources := defaultResources |}] |}
    {| dst_ReadyReplicas := 0 |}.
End Env.

Definition BuildService (tc : TrafficCapture) : Service :=
  let labels := agentLabels tc in
  MkObject (newObjectMeta (Namespace tc) (AgentServiceName tc) labels)
    {| svc_Type := "ClusterIP"; svc_Selector := labels;
       svc_Ports :=
         [{| svp_Name := "http"; svp_Port := 8080; svp_TargetPort := FromString "http"; svp_Protocol := "TCP" |};
          {| svp_Name := "grpc"; svp_Port := 9090; svp_TargetPort := FromString "grpc"; svp_Protocol := "TCP" |};
          {| svp_Name := "health"; svp_Port := 8081; svp_TargetPort := FromInt 8081; svp_Protocol := "TCP" |}] |}
    EmptyServiceStatus.

Definition BuildHPA (tc : TrafficCapture) : HorizontalPodAutoscaler :=
  let agent := tcs_Agent (Spec tc) in
  MkObject (newObjectMeta (Namespace tc) (Name tc +:+ "-capture-agent") (agentLabels tc))
    {| hpa_ScaleTargetRef := {| cv_APIVersion := "apps/v1"; cv_Kind := "Deployment"; cv_Name := AgentDeploymentName tc |};
       hpa_MinReplicas := Some (default defaultMinReplicas (agent ≫= as_MinReplicas));
       hpa_MaxReplicas := default defaultMaxReplicas (agent ≫= as_MaxReplicas);
       hpa_Metrics := [{| ms_Resource := "cpu";
                          ms_AverageUtilization := default defaultTargetCPU (agent ≫= as_TargetCPU) |}] |}
    EmptyHPAStatus.
