(* ===== verification/AgentMain.v ===== *)
(** * The capture agent's command ([cmd/capture-agent/main.go])

    How the agent configures itself from its flags and its environment, and what
    the environment [AgentDeployer] builds for a [TrafficCapture] makes of it.
    What [main] then opens (the history database, the storage, the listeners) is
    not part of the model. *)

From S2P Require Import Prelude GoStd GoTime GoFlag Kube Api CaptureApi ReplayJob ReplayMain.
From S2P Require Import Agent AgentDeployer Storage StorageBackends.
From Stdlib Require Import Ascii.

Local Open Scope Z_scope.

(** ** Reading the environment *)

Section Env.
Context {GP : GoParse}.

Definition envOr (getenv : string → string) (key fallback : string) : string :=
  let value := TrimSpace (getenv key) in
  if bool_decide (value ≠ "") then value else fallback.

Definition envIntOr (getenv : string → string) (key : string) (fallback : Z) : Z :=
  let value := TrimSpace (getenv key) in
  if bool_decide (value = "") then fallback
  else match Atoi value with Ok n => n | Err _ => fallback end.
End Env.

Fixpoint firstNonEmpty (values : list string) : string :=
  match values with
  | [] => ""
  | v :: values => if bool_decide (TrimSpace v ≠ "") then v else firstNonEmpty values
  end.

(** [strings.Cut(s, "/")]. *)
Fixpoint cut_slash (s : string) : option (string * string) :=
  match s with
  | "" => None
  | String a s => if Ascii.eqb a "/" then Some ("", s)
                  else match cut_slash s with Some (x, y) => Some (String a x, y) | None => None end
  end.

Definition splitCaptureID (captureID : string) : string * string :=
  match cut_slash captureID with Some p => p | None => ("", captureID) end.

(** [None] is the nil slice. *)
Definition parseRedactHeaders (value : string) : option (list string) :=
  let value := TrimSpace value in
  if bool_decide (value = "") then None
  else if EqualFold value "none" then Some []
  else Some (DefaultRedactHeaders
             ++ List.filter (λ h, bool_decide (h ≠ "")) (TrimSpace <$> split_char "," value)).

(** [agent.ParseHeaderFilters]. *)
Definition ParseHeaderFilters `{HC : HeaderCodec} (raw : string) : result (list HeaderFilter) :=
  let raw := TrimSpace raw in
  if bool_decide (raw = "") then Ok []
  else match hc_Unmarshal raw with
  | Err err => Err (WrapError "parse header filters: %w" [] err)
  | Ok filters =>
      match list_find (λ f, TrimSpace (hf_Name f) = "") filters with
      | Some (i, _) => Err (FmtError "header filter %d: name is required" [FInt (Z.of_nat i)])
      | None => Ok filters
      end
  end.

(** ** The storage configuration *)

(** [json.Unmarshal] into the configuration types. *)
Class ConfigCodec (J : Type) := {
  cc_S3 : string → result S3WriterConfig;
  cc_GCS : string → result GCSWriterConfig;
  cc_EFS : string → result FSWriterConfig;
  cc_EBS : string → result FSWriterConfig;
  cc_Plugin : string → result (PluginWriterConfig J)
}.

Definition unmarshalOptionalConfig {C} (unmarshal : string → result C) (zero : C) (rawJSON : string) : result C :=
  let rawJSON := TrimSpace rawJSON in
  if bool_decide (rawJSON = "") || bool_decide (rawJSON = "{}") then Ok zero else unmarshal rawJSON.

Section StorageConfig.
Context {J : Type} {CC : ConfigCodec J} (getenv : string → string).

Definition agent_pod (pod : string) : string := firstNonEmpty [pod; getenv "POD_NAME"; getenv "HOSTNAME"].

Definition fs_config (mount : string) (c : FSWriterConfig) : FSWriterConfig :=
  {| fsw_MountPath := firstNonEmpty [fsw_MountPath c; getenv mount]; fsw_AgentPod := agent_pod (fsw_AgentPod c);
     fsw_FlushInterval := fsw_FlushInterval c; fsw_MaxBufferBytes := fsw_MaxBufferBytes c |}.

Definition parseStorageConfig (storageType rawJSON : string) : result (writer_config J) :=
  let t := ToLower (TrimSpace storageType) in
  let wrap what (err : go_error) := Err (WrapError ("parse " +:+ what +:+ " config: %w") [] err) in
  if bool_decide (t = "s3") then
    match unmarshalOptionalConfig cc_S3 (Build_S3WriterConfig "" "" "" "" "" "" 0 0) rawJSON with
    | Err err => wrap "s3" err
    | Ok c => Ok (S3Writer
        {| s3w_Bucket := firstNonEmpty [s3w_Bucket c; getenv "S3_BUCKET"];
           s3w_Region := firstNonEmpty [s3w_Region c; getenv "S3_REGION"];
           s3w_Prefix := firstNonEmpty [s3w_Prefix c; getenv "S3_PREFIX"];
           s3w_AgentPod := agent_pod (s3w_AgentPod c);
           s3w_CaptureNamespace := s3w_CaptureNamespace c; s3w_CaptureName := s3w_CaptureName c;
           s3w_FlushInterval := s3w_FlushInterval c; s3w_MaxBufferBytes := s3w_MaxBufferBytes c |})
    end
  else if bool_decide (t = "gcs") then
    match unmarshalOptionalConfig cc_GCS (Build_GCSWriterConfig "" "" "" 0 0) rawJSON with
    | Err err => wrap "gcs" err
    | Ok c => Ok (GCSWriter
        {| gcw_Bucket := firstNonEmpty [gcw_Bucket c; getenv "GCS_BUCKET"];
           gcw_Prefix := firstNonEmpty [gcw_Prefix c; getenv "GCS_PREFIX"];
           gcw_AgentPod := agent_pod (gcw_AgentPod c);
           gcw_FlushInterval := gcw_FlushInterval c; gcw_MaxBufferBytes := gcw_MaxBufferBytes c |})
    end
  else if bool_decide (t = "efs") then
    match unmarshalOptionalConfig cc_EFS (Build_FSWriterConfig "" "" 0 0) rawJSON with
    | Err err => wrap "efs" err
    | Ok c => Ok (EFSWriter (fs_config "EFS_MOUNT_PATH" c))
    end
  else if bool_decide (t = "ebs") then
    match unmarshalOptionalConfig cc_EBS (Build_FSWriterConfig "" "" 0 0) rawJSON with
    | Err err => wrap "ebs" err
    | Ok c => Ok (EBSWriter (fs_config "EBS_MOUNT_PATH" c))
    end
  else if bool_decide (t = "plugin") then
    match unmarshalOptionalConfig cc_Plugin (Build_PluginWriterConfig "" "" None) rawJSON with
    | Err err => wrap "plugin" err
    | Ok c => Ok (PluginWriter (Build_PluginWriterConfig (firstNonEmpty [plw_Path c; getenv "PLUGIN_PATH"])
                                  (plw_Symbol c) (plw_Config c)))
    end
  else Err (FmtError "unsupported storage type %q" [FStr storageType]).
End StorageConfig.

(** [attachHistoryRecorder]: the recorder itself is a parameter of the backend. *)
Definition attachHistoryRecorder {J} (c : writer_config J) (namespace name : string) : writer_config J :=
  match c with
  | S3Writer c => S3Writer
      {| s3w_Bucket := s3w_Bucket c; s3w_Region := s3w_Region c; s3w_Prefix := s3w_Prefix c;
         s3w_AgentPod := s3w_AgentPod c; s3w_CaptureNamespace := namespace; s3w_CaptureName := name;
         s3w_FlushInterval := s3w_FlushInterval c; s3w_MaxBufferBytes := s3w_MaxBufferBytes c |}
  | c => c
  end.

(** ** [main] *)

Definition agent_flags : gmap string flag_kind := list_to_map
  [("http-port", IntFlag); ("grpc-port", IntFlag); ("health-port", IntFlag); ("storage-type", StringFlag);
   ("storage-config", StringFlag); ("capture-id", StringFlag); ("capture-namespace", StringFlag);
   ("capture-name", StringFlag); ("target-kind", StringFlag); ("target-name", StringFlag);
   ("storage-name", StringFlag); ("database-url", StringFlag); ("max-body-bytes", IntFlag); ("batch-size", IntFlag);
   ("flush-interval", DurationFlag); ("filter-path-prefix", StringFlag); ("filter-headers", StringFlag);
   ("filter-percentage", IntFlag); ("write-queue-size", IntFlag)].

Record agent_config (J : Type) := {
  ag_HTTPPort : Z;
  ag_GRPCPort : Z;
  ag_HealthPort : Z;
  ag_captureID : string;
  ag_namespace : string;
  ag_name : string;
  ag_targetKind : string;
  ag_targetName : string;
  ag_storageName : string;
  ag_databaseURL : string;
  ag_storageType : string;
  ag_storage : writer_config J;
  ag_batchSize : Z;
  ag_flushInterval : Z;
  ag_writeQueueSize : Z;
  ag_handler : CaptureHandler
}.
Arguments ag_captureID {J} _.
Arguments ag_targetKind {J} _.
Arguments ag_targetName {J} _.
Arguments ag_storageName {J} _.
Arguments ag_databaseURL {J} _.
Arguments ag_namespace {J} _.
Arguments ag_name {J} _.
Arguments ag_storage {J} _.
Arguments ag_storageType {J} _.
Arguments ag_handler {J} _.

Definition DefaultWriteQueueSize : Z := 4096.

Section Main.
Context {GP : GoParse} {HC : HeaderCodec} {J : Type} {CC : ConfigCodec J}.

(** No filter when it would let everything through. *)
Definition agent_filter (prefix : string) (headers : list HeaderFilter) (percentage : Z) : option RequestFilter :=
  if bool_decide (prefix ≠ "") || (0 <? len headers) || (percentage <? 100)
  then Some (NewRequestFilter prefix headers percentage) else None.

(** The configuration [main] computes, or the error it exits with. *)
Definition agent_main (getenv : string → string) (args : list string) : result (agent_config J) :=
  match flag_Parse agent_flags args ∅ with
  | Err e => Err e
  | Ok m =>
      let str name key dflt := flag_string m name (envOr getenv key dflt) in
      let captureID := str "capture-id" "CAPTURE_ID" "" in
      if bool_decide (captureID = "") then Err (FmtError "--capture-id or CAPTURE_ID is required" [])
      else
        let namespace := str "capture-namespace" "CAPTURE_NAMESPACE" "" in
        let name := str "capture-name" "CAPTURE_NAME" "" in
        let namespace' := if bool_decide (namespace = "") then fst (splitCaptureID captureID) else namespace in
        let name' := if bool_decide (name = "") then snd (splitCaptureID captureID) else name in
        let databaseURL := str "database-url" "DATABASE_URL" "" in
        if bool_decide (TrimSpace databaseURL ≠ "")
           && (bool_decide (TrimSpace namespace' = "") || bool_decide (TrimSpace name' = ""))
        then Err (FmtError "capture namespace and name are required when capture history is enabled" [])
        else
          let storageType := str "storage-type" "STORAGE_TYPE" "efs" in
          match parseStorageConfig getenv storageType (str "storage-config" "STORAGE_CONFIG" "{}") with
          | Err err => Err err
          | Ok storage =>
              match ParseHeaderFilters (str "filter-headers" "FILTER_HEADERS" "") with
              | Err err => Err err
              | Ok headers =>
                  let prefix := str "filter-path-prefix" "FILTER_PATH_PREFIX" "" in
                  let percentage := flag_int m "filter-percentage" (envIntOr getenv "FILTER_PERCENTAGE" 100) in
                  let filter := agent_filter prefix headers percentage in
                  Ok {| ag_HTTPPort := flag_int m "http-port" 8080;
                        ag_GRPCPort := flag_int m "grpc-port" 9090;
                        ag_HealthPort := flag_int m "health-port" 8081;
                        ag_captureID := captureID; ag_namespace := namespace'; ag_name := name';
                        ag_targetKind := str "target-kind" "CAPTURE_TARGET_KIND" "";
                        ag_targetName := str "target-name" "CAPTURE_TARGET_NAME" "";
                        ag_storageName := str "storage-name" "CAPTURE_STORAGE_NAME" "";
                        ag_databaseURL := databaseURL; ag_storageType := storageType;
                        ag_storage := attachHistoryRecorder storage namespace' name';
                        ag_batchSize := flag_int m "batch-size" 100;
                        ag_flushInterval := flag_duration m "flush-interval" (5 * Second);
                        ag_writeQueueSize := flag_int m "write-queue-size"
                                               (envIntOr getenv "CAPTURE_WRITE_QUEUE_SIZE" DefaultWriteQueueSize);
                        ag_handler := NewCaptureHandler (flag_int m "max-body-bytes" 1048576) filter
                                        (parseRedactHeaders (getenv "CAPTURE_REDACT_HEADERS")) |}
              end
          end
  end.
End Main.

(** ** The agent of a capture

    [env_get envs n] is the variable [n] of a container's environment. *)

Definition env_get (envs : list EnvVar) (n : string) : option EnvVarSource :=
  ev_Source <$> List.find (λ e, bool_decide (ev_Name e = n)) envs.

(** The variables the agent reads, the pod's name apart. *)
Definition agent_vars : list string :=
  ["CAPTURE_ID"; "CAPTURE_NAMESPACE"; "CAPTURE_NAME"; "CAPTURE_TARGET_KIND"; "CAPTURE_TARGET_NAME";
   "CAPTURE_STORAGE_NAME"; "DATABASE_URL"; "STORAGE_TYPE"; "STORAGE_CONFIG"; "FILTER_PATH_PREFIX"; "FILTER_HEADERS";
   "FILTER_PERCENTAGE"; "CAPTURE_WRITE_QUEUE_SIZE"; "CAPTURE_REDACT_HEADERS"; "S3_BUCKET"; "S3_REGION"; "S3_PREFIX";
   "GCS_BUCKET"; "GCS_PREFIX"; "EFS_MOUNT_PATH"; "EBS_MOUNT_PATH"; "PLUGIN_PATH"].

(** What Kubernetes makes of a container's environment: a literal without
    references ([$]) is the value of its variable, and a variable that is not
    listed is unset. *)
Record runs_in (envs : list EnvVar) (getenv : string → string) : Prop := {
  ri_value : ∀ n v, n ∈ agent_vars → env_get envs n = Some (EnvValue v) → Contains v "$" = false → getenv n = v;
  ri_unset : ∀ n, n ∈ agent_vars → env_get envs n = None → getenv n = ""
}.

Lemma env_get_app l k n : env_get (l ++ k) n = match env_get l n with Some s => Some s | None => env_get k n end.
Proof.
  unfold env_get. induction l as [|e l IH]; [done|]. simpl. by case_bool_decide.
Qed.

Definition names_in (l : list EnvVar) (ns : list string) : Prop := Forall (λ e, ev_Name e ∈ ns) l.

Lemma env_get_none l ns n : names_in l ns → n ∉ ns → env_get l n = None.
Proof.
  unfold env_get. induction 1 as [|e l He Hl IH]; intros Hn; [done|]. simpl.
  rewrite bool_decide_eq_false_2 by by intros <-. auto.
Qed.

Definition storage_vars : list string :=
  ["S3_BUCKET"; "S3_REGION"; "S3_PREFIX"; "GCS_BUCKET"; "GCS_PREFIX"; "EFS_FILESYSTEM_ID"; "EFS_MOUNT_PATH";
   "EBS_VOLUME_ID"; "EBS_MOUNT_PATH"; "PLUGIN_PATH"; "PLUGIN_SYMBOL"; "PLUGIN_CONFIG"].

Definition settings_vars : list string :=
  ["CAPTURE_INCLUDE_HEADERS"; "CAPTURE_INCLUDE_BODY"; "CAPTURE_MAX_BODY_BYTES"; "CAPTURE_REDACT_HEADERS"].

Definition filter_vars : list string := ["FILTER_PATH_PREFIX"; "FILTER_HEADERS"; "FILTER_PERCENTAGE"].

Ltac env_names :=
  repeat first [progress case_match | case_bool_decide]; simpl;
  repeat (apply List.Forall_cons; [first [mem_closed|simpl; set_solver]|]); try constructor.

Lemma database_names getenv : names_in (database_env getenv) ["DATABASE_URL"].
Proof. unfold database_env, names_in. env_names. Qed.

Lemma storage_names spec : names_in (storage_env spec) storage_vars.
Proof. unfold storage_env, names_in, storage_vars, env_if_set. env_names. Qed.

Lemma settings_names c : names_in (settings_env c) settings_vars.
Proof.
  unfold settings_env, redact_env, names_in, settings_vars, env_if_set.
  destruct (cst_IncludeHeaders c), (cst_IncludeBody c), (cst_MaxBodyBytes c); simpl; env_names.
Qed.

Lemma filters_names `{HC : HeaderCodec} f : names_in (filters_env f) filter_vars.
Proof.
  unfold filters_env, names_in, filter_vars, env_if_set. destruct f as [f|]; [|constructor].
  destruct (cf_Percentage f), (cf_PathPrefix f); simpl; env_names.
Qed.

Section Environment.
Context {HC : HeaderCodec} (spoke_env : string → string) (tc : TrafficCapture) (storage : CaptureStorage).
Abbreviation envs := (buildEnvVars spoke_env tc storage).

Ltac not_in := apply (bool_decide_unpack (_ ∉ _)); reflexivity.

(** Each variable comes from one part of the environment. *)
Lemma env_head n : n ∉ "DATABASE_URL" :: storage_vars ++ settings_vars ++ filter_vars →
  env_get envs n = env_get (take 8 envs) n.
Proof.
  intros Hn. unfold buildEnvVars at 1. rewrite !env_get_app.
  rewrite (env_get_none _ _ _ (database_names spoke_env)), (env_get_none _ _ _ (storage_names (Spec storage))),
    (env_get_none _ _ _ (settings_names (tcs_Capture (Spec tc)))),
    (env_get_none _ _ _ (filters_names (tcs_Filters (Spec tc)))) by set_solver.
  simpl take. by destruct (env_get _ n).
Qed.

Lemma env_storage n : n ∈ storage_vars → env_get envs n = env_get (storage_env (Spec storage)) n.
Proof.
  intros Hn. unfold buildEnvVars. rewrite !env_get_app.
  assert (n ∉ ["DATABASE_URL"] ∧ n ∉ settings_vars ∧ n ∉ filter_vars) as (H1 & H2 & H3).
  { repeat (apply elem_of_cons in Hn as [->|Hn]; [split_and!; not_in|]). by apply elem_of_nil in Hn. }
  rewrite (env_get_none _ _ _ (database_names spoke_env)) by done.
  rewrite (env_get_none _ _ _ (settings_names (tcs_Capture (Spec tc)))),
    (env_get_none _ _ _ (filters_names (tcs_Filters (Spec tc)))) by done.
  repeat (apply elem_of_cons in Hn as [->|Hn]; [by destruct (env_get (storage_env _) _)|]). by apply elem_of_nil in Hn.
Qed.

Lemma env_redact : env_get envs "CAPTURE_REDACT_HEADERS" = env_get (redact_env (tcs_Capture (Spec tc))) "CAPTURE_REDACT_HEADERS".
Proof.
  unfold buildEnvVars, settings_env. rewrite !env_get_app.
  rewrite (env_get_none _ _ _ (database_names spoke_env)), (env_get_none _ _ _ (storage_names (Spec storage))),
    (env_get_none _ _ _ (filters_names (tcs_Filters (Spec tc)))) by not_in.
  destruct (tcs_Capture (Spec tc)) as [[] [] [] ? ? ?]; simpl; by destruct (env_get (redact_env _) _).
Qed.

Lemma env_filters n : n ∈ filter_vars → env_get envs n = env_get (filters_env (tcs_Filters (Spec tc))) n.
Proof.
  intros Hn. unfold buildEnvVars. rewrite !env_get_app.
  assert (n ∉ ["DATABASE_URL"] ∧ n ∉ settings_vars ∧ n ∉ storage_vars) as (H1 & H2 & H3).
  { repeat (apply elem_of_cons in Hn as [->|Hn]; [split_and!; not_in|]). by apply elem_of_nil in Hn. }
  rewrite (env_get_none _ _ _ (database_names spoke_env)) by done.
  rewrite (env_get_none _ _ _ (settings_names (tcs_Capture (Spec tc)))),
    (env_get_none _ _ _ (storage_names (Spec storage))) by done.
  repeat (apply elem_of_cons in Hn as [->|Hn]; [done|]). by apply elem_of_nil in Hn.
Qed.
End Environment.

(** ** Text without surrounding white space *)

Lemma trimmed_join l : l ≠ [] → Forall method_ok l → trimmed (join_comma l).
Proof.
  intros Hne Hl. induction Hl as [|m l (Hm & Hc & Ht) Hl IH]; [done|]. destruct l as [|m' l]; [done|].
  change (join_comma (m :: m' :: l)) with (m +:+ "," +:+ join_comma (m' :: l)).
  apply trimmed_app; [done|by apply IH|done|by apply join_comma_nonempty].
Qed.

Lemma trimmed_digits s acc z : parse_digits acc s = Some z → trimmed s.
Proof.
  assert (∀ a d, digit_value a = Some d → Ascii.is_space a = false) as Hd.
  { intros a d. unfold digit_value. destruct a as [[] [] [] [] [] [] [] []]; vm_compute; congruence. }
  assert (∀ s acc z, parse_digits acc s = Some z → TrimRightSpace s = s) as Hr.
  { clear s acc z. intros s. induction s as [|a s IH]; intros acc z Hp; [done|]. simpl in Hp.
    destruct (digit_value a) as [d|] eqn:E; [|done]. simpl. rewrite (IH _ _ Hp), (Hd _ _ E). by destruct s. }
  intros Hp. unfold trimmed, TrimSpace. assert (TrimLeftSpace s = s) as ->; [|by eapply Hr].
  destruct s as [|a s]; [done|]. simpl in *. destruct (digit_value a) eqn:E; [|done]. by rewrite (Hd _ _ E).
Qed.

Lemma trimmed_Itoa z : 0 <= z → trimmed (Itoa z).
Proof. intros Hz. by eapply trimmed_digits, parse_digits_Itoa. Qed.

(** ** What the environment makes of a capture *)

(** Text that an environment variable carries unchanged. *)
Definition literal (v : string) : Prop := Contains v "$" = false ∧ trimmed v.

(** Where a writer stores captures, as [location] gives it for replays, and the
    pod it names its objects after. *)
Definition config_location {J} (c : writer_config J) : string * string * string * string * string :=
  match c with
  | S3Writer c => ("s3", s3w_Bucket c, s3w_Region c, s3w_Prefix c, "")
  | GCSWriter c => ("gcs", gcw_Bucket c, "", gcw_Prefix c, "")
  | EFSWriter c => ("efs", "", "", "", fsw_MountPath c)
  | EBSWriter c => ("ebs", "", "", "", fsw_MountPath c)
  | PluginWriter c => ("plugin", "", "", "", plw_Path c)
  end.

Definition config_pod {J} (c : writer_config J) : string :=
  match c with
  | S3Writer c => s3w_AgentPod c
  | GCSWriter c => gcw_AgentPod c
  | EFSWriter c | EBSWriter c => fsw_AgentPod c
  | PluginWriter _ => ""
  end.

(** The requests a capture's filters select. *)
Definition spec_matches {MR : MapRange} (f : option CaptureFilters) (sample : Z) (req : CapturedHTTPRequest) : bool :=
  match f with
  | None => true
  | Some f => HasPrefix (chr_Path req) (default "" (cf_PathPrefix f))
              && forallb (headerMatches (chr_Headers req)) (header_filter_of <$> cf_Headers f)
              && (sample <? default 100 (cf_Percentage f))
  end.

(** The headers a capture's settings redact. *)
Definition spec_redacted (c : CaptureSettings) : list string :=
  if default false (cst_DisableHeaderRedaction c) then [] else DefaultRedactHeaders ++ cst_RedactHeaders c.

(** The values of a capture and its storage fit the environment. *)
Record capture_ok `{HC : HeaderCodec} (tc : TrafficCapture) (storage : CaptureStorage) : Prop := {
  co_namespace : literal (Namespace tc) ∧ Namespace tc ≠ "";
  co_name : literal (Name tc) ∧ Name tc ≠ "";
  co_location : ∃ t b r p m, location storage = Some (t, b, r, p, m) ∧ Forall literal [b; r; p; m];
  co_filters : ∀ f, tcs_Filters (Spec tc) = Some f →
    literal (default "" (cf_PathPrefix f)) ∧
    Forall (λ h, TrimSpace (hm_Name h) ≠ "") (cf_Headers f) ∧
    (∀ raw, hc_Marshal (cf_Headers f) = Ok raw → Contains raw "$" = false) ∧
    0 <= default 100 (cf_Percentage f) <= 100;
  co_redact : let extra := cst_RedactHeaders (tcs_Capture (Spec tc)) in
    Forall method_ok extra ∧ Contains (join_comma extra) "$" = false ∧ ToLower (join_comma extra) ≠ "none"
}.

Lemma literal_empty : literal "".
Proof. done. Qed.

Lemma TrimSpace_blank v : literal v → TrimSpace v = "" → v = "".
Proof. intros [_ Ht] Hv. congruence. Qed.

Lemma firstNonEmpty_env v : literal v → firstNonEmpty [""; v] = v.
Proof.
  intros Hl. cbn [firstNonEmpty]. rewrite bool_decide_eq_false_2 by by intros []. case_bool_decide as Hb; [done|].
  destruct (decide (TrimSpace v = "")) as [He|]; [|done]. by rewrite (TrimSpace_blank v).
Qed.

Lemma literal_join s t : literal s → literal t → s ≠ "" → t ≠ "" → literal (s +:+ "/" +:+ t).
Proof.
  intros [Hs Hst] [Ht Htt] Hsn Htn. split; [|by apply trimmed_app]. by rewrite !Contains_char_app, Hs, Ht.
Qed.

Section Reaches.
Context {GP : GoParse} {HC : HeaderCodec} {J : Type} {CC : ConfigCodec J}.
Context (spoke_env getenv : string → string) (tc : TrafficCapture) (storage : CaptureStorage).
Hypothesis Hok : capture_ok tc storage.
Hypothesis Hrun : runs_in (buildEnvVars spoke_env tc storage) getenv.
Abbreviation envs := (buildEnvVars spoke_env tc storage).

Lemma env_is n v : n ∈ agent_vars → env_get envs n = Some (EnvValue v) → literal v → getenv n = v.
Proof using Hrun. intros Hn Hg [Hd _]. by apply (ri_value _ _ Hrun). Qed.

Lemma env_unset n : n ∈ agent_vars → env_get envs n = None → getenv n = "".
Proof using Hrun. apply (ri_unset _ _ Hrun). Qed.

Lemma envOr_is n v dflt : getenv n = v → trimmed v → envOr getenv n dflt = if bool_decide (v ≠ "") then v else dflt.
Proof. intros Hg Ht. unfold envOr. by rewrite Hg, Ht. Qed.

(** The variables [storage_env] may leave out. *)
Lemma storage_var n v : n ∈ agent_vars → n ∈ storage_vars →
  env_get (storage_env (Spec storage)) n = EnvValue <$> v → literal (default "" v) → getenv n = default "" v.
Proof using Hrun.
  intros Ha Hs Hg Hl. rewrite <-(env_storage spoke_env tc storage n Hs) in Hg.
  destruct v as [v|]; [by apply env_is|by apply env_unset].
Qed.

Ltac decide_strings :=
  repeat first [rewrite bool_decide_eq_true_2 in * by reflexivity | rewrite bool_decide_eq_false_2 in * by discriminate].

Lemma storage_reaches : ∃ sc, parseStorageConfig (J := J) getenv (css_Type (Spec storage)) "{}" = Ok sc ∧
  location storage = Some (config_location sc) ∧ config_pod sc = agent_pod getenv "".
Proof using Hok Hrun.
  destruct (co_location _ _ Hok) as (t & b & r & p & m & Hloc & Hl).
  apply List.Forall_cons_iff in Hl as [Hb Hl]. apply List.Forall_cons_iff in Hl as [Hr Hl].
  apply List.Forall_cons_iff in Hl as [Hp Hl]. apply List.Forall_cons_iff in Hl as [Hm _].
  assert (∀ n, n ∈ storage_vars → n ∈ agent_vars → ∀ v, env_get (storage_env (Spec storage)) n = EnvValue <$> v →
    literal (default "" v) → firstNonEmpty [""; getenv n] = default "" v) as Hv.
  { intros n Hs Ha v Hg Hlv. by rewrite (storage_var n v), firstNonEmpty_env. }
  unfold location in *. unfold parseStorageConfig, fs_config, storage_env in *.
  set (ty := css_Type (Spec storage)) in *. clearbody ty.
  assert (ty = CaptureStorageTypeS3 ∨ ty = CaptureStorageTypeGCS ∨ ty = CaptureStorageTypeEFS ∨ ty = CaptureStorageTypeEBS)
    as [->|[->|[->| ->]]]; [repeat case_bool_decide; naive_solver|decide_strings..].
  - destruct (css_S3 (Spec storage)) as [c|]; simplify_eq/=. eexists. split; [reflexivity|]. simpl.
    rewrite (Hv "S3_BUCKET" ltac:(mem_closed) ltac:(mem_closed) (Some (s3c_Bucket c))) by done.
    rewrite (Hv "S3_REGION" ltac:(mem_closed) ltac:(mem_closed) (Some (s3c_Region c))) by done.
    rewrite (Hv "S3_PREFIX" ltac:(mem_closed) ltac:(mem_closed) (s3c_Prefix c)) by (done || by destruct (s3c_Prefix c)).
    done.
  - destruct (css_GCS (Spec storage)) as [c|]; simplify_eq/=. eexists. split; [reflexivity|]. simpl.
    rewrite (Hv "GCS_BUCKET" ltac:(mem_closed) ltac:(mem_closed) (Some (gcs_Bucket c))) by done.
    rewrite (Hv "GCS_PREFIX" ltac:(mem_closed) ltac:(mem_closed) (gcs_Prefix c)) by (done || by destruct (gcs_Prefix c)).
    done.
  - destruct (css_EFS (Spec storage)) as [c|]; simplify_eq/=. eexists. split; [reflexivity|]. simpl.
    by rewrite (Hv "EFS_MOUNT_PATH" ltac:(mem_closed) ltac:(mem_closed) (Some (efs_MountPath c))).
  - destruct (css_EBS (Spec storage)) as [c|]; simplify_eq/=. eexists. split; [reflexivity|]. simpl.
    by rewrite (Hv "EBS_MOUNT_PATH" ltac:(mem_closed) ltac:(mem_closed) (Some (ebs_MountPath c))).
Qed.
Lemma redact_reaches :
  default DefaultRedactHeaders (parseRedactHeaders (getenv "CAPTURE_REDACT_HEADERS"))
  = spec_redacted (tcs_Capture (Spec tc)).
Proof using Hok Hrun.
  destruct (co_redact _ _ Hok) as (Hm & Hd & Hnone). pose proof (env_redact spoke_env tc storage) as He.
  unfold redact_env, spec_redacted in *. destruct (default false _).
  { by rewrite (env_is "CAPTURE_REDACT_HEADERS" "none") by (mem_closed || done). }
  destruct (cst_RedactHeaders (tcs_Capture (Spec tc))) as [|h l] eqn:El.
  { by rewrite (env_unset "CAPTURE_REDACT_HEADERS") by (mem_closed || done). }
  set (extra := h :: l) in *. assert (extra ≠ []) as Hne by done.
  pose proof (trimmed_join extra Hne Hm) as Ht. pose proof (join_comma_nonempty extra Hne Hm) as Hj.
  rewrite (env_is "CAPTURE_REDACT_HEADERS" (join_comma extra)) by (mem_closed || done).
  clearbody extra. unfold parseRedactHeaders, EqualFold.
  rewrite Ht, bool_decide_eq_false_2, bool_decide_eq_false_2 by done. cbn [default from_option id].
  rewrite (split_join_comma extra) by done. unfold id. f_equal.
  clear -Hm. induction Hm as [|x xs (Hx & _) _ IH]; [done|]. simpl. by rewrite bool_decide_eq_true_2, IH.
Qed.

(** The parts of the filter. *)
Lemma prefix_reaches : envOr getenv "FILTER_PATH_PREFIX" "" = default "" (tcs_Filters (Spec tc) ≫= cf_PathPrefix).
Proof using Hok Hrun.
  pose proof (env_filters spoke_env tc storage "FILTER_PATH_PREFIX" ltac:(mem_closed)) as He.
  pose proof (co_filters _ _ Hok) as Hf. unfold filters_env in He. destruct (tcs_Filters (Spec tc)) as [f|]; simpl.
  2:{ by rewrite (envOr_is _ "") by (done || by apply env_unset; [mem_closed|]). }
  destruct (Hf f eq_refl) as (Hl & _). rewrite env_get_app in He.
  assert (getenv "FILTER_PATH_PREFIX" = default "" (cf_PathPrefix f)) as Hg.
  { destruct (cf_PathPrefix f) as [p|]; simpl in *; [case_bool_decide as Hp|].
    - apply env_is; [mem_closed|by rewrite He|done].
    - subst p. apply env_unset; [mem_closed|]. rewrite He.
      destruct (0 <? len (cf_Headers f)), (cf_Percentage f); simpl; try destruct (hc_Marshal _); done.
    - apply env_unset; [mem_closed|]. rewrite He.
      destruct (0 <? len (cf_Headers f)), (cf_Percentage f); simpl; try destruct (hc_Marshal _); done. }
  rewrite (envOr_is _ _ _ Hg) by apply Hl. by case_bool_decide.
Qed.

Definition spec_headers : list HeaderFilter := header_filter_of <$> default [] (cf_Headers <$> tcs_Filters (Spec tc)).

Lemma headers_reach : ParseHeaderFilters (envOr getenv "FILTER_HEADERS" "") = Ok spec_headers.
Proof using Hok Hrun.
  pose proof (env_filters spoke_env tc storage "FILTER_HEADERS" ltac:(mem_closed)) as He.
  pose proof (co_filters _ _ Hok) as Hf. unfold filters_env, spec_headers in *.
  assert (∀ v, getenv "FILTER_HEADERS" = v → v = "" → ParseHeaderFilters (envOr getenv "FILTER_HEADERS" "") = Ok []) as Hnone.
  { intros v Hv ->. by rewrite (envOr_is _ _ _ Hv). }
  destruct (tcs_Filters (Spec tc)) as [f|]; simpl.
  2:{ eapply Hnone; [apply env_unset; [mem_closed|done]|done]. }
  destruct (Hf f eq_refl) as (_ & Hh & Hd & _). destruct (hc_marshal_ok (cf_Headers f)) as [raw Hraw].
  rewrite !env_get_app, Hraw in He.
  assert (env_get match cf_PathPrefix f with Some p => if bool_decide (p ≠ "") then [env "FILTER_PATH_PREFIX" p] else []
                  | None => [] end "FILTER_HEADERS" = None) as Hpre
    by (destruct (cf_PathPrefix f) as [p|]; [case_bool_decide|]; done).
  rewrite Hpre in He. destruct (cf_Headers f) as [|h l] eqn:El.
  { eapply Hnone; [apply env_unset; [mem_closed|]|done]. rewrite He. by destruct (cf_Percentage f). }
  change (0 <? len (h :: l)) with true in He. simpl in He. destruct (hc_trimmed _ _ Hraw) as [Hne Ht].
  rewrite (envOr_is _ raw) by (done || (apply env_is; [mem_closed|done|by split; [apply Hd|]])).
  rewrite bool_decide_eq_true_2 by done. unfold ParseHeaderFilters.
  rewrite Ht, bool_decide_eq_false_2, (hc_round_trip _ _ Hraw) by done.
  destruct (list_find _ _) as [[k hf]|] eqn:Hfind; [|done]. exfalso.
  apply list_find_Some in Hfind as (Hk & Hb & _). apply list_lookup_fmap_Some in Hk as (m & -> & Hm).
  rewrite Forall_lookup in Hh. by apply (Hh k m).
Qed.

Definition spec_percentage : Z := default 100 (tcs_Filters (Spec tc) ≫= cf_Percentage).

Lemma percentage_reaches : envIntOr getenv "FILTER_PERCENTAGE" 100 = spec_percentage.
Proof using Hok Hrun.
  pose proof (env_filters spoke_env tc storage "FILTER_PERCENTAGE" ltac:(mem_closed)) as He.
  pose proof (co_filters _ _ Hok) as Hf. unfold filters_env, spec_percentage, envIntOr in *.
  destruct (tcs_Filters (Spec tc)) as [f|]; simpl.
  2:{ by rewrite (env_unset "FILTER_PERCENTAGE") by (mem_closed || done). }
  destruct (Hf f eq_refl) as (_ & _ & _ & Hp). rewrite !env_get_app in He.
  assert (env_get envs "FILTER_PERCENTAGE" = EnvValue <$> (Itoa <$> cf_Percentage f)) as He'.
  { rewrite He. destruct (cf_PathPrefix f) as [p|]; [case_bool_decide|]; destruct (0 <? len (cf_Headers f));
      try destruct (hc_Marshal (cf_Headers f)); simpl; by destruct (cf_Percentage f). }
  destruct (cf_Percentage f) as [p|]; simpl in *; [|by rewrite (env_unset "FILTER_PERCENTAGE") by (mem_closed || done)].
  assert (trimmed (Itoa p)) as Ht by (apply trimmed_Itoa; lia).
  assert (Itoa p ≠ "") as Hne by (pose proof (Itoa_length_pos p ltac:(lia)); by destruct (Itoa p); [simpl in *; lia|]).
  rewrite (env_is "FILTER_PERCENTAGE" (Itoa p)); [|mem_closed|done|].
  { rewrite Ht, bool_decide_eq_false_2, atoi_Itoa by (done || unfold in_int64; lia). done. }
  split; [apply Itoa_without; [lia|done]|done].
Qed.
End Reaches.

(** ** Theorems *)

Section Theorems.
Context {GP : GoParse} {HC : HeaderCodec} {J : Type} {CC : ConfigCodec J} {MR : MapRange}.

(** The agent's filter, from its parts, selects what the capture's filters say. *)
Lemma filter_selects (f : option CaptureFilters) sample req :
  0 <= sample < 100 → 0 <= default 100 (f ≫= cf_Percentage) <= 100 →
  let prefix := default "" (f ≫= cf_PathPrefix) in
  let headers := header_filter_of <$> default [] (cf_Headers <$> f) in
  let percentage := default 100 (f ≫= cf_Percentage) in
  Matches (agent_filter prefix headers percentage) sample req = spec_matches f sample req.
Proof.
  intros Hs Hp. cbv zeta. unfold agent_filter.
  assert (∀ s, HasPrefix s "" = true) as Hempty by (intros s; apply HasPrefix_spec; by exists s).
  set (percentage := default 100 (f ≫= cf_Percentage)) in *.
  set (prefix := default "" (f ≫= cf_PathPrefix)). set (headers := header_filter_of <$> _).
  assert (spec_matches f sample req = HasPrefix (chr_Path req) prefix
            && forallb (headerMatches (chr_Headers req)) headers && (sample <? percentage)) as ->.
  { destruct f as [f|]; [done|].
    transitivity (HasPrefix (chr_Path req) "" && true && (sample <? 100)); [|done].
    rewrite Hempty. symmetry. apply Z.ltb_lt. lia. }
  clearbody percentage prefix headers.
  destruct (bool_decide (prefix ≠ "") || (0 <? len headers) || (percentage <? 100)) eqn:E.
  - unfold NewRequestFilter, Matches. cbn [rqf_pathPrefix rqf_headers rqf_percentage].
    rewrite (proj2 (Z.ltb_ge 100 percentage)), (proj2 (Z.ltb_ge percentage 0)) by lia.
    assert ((if bool_decide (prefix ≠ "") && negb (HasPrefix (chr_Path req) prefix) then false else true)
            = HasPrefix (chr_Path req) prefix) as Hpre.
    { case_bool_decide as Hd; [by destruct (HasPrefix _ _)|]. subst prefix. by rewrite Hempty. }
    destruct (bool_decide (prefix ≠ "") && negb (HasPrefix (chr_Path req) prefix)); rewrite <-Hpre; [done|]. simpl.
    destruct (forallb _ headers); [|done]. simpl. repeat case_match; zbool; lia.
  - apply orb_false_iff in E as [[E1 E2]%orb_false_iff E3]. apply bool_decide_eq_false in E1. zbool.
    assert (prefix = "") as -> by by apply dec_stable. rewrite Hempty.
    destruct headers; [|unfold len in E2; simpl in E2; lia]. simpl. symmetry. apply Z.ltb_lt. lia.
Qed.

End Theorems.

(** The agent does not read the variables that carry the capture's
    [includeHeaders], [includeBody] and [maxBodyBytes], nor a plugin's symbol and
    configuration: it configures itself alike whatever they are. *)
Theorem agent_ignores_settings {GP : GoParse} {HC : HeaderCodec} {J : Type} {CC : ConfigCodec J} getenv getenv' args :
  (∀ n, n ∉ ["CAPTURE_INCLUDE_HEADERS"; "CAPTURE_INCLUDE_BODY"; "CAPTURE_MAX_BODY_BYTES"; "PLUGIN_SYMBOL"; "PLUGIN_CONFIG"] →
     getenv n = getenv' n) →
  agent_main (J := J) getenv args = agent_main (J := J) getenv' args.
Proof.
  intros He. unfold agent_main, envOr, envIntOr, parseStorageConfig, fs_config, agent_pod.
  destruct (flag_Parse agent_flags args ∅) as [m|]; [|done].
  rewrite !(He "CAPTURE_ID"), !(He "CAPTURE_NAMESPACE"), !(He "CAPTURE_NAME"), !(He "CAPTURE_TARGET_KIND"),
    !(He "CAPTURE_TARGET_NAME"), !(He "CAPTURE_STORAGE_NAME"), !(He "DATABASE_URL"), !(He "STORAGE_TYPE"),
    !(He "STORAGE_CONFIG"), !(He "FILTER_PATH_PREFIX"), !(He "FILTER_HEADERS"), !(He "FILTER_PERCENTAGE"),
    !(He "CAPTURE_WRITE_QUEUE_SIZE"), !(He "CAPTURE_REDACT_HEADERS"), !(He "S3_BUCKET"), !(He "S3_REGION"),
    !(He "S3_PREFIX"), !(He "GCS_BUCKET"), !(He "GCS_PREFIX"), !(He "EFS_MOUNT_PATH"), !(He "EBS_MOUNT_PATH"),
    !(He "PLUGIN_PATH"), !(He "POD_NAME"), !(He "HOSTNAME") by set_solver.
  done.
Qed.

(** ** Witness *)

#[local] Existing Instances decimal_parser canonical_range.

#[local] Instance HeaderMatch_eq_dec : EqDecision HeaderMatch.
Proof. solve_decision. Defined.
#[local] Instance HeaderMatch_countable : Countable HeaderMatch.
Proof.
  apply (inj_countable' (λ m, (hm_Name m, hm_Value m)) (λ p, {| hm_Name := p.1; hm_Value := p.2 |})). by intros [].
Defined.

Definition demo_hc_Marshal (l : list HeaderMatch) : result string := Ok ("[" +:+ bits_of (encode l) +:+ "]").
Definition demo_hc_Unmarshal (s : string) : result (list HeaderFilter) :=
  match decode (of_bits (TrimSuffix (TrimPrefix s "[") "]")) with
  | Some l => Ok (header_filter_of <$> l)
  | None => Err (Sentinel "json")
  end.

#[local] Instance demo_headers : HeaderCodec.
Proof.
  refine {| hc_Marshal := demo_hc_Marshal; hc_Unmarshal := demo_hc_Unmarshal |}.
  - by eexists.
  - intros l raw [= <-]. unfold demo_hc_Unmarshal. rewrite TrimPrefix_app, TrimSuffix_app.
    by rewrite of_bits_of, decode_encode.
  - intros l raw [= <-]. split; [done|]. by apply trimmed_app.
Defined.

#[local] Instance demo_configs : ConfigCodec () :=
  {| cc_S3 _ := Err (Sentinel "json"); cc_GCS _ := Err (Sentinel "json"); cc_EFS _ := Err (Sentinel "json");
     cc_EBS _ := Err (Sentinel "json"); cc_Plugin _ := Err (Sentinel "json") |}.

(** A capture of debug requests of a shop, half of them, that redacts one header
    more. *)
Definition demo_capture : TrafficCapture :=
  MkObject (newObjectMeta "prod" "shop" ∅)
    {| tcs_TargetRef := {| ptr_Kind := "HTTPRoute"; ptr_Name := "shop" |};
       tcs_StorageRef := {| csr_Name := "bucket" |};
       tcs_Capture := {| cst_IncludeHeaders := None; cst_IncludeBody := Some false; cst_MaxBodyBytes := Some 10;
                         cst_Duration := None; cst_RedactHeaders := ["X-Session"]; cst_DisableHeaderRedaction := None |};
       tcs_Filters := Some {| cf_Headers := [{| hm_Name := "x-debug"; hm_Value := "true" |}];
                              cf_PathPrefix := Some "/orders"; cf_Percentage := Some 50 |};
       tcs_Agent := None; tcs_Plugins := [] |}
    {| tcst_Phase := ""; tcst_StartTime := None; tcst_CapturedRequests := 0; tcst_BytesWritten := None;
       tcst_AgentStatus := None; tcst_Conditions := [] |}.

Definition demo_bucket : CaptureStorage :=
  MkObject (newObjectMeta "prod" "bucket" ∅)
    {| css_Type := CaptureStorageTypeS3;
       css_S3 := Some {| s3c_Bucket := "b"; s3c_Region := "eu"; s3c_Prefix := Some "captures";
                         s3c_CredentialsSecretRef := {| sor_Name := "aws"; sor_Namespace := None |} |};
       css_GCS := None; css_EFS := None; css_EBS := None; css_Plugin := None; css_Retention := None |}
    {| csst_Phase := CaptureStoragePhaseReady; csst_Conditions := [] |}.

Definition demo_getenv (n : string) : string :=
  match env_get (buildEnvVars (λ _, "") demo_capture demo_bucket) n with
  | Some (EnvValue v) => v
  | Some (EnvFieldRef _) => "agent-0"
  | _ => ""
  end.

Definition demo_request_of (path debug : string) : CapturedHTTPRequest :=
  {| chr_Method := "GET"; chr_Path := path; chr_Headers := {["X-Debug" := [debug]]}; chr_Body := ""; chr_BodyErr := None;
     chr_Protocol := "HTTP"; chr_Metadata := ∅ |}.

