(* ===== verification/Mirror.v ===== *)
(** * Traffic mirroring ([internal/spoke/mirror.go])

    A capture mirrors the traffic of an [HTTPRoute] or a [GRPCRoute] to its agent:
    [AddMirrorFilter] adds a request mirror filter to every rule of the route,
    [RemoveMirrorFilter] takes it out again.  The two kinds of route have the same
    code over types of the same shape, so the model has one function for both,
    indexed by the kind.  What the program does not look at in a route, a rule or
    a filter is an opaque [Rest]. *)

From S2P Require Import Prelude GoStd Kube Api CaptureApi ReplayJob Agent AgentDeployer.

Local Open Scope Z_scope.

Definition mirrorFilterAnnotationKey : string := "capture.gateway.io/traffic-capture".

(** ** Gateway API routes *)

Inductive route_kind := HTTPRoute | GRPCRoute.

#[global] Instance route_kind_eq_dec : EqDecision route_kind.
Proof. solve_decision. Defined.

Definition kind_name (k : route_kind) : string :=
  match k with HTTPRoute => "HTTPRoute" | GRPCRoute => "GRPCRoute" end.

Record BackendObjectReference := {
  bor_Name : string;
  bor_Namespace : option string;
  bor_Port : option Z
}.

(** [HTTPRouteFilter] and [GRPCRouteFilter]. *)
Record RouteFilter (Rest : Type) := {
  rtf_Type : string;
  rtf_RequestMirror : option BackendObjectReference;
  rtf_Rest : Rest
}.
Arguments Build_RouteFilter {Rest} _ _ _.
Arguments rtf_Type {Rest} _.
Arguments rtf_RequestMirror {Rest} _.

Record RouteRule (Rest : Type) := { rtr_Filters : list (RouteFilter Rest); rtr_Rest : Rest }.
Arguments Build_RouteRule {Rest} _ _.
Arguments rtr_Filters {Rest} _.
Arguments rtr_Rest {Rest} _.

Record RouteSpec (Rest : Type) (k : route_kind) := { rts_Rules : list (RouteRule Rest); rts_Rest : Rest }.
Arguments Build_RouteSpec {Rest k} _ _.
Arguments rts_Rules {Rest k} _.
Arguments rts_Rest {Rest k} _.

Record RouteStatus (Rest : Type) (k : route_kind) := { rst_Rest : Rest }.

Abbreviation Route Rest k := (Object (RouteSpec Rest k) (RouteStatus Rest k)).

Definition RequestMirror : string := "RequestMirror".
Definition captureAgentHTTPPort : Z := 8080.

(** ** Filters *)

Section Filters.
Context {Rest : Type} (no_rest : Rest).

(** The filter mirrors to the service. *)
Definition mirrors_to (svc : string) (f : RouteFilter Rest) : bool :=
  bool_decide (rtf_Type f = RequestMirror)
  && match rtf_RequestMirror f with Some ref => bool_decide (bor_Name ref = svc) | None => false end.

(** [hasHTTPMirrorFilter], [hasGRPCMirrorFilter]. *)
Definition hasMirrorFilter (filters : list (RouteFilter Rest)) (filterName : string) : bool :=
  existsb (mirrors_to filterName) filters.

(** [buildHTTPMirrorFilter], [buildGRPCMirrorFilter]: both use the HTTP port. *)
Definition buildMirrorFilter (namespace serviceName : string) : RouteFilter Rest :=
  {| rtf_Type := RequestMirror;
     rtf_RequestMirror := Some {| bor_Name := serviceName; bor_Namespace := Some namespace;
                                  bor_Port := Some captureAgentHTTPPort |};
     rtf_Rest := no_rest |}.

(** [removeHTTPMirrorFilters], [removeGRPCMirrorFilters]. *)
Definition removeMirrorFilters (filters : list (RouteFilter Rest)) (agentServiceName : string) : list (RouteFilter Rest) :=
  List.filter (λ f, negb (mirrors_to agentServiceName f)) filters.

Definition add_to_rule (namespace svc : string) (r : RouteRule Rest) : RouteRule Rest :=
  if hasMirrorFilter (rtr_Filters r) svc then r
  else Build_RouteRule (rtr_Filters r ++ [buildMirrorFilter namespace svc]) (rtr_Rest r).

Definition remove_from_rule (svc : string) (r : RouteRule Rest) : RouteRule Rest :=
  Build_RouteRule (removeMirrorFilters (rtr_Filters r) svc) (rtr_Rest r).
End Filters.

Definition mirrorFilterName (tc : TrafficCapture) : string := Namespace tc +:+ "/" +:+ Name tc.

Definition om_with_Annotations (a : gmap string string) (m : ObjectMeta) : ObjectMeta :=
  MkObjectMeta (om_Name m) (om_Namespace m) (om_UID m) (om_Labels m) a (om_Finalizers m)
    (om_OwnerReferences m) (om_CreationTimestamp m) (om_DeletionTimestamp m) (om_Generation m).

Definition setAnnotation (m : ObjectMeta) (value : string) : ObjectMeta :=
  om_with_Annotations (<[mirrorFilterAnnotationKey := value]> (om_Annotations m)) m.

(** ** Routes *)

Section Mirror.
Context {W Rest : Type} (no_rest : Rest).
Context {KR : ∀ k, KubeClient W (RouteSpec Rest k) (RouteStatus Rest k)} {AE : ApiErrors}.

(** The route with its filters added. *)
Definition with_mirror {k} (tc : TrafficCapture) (svc : string) (route : Route Rest k) : Route Rest k :=
  MkObject (setAnnotation (Meta route) (mirrorFilterName tc))
    (Build_RouteSpec (add_to_rule no_rest (Namespace tc) svc <$> rts_Rules (Spec route)) (rts_Rest (Spec route)))
    (Status route).

Definition without_mirror {k} (tc : TrafficCapture) (route : Route Rest k) : Route Rest k :=
  MkObject (om_with_Annotations (delete mirrorFilterAnnotationKey (om_Annotations (Meta route))) (Meta route))
    (Build_RouteSpec (remove_from_rule (AgentServiceName tc) <$> rts_Rules (Spec route)) (rts_Rest (Spec route)))
    (Status route).

(** [addHTTPRouteMirror], [addGRPCRouteMirror]. *)
Definition addRouteMirror (k : route_kind) (tc : TrafficCapture) (svc : string) (w : W) : W * option go_error :=
  let name := ptr_Name (tcs_TargetRef (Spec tc)) in
  match (client_Get (Namespace tc) name w : result (Route Rest k)) with
  | Err err => (w, Some (WrapError ("get " +:+ kind_name k +:+ " %s: %w") [FStr name] err))
  | Ok route => let '(w, (_, err)) := client_Update (with_mirror tc svc route) w in (w, err)
  end.

(** [removeHTTPRouteMirror], [removeGRPCRouteMirror]. *)
Definition removeRouteMirror (k : route_kind) (tc : TrafficCapture) (w : W) : W * option go_error :=
  match (client_Get (Namespace tc) (ptr_Name (tcs_TargetRef (Spec tc))) w : result (Route Rest k)) with
  | Err err => (w, IgnoreNotFound err)
  | Ok route => let '(w, (_, err)) := client_Update (without_mirror tc route) w in (w, err)
  end.

Definition parse_kind (kind : string) : option route_kind :=
  if bool_decide (kind = "HTTPRoute") then Some HTTPRoute
  else if bool_decide (kind = "GRPCRoute") then Some GRPCRoute else None.

Definition AddMirrorFilter (tc : TrafficCapture) (svc : string) (w : W) : W * option go_error :=
  match parse_kind (ptr_Kind (tcs_TargetRef (Spec tc))) with
  | Some k => addRouteMirror k tc svc w
  | None => (w, Some (FmtError "unsupported target kind: %s" [FStr (ptr_Kind (tcs_TargetRef (Spec tc)))]))
  end.

Definition RemoveMirrorFilter (tc : TrafficCapture) (w : W) : W * option go_error :=
  match parse_kind (ptr_Kind (tcs_TargetRef (Spec tc))) with
  | Some k => removeRouteMirror k tc w
  | None => (w, Some (FmtError "unsupported target kind: %s" [FStr (ptr_Kind (tcs_TargetRef (Spec tc)))]))
  end.
End Mirror.

(** ** Lemmas *)

Section Lemmas.
Context {Rest : Type} (no_rest : Rest).
Implicit Types (fs : list (RouteFilter Rest)) (r : RouteRule Rest).

Lemma built_mirrors ns svc : mirrors_to svc (buildMirrorFilter no_rest ns svc) = true.
Proof. unfold mirrors_to. simpl. by rewrite !bool_decide_eq_true_2. Qed.

Lemma add_has ns svc r : hasMirrorFilter (rtr_Filters (add_to_rule no_rest ns svc r)) svc = true.
Proof.
  unfold add_to_rule. destruct (hasMirrorFilter (rtr_Filters r) svc) eqn:E; [done|]. simpl.
  unfold hasMirrorFilter. rewrite existsb_app, orb_true_iff. right. simpl. by rewrite built_mirrors.
Qed.

Lemma add_idempotent ns svc r : add_to_rule no_rest ns svc (add_to_rule no_rest ns svc r) = add_to_rule no_rest ns svc r.
Proof. unfold add_to_rule at 1. by rewrite add_has. Qed.

Lemma remove_none svc fs : hasMirrorFilter (removeMirrorFilters fs svc) svc = false.
Proof.
  induction fs as [|f fs IH]; [done|]. unfold removeMirrorFilters. simpl.
  destruct (mirrors_to svc f) eqn:E; simpl; [exact IH|by rewrite E].
Qed.

Lemma remove_id svc fs : hasMirrorFilter fs svc = false → removeMirrorFilters fs svc = fs.
Proof.
  induction fs as [|f fs IH]; [done|]. simpl. intros [Hf Hfs]%orb_false_iff.
  unfold removeMirrorFilters in *. simpl. by rewrite Hf, IH.
Qed.

(** Removing what was added gives the rule back. *)
Lemma remove_add ns svc r : hasMirrorFilter (rtr_Filters r) svc = false →
  remove_from_rule svc (add_to_rule no_rest ns svc r) = r.
Proof.
  intros Hr. unfold add_to_rule. rewrite Hr. unfold remove_from_rule. simpl.
  unfold removeMirrorFilters. rewrite List.filter_app. simpl. rewrite built_mirrors. simpl.
  fold (removeMirrorFilters (rtr_Filters r) svc). rewrite remove_id, app_nil_r by done. by destruct r.
Qed.

(** The filters that do not mirror to the service: those neither operation
    touches. *)
Lemma add_others ns svc r : removeMirrorFilters (rtr_Filters (add_to_rule no_rest ns svc r)) svc
  = removeMirrorFilters (rtr_Filters r) svc.
Proof.
  unfold add_to_rule. destruct (hasMirrorFilter (rtr_Filters r) svc); [done|]. simpl. unfold removeMirrorFilters.
  rewrite List.filter_app. simpl. rewrite built_mirrors. by rewrite app_nil_r.
Qed.

(** Filters to other services stay where they are. *)
Lemma remove_other svc svc' fs : svc ≠ svc' → hasMirrorFilter (removeMirrorFilters fs svc) svc' = hasMirrorFilter fs svc'.
Proof.
  intros Hne. induction fs as [|f fs IH]; [done|]. unfold removeMirrorFilters in *. simpl.
  destruct (mirrors_to svc f) eqn:E; simpl; rewrite IH; [|done].
  assert (mirrors_to svc' f = false) as ->; [|done].
  unfold mirrors_to in *. apply andb_true_iff in E as [-> E]. destruct (rtf_RequestMirror f) as [ref|]; [|done].
  apply bool_decide_eq_true in E. by rewrite bool_decide_eq_false_2 by congruence.
Qed.

Lemma add_other ns svc svc' r : svc ≠ svc' →
  hasMirrorFilter (rtr_Filters (add_to_rule no_rest ns svc r)) svc' = hasMirrorFilter (rtr_Filters r) svc'.
Proof.
  intros Hne. unfold add_to_rule. destruct (hasMirrorFilter (rtr_Filters r) svc); [done|]. simpl. unfold hasMirrorFilter.
  rewrite existsb_app. simpl. unfold mirrors_to at 2. simpl. rewrite (bool_decide_eq_false_2 (svc = svc')) by done.
  by rewrite ?andb_false_r, ?orb_false_r.
Qed.
End Lemmas.

(** ** The target route of a capture *)

Section Target.
Context {W Rest : Type} (no_rest : Rest).
Context {KR : ∀ k, KubeClient W (RouteSpec Rest k) (RouteStatus Rest k)} {AE : ApiErrors}.
Context {KRL : ∀ k, KubeClientLaws W (RouteSpec Rest k) (RouteStatus Rest k)}.

Definition get_route (k : route_kind) (ns n : string) (w : W) : result (Route Rest k) := client_Get ns n w.

(** The target route of a capture, of its kind. *)
Definition target (tc : TrafficCapture) (w : W) : option { k & Route Rest k } :=
  match parse_kind (ptr_Kind (tcs_TargetRef (Spec tc))) with
  | None => None
  | Some k =>
      match get_route k (Namespace tc) (ptr_Name (tcs_TargetRef (Spec tc))) w with
      | Ok route => Some (existT k route)
      | Err _ => None
      end
  end.

(** Every rule, or no rule, of the target mirrors to the service. *)
Definition mirrored (tc : TrafficCapture) (svc : string) (w : W) : Prop :=
  ∃ k (route : Route Rest k), target tc w = Some (existT k route) ∧
    Forall (λ r, hasMirrorFilter (rtr_Filters r) svc = true) (rts_Rules (Spec route)).

Definition unmirrored (tc : TrafficCapture) (svc : string) (w : W) : Prop :=
  ∀ k (route : Route Rest k), target tc w = Some (existT k route) →
    Forall (λ r, hasMirrorFilter (rtr_Filters r) svc = false) (rts_Rules (Spec route)).

(** A successful update of a route that is not being deleted is read back. *)
Lemma route_updated k (o old o' : Route Rest k) w w' : client_Update o w = (w', (o', None)) →
  get_route k (Namespace o) (Name o) w = Ok old → om_DeletionTimestamp (Meta old) = None →
  get_route k (Namespace o) (Name o) w' = Ok o' ∧ Spec o' = Spec o.
Proof using KRL.
  intros Hu Hg Hd. destruct (update_ok _ _ _ _ Hu) as (_ & Hsp & Hold & Hrb).
  destruct (Hold old Hg) as [_ Hsm]. split; [|done]. apply Hrb. intros [Hdel _].
  unfold server_meta in Hsm. congruence.
Qed.

(** The target is not being deleted. *)
Definition target_live (tc : TrafficCapture) (w : W) : Prop :=
  ∀ k (route : Route Rest k), target tc w = Some (existT k route) → om_DeletionTimestamp (Meta route) = None.

Lemma AddMirrorFilter_spec tc svc w w' : target_live tc w → AddMirrorFilter no_rest tc svc w = (w', None) →
  ∃ k (route route' : Route Rest k), target tc w = Some (existT k route) ∧ target tc w' = Some (existT k route') ∧
    rts_Rules (Spec route') = add_to_rule no_rest (Namespace tc) svc <$> rts_Rules (Spec route) ∧
    rts_Rest (Spec route') = rts_Rest (Spec route).
Proof using KRL.
  intros Hlive. unfold AddMirrorFilter, addRouteMirror, target in *.
  destruct (parse_kind _) as [k|] eqn:Hk; [|done]. fold (get_route k (Namespace tc) (ptr_Name (tcs_TargetRef (Spec tc))) w).
  destruct (get_route k _ _ w) as [route|e] eqn:Hg; [|done]. destruct (get_name _ _ _ _ Hg) as [Hns Hn].
  destruct (client_Update _ w) as [w1 [o' e]] eqn:Hu. intros [= -> ->].
  destruct (route_updated k _ route o' w w' Hu) as [Hg' Hsp].
  { unfold Namespace, Name in *. simpl. by rewrite Hns, Hn. }
  { apply Hlive. unfold target. by rewrite Hk, Hg. }
  exists k, route, o'. unfold Namespace, Name in *. simpl in Hg'. rewrite Hns, Hn in Hg'. rewrite Hg'.
  split; [done|]. split; [done|]. by rewrite Hsp.
Qed.

Lemma RemoveMirrorFilter_spec tc w w' : target_live tc w → RemoveMirrorFilter (Rest := Rest) tc w = (w', None) →
  match target tc w with
  | Some (existT k route) => ∃ route' : Route Rest k, target tc w' = Some (existT k route') ∧
      rts_Rules (Spec route') = remove_from_rule (AgentServiceName tc) <$> rts_Rules (Spec route) ∧
      rts_Rest (Spec route') = rts_Rest (Spec route)
  | None => w' = w
  end.
Proof using KRL.
  intros Hlive. unfold RemoveMirrorFilter, removeRouteMirror, target in *.
  destruct (parse_kind _) as [k|] eqn:Hk; [|done]. fold (get_route k (Namespace tc) (ptr_Name (tcs_TargetRef (Spec tc))) w).
  destruct (get_route k _ _ w) as [route|e] eqn:Hg; [|by intros [= ->]]. destruct (get_name _ _ _ _ Hg) as [Hns Hn].
  destruct (client_Update _ w) as [w1 [o' e]] eqn:Hu. intros [= -> ->].
  destruct (route_updated k _ route o' w w' Hu) as [Hg' Hsp].
  { unfold Namespace, Name in *. simpl. by rewrite Hns, Hn. }
  { apply Hlive. unfold target. by rewrite Hk, Hg. }
  exists o'. unfold Namespace, Name in *. simpl in Hg'. rewrite Hns, Hn in Hg'. rewrite Hg'.
  split; [done|]. by rewrite Hsp.
Qed.
End Target.
