(* ===== verification/CaptureController.v ===== *)
(** * The capture controller ([internal/spoke/controller.go])

    The reconciler of a [TrafficCapture]: it deploys the agent for a storage that
    is ready, mirrors the target route's traffic to it, keeps the status, completes
    the capture when its duration has passed and tears it down. *)

From S2P Require Import Prelude GoStd GoFlag HubProto Kube KubeWorld Api CaptureApi ReplayJob Agent AgentDeployer Mirror.

Local Open Scope Z_scope.

Definition finalizerName : string := "capture.gateway.io/cleanup".

(** What the reconciler acts on: the API server and the statuses it reported to
    the hub. *)
Record cap_world (W : Type) := CapWorld { cw_api : W; cw_reports : list CaptureStatusSummary }.
Arguments CapWorld {W} _ _.
Arguments cw_api {W} _.
Arguments cw_reports {W} _.

(** The readings of the clock in one reconcile: the test of expiry, the start
    time, and the time left. *)
Record capture_clock := { ck_check : Z; ck_start : Z; ck_left : Z }.

Definition done_ok : Result := {| RequeueAfter := 0 |}.
Definition requeue_after (d : Z) : Result := {| RequeueAfter := d |}.

Definition set_api {W} (w : W) (s : cap_world W) : cap_world W := CapWorld w (cw_reports s).

(** ** The status *)

Definition captureExpired {GP : GoParse} (now : Z) (tc : TrafficCapture) : bool * Z :=
  match cst_Duration (tcs_Capture (Spec tc)), tcst_StartTime (Status tc) with
  | Some d, Some start =>
      match ParseDuration d with
      | Err _ => (false, 0)
      | Ok duration => let remaining := int64 (duration - time_Sub now start) in (remaining <=? 0, remaining)
      end
  | _, _ => (false, 0)
  end.

Definition capture_phase (phase : string) : CapturePhase :=
  if bool_decide (phase = TrafficCapturePhasePending) then CAPTURE_PHASE_PENDING
  else if bool_decide (phase = TrafficCapturePhaseActive) then CAPTURE_PHASE_ACTIVE
  else if bool_decide (phase = TrafficCapturePhaseCompleted) then CAPTURE_PHASE_COMPLETED
  else if bool_decide (phase = TrafficCapturePhaseFailed) then CAPTURE_PHASE_FAILED
  else CAPTURE_PHASE_UNSPECIFIED.

Definition capture_summary (tc : TrafficCapture) : CaptureStatusSummary :=
  {| css_CaptureName := Name tc; css_CaptureNamespace := Namespace tc;
     css_Phase := capture_phase (tcst_Phase (Status tc));
     css_CapturedRequests := tcst_CapturedRequests (Status tc); css_BytesWritten := 0;
     css_ReadyReplicas := from_option cas_ReadyReplicas 0 (tcst_AgentStatus (Status tc));
     css_DesiredReplicas := from_option cas_DesiredReplicas 0 (tcst_AgentStatus (Status tc)) |}.

(** Best effort: what the hub answers is ignored. *)
Definition report_capture {W} (connected : bool) (tc : TrafficCapture) (s : cap_world W) : cap_world W :=
  if connected then CapWorld (cw_api s) (cw_reports s ++ [capture_summary tc]) else s.

(** The status with its phase, start time, agents and Ready condition. *)
Definition tcst_with (phase : string) (start : option Z) (agents : option CaptureAgentStatus) (c : Condition)
    (st : TrafficCaptureStatus) : TrafficCaptureStatus :=
  {| tcst_Phase := phase; tcst_StartTime := start; tcst_CapturedRequests := tcst_CapturedRequests st;
     tcst_BytesWritten := tcst_BytesWritten st; tcst_AgentStatus := agents;
     tcst_Conditions := setCondition (tcst_Conditions st) c |}.

Definition ready_condition (status : ConditionStatus) (reason : string) (message : text) : Condition :=
  {| cond_Type := "Ready"; cond_Status := status; cond_Reason := reason; cond_Message := message |}.

(** The status [updateStatus] derives from the Deployment. *)
Definition observed (start ready desired : Z) (st : TrafficCaptureStatus) : TrafficCaptureStatus :=
  let active := 0 <? ready in
  tcst_with (if active then TrafficCapturePhaseActive else TrafficCapturePhasePending)
    (if active then Some (default start (tcst_StartTime st)) else tcst_StartTime st)
    (Some {| cas_ReadyReplicas := ready; cas_DesiredReplicas := desired |})
    (ready_condition (conditionStatus active) "AgentDeployment" (Fmt "%d/%d agents ready" [FInt ready; FInt desired])) st.

(** The status [completeCapture] writes. *)
Definition completed (st : TrafficCaptureStatus) : TrafficCaptureStatus :=
  tcst_with TrafficCapturePhaseCompleted (tcst_StartTime st) (tcst_AgentStatus st)
    (ready_condition ConditionFalse "CaptureCompleted"
       (Fmt "capture duration elapsed; mirroring stopped and agents removed" [])) st.

(** ** Writing resources *)

Section Resources.
Context {W : Type} {AE : ApiErrors}.

(** The resource version [createOrUpdate] copies is not part of [ObjectMeta]. *)
Definition createOrUpdate {Sp St} {K : KubeClient W Sp St} (o : Object Sp St) (w : W) : W * option go_error :=
  match (client_Get (Namespace o) (Name o) w : result (Object Sp St)) with
  | Err err => if IsNotFound err then client_Create o w else (w, Some err)
  | Ok _ => let '(w, (_, err)) := client_Update o w in (w, err)
  end.

(** Owner reference and write of one resource of the agent; [set_owner] is
    [controllerutil.SetControllerReference]. *)
Definition apply_owned {Sp St} {K : KubeClient W Sp St}
    (set_owner : TrafficCapture → Object Sp St → result (Object Sp St))
    (what : string) (tc : TrafficCapture) (o : Object Sp St) (w : W) : W * option go_error :=
  match set_owner tc o with
  | Err err => (w, Some (WrapError ("set owner reference on " +:+ what +:+ ": %w") [] err))
  | Ok o =>
      match createOrUpdate o w with
      | (w, Some err) => (w, Some (WrapError ("create/update " +:+ what +:+ ": %w") [] err))
      | (w, None) => (w, None)
      end
  end.

(** One deletion of [completeCapture]. *)
Definition delete_agent {Sp St} {K : KubeClient W Sp St} (what : string) (o : Object Sp St) (w : W) : W * option go_error :=
  let '(w, err) := client_Delete o w in
  (w, match err ≫= IgnoreNotFound with
      | Some err => Some (WrapError ("delete agent " +:+ what +:+ ": %w") [] err)
      | None => None
      end).
End Resources.

(** The stubs [completeCapture] passes to [Delete]. *)
Definition agent_meta (tc : TrafficCapture) : ObjectMeta := newObjectMeta (Namespace tc) (AgentDeploymentName tc) ∅.
Definition hpa_stub (tc : TrafficCapture) : HorizontalPodAutoscaler :=
  MkObject (agent_meta tc)
    {| hpa_ScaleTargetRef := {| cv_APIVersion := ""; cv_Kind := ""; cv_Name := "" |};
       hpa_MinReplicas := None; hpa_MaxReplicas := 0; hpa_Metrics := [] |} EmptyHPAStatus.
Definition deployment_stub (tc : TrafficCapture) : Deployment :=
  MkObject (agent_meta tc)
    {| ds_Replicas := None; ds_MatchLabels := ∅; ds_TemplateLabels := ∅; ds_Containers := [] |} {| dst_ReadyReplicas := 0 |}.
Definition service_stub (tc : TrafficCapture) : Service :=
  MkObject (agent_meta tc) {| svc_Type := ""; svc_Selector := ∅; svc_Ports := [] |} EmptyServiceStatus.

(** Fallible steps, up to the first error. *)
Fixpoint run_steps {W} (steps : list (W → W * option go_error)) (w : W) : W * option go_error :=
  match steps with
  | [] => (w, None)
  | step :: steps =>
      match step w with
      | (w, Some err) => (w, Some err)
      | (w, None) => run_steps steps w
      end
  end.

(** [fmt.Errorf(text, err)] around the error of a step. *)
Definition wrapping {W} (text : string) (step : W → W * option go_error) (w : W) : W * option go_error :=
  let '(w, err) := step w in (w, WrapError text [] <$> err).

(** ** The reconciler *)

Section Controller.
Context {W Rest : Type} (no_rest : Rest).
Context {KC : KubeClient W TrafficCaptureSpec TrafficCaptureStatus}.
Context {KS : KubeClient W CaptureStorageSpec CaptureStorageStatus}.
Context {KD : KubeClient W DeploymentSpec DeploymentStatus} {KV : KubeClient W ServiceSpec ServiceStatus}.
Context {KH : KubeClient W HPASpec HPAStatus}.
Context {KR : ∀ k, KubeClient W (RouteSpec Rest k) (RouteStatus Rest k)}.
Context {AE : ApiErrors} {CU : ControllerUtil} {GP : GoParse} {HC : HeaderCodec}.
(** [controllerutil.SetControllerReference], the spoke's environment, the agent's
    image, and whether the spoke is connected to the hub. *)
Context (own_deployment : TrafficCapture → Deployment → result Deployment).
Context (own_service : TrafficCapture → Service → result Service).
Context (own_hpa : TrafficCapture → HorizontalPodAutoscaler → result HorizontalPodAutoscaler).
Context (getenv : string → string) (CaptureAgentImage : string) (connected : bool) (clk : capture_clock).

(** A reconcile panics when a Deployment has no replica count. *)
Abbreviation outcome := (go (cap_world W * result Result)).

Definition setPhaseWithCondition (tc : TrafficCapture) (phase reason : string) (message : text) (s : cap_world W)
    : cap_world W * result Result :=
  let st := Status tc in
  let tc := with_Status (tcst_with phase (tcst_StartTime st) (tcst_AgentStatus st)
                           (ready_condition ConditionFalse reason message) st) tc in
  match client_StatusUpdate tc (cw_api s) with
  | (w, (_, Some err)) => (set_api w s, Err err)
  | (w, (_, None)) =>
      (set_api w s, Ok (if bool_decide (phase = TrafficCapturePhasePending) then requeue_after (10 * Second) else done_ok))
  end.

(** The mirror filter may stay behind: its removal is best effort. *)
Definition reconcileDelete (tc : TrafficCapture) (s : cap_world W) : cap_world W * result Result :=
  let '(w, _) := RemoveMirrorFilter (Rest := Rest) tc (cw_api s) in
  match client_Update (with_Meta (RemoveFinalizer (Meta tc) finalizerName) tc) w with
  | (w, (_, Some err)) => (set_api w s, Err err)
  | (w, (_, None)) => (set_api w s, Ok done_ok)
  end.

(** What [completeCapture] takes down. *)
Definition teardown (tc : TrafficCapture) : W → W * option go_error :=
  run_steps [wrapping "remove mirror filter: %w" (RemoveMirrorFilter (Rest := Rest) tc);
             delete_agent "*v2.HorizontalPodAutoscaler" (hpa_stub tc);
             delete_agent "*v1.Deployment" (deployment_stub tc);
             delete_agent "*v1.Service" (service_stub tc)].

Definition completeCapture (tc : TrafficCapture) (s : cap_world W) : cap_world W * result Result :=
  match teardown tc (cw_api s) with
  | (w, Some err) => (set_api w s, Err err)
  | (w, None) =>
      match client_StatusUpdate (with_Status (completed (Status tc)) tc) w with
      | (w, (_, Some err)) => (set_api w s, Err err)
      | (w, (tc, None)) => (report_capture connected tc (set_api w s), Ok done_ok)
      end
  end.

(** Also the object as the API server returned it, for the report. *)
Definition updateStatus (tc : TrafficCapture) (w : W) : go (W * (TrafficCapture * result Result)) :=
  match (client_Get (Namespace tc) (AgentDeploymentName tc) w : result Deployment) with
  | Err err => Ret (w, (tc, if IsNotFound err then Ok (requeue_after (5 * Second)) else Err err))
  | Ok deploy =>
      match ds_Replicas (Spec deploy) with
      | None => Panic
      | Some desired =>
          let st := observed (ck_start clk) (dst_ReadyReplicas (Status deploy)) desired (Status tc) in
          match client_StatusUpdate (with_Status st tc) w with
          | (w, (tc, Some err)) => Ret (w, (tc, Err err))
          | (w, (tc, None)) =>
              let '(expired, remaining) := captureExpired (ck_left clk) tc in
              let sooner := negb expired && (0 <? remaining) && (remaining <? 30 * Second) in
              Ret (w, (tc, Ok (requeue_after (if sooner then remaining else 30 * Second))))
          end
      end
  end.

(** Steps 2 to 5 of [Reconcile]. *)
Definition deploy_agent (tc : TrafficCapture) (storage : CaptureStorage) : W → W * option go_error :=
  run_steps [apply_owned own_deployment "Deployment" tc (BuildDeployment getenv CaptureAgentImage tc storage);
             apply_owned own_service "Service" tc (BuildService tc);
             apply_owned own_hpa "HPA" tc (BuildHPA tc);
             wrapping "add mirror filter: %w" (AddMirrorFilter no_rest tc (AgentServiceName tc))].

Definition reconcileLive (tc : TrafficCapture) (s : cap_world W) : outcome :=
  if bool_decide (tcst_Phase (Status tc) = TrafficCapturePhaseCompleted) then Ret (s, Ok done_ok)
  else if fst (captureExpired (ck_check clk) tc) then Ret (completeCapture tc s)
  else
    let key := Namespace tc +:+ "/" +:+ csr_Name (tcs_StorageRef (Spec tc)) in
    match client_Get (Namespace tc) (csr_Name (tcs_StorageRef (Spec tc))) (cw_api s) with
    | Err err =>
        Ret (setPhaseWithCondition tc TrafficCapturePhaseFailed "StorageNotFound"
               (ErrText (WrapError "CaptureStorage %s not found: %v" [FStr key] err)) s)
    | Ok storage =>
        if bool_decide (csst_Phase (Status storage) ≠ CaptureStoragePhaseReady) then
          Ret (setPhaseWithCondition tc TrafficCapturePhasePending "StorageNotReady"
                 (Fmt "CaptureStorage %s is not Ready" [FStr key]) s)
        else
          match deploy_agent tc storage (cw_api s) with
          | (w, Some err) => Ret (set_api w s, Err err)
          | (w, None) =>
              match updateStatus tc w with
              | Panic => Panic
              | Ret (w, (_, Err err)) => Ret (set_api w s, Err err)
              | Ret (w, (tc, Ok r)) => Ret (report_capture connected tc (set_api w s), Ok r)
              end
          end
    end.

Definition Reconcile (namespace name : string) (s : cap_world W) : outcome :=
  match client_Get namespace name (cw_api s) with
  | Err err => Ret (s, match IgnoreNotFound err with Some err => Err err | None => Ok done_ok end)
  | Ok tc =>
      if bool_decide (om_DeletionTimestamp (Meta tc) ≠ None) then Ret (reconcileDelete tc s)
      else if ContainsFinalizer (Meta tc) finalizerName then reconcileLive tc s
      else
        match client_Update (with_Meta (AddFinalizer (Meta tc) finalizerName) tc) (cw_api s) with
        | (w, (_, Some err)) => Ret (set_api w s, Err err)
        | (w, (tc, None)) => reconcileLive tc (set_api w s)
        end
  end.
End Controller.
