(* ===== verification/CaptureLifecycle.v ===== *)
(** * The life of a capture

    Theorems about the reconciler of [CaptureController] over an API server that
    keeps resources of different kinds apart: when the traffic of a route is
    mirrored, to what, and what is left of a capture whose time is over. *)

From S2P Require Import Prelude GoStd GoFlag HubProto Kube KubeWorld Api CaptureApi ReplayJob Agent AgentDeployer Mirror CaptureController AgentMain.

Local Open Scope Z_scope.

(** ** The kinds of resources *)

Inductive cap_kind := CaptureK | StorageK | DeploymentK | ServiceK | HPAK | RouteK (k : route_kind).

#[global] Instance cap_kind_eq_dec : EqDecision cap_kind.
Proof. solve_decision. Defined.

Definition spec_of (Rest : Type) (k : cap_kind) : Type :=
  match k with
  | CaptureK => TrafficCaptureSpec | StorageK => CaptureStorageSpec | DeploymentK => DeploymentSpec
  | ServiceK => ServiceSpec | HPAK => HPASpec | RouteK k => RouteSpec Rest k
  end.

Definition status_of (Rest : Type) (k : cap_kind) : Type :=
  match k with
  | CaptureK => TrafficCaptureStatus | StorageK => CaptureStorageStatus | DeploymentK => DeploymentStatus
  | ServiceK => ServiceStatus | HPAK => HPAStatus | RouteK k => RouteStatus Rest k
  end.

Section Lifecycle.
Context {W Rest : Type} (no_rest : Rest) {AE : ApiErrors} {CU : ControllerUtil} {GP : GoParse} {HC : HeaderCodec}.
Context {K : ∀ k, KubeClient W (spec_of Rest k) (status_of Rest k)}.
Context {L : ∀ k, KubeClientLaws W (spec_of Rest k) (status_of Rest k)}.
Hypothesis apart : ∀ k k', k ≠ k' →
  Separate W (spec_of Rest k) (status_of Rest k) (spec_of Rest k') (status_of Rest k').

#[local] Instance KC : KubeClient W TrafficCaptureSpec TrafficCaptureStatus := K CaptureK.
#[local] Instance KS : KubeClient W CaptureStorageSpec CaptureStorageStatus := K StorageK.
#[local] Instance KD : KubeClient W DeploymentSpec DeploymentStatus := K DeploymentK.
#[local] Instance KV : KubeClient W ServiceSpec ServiceStatus := K ServiceK.
#[local] Instance KH : KubeClient W HPASpec HPAStatus := K HPAK.
#[local] Instance KR k : KubeClient W (RouteSpec Rest k) (RouteStatus Rest k) := K (RouteK k).
#[local] Instance LC : KubeClientLaws W TrafficCaptureSpec TrafficCaptureStatus := L CaptureK.
#[local] Instance LR k : KubeClientLaws W (RouteSpec Rest k) (RouteStatus Rest k) := L (RouteK k).

Abbreviation object k := (Object (spec_of Rest k) (status_of Rest k)).

Definition read (k : cap_kind) (ns n : string) (w : W) : result (object k) := client_Get ns n w.

(** The resources of a kind read the same. *)
Definition keeps (k : cap_kind) (w w' : W) : Prop := ∀ ns n, read k ns n w' = read k ns n w.

#[local] Instance keeps_refl k : Reflexive (keeps k).
Proof. done. Qed.

#[local] Instance keeps_trans k : Transitive (keeps k).
Proof. intros w1 w2 w3 H1 H2 ns n. by rewrite H2, H1. Qed.

(** The resource is not being deleted. *)
Definition live (k : cap_kind) (ns n : string) (w : W) : Prop :=
  ∀ o, read k ns n w = Ok o → om_DeletionTimestamp (Meta o) = None.

(** The resource is gone or on its way out. *)
Definition gone (k : cap_kind) (ns n : string) (w : W) : Prop :=
  ∀ o, read k ns n w = Ok o → om_DeletionTimestamp (Meta o) ≠ None.

(** ** Writes *)

Lemma update_keeps k k' (o : object k) w w' r : k ≠ k' → client_Update o w = (w', r) → keeps k' w w'.
Proof using apart. intros Hne Hu ns n. pose proof (separate_update (Separate := apart k k' Hne) o w ns n) as Hs. by rewrite Hu in Hs. Qed.

Lemma status_keeps k k' (o : object k) w w' r : k ≠ k' → client_StatusUpdate o w = (w', r) → keeps k' w w'.
Proof using apart. intros Hne Hu ns n. pose proof (separate_status (Separate := apart k k' Hne) o w ns n) as Hs. by rewrite Hu in Hs. Qed.

Lemma createOrUpdate_keeps k k' (o : object k) w w' e : k ≠ k' → createOrUpdate o w = (w', e) → keeps k' w w'.
Proof using apart.
  intros Hne. unfold createOrUpdate. destruct (client_Get _ _ w) as [old|err].
  - destruct (client_Update o w) as [w1 [o' e']] eqn:Hu. intros [= <- <-]. by eapply update_keeps.
  - destruct (IsNotFound err); [|by intros [= <- _]]. intros Hc ns n.
    pose proof (separate_create (Separate := apart k k' Hne) o w ns n) as Hs. by rewrite Hc in Hs.
Qed.

Lemma createOrUpdate_ok k (o : object k) w w' : createOrUpdate o w = (w', None) → live k (Namespace o) (Name o) w →
  ∃ o', read k (Namespace o) (Name o) w' = Ok o' ∧ Spec o' = Spec o.
Proof using L.
  intros Hc Hlive. unfold createOrUpdate in Hc. destruct (client_Get (Namespace o) (Name o) w) as [old|err] eqn:Hg.
  - destruct (client_Update o w) as [w1 [o' e']] eqn:Hu. injection Hc as -> ->.
    destruct (update_ok _ _ _ _ Hu) as (_ & Hsp & Hold & Hrb). destruct (Hold old Hg) as [_ Hsm].
    exists o'. split; [|done]. apply Hrb. intros [Hd _]. specialize (Hlive old Hg). unfold server_meta in Hsm. congruence.
  - destruct (IsNotFound err); [|done]. destruct (create_ok _ _ _ Hc) as (_ & o' & Hg' & Hsp & _). by exists o'.
Qed.

(** [controllerutil.SetControllerReference] changes the owner references only. *)
Definition owner_only {k} (set_owner : TrafficCapture → object k → result (object k)) : Prop :=
  ∀ tc o o', set_owner tc o = Ok o' → Spec o' = Spec o ∧ Namespace o' = Namespace o ∧ Name o' = Name o.

Lemma apply_owned_spec k (set_owner : TrafficCapture → object k → result (object k)) what tc (o : object k) w w' e :
  apply_owned set_owner what tc o w = (w', e) →
  (∀ k', k ≠ k' → keeps k' w w') ∧
  (e = None → owner_only set_owner → live k (Namespace o) (Name o) w →
   ∃ o', read k (Namespace o) (Name o) w' = Ok o' ∧ Spec o' = Spec o).
Proof using L apart.
  unfold apply_owned. destruct (set_owner tc o) as [o1|err] eqn:Hset; [|by intros [= <- <-]; split].
  destruct (createOrUpdate o1 w) as [w1 [err|]] eqn:Hc; intros [= <- <-];
    (split; [by intros k' Hne; eapply createOrUpdate_keeps|]); [done|].
  intros _ Hown Hlive. destruct (Hown _ _ _ Hset) as (Hsp & Hns & Hn). rewrite <-Hns, <-Hn in *.
  destruct (createOrUpdate_ok k o1 w w1 Hc Hlive) as (o' & Hg & Hsp'). exists o'. by rewrite Hsp', Hsp.
Qed.

Lemma delete_agent_spec k what (o : object k) w w' e : delete_agent what o w = (w', e) →
  (∀ k', k ≠ k' → keeps k' w w') ∧ (e = None → gone k (Namespace o) (Name o) w').
Proof using L apart.
  unfold delete_agent. destruct (client_Delete o w) as [w1 err] eqn:Hd. intros [= <- <-]. split.
  - intros k' Hne ns n. pose proof (separate_delete (Separate := apart k k' Hne) o w ns n) as Hs. by rewrite Hd in Hs.
  - intros He o' Ho'. destruct err as [err|]; [|by eapply (delete_ok _ _ _ Hd)].
    simpl in He. unfold IgnoreNotFound in He. destruct (IsNotFound err) eqn:Hnf; [|done]. exfalso.
    pose proof (delete_err _ _ _ _ Hd) as ->. exact (delete_not_found _ _ _ _ Hd Hnf o' Ho').
Qed.

(** ** The target route *)

Definition is_target (tc : TrafficCapture) (k : route_kind) (ns n : string) : Prop :=
  parse_kind (ptr_Kind (tcs_TargetRef (Spec tc))) = Some k ∧ ns = Namespace tc ∧ n = ptr_Name (tcs_TargetRef (Spec tc)).

(** Of the routes the target changes by [f] on its rules, if any does. *)
Definition reroutes (tc : TrafficCapture) (f : RouteRule Rest → RouteRule Rest) (w w' : W) : Prop :=
  ∀ k ns n, read (RouteK k) ns n w' = read (RouteK k) ns n w ∨
    is_target tc k ns n ∧ (live (RouteK k) ns n w → ∃ r r' : Route Rest k,
      read (RouteK k) ns n w = Ok r ∧ read (RouteK k) ns n w' = Ok r' ∧
      rts_Rules (Spec r') = f <$> rts_Rules (Spec r) ∧ rts_Rest (Spec r') = rts_Rest (Spec r)).

(** Nothing but the routes changes. *)
Definition retargets (tc : TrafficCapture) (f : RouteRule Rest → RouteRule Rest) (w w' : W) : Prop :=
  (∀ k, (∀ r, k ≠ RouteK r) → keeps k w w') ∧ reroutes tc f w w'.

Lemma reroutes_keeps tc f w w1 w' : reroutes tc f w w1 → (∀ k, keeps (RouteK k) w1 w') → reroutes tc f w w'.
Proof. intros Hr Hk k ns n. rewrite !(Hk k). apply Hr. Qed.

Lemma route_write tc f k (o : Route Rest k) (r : Route Rest k) w w' o' e :
  parse_kind (ptr_Kind (tcs_TargetRef (Spec tc))) = Some k →
  read (RouteK k) (Namespace tc) (ptr_Name (tcs_TargetRef (Spec tc))) w = Ok r →
  Namespace o = Namespace r → Name o = Name r →
  rts_Rules (Spec o) = f <$> rts_Rules (Spec r) → rts_Rest (Spec o) = rts_Rest (Spec r) →
  client_Update o w = (w', (o', e)) → retargets tc f w w'.
Proof using L apart.
  intros Hk Hg Hons Hon Hr Hrest Hu. destruct (get_name _ _ _ _ Hg) as [Hns Hn].
  pose proof (eq_trans Hons Hns) as Hons'. pose proof (eq_trans Hon Hn) as Hon'.
  split; [intros k' Hk'; eapply (update_keeps (RouteK k)); [by apply not_eq_sym|done]|].
  intros k' ns n. destruct (decide (k' = k)) as [->|Hne].
  2:{ left. eapply (update_keeps (RouteK k) (RouteK k')); [congruence|done]. }
  destruct (decide ((ns, n) = (Namespace o, Name o))) as [[= -> ->]|Hne].
  2:{ left. exact (update_frame _ _ _ _ _ _ Hu Hne). }
  rewrite Hons', Hon'.
  destruct e as [e|]; [left; by apply update_err in Hu as [-> _]|]. right. split; [done|].
  intros Hlive. destruct (route_updated k o r o' w w' Hu) as [Hg' Hsp].
  { by rewrite Hons', Hon'. } { by apply Hlive. }
  rewrite Hons', Hon' in Hg'. exists r, o'. split; [done|]. split; [done|]. by rewrite Hsp.
Qed.

Lemma retargets_same tc f w : retargets tc f w w.
Proof. split; [done|]. by left. Qed.

Lemma AddMirrorFilter_retargets tc svc w w' e : AddMirrorFilter no_rest tc svc w = (w', e) →
  retargets tc (add_to_rule no_rest (Namespace tc) svc) w w'.
Proof using L apart.
  unfold AddMirrorFilter, addRouteMirror. destruct (parse_kind _) as [k|] eqn:Hk; [|intros [= <- _]; apply retargets_same].
  destruct (client_Get _ _ w) as [r|err] eqn:Hg; [|intros [= <- _]; apply retargets_same].
  destruct (client_Update _ w) as [w1 [o' err]] eqn:Hu. intros [= <- _].
  by apply (route_write tc _ k (with_mirror no_rest tc svc r) r w w1 o' err).
Qed.

Lemma RemoveMirrorFilter_retargets tc w w' e : RemoveMirrorFilter (Rest := Rest) tc w = (w', e) →
  retargets tc (remove_from_rule (AgentServiceName tc)) w w'.
Proof using L apart.
  unfold RemoveMirrorFilter, removeRouteMirror. destruct (parse_kind _) as [k|] eqn:Hk; [|intros [= <- _]; apply retargets_same].
  destruct (client_Get _ _ w) as [r|err] eqn:Hg; [|intros [= <- _]; apply retargets_same].
  destruct (client_Update _ w) as [w1 [o' err']] eqn:Hu. intros [= <- _].
  by apply (route_write tc _ k (without_mirror tc r) r w w1 o' err').
Qed.

(** ** Sequences of steps *)

Lemma run_steps_cons (step : W → W * option go_error) steps w w' e : run_steps (step :: steps) w = (w', e) →
  (∃ w1, step w = (w1, None) ∧ run_steps steps w1 = (w', e)) ∨ (∃ err, step w = (w', Some err) ∧ e = Some err).
Proof. simpl. destruct (step w) as [w1 [err|]]; [intros [= <- <-]; right; eauto|left; eauto]. Qed.

Lemma wrapping_inv text (step : W → W * option go_error) w w' e : wrapping text step w = (w', e) →
  ∃ e', step w = (w', e') ∧ (e = None → e' = None).
Proof. unfold wrapping. destruct (step w) as [w1 e']. intros [= <- <-]. exists e'. split; [done|]. by destruct e'. Qed.

Lemma live_keeps k ns n w w' : keeps k w w' → live k ns n w → live k ns n w'.
Proof. intros Hk Hl o Ho. apply Hl. by rewrite <-Hk. Qed.

Lemma gone_keeps k ns n w w' : keeps k w w' → gone k ns n w → gone k ns n w'.
Proof. intros Hk Hl o Ho. apply Hl. by rewrite <-Hk. Qed.

(** ** Deploying the agent *)

Section Deploy.
Context (own_deployment : TrafficCapture → Deployment → result Deployment).
Context (own_service : TrafficCapture → Service → result Service).
Context (own_hpa : TrafficCapture → HorizontalPodAutoscaler → result HorizontalPodAutoscaler).
Hypothesis owns_deployment : owner_only (k := DeploymentK) own_deployment.
Hypothesis owns_service : owner_only (k := ServiceK) own_service.
Hypothesis owns_hpa : owner_only (k := HPAK) own_hpa.
Context (getenv : string → string) (image : string).

(** The agent of the capture is deployed for the storage. *)
Definition agent_present (tc : TrafficCapture) (storage : CaptureStorage) (w : W) : Prop :=
  (∃ d, read DeploymentK (Namespace tc) (AgentDeploymentName tc) w = Ok d ∧
        Spec d = Spec (BuildDeployment getenv image tc storage)) ∧
  (∃ v, read ServiceK (Namespace tc) (AgentServiceName tc) w = Ok v ∧ Spec v = Spec (BuildService tc)) ∧
  (∃ h, read HPAK (Namespace tc) (AgentDeploymentName tc) w = Ok h ∧ Spec h = Spec (BuildHPA tc)).

(** Nothing of the agent is being deleted. *)
Definition agent_live (tc : TrafficCapture) (w : W) : Prop :=
  live DeploymentK (Namespace tc) (AgentDeploymentName tc) w ∧ live ServiceK (Namespace tc) (AgentServiceName tc) w ∧
  live HPAK (Namespace tc) (AgentDeploymentName tc) w.

Lemma agent_present_keeps tc storage w w' : (∀ k, k ∈ [DeploymentK; ServiceK; HPAK] → keeps k w w') →
  agent_present tc storage w → agent_present tc storage w'.
Proof using Type.
  intros Hk (Hd & Hv & Hh). unfold agent_present.
  rewrite (Hk DeploymentK), (Hk ServiceK), (Hk HPAK) by repeat constructor. done.
Qed.

Abbreviation deploy := (deploy_agent no_rest own_deployment own_service own_hpa getenv image).

(** The agent's resources are in place before the route changes. *)
Lemma deploy_agent_spec tc storage w w' e : deploy tc storage w = (w', e) → agent_live tc w →
  keeps CaptureK w w' ∧ keeps StorageK w w' ∧ (e = None → agent_present tc storage w') ∧
  ∃ w1, (∀ k, keeps (RouteK k) w w1) ∧
    (w1 = w' ∨ agent_present tc storage w' ∧ retargets tc (add_to_rule no_rest (Namespace tc) (AgentServiceName tc)) w1 w').
Proof using L apart owns_deployment owns_service owns_hpa.
  intros Hd (Hld & Hlv & Hlh). unfold deploy_agent in Hd.
  apply run_steps_cons in Hd as [(w1 & H1 & Hd)|(err & H1 & ->)]; apply (apply_owned_spec DeploymentK) in H1 as [F1 P1].
  2:{ split; [by apply F1|]. split; [by apply F1|]. split; [done|]. exists w'. split; [by intros k; apply F1|by left]. }
  specialize (P1 eq_refl owns_deployment Hld).
  apply (live_keeps _ _ _ _ w1) in Hlv; [|by apply F1]. apply (live_keeps _ _ _ _ w1) in Hlh; [|by apply F1].
  apply run_steps_cons in Hd as [(w2 & H2 & Hd)|(err & H2 & ->)]; apply (apply_owned_spec ServiceK) in H2 as [F2 P2].
  2:{ split; [by etrans; [apply F1|apply F2]|]. split; [by etrans; [apply F1|apply F2]|]. split; [done|].
      exists w'. split; [by intros k; etrans; [apply F1|apply F2]|by left]. }
  specialize (P2 eq_refl owns_service Hlv). apply (live_keeps _ _ _ _ w2) in Hlh; [|by apply F2].
  apply run_steps_cons in Hd as [(w3 & H3 & Hd)|(err & H3 & ->)]; apply (apply_owned_spec HPAK) in H3 as [F3 P3].
  2:{ split; [by etrans; [apply F1|etrans; [apply F2|apply F3]]|].
      split; [by etrans; [apply F1|etrans; [apply F2|apply F3]]|]. split; [done|].
      exists w'. split; [by intros k; etrans; [apply F1|etrans; [apply F2|apply F3]]|by left]. }
  specialize (P3 eq_refl owns_hpa Hlh).
  assert (agent_present tc storage w3) as Hp3.
  { split; [|split]; [|destruct P2 as (v & Hv & Hs); exists v|done].
    - destruct P1 as (d & Hv & Hs). exists d. rewrite (F3 DeploymentK), (F2 DeploymentK) by done. done.
    - by rewrite (F3 ServiceK). }
  assert (∃ e', AddMirrorFilter no_rest tc (AgentServiceName tc) w3 = (w', e')) as [e' H4].
  { apply run_steps_cons in Hd as [(w4 & H4 & Hd)|(err & H4 & ->)]; apply wrapping_inv in H4 as (e' & H4 & _);
      [injection Hd as -> _|]; eauto. }
  apply AddMirrorFilter_retargets in H4 as [F4 R4].
  assert (agent_present tc storage w') as Hp by (eapply agent_present_keeps; [|exact Hp3]; intros k Hk; apply F4; set_solver).
  split; [by etrans; [apply F1|etrans; [apply F2|etrans; [apply F3|apply F4]]]|].
  split; [by etrans; [apply F1|etrans; [apply F2|etrans; [apply F3|apply F4]]]|].
  split; [done|]. exists w3. split; [by intros k; etrans; [apply F1|etrans; [apply F2|apply F3]]|].
  right. by split.
Qed.
End Deploy.

(** ** Taking the agent down *)

(** No resource of the agent stays. *)
Definition agent_gone (tc : TrafficCapture) (w : W) : Prop :=
  gone HPAK (Namespace tc) (AgentDeploymentName tc) w ∧ gone DeploymentK (Namespace tc) (AgentDeploymentName tc) w ∧
  gone ServiceK (Namespace tc) (AgentServiceName tc) w.

Lemma teardown_spec tc w w' e : teardown (Rest := Rest) tc w = (w', e) →
  keeps CaptureK w w' ∧ keeps StorageK w w' ∧ (e = None → agent_gone tc w') ∧
  ∃ w1 e1, RemoveMirrorFilter (Rest := Rest) tc w = (w1, e1) ∧ (e = None → e1 = None) ∧ ∀ k, keeps (RouteK k) w1 w'.
Proof using L apart.
  intros Ht. unfold teardown in Ht.
  apply run_steps_cons in Ht as [(w1 & H1 & Ht)|(err & H1 & ->)]; apply wrapping_inv in H1 as (e1 & Hrm & H1);
    pose proof (RemoveMirrorFilter_retargets _ _ _ _ Hrm) as [F1 _].
  2:{ split; [by apply F1|]. split; [by apply F1|]. split; [done|]. exists w', e1. by repeat split. }
  rewrite (H1 eq_refl) in Hrm. clear H1 e1.
  assert (∀ k, (∀ r, k ≠ RouteK r) → keeps k w w1) as F1' by done.
  apply run_steps_cons in Ht as [(w2 & H2 & Ht)|(err & H2 & ->)]; apply (delete_agent_spec HPAK) in H2 as [F2 P2].
  2:{ split; [by etrans; [apply F1|apply F2]|]. split; [by etrans; [apply F1|apply F2]|]. split; [done|].
      exists w1, None. split; [done|]. split; [done|]. by intros k; apply F2. }
  apply run_steps_cons in Ht as [(w3 & H3 & Ht)|(err & H3 & ->)]; apply (delete_agent_spec DeploymentK) in H3 as [F3 P3].
  2:{ split; [by etrans; [apply F1|etrans; [apply F2|apply F3]]|]. split; [by etrans; [apply F1|etrans; [apply F2|apply F3]]|].
      split; [done|]. exists w1, None. split; [done|]. split; [done|]. intros k. by etrans; [apply F2|apply F3]. }
  assert (∃ e4, delete_agent "*v1.Service" (service_stub tc) w3 = (w', e4) ∧ (e = None → e4 = None)) as (e4 & H4 & He4).
  { apply run_steps_cons in Ht as [(w4 & H4 & Ht)|(err & H4 & ->)]; [injection Ht as -> _|]; eauto. }
  apply (delete_agent_spec ServiceK) in H4 as [F4 P4].
  split; [by etrans; [apply F1|etrans; [apply F2|etrans; [apply F3|apply F4]]]|].
  split; [by etrans; [apply F1|etrans; [apply F2|etrans; [apply F3|apply F4]]]|]. split.
  - intros He. split; [|split].
    + apply (gone_keeps HPAK _ _ w3); [by apply F4|]. apply (gone_keeps HPAK _ _ w2); [by apply F3|]. by apply P2.
    + apply (gone_keeps DeploymentK _ _ w3); [by apply F4|]. by apply P3.
    + by apply P4, He4.
  - exists w1, None. split; [done|]. split; [done|]. intros k. by etrans; [apply F2|etrans; [apply F3|apply F4]].
Qed.
(** ** The finalizer *)

(** The two have the same spec, status and key: what the reconciler looks at. *)
Definition same_capture (tc tc' : TrafficCapture) : Prop :=
  Spec tc' = Spec tc ∧ Status tc' = Status tc ∧ Namespace tc' = Namespace tc ∧ Name tc' = Name tc.

Lemma same_agent getenv image tc tc' storage w : same_capture tc tc' →
  agent_present getenv image tc' storage w ↔ agent_present getenv image tc storage w.
Proof.
  intros (Hsp & _ & Hns & Hn). unfold agent_present, BuildDeployment, BuildService, BuildHPA, AgentDeploymentName,
    AgentServiceName, agentLabels, buildEnvVars. by rewrite Hsp, Hns, Hn.
Qed.

Lemma same_target tc tc' k ns n : same_capture tc tc' → is_target tc' k ns n ↔ is_target tc k ns n.
Proof. intros (Hsp & _ & Hns & Hn). unfold is_target. by rewrite Hsp, Hns. Qed.

Lemma same_live tc tc' w : same_capture tc tc' → agent_live tc' w ↔ agent_live tc w.
Proof. intros (_ & _ & Hns & Hn). unfold agent_live, AgentDeploymentName, AgentServiceName. by rewrite Hns, Hn. Qed.

Lemma same_expired now tc tc' : same_capture tc tc' → captureExpired now tc' = captureExpired now tc.
Proof. intros (Hsp & Hst & _). unfold captureExpired. by rewrite Hsp, Hst. Qed.

Section Reconcile.
Context (own_deployment : TrafficCapture → Deployment → result Deployment).
Context (own_service : TrafficCapture → Service → result Service).
Context (own_hpa : TrafficCapture → HorizontalPodAutoscaler → result HorizontalPodAutoscaler).
Context (getenv : string → string) (image : string) (connected : bool).

Abbreviation reconcile := (Reconcile no_rest own_deployment own_service own_hpa getenv image connected).
Abbreviation reconcile_live := (reconcileLive no_rest own_deployment own_service own_hpa getenv image connected).

(** A capture that is not being deleted is reconciled with its finalizer in
    place, unless the update that adds it fails. *)
Lemma reconcile_live_capture clk ns n s (tc : TrafficCapture) : read CaptureK ns n (cw_api s) = Ok tc → om_DeletionTimestamp (Meta tc) = None →
  (∃ e, reconcile clk ns n s = Ret (s, Err e)) ∨
  ∃ tc1 s1, reconcile clk ns n s = reconcile_live clk tc1 s1 ∧ same_capture tc tc1 ∧
    (∀ k, CaptureK ≠ k → keeps k (cw_api s) (cw_api s1)) ∧ cw_reports s1 = cw_reports s ∧
    read CaptureK ns n (cw_api s1) = Ok tc1 ∧ om_DeletionTimestamp (Meta tc1) = None ∧
    ContainsFinalizer (Meta tc1) finalizerName = true.
Proof using L apart.
  intros Hg Hd. unfold Reconcile. change (client_Get ns n (cw_api s)) with (read CaptureK ns n (cw_api s)). rewrite Hg.
  rewrite bool_decide_eq_false_2 by (intros Hdel; exact (Hdel Hd)).
  destruct (ContainsFinalizer (Meta tc) finalizerName) eqn:Hc; [right; exists tc, s; by repeat split|].
  destruct (client_Update _ (cw_api s)) as [w1 [tc1 [e|]]] eqn:Hu.
  { left. exists e. apply update_err in Hu as [-> _]. by destruct s. }
  right. exists tc1, (set_api w1 s). split; [done|]. pose proof (get_name _ _ _ _ Hg) as [Hns Hn].
  pose proof (update_ok _ _ _ _ Hu) as (Hcm & Hsp & Hold & Hrb). unfold Namespace, Name in *. simpl in Hcm, Hsp, Hold, Hrb.
  pose proof (add_frame (Meta tc) finalizerName) as Hf.
  assert (om_Namespace (AddFinalizer (Meta tc) finalizerName) = ns ∧ om_Name (AddFinalizer (Meta tc) finalizerName) = n) as [Hns' Hn'].
  { unfold om_with_Finalizers in Hf. injection Hf as Hfn Hfns _ _ _ _ _ _ _. by rewrite Hfn, Hfns. }
  rewrite Hns', Hn' in Hold, Hrb. destruct (Hold tc Hg) as [Hst Hsm].
  assert (om_DeletionTimestamp (Meta tc1) = None) as Hd1 by (unfold server_meta in Hsm; congruence).
  destruct (client_meta_key _ _ Hcm) as [Hk1 Hk2].
  split; [|split; [|split; [|split; [|split]]]].
  - split; [done|]. split; [done|]. unfold Namespace, Name. by rewrite Hk1, Hk2, Hns', Hn'.
  - intros k Hk. by eapply (update_keeps CaptureK).
  - done.
  - apply Hrb. intros [Hrel _]. done.
  - done.
  - rewrite (contains_client _ _ finalizerName Hcm), contains_add. by rewrite bool_decide_eq_true_2.
Qed.

(** ** The target only mirrors to an agent that is there *)

(** The capture mirrors: its storage is ready and its agent deployed for it. *)
Definition may_mirror (clk : capture_clock) (tc : TrafficCapture) (w w' : W) : Prop :=
  om_DeletionTimestamp (Meta tc) = None ∧ tcst_Phase (Status tc) ≠ TrafficCapturePhaseCompleted ∧
  fst (captureExpired (ck_check clk) tc) = false ∧
  ∃ storage, read StorageK (Namespace tc) (csr_Name (tcs_StorageRef (Spec tc))) w = Ok storage ∧
    csst_Phase (Status storage) = CaptureStoragePhaseReady ∧ agent_present getenv image tc storage w'.

(** The capture is over: deleted, or its duration has passed. *)
Definition over (clk : capture_clock) (tc : TrafficCapture) : Prop :=
  om_DeletionTimestamp (Meta tc) ≠ None ∨ fst (captureExpired (ck_check clk) tc) = true.

(** The route is as it was, or it is the target of the capture and changes the
    one way the capture calls for. *)
Definition route_step (clk : capture_clock) (tc : TrafficCapture) (w w' : W) (k : route_kind) (ns n : string) : Prop :=
  read (RouteK k) ns n w' = read (RouteK k) ns n w ∨
  is_target tc k ns n ∧ (live (RouteK k) ns n w → ∃ f r r',
    read (RouteK k) ns n w = Ok r ∧ read (RouteK k) ns n w' = Ok r' ∧
    rts_Rules (Spec r') = f <$> rts_Rules (Spec r) ∧ rts_Rest (Spec r') = rts_Rest (Spec r) ∧
    (f = add_to_rule no_rest (Namespace tc) (AgentServiceName tc) ∧ may_mirror clk tc w w' ∨
     f = remove_from_rule (AgentServiceName tc) ∧ over clk tc)).

Lemma route_step_same clk tc tc' w w1 w' k ns n : same_capture tc tc' →
  om_DeletionTimestamp (Meta tc) = None → om_DeletionTimestamp (Meta tc') = None →
  (∀ k, CaptureK ≠ k → keeps k w w1) → route_step clk tc' w1 w' k ns n → route_step clk tc w w' k ns n.
Proof.
  intros Hs Hd Hd' Hk [Hr|[Ht Hr]]; [left; by rewrite Hr, (Hk (RouteK k))|]. right.
  split; [by apply (same_target tc tc')|]. intros Hl. destruct Hr as (f & r & r' & Hg & Hg' & Hru & Hre & Hf).
  { by apply (live_keeps (RouteK k) _ _ w); [apply Hk|]. }
  rewrite (Hk (RouteK k)) in Hg by done. exists f, r, r'. repeat (split; [done|]). pose proof Hs as (Hsp & Hst & Hns & Hn).
  destruct Hf as [[-> (_ & Hp & He & st & Hgs & Hph & Ha)]|[-> Ho]]; [left|right].
  - split; [unfold AgentServiceName; by rewrite Hns, Hn|]. rewrite Hst in Hp. rewrite (same_expired _ tc tc' Hs) in He.
    split; [done|]. split; [done|]. split; [done|]. exists st. rewrite Hsp, Hns, (Hk StorageK) in Hgs by done.
    split; [done|]. split; [done|]. by apply (same_agent _ _ tc tc').
  - split; [unfold AgentServiceName; by rewrite Hn|]. destruct Ho as [Ho|Ho]; [done|]. right.
    by rewrite <-(same_expired _ tc tc' Hs).
Qed.

Lemma reroutes_removed clk tc w w' k ns n : over clk tc → reroutes tc (remove_from_rule (AgentServiceName tc)) w w' →
  route_step clk tc w w' k ns n.
Proof.
  intros Ho Hr. destruct (Hr k ns n) as [Hsame|[Ht Hch]]; [by left|right; split; [done|]]. intros Hl.
  destruct (Hch Hl) as (r & r' & Hg & Hg' & Hru & Hre). exists (remove_from_rule (AgentServiceName tc)), r, r'.
  repeat (split; [done|]). by right.
Qed.

Lemma route_step_then clk tc w w1 w' k ns n : route_step clk tc w w1 k ns n → keeps (RouteK k) w1 w' →
  (∀ k', k' ∈ [DeploymentK; ServiceK; HPAK] → keeps k' w1 w') → route_step clk tc w w' k ns n.
Proof.
  intros Hr Hk Ha. destruct Hr as [Hr|[Ht Hr]]; [left; by rewrite Hk|]. right. split; [done|]. intros Hl.
  destruct (Hr Hl) as (f & r & r' & Hg & Hg' & Hru & Hre & Hf). exists f, r, r'. split; [done|].
  split; [by rewrite Hk|]. repeat (split; [done|]). destruct Hf as [[-> (Hd & Hp & He & st & Hgs & Hph & Hag)]|Hf]; [left|by right].
  split; [done|]. split; [done|]. split; [done|]. split; [done|]. exists st. split; [done|]. split; [done|].
  eapply agent_present_keeps; [|exact Hag]. exact Ha.
Qed.
(** Writes to the status of a capture concern nothing else. *)
Lemma status_update_keeps (tc : TrafficCapture) w w' r : client_StatusUpdate tc w = (w', r) →
  ∀ k, CaptureK ≠ k → keeps k w w'.
Proof using apart. intros Hu k Hk. by eapply (status_keeps CaptureK). Qed.

Lemma setPhase_keeps (tc : TrafficCapture) phase reason msg s s' r :
  setPhaseWithCondition tc phase reason msg s = (s', r) → ∀ k, CaptureK ≠ k → keeps k (cw_api s) (cw_api s').
Proof using apart.
  unfold setPhaseWithCondition. destruct (client_StatusUpdate _ _) as [w1 [tc1 [e|]]] eqn:Hu; intros [= <- _];
    by eapply status_update_keeps.
Qed.

Lemma completeCapture_routes clk tc s s' r k ns n : over clk tc → completeCapture (Rest := Rest) connected tc s = (s', r) →
  route_step clk tc (cw_api s) (cw_api s') k ns n.
Proof using L apart.
  intros Ho. unfold completeCapture. destruct (teardown tc (cw_api s)) as [w1 e] eqn:Ht.
  apply teardown_spec in Ht as (_ & _ & _ & w0 & e1 & Hrm & _ & Hk).
  apply RemoveMirrorFilter_retargets in Hrm as [_ Hr]. pose proof (reroutes_keeps _ _ _ _ _ Hr Hk) as Hr1.
  destruct e as [e|]; [intros [= <- _]; by apply reroutes_removed|].
  destruct (client_StatusUpdate (_ : TrafficCapture) w1) as [w2 [tc2 [e|]]] eqn:Hu; intros [= <- _]; apply reroutes_removed; try done;
    apply (reroutes_keeps _ _ _ w1); try done; intros k'; unfold report_capture; destruct connected; by eapply status_update_keeps.
Qed.

Lemma report_api (tc : TrafficCapture) (s : cap_world W) : cw_api (report_capture connected tc s) = cw_api s.
Proof. unfold report_capture. by destruct connected. Qed.

(** With the agent deployed, its status can be read: the Deployment has a replica
    count. *)
Lemma updateStatus_returns clk (tc : TrafficCapture) storage w : agent_present getenv image tc storage w →
  ∃ w' tc' r, updateStatus clk tc w = Ret (w', (tc', r)) ∧ ∀ k, CaptureK ≠ k → keeps k w w'.
Proof using apart.
  intros ((d & Hg & Hsp) & _). unfold updateStatus.
  change (client_Get (Namespace tc) (AgentDeploymentName tc) w) with (read DeploymentK (Namespace tc) (AgentDeploymentName tc) w).
  rewrite Hg. assert (ds_Replicas (Spec (d : Deployment)) = ds_Replicas (Spec (BuildDeployment getenv image tc storage))) as E
    by exact (f_equal ds_Replicas Hsp). rewrite E. simpl.
  destruct (client_StatusUpdate (_ : TrafficCapture) w) as [w1 [tc1 [e|]]] eqn:Hu; [|destruct (captureExpired (ck_left clk) tc1)];
    do 3 eexists; (split; [reflexivity|by eapply status_update_keeps]).
Qed.

Hypothesis owns_deployment : owner_only (k := DeploymentK) own_deployment.
Hypothesis owns_service : owner_only (k := ServiceK) own_service.
Hypothesis owns_hpa : owner_only (k := HPAK) own_hpa.

Lemma reconcile_live_routes clk tc s : om_DeletionTimestamp (Meta tc) = None → agent_live tc (cw_api s) →
  ∃ s' r, reconcile_live clk tc s = Ret (s', r) ∧ ∀ k ns n, route_step clk tc (cw_api s) (cw_api s') k ns n.
Proof using L apart owns_deployment owns_service owns_hpa.
  intros Hd Hlive. unfold reconcileLive. case_bool_decide as Hph; [do 2 eexists; split; [done|by left]|].
  destruct (fst (captureExpired (ck_check clk) tc)) eqn:He.
  { destruct (completeCapture connected tc s) as [s' r] eqn:Hc. exists s', r. split; [done|]. intros k ns n.
    eapply completeCapture_routes; [by right|done]. }
  destruct (client_Get _ _ (cw_api s) : result CaptureStorage) as [st|e] eqn:Hst.
  2:{ destruct (setPhaseWithCondition _ _ _ _ s) as [s' r] eqn:Hp. exists s', r. split; [done|]. intros k ns n. left.
      by eapply setPhase_keeps. }
  case_bool_decide as Hr.
  { destruct (setPhaseWithCondition _ _ _ _ s) as [s' r] eqn:Hp. exists s', r. split; [done|]. intros k ns n. left.
    by eapply setPhase_keeps. }
  destruct (deploy_agent _ _ _ _ _ _ tc st (cw_api s)) as [w1 e] eqn:Hdep.
  destruct (deploy_agent_spec _ _ _ owns_deployment owns_service owns_hpa _ _ _ _ _ _ _ Hdep Hlive)
    as (_ & HkS & Hpres & w0 & Hk0 & Hdone).
  assert (∀ k ns n, route_step clk tc (cw_api s) w1 k ns n) as Hstep.
  { intros k ns n. destruct Hdone as [->|[Hag [_ Hrt]]]; [left; apply Hk0|]. destruct (Hrt k ns n) as [Hsame|[Ht Hch]].
    { left. rewrite Hsame. apply Hk0. }
    right. split; [done|]. intros Hl. destruct Hch as (r & r' & Hg & Hg' & Hru & Hre); [by eapply live_keeps; [apply Hk0|]|].
    rewrite (Hk0 k) in Hg. exists (add_to_rule no_rest (Namespace tc) (AgentServiceName tc)), r, r'.
    repeat (split; [done|]). left. split; [done|]. split; [done|]. split; [done|]. split; [done|].
    exists st. split; [done|]. split; [|done]. by destruct (decide (csst_Phase (Status st) = CaptureStoragePhaseReady)). }
  destruct e as [e|]; [by do 2 eexists|].
  destruct (updateStatus_returns clk tc st w1 (Hpres eq_refl)) as (w2 & tc2 & r & -> & Hk2).
  destruct r as [r|e]; do 2 eexists; (split; [reflexivity|]); intros k ns n; rewrite ?report_api; simpl;
    (eapply route_step_then; [apply Hstep|by apply Hk2|]); intros k' Hk'; apply Hk2; set_solver.
Qed.

(** C15: A reconcile of a capture returns, and the only route it can change is the
    target of the capture, and there only the filters of the rules: it adds the
    mirror to the capture's agent, which happens only for a capture that is not
    deleted, completed or expired, whose storage is ready, and with the
    Deployment, the Service and the autoscaler of the agent in place for that
    storage; or it takes that mirror out of the rules, which happens only for a
    capture that is deleted or expired. *)
Theorem mirrors_only_to_its_agent clk ns n s (tc : TrafficCapture) :
  read CaptureK ns n (cw_api s) = Ok tc → agent_live tc (cw_api s) →
  ∃ s' r, reconcile clk ns n s = Ret (s', r) ∧
    ∀ k rns rn, route_step clk tc (cw_api s) (cw_api s') k rns rn.
Proof using L apart owns_deployment owns_service owns_hpa.
  intros Hg Hlive. destruct (decide (om_DeletionTimestamp (Meta tc) = None)) as [Hd|Hd].
  - destruct (reconcile_live_capture clk ns n s tc Hg Hd) as [[e ->]|(tc1 & s1 & -> & Hs & Hk & _ & _ & Hd1 & _)].
    { do 2 eexists. split; [done|]. by left. }
    destruct (reconcile_live_routes clk tc1 s1 Hd1) as (s' & r & -> & Hst).
    { apply (same_live tc tc1); [done|]. destruct Hlive as (H1 & H2 & H3).
      split; [|split]; (eapply live_keeps; [by apply Hk|done]). }
    exists s', r. split; [done|]. intros k rns rn. by eapply route_step_same.
  - unfold Reconcile. change (client_Get ns n (cw_api s)) with (read CaptureK ns n (cw_api s)). rewrite Hg.
    rewrite bool_decide_eq_true_2 by done. unfold reconcileDelete.
    destruct (RemoveMirrorFilter tc (cw_api s)) as [w1 e1] eqn:Hrm. apply RemoveMirrorFilter_retargets in Hrm as [_ Hr].
    destruct (client_Update (_ : TrafficCapture) w1) as [w2 [tc2 e]] eqn:Hu.
    exists (set_api w2 s), (match e with Some e => Err e | None => Ok done_ok end). split; [by destruct e|].
    intros k rns rn. apply reroutes_removed; [by left|]. eapply reroutes_keeps; [done|].
    intros k'. by eapply (update_keeps CaptureK).
Qed.
(** ** A capture whose time is over *)

Lemma target_keeps (tc : TrafficCapture) w w' : (∀ k, keeps (RouteK k) w w') →
  target (Rest := Rest) tc w' = target (Rest := Rest) tc w.
Proof.
  intros Hk. unfold target. destruct (parse_kind _) as [k|]; [|done].
  by rewrite (Hk k (Namespace tc) (ptr_Name (tcs_TargetRef (Spec tc))) : get_route _ _ _ w' = get_route _ _ _ w).
Qed.

Lemma same_capture_target (tc tc' : TrafficCapture) w : same_capture tc tc' →
  target (Rest := Rest) tc' w = target (Rest := Rest) tc w.
Proof. intros (Hsp & _ & Hns & _). unfold target. by rewrite Hsp, Hns. Qed.

Lemma removed_unmirrored (tc : TrafficCapture) w w' : target_live (Rest := Rest) tc w →
  RemoveMirrorFilter (Rest := Rest) tc w = (w', None) → unmirrored (Rest := Rest) tc (AgentServiceName tc) w'.
Proof using L.
  intros Hl Hrm. pose proof (RemoveMirrorFilter_spec tc w w' Hl Hrm) as Hs. intros k route' Ht'.
  destruct (target tc w) as [[k0 route]|] eqn:Ht; [|by subst w'; rewrite Ht in Ht'].
  destruct Hs as (route1 & Ht1 & Hru & _). rewrite Ht1 in Ht'.
  assert (∀ r0 : Route Rest k0, rts_Rules (Spec r0) = remove_from_rule (AgentServiceName tc) <$> rts_Rules (Spec route) →
    Forall (λ r, hasMirrorFilter (rtr_Filters r) (AgentServiceName tc) = false) (rts_Rules (Spec r0))) as Hall.
  { intros r0 ->. apply Forall_fmap, Forall_true. intros r. apply remove_none. }
  specialize (Hall route1 Hru). clear -Hall Ht'. by inversion Ht'; subst; simplify_eq.
Qed.

(** What a successful [completeCapture] leaves. *)
Lemma completeCapture_ok (tc : TrafficCapture) s s' r : target_live (Rest := Rest) tc (cw_api s) →
  read CaptureK (Namespace tc) (Name tc) (cw_api s) = Ok tc →
  completeCapture (Rest := Rest) connected tc s = (s', Ok r) →
  r = done_ok ∧ agent_gone tc (cw_api s') ∧ unmirrored (Rest := Rest) tc (AgentServiceName tc) (cw_api s') ∧
  ∃ tc', read CaptureK (Namespace tc) (Name tc) (cw_api s') = Ok tc' ∧ Spec tc' = Spec tc ∧ Meta tc' = Meta tc ∧
    Status tc' = completed (Status tc) ∧
    cw_reports s' = cw_reports s ++ (if connected then [capture_summary tc'] else []).
Proof using L apart.
  intros Hl Hg. unfold completeCapture. destruct (teardown tc (cw_api s)) as [w1 [e|]] eqn:Ht; [done|].
  apply teardown_spec in Ht as (HkC & _ & Hgone & w0 & e1 & Hrm & He1 & Hk).
  rewrite (He1 eq_refl) in Hrm. pose proof (removed_unmirrored _ _ _ Hl Hrm) as Hun.
  destruct (client_StatusUpdate _ w1) as [w2 [tc2 [e|]]] eqn:Hu; [done|]. intros [= <- <-].
  pose proof (status_ok _ _ _ _ Hu) as (Hst & _ & _ & Hg2). rewrite <-(HkC (Namespace tc) (Name tc)) in Hg.
  destruct (status_spec _ _ _ _ tc Hu Hg) as [Hsp Hm]. pose proof (status_update_keeps _ _ _ _ Hu) as Hks.
  rewrite !report_api. split; [done|]. split; [|split].
  - destruct (Hgone eq_refl) as (H1 & H2 & H3). split; [|split]; by eapply gone_keeps; [apply Hks|].
  - intros k route. rewrite (target_keeps tc w0).
    + apply Hun.
    + intros k'. etrans; [apply Hk|by apply Hks].
  - exists tc2. split; [exact Hg2|]. repeat (split; [done|]). unfold report_capture. destruct connected; [done|].
    by rewrite app_nil_r.
Qed.

(** C16: A successful reconcile of a capture whose duration has passed leaves none
    of its agent behind but what is being deleted, no rule of the target that
    mirrors to the agent, the capture Completed under its finalizer, and the hub,
    when the spoke is connected, told of the final state; and from then on a
    reconcile of the capture does nothing. *)
Theorem expired_capture_is_torn_down clk ns n (s s' : cap_world W) r (tc : TrafficCapture) :
  read CaptureK ns n (cw_api s) = Ok tc → om_DeletionTimestamp (Meta tc) = None →
  tcst_Phase (Status tc) ≠ TrafficCapturePhaseCompleted → fst (captureExpired (ck_check clk) tc) = true →
  target_live (Rest := Rest) tc (cw_api s) → reconcile clk ns n s = Ret (s', Ok r) →
  r = done_ok ∧ agent_gone tc (cw_api s') ∧ unmirrored (Rest := Rest) tc (AgentServiceName tc) (cw_api s') ∧
  ∃ tc', read CaptureK ns n (cw_api s') = Ok tc' ∧ Spec tc' = Spec tc ∧
    ContainsFinalizer (Meta tc') finalizerName = true ∧ Status tc' = completed (Status tc) ∧
    cw_reports s' = cw_reports s ++ (if connected then [capture_summary tc'] else []) ∧
    ∀ clk', reconcile clk' ns n s' = Ret (s', Ok done_ok).
Proof using L apart.
  intros Hg Hd Hph He Hl Hr.
  destruct (reconcile_live_capture clk ns n s tc Hg Hd) as [[e Hr1]|(tc1 & s1 & Hr1 & Hs & Hk & Hrep & Hg1 & Hd1 & Hf1)];
    rewrite Hr1 in Hr; [done|].
  pose proof Hs as (Hsp & Hst & Hns & Hn). assert (Namespace tc1 = ns ∧ Name tc1 = n) as [Hns1 Hn1] by exact (get_name _ _ _ _ Hg1).
  unfold reconcileLive in Hr. rewrite bool_decide_eq_false_2 in Hr by (by rewrite Hst).
  rewrite (same_expired _ tc tc1 Hs), He in Hr. injection Hr as Hr.
  destruct (completeCapture_ok tc1 s1 s' r) as (-> & Hgone & Hun & tc' & Hg' & Hsp' & Hm' & Hst' & Hrep'); [..|done|].
  { intros k route. rewrite (same_capture_target tc tc1 _ Hs), (target_keeps tc (cw_api s)) by (intros k'; by apply Hk). apply Hl. }
  { by rewrite Hns1, Hn1. }
  split; [done|]. split; [|split].
  - unfold agent_gone, AgentDeploymentName, AgentServiceName in *. by rewrite Hns, Hn in Hgone.
  - intros k route. rewrite <-(same_capture_target tc tc1 _ Hs). unfold AgentServiceName in *. rewrite <-Hn. apply Hun.
  - rewrite Hns1, Hn1 in Hg'. exists tc'. split; [done|]. split; [by rewrite Hsp'|]. rewrite Hm'. split; [done|].
    split; [by rewrite Hst', Hst|]. split; [by rewrite Hrep', Hrep|]. intros clk'. unfold Reconcile.
    change (client_Get ns n (cw_api s')) with (read CaptureK ns n (cw_api s')). rewrite Hg'.
    rewrite bool_decide_eq_false_2 by (intros H; exact (H (eq_trans (f_equal om_DeletionTimestamp Hm') Hd1))).
    replace (ContainsFinalizer (Meta (tc' : TrafficCapture)) finalizerName) with true
      by exact (eq_sym (eq_trans (f_equal (λ m, ContainsFinalizer m finalizerName) Hm') Hf1)).
    unfold reconcileLive. rewrite bool_decide_eq_true_2 by exact (f_equal tcst_Phase Hst'). done.
Qed.
End Reconcile.
End Lifecycle.

(** ** Witnesses *)

#[local] Existing Instances decimal_parser demo_headers mem_errors mem_controllerutil mem_client mem_client_laws.

(** The API server: a store per kind. *)
Record demo_world := DemoWorld {
  dw_captures : store TrafficCaptureSpec TrafficCaptureStatus;
  dw_storages : store CaptureStorageSpec CaptureStorageStatus;
  dw_deployments : store DeploymentSpec DeploymentStatus;
  dw_services : store ServiceSpec ServiceStatus;
  dw_hpas : store HPASpec HPAStatus;
  dw_http : store (RouteSpec () HTTPRoute) (RouteStatus () HTTPRoute);
  dw_grpc : store (RouteSpec () GRPCRoute) (RouteStatus () GRPCRoute)
}.

Definition dw_get (k : cap_kind) : demo_world → store (spec_of () k) (status_of () k) :=
  match k with
  | CaptureK => dw_captures | StorageK => dw_storages | DeploymentK => dw_deployments | ServiceK => dw_services
  | HPAK => dw_hpas | RouteK HTTPRoute => dw_http | RouteK GRPCRoute => dw_grpc
  end.

Definition dw_set (k : cap_kind) : store (spec_of () k) (status_of () k) → demo_world → demo_world :=
  match k with
  | CaptureK => λ v '(DemoWorld _ b c d e f g), DemoWorld v b c d e f g
  | StorageK => λ v '(DemoWorld a _ c d e f g), DemoWorld a v c d e f g
  | DeploymentK => λ v '(DemoWorld a b _ d e f g), DemoWorld a b v d e f g
  | ServiceK => λ v '(DemoWorld a b c _ e f g), DemoWorld a b c v e f g
  | HPAK => λ v '(DemoWorld a b c d _ f g), DemoWorld a b c d v f g
  | RouteK HTTPRoute => λ v '(DemoWorld a b c d e _ g), DemoWorld a b c d e v g
  | RouteK GRPCRoute => λ v '(DemoWorld a b c d e f _), DemoWorld a b c d e f v
  end.

#[local] Instance demo_clients k : KubeClient demo_world (spec_of () k) (status_of () k) :=
  part_client (dw_get k) (dw_set k).

#[local] Instance demo_laws k : KubeClientLaws demo_world (spec_of () k) (status_of () k).
Proof. apply part_laws; [by destruct k as [| | | | |[]]; intros v []|by destruct k as [| | | | |[]]; intros []|apply _]. Qed.

Lemma demo_apart k k' : k ≠ k' → Separate demo_world (spec_of () k) (status_of () k) (spec_of () k') (status_of () k').
Proof.
  intros Hne. apply parts_separate. destruct k as [| | | | |[]], k' as [| | | | |[]]; try done; by intros v [].
Qed.

Definition demo_rule : RouteRule () := {| rtr_Filters := []; rtr_Rest := () |}.

Definition demo_route : Route () HTTPRoute :=
  MkObject (newObjectMeta "prod" "shop" ∅) {| rts_Rules := [demo_rule]; rts_Rest := () |} {| rst_Rest := () |}.

(** A new capture and a storage that is ready. *)
Definition demo_start : cap_world demo_world :=
  CapWorld (DemoWorld {[("prod", "shop") := demo_capture]} {[("prod", "bucket") := demo_bucket]} ∅ ∅ ∅
              {[("prod", "shop") := demo_route]} ∅) [].

Definition demo_clock : capture_clock := {| ck_check := 0; ck_start := 0; ck_left := 0 |}.

#[local] Instance demo_KC : KubeClient demo_world TrafficCaptureSpec TrafficCaptureStatus := demo_clients CaptureK.
#[local] Instance demo_KS : KubeClient demo_world CaptureStorageSpec CaptureStorageStatus := demo_clients StorageK.
#[local] Instance demo_KD : KubeClient demo_world DeploymentSpec DeploymentStatus := demo_clients DeploymentK.
#[local] Instance demo_KV : KubeClient demo_world ServiceSpec ServiceStatus := demo_clients ServiceK.
#[local] Instance demo_KH : KubeClient demo_world HPASpec HPAStatus := demo_clients HPAK.
#[local] Instance demo_KR k : KubeClient demo_world (RouteSpec () k) (RouteStatus () k) := demo_clients (RouteK k).

Abbreviation demo_reconcile := (Reconcile () (λ _, Ok) (λ _, Ok) (λ _, Ok) (λ _, "") "agent:1" true demo_clock "prod").

Definition mirrors_of (w : demo_world) : list (list (option BackendObjectReference)) :=
  match read (K := demo_clients) (RouteK HTTPRoute) "prod" "shop" w with
  | Ok r => (λ rule, rtf_RequestMirror <$> rtr_Filters rule) <$> rts_Rules (Spec r)
  | Err _ => []
  end.

Definition after {A} (dflt : A) (f : cap_world demo_world → A) (o : go (cap_world demo_world * result Result)) : A :=
  match o with Ret (s, _) => f s | Panic => dflt end.

Lemma mirrors_only_to_its_agent_witness :
  ∃ s' r, demo_reconcile "shop" demo_start = Ret (s', r) ∧
    mirrors_of (cw_api s') = [[Some {| bor_Name := "shop-capture-agent"; bor_Namespace := Some "prod"; bor_Port := Some 8080 |}]] ∧
    route_step () (λ _, "") "agent:1" demo_clock demo_capture (cw_api demo_start) (cw_api s') HTTPRoute "prod" "shop".
Proof.
  destruct (mirrors_only_to_its_agent () demo_apart (λ _, Ok) (λ _, Ok) (λ _, Ok) (λ _, "") "agent:1" true)
    with (clk := demo_clock) (ns := "prod") (n := "shop") (s := demo_start) (tc := demo_capture) as (s' & r & Hr & Hs).
  - by intros tc o o' [= <-].
  - by intros tc o o' [= <-].
  - by intros tc o o' [= <-].
  - reflexivity.
  - split; [|split]; intros o Ho; discriminate Ho.
  - exists s', r. split; [exact Hr|]. split; [|apply Hs].
    assert (after [] (λ s, mirrors_of (cw_api s)) (demo_reconcile "shop" demo_start)
      = [[Some {| bor_Name := "shop-capture-agent"; bor_Namespace := Some "prod"; bor_Port := Some 8080 |}]]) as Hm
      by (vm_compute; reflexivity).
    exact (eq_trans (eq_sym (f_equal (after [] (λ s, mirrors_of (cw_api s))) Hr)) Hm).
Defined.

(** The same capture with a duration of five nanoseconds, once it is active. *)
Definition demo_timed : TrafficCapture :=
  MkObject (Meta demo_capture)
    {| tcs_TargetRef := tcs_TargetRef (Spec demo_capture); tcs_StorageRef := tcs_StorageRef (Spec demo_capture);
       tcs_Capture := {| cst_IncludeHeaders := None; cst_IncludeBody := None; cst_MaxBodyBytes := None;
                         cst_Duration := Some (Itoa 5); cst_RedactHeaders := []; cst_DisableHeaderRedaction := None |};
       tcs_Filters := None; tcs_Agent := None; tcs_Plugins := [] |}
    {| tcst_Phase := TrafficCapturePhaseActive; tcst_StartTime := Some (-10); tcst_CapturedRequests := 0;
       tcst_BytesWritten := None; tcst_AgentStatus := None; tcst_Conditions := [] |}.

Definition demo_mirroring : cap_world demo_world :=
  CapWorld (DemoWorld {[("prod", "shop") := demo_timed]} ∅ {[("prod", "shop-capture-agent") := deployment_stub demo_timed]} ∅ ∅
              {[("prod", "shop") := with_mirror () demo_timed "shop-capture-agent" demo_route]} ∅) [].

Lemma expired_capture_is_torn_down_witness :
  ∃ s', demo_reconcile "shop" demo_mirroring = Ret (s', Ok done_ok) ∧
    mirrors_of (cw_api demo_mirroring) ≠ [[]] ∧ mirrors_of (cw_api s') = [[]] ∧
    length (cw_reports s') = 1%nat ∧ demo_reconcile "shop" s' = Ret (s', Ok done_ok).
Proof.
  destruct (demo_reconcile "shop" demo_mirroring) as [[s' [r|e]]|] eqn:Hr; [| |vm_compute in Hr; discriminate Hr].
  2:{ exfalso. assert (match demo_reconcile "shop" demo_mirroring with Ret (_, Err _) => false | _ => true end = true) as Ho
        by (vm_compute; reflexivity). by rewrite Hr in Ho. }
  destruct (expired_capture_is_torn_down () demo_apart (λ _, Ok) (λ _, Ok) (λ _, Ok) (λ _, "") "agent:1" true
    demo_clock "prod" "shop" demo_mirroring s' r demo_timed) as (-> & _ & _ & tc' & _ & _ & _ & _ & Hrep & Hagain).
  - reflexivity.
  - reflexivity.
  - discriminate.
  - vm_compute. reflexivity.
  - intros k route Ht. apply (f_equal (λ t, match t with Some (existT _ r) => om_DeletionTimestamp (Meta r) | None => None end)) in Ht.
    symmetry. exact Ht.
  - exact Hr.
  - exists s'. split; [reflexivity|]. split; [vm_compute; discriminate|]. split; [|split].
    + assert (after [] (λ s, mirrors_of (cw_api s)) (demo_reconcile "shop" demo_mirroring) = [[]]) as Hm by (vm_compute; reflexivity).
      by rewrite Hr in Hm.
    + by rewrite Hrep.
    + apply Hagain.
Defined.
