(* ===== verification/HubController.v ===== *)
(** * The hub controller ([internal/hub/controller.go], [internal/hub/tls.go])

    The reconciler of the [CaptureHub] resources: it runs the process's one gRPC
    server at the address and with the TLS configuration of the oldest
    [CaptureHub], rotates certificates in place, and publishes the registry in the
    status of that resource.  A server starts in a goroutine of its own, which
    reads the reconciler's server when it is scheduled: those goroutines are part
    of the state. *)

From S2P Require Import Prelude GoStd Kube Api CaptureApi HubProto HubServer.
From Stdlib Require Import Ascii.

Local Open Scope Z_scope.

(** ** TLS configuration *)

Definition TLSCertKey : string := "tls.crt".
Definition TLSKeyKey : string := "tls.key".
Definition TLSCAKey : string := "ca.crt".

(** [crypto/tls] and [crypto/x509]: parsing a certificate with its key, and a
    bundle of certificate authorities; and the SHA-256 digest in hexadecimal,
    which is 64 characters long. *)
Class TLSLib (KeyPair CertPool : Type) := {
  X509KeyPair : string → string → result KeyPair;
  AppendCertsFromPEM : string → option CertPool;
  sha256_hex : string → string;
  sha256_length : ∀ s, String.length (sha256_hex s) = 64%nat
}.

Record tlsConfig (KeyPair CertPool : Type) := {
  tlsc_Certificate : KeyPair;
  tlsc_MinVersion : string;
  tlsc_NextProtos : list string;
  tlsc_ClientCAs : option CertPool;
  tlsc_RequireAndVerifyClientCert : bool
}.
Arguments Build_tlsConfig {KeyPair CertPool} _ _ _ _ _.
Arguments tlsc_Certificate {KeyPair CertPool} _.
Arguments tlsc_ClientCAs {KeyPair CertPool} _.
Arguments tlsc_RequireAndVerifyClientCert {KeyPair CertPool} _.

(** The data of a secret; a nil map has no keys. *)
Abbreviation secret_data := (option (gmap string string)).

Definition secret_key (data : secret_data) (k : string) : option string := data ≫= lookup k.

Section TLS.
Context {KeyPair CertPool : Type} {TL : TLSLib KeyPair CertPool}.

Definition buildServerTLSConfig (data : secret_data) (requireClientCert : bool) : result (tlsConfig KeyPair CertPool) :=
  match secret_key data TLSCertKey, secret_key data TLSKeyKey with
  | None, _ => Err (FmtError "TLS secret missing %s" [FStr TLSCertKey])
  | _, None => Err (FmtError "TLS secret missing %s" [FStr TLSKeyKey])
  | Some certPEM, Some keyPEM =>
      match X509KeyPair certPEM keyPEM with
      | Err err => Err (WrapError "parse server certificate: %w" [] err)
      | Ok cert =>
          if requireClientCert then
            match secret_key data TLSCAKey with
            | None => Err (FmtError "mTLS requires %s in the TLS secret" [FStr TLSCAKey])
            | Some caPEM =>
                match AppendCertsFromPEM caPEM with
                | None => Err (FmtError "no certificates parsed from %s" [FStr TLSCAKey])
                | Some pool => Ok (Build_tlsConfig cert "1.2" ["h2"] (Some pool) true)
                end
            end
          else Ok (Build_tlsConfig cert "1.2" ["h2"] None false)
      end
  end.

Definition nul : string := String "000" "".

Definition tls_part (data : gmap string string) (k : string) : string :=
  k +:+ nul +:+ default "" (data !! k) +:+ nul.

Definition tls_preimage (data : gmap string string) : string :=
  tls_part data TLSCertKey +:+ tls_part data TLSKeyKey +:+ tls_part data TLSCAKey.

Definition hashTLSData (data : secret_data) : string :=
  match data with None => "" | Some data => sha256_hex (tls_preimage data) end.
End TLS.

(** ** The reconciler's state *)

(** A server with the identity of its allocation and the [DynamicServerTLS] its
    credentials read at every handshake; [None] is plaintext. *)
Record hub_server := HubServer { hs_id : nat; hs_creds : option nat; hs_srv : Server }.

(** The reconciler; the objects it allocated, [DynamicServerTLS] values by their
    location; the goroutines that have yet to start a server, each with its
    context, and those that wait for their context to stop one; contexts and
    servers are numbered. *)
Record hub_state (KeyPair CertPool : Type) := HubState {
  hr_server : option hub_server;
  hr_cancel : option nat;
  hr_tlsSecret : string;
  hr_tlsMTLS : bool;
  hr_tlsDataHash : string;
  hr_dynamicTLS : option nat;
  hr_tls : list (tlsConfig KeyPair CertPool);
  hr_starting : list nat;
  hr_stoppers : list (nat * nat);
  hr_cancelled : list nat;
  hr_next : nat
}.
Arguments HubState {KeyPair CertPool} _ _ _ _ _ _ _ _ _ _ _.
Arguments hr_server {KeyPair CertPool} _.
Arguments hr_cancel {KeyPair CertPool} _.
Arguments hr_tlsSecret {KeyPair CertPool} _.
Arguments hr_tlsMTLS {KeyPair CertPool} _.
Arguments hr_tlsDataHash {KeyPair CertPool} _.
Arguments hr_dynamicTLS {KeyPair CertPool} _.
Arguments hr_tls {KeyPair CertPool} _.
Arguments hr_starting {KeyPair CertPool} _.
Arguments hr_stoppers {KeyPair CertPool} _.
Arguments hr_cancelled {KeyPair CertPool} _.
Arguments hr_next {KeyPair CertPool} _.

Definition initial_hub {KeyPair CertPool} : hub_state KeyPair CertPool :=
  HubState None None "" false "" None [] [] [] [] 0.

(** ** Which [CaptureHub] the server follows *)

Definition older (a b : CaptureHub) : bool :=
  (om_CreationTimestamp (Meta a) <? om_CreationTimestamp (Meta b))
  || ((om_CreationTimestamp (Meta a) =? om_CreationTimestamp (Meta b)) && String.ltb (Name a) (Name b)).

Definition authoritativeHub (items : list CaptureHub) : option CaptureHub :=
  foldl (λ active h, match active with
                     | None => Some h
                     | Some a => if older h a then Some h else Some a
                     end) None items.

(** [spec.tls]'s reference, in the namespace [hubSecretNamespace]; [getenv] is the
    hub's environment. *)
Definition hubSecretNamespace (getenv : string → string) (ref : SecretObjectReference) : string :=
  match sor_Namespace ref with
  | Some ns => if bool_decide (ns ≠ "") then ns
               else if bool_decide (getenv "POD_NAMESPACE" ≠ "") then getenv "POD_NAMESPACE" else "default"
  | None => if bool_decide (getenv "POD_NAMESPACE" ≠ "") then getenv "POD_NAMESPACE" else "default"
  end.

Definition hubRequiresMTLS (hub : CaptureHub) : bool :=
  match chs_Authentication (Spec hub) with
  | Some a => bool_decide (ha_Type a = HubAuthenticationTypeMTLS)
  | None => false
  end.

(** [corev1.Secret]. *)
Definition SecretSpec : Type := secret_data.
Inductive SecretStatus := EmptySecretStatus.
Definition Secret : Type := Object SecretSpec SecretStatus.

(** [meta.SetStatusCondition] also reports whether it changed anything. *)
Class ConditionChange `{ConditionUtil} := {
  condition_changed : list Condition → Condition → bool;
  condition_unchanged : ∀ cs c, condition_changed cs c = false → SetStatusCondition cs c = cs
}.

(** ** The gRPC server *)

Section Server.
Context {KeyPair CertPool : Type} {TL : TLSLib KeyPair CertPool}.
Abbreviation state := (hub_state KeyPair CertPool).

Definition hub_address (hub : CaptureHub) : string :=
  if bool_decide (chs_GRPCAddress (Spec hub) = "") then ":9443" else chs_GRPCAddress (Spec hub).

(** [r.cancel()], [r.server.Stop()] and forgetting both. *)
Definition drop_server (r : state) : state :=
  match hr_server r with
  | None => r
  | Some _ =>
      HubState None None (hr_tlsSecret r) (hr_tlsMTLS r) (hr_tlsDataHash r) (hr_dynamicTLS r) (hr_tls r)
        (hr_starting r) (hr_stoppers r) (option_list (hr_cancel r) ++ hr_cancelled r) (hr_next r)
  end.

Definition stopServer (r : state) : state := drop_server r.

(** [NewDynamicServerTLS] and [Update], on the reconciler's store. *)
Definition NewDynamicServerTLS (data : secret_data) (mtls : bool) (r : state) : state * result nat :=
  match buildServerTLSConfig data mtls with
  | Err err => (r, Err err)
  | Ok cfg =>
      (HubState (hr_server r) (hr_cancel r) (hr_tlsSecret r) (hr_tlsMTLS r) (hr_tlsDataHash r) (hr_dynamicTLS r)
         (hr_tls r ++ [cfg]) (hr_starting r) (hr_stoppers r) (hr_cancelled r) (hr_next r), Ok (length (hr_tls r)))
  end.

Definition DynamicServerTLS_Update (l : nat) (data : secret_data) (mtls : bool) (r : state) : state * option go_error :=
  match buildServerTLSConfig data mtls with
  | Err err => (r, Some err)
  | Ok cfg =>
      (HubState (hr_server r) (hr_cancel r) (hr_tlsSecret r) (hr_tlsMTLS r) (hr_tlsDataHash r) (hr_dynamicTLS r)
         (<[l := cfg]> (hr_tls r)) (hr_starting r) (hr_stoppers r) (hr_cancelled r) (hr_next r), None)
  end.

Definition with_hash (hash : string) (r : state) : state :=
  HubState (hr_server r) (hr_cancel r) (hr_tlsSecret r) (hr_tlsMTLS r) hash (hr_dynamicTLS r)
    (hr_tls r) (hr_starting r) (hr_stoppers r) (hr_cancelled r) (hr_next r).

(** The listener configuration is the one wanted. *)
Definition unchanged (address tlsSecret : string) (mtls : bool) (r : state) : bool :=
  match hr_server r with
  | Some hs => bool_decide (sv_address (hs_srv hs) = address) && bool_decide (hr_tlsSecret r = tlsSecret)
               && Bool.eqb (hr_tlsMTLS r) mtls
  | None => false
  end.

(** Installs a new server, records its configuration and spawns the goroutine
    that starts it, with a context of its own. *)
Definition install (bufferSize : Z) (address : string) (creds : option nat) (tlsSecret : string) (mtls : bool)
    (hash : string) (r : state) : state :=
  let srv := SetDirectiveBufferSize bufferSize (NewServer address) in
  HubState (Some (HubServer (hr_next r) creds srv)) (Some (hr_next r)) tlsSecret mtls hash creds (hr_tls r)
    (hr_starting r ++ [hr_next r]) (hr_stoppers r) (hr_cancelled r) (S (hr_next r)).

(** [ensureServer] once the secret is loaded. *)
Definition ensure_config (bufferSize : Z) (hub : CaptureHub) (data : secret_data) (tlsSecret : string) (r : state)
    : state * option go_error :=
  let address := hub_address hub in
  let mtls := hubRequiresMTLS hub in
  let hash := hashTLSData data in
  if unchanged address tlsSecret mtls r then
    match hr_dynamicTLS r with
    | Some l =>
        if bool_decide (hash ≠ hr_tlsDataHash r) then
          match DynamicServerTLS_Update l data mtls r with
          | (r, Some err) => (r, Some (WrapError "rotate TLS from secret %s: %w" [FStr tlsSecret] err))
          | (r, None) => (with_hash hash r, None)
          end
        else (r, None)
    | None => (r, None)
    end
  else
    let r := drop_server r in
    match data with
    | None => (install bufferSize address None tlsSecret mtls hash r, None)
    | Some _ =>
        match NewDynamicServerTLS data mtls r with
        | (r, Err err) => (r, Some (WrapError "TLS secret %s: %w" [FStr tlsSecret] err))
        | (r, Ok l) => (install bufferSize address (Some l) tlsSecret mtls hash r, None)
        end
    end.

(** ** The goroutines of a server *)

(** The [i]th goroutine that starts a server runs: it reads the reconciler's
    server, a nil pointer when there is none.  [listening] is the outcome of
    [net.Listen], on which [Start] leaves a goroutine that stops the server when
    the context ends. *)
Definition run_start (i : nat) (listening : bool) (r : state) : go state :=
  match hr_starting r !! i with
  | None => Ret r
  | Some c =>
      match hr_server r with
      | None => Panic
      | Some hs =>
          Ret (HubState (hr_server r) (hr_cancel r) (hr_tlsSecret r) (hr_tlsMTLS r) (hr_tlsDataHash r) (hr_dynamicTLS r)
                 (hr_tls r) (delete i (hr_starting r))
                 (if listening then hr_stoppers r ++ [(c, hs_id hs)] else hr_stoppers r) (hr_cancelled r) (hr_next r))
      end
  end.

(** A goroutine whose context is done stops its server. *)
Definition run_stopper (i : nat) (r : state) : state :=
  match hr_stoppers r !! i with
  | Some (c, id) =>
      if bool_decide (c ∈ hr_cancelled r) then
        HubState ((λ hs, if bool_decide (hs_id hs = id) then HubServer (hs_id hs) (hs_creds hs) (Stop (hs_srv hs)) else hs)
                    <$> hr_server r)
          (hr_cancel r) (hr_tlsSecret r) (hr_tlsMTLS r) (hr_tlsDataHash r) (hr_dynamicTLS r)
          (hr_tls r) (hr_starting r) (delete i (hr_stoppers r)) (hr_cancelled r) (hr_next r)
      else r
  | None => r
  end.

(** An operation of the running server. *)
Definition on_server (f : Server → Server) (r : state) : state :=
  HubState ((λ hs, HubServer (hs_id hs) (hs_creds hs) (f (hs_srv hs))) <$> hr_server r)
    (hr_cancel r) (hr_tlsSecret r) (hr_tlsMTLS r) (hr_tlsDataHash r) (hr_dynamicTLS r)
    (hr_tls r) (hr_starting r) (hr_stoppers r) (hr_cancelled r) (hr_next r).
End Server.

(** ** The reconciler *)

Record hub_gauges := { hg_ConnectedSpokes : Z; hg_ActiveCaptures : Z; hg_ActiveReplays : Z }.

Record hub_world (W KeyPair CertPool : Type) := HubWorld {
  hw_api : W;
  hw_hub : hub_state KeyPair CertPool;
  hw_gauges : hub_gauges
}.
Arguments HubWorld {W KeyPair CertPool} _ _ _.
Arguments hw_api {W KeyPair CertPool} _.
Arguments hw_hub {W KeyPair CertPool} _.
Arguments hw_gauges {W KeyPair CertPool} _.

Definition active_condition (status : ConditionStatus) (reason : string) (message : text) : Condition :=
  {| cond_Type := CaptureHubConditionActive; cond_Status := status; cond_Reason := reason; cond_Message := message |}.

Definition with_conditions (cs : list Condition) (st : CaptureHubStatus) : CaptureHubStatus :=
  {| chst_ConnectedSpokes := chst_ConnectedSpokes st; chst_ActiveCaptures := chst_ActiveCaptures st;
     chst_ActiveReplays := chst_ActiveReplays st; chst_Spokes := chst_Spokes st; chst_Cells := chst_Cells st;
     chst_Conditions := cs |}.

Section Controller.
Context {KeyPair CertPool W : Type} {TL : TLSLib KeyPair CertPool} {MR : MapRange}.
Context {KH : KubeClient W CaptureHubSpec CaptureHubStatus} {KS : KubeClient W SecretSpec SecretStatus}.
Context {KL : KubeClient W CaptureLoadTestSpec CaptureLoadTestStatus}.
Context {CU : ConditionUtil} {CC : ConditionChange}.
(** The hub's environment, the buffer size it was started with, and the two
    readings of the clock in one status update. *)
Context (getenv : string → string) (bufferSize now_count now_cells : Z).
Abbreviation world := (hub_world W KeyPair CertPool).

Definition hubsReferencingSecret (obj : Secret) (w : W) : list string :=
  match (client_List w : result (list CaptureHub)) with
  | Err _ => []
  | Ok hubs =>
      omap (λ hub, match chs_TLS (Spec hub) with
                   | None => None
                   | Some tls =>
                       let ref := htc_CertSecretRef tls in
                       if bool_decide (sor_Name ref = Name obj)
                          && bool_decide (hubSecretNamespace getenv ref = Namespace obj)
                       then Some (Name hub) else None
                   end) hubs
  end.

Definition loadTLSSecret (hub : CaptureHub) (w : W) : result (secret_data * string) :=
  match chs_TLS (Spec hub) with
  | None => Ok (None, "")
  | Some tls =>
      let ref := htc_CertSecretRef tls in
      let ns := hubSecretNamespace getenv ref in
      let key := ns +:+ "/" +:+ sor_Name ref in
      match (client_Get ns (sor_Name ref) w : result Secret) with
      | Err err => Err (WrapError "load TLS secret %s: %w" [FStr key] err)
      | Ok secret => Ok (Spec secret, key)
      end
  end.

Definition ensureServer (hub : CaptureHub) (s : world) : world * option go_error :=
  match loadTLSSecret hub (hw_api s) with
  | Err err => (s, Some err)
  | Ok (data, tlsSecret) =>
      let '(r, err) := ensure_config bufferSize hub data tlsSecret (hw_hub s) in
      (HubWorld (hw_api s) r (hw_gauges s), err)
  end.

Definition markNotAuthoritative (activeName : string) (hub : CaptureHub) (s : world) : world * option go_error :=
  let c := active_condition ConditionFalse "NotAuthoritative"
             (Fmt "gRPC server follows CaptureHub %q (oldest wins); this resource is ignored" [FStr activeName]) in
  let cs := chst_Conditions (Status hub) in
  if condition_changed cs c then
    let '(w, (_, err)) := client_StatusUpdate (with_Status (with_conditions (SetStatusCondition cs c) (Status hub)) hub) (hw_api s) in
    (HubWorld w (hw_hub s) (hw_gauges s), err)
  else (s, None).

(** Failures to mark a resource are logged only. *)
Fixpoint mark_others (active : string) (items : list CaptureHub) (s : world) : world :=
  match items with
  | [] => s
  | other :: items =>
      if bool_decide (Name other = active) then mark_others active items s
      else mark_others active items (fst (markNotAuthoritative active other s))
  end.

Definition load_test_key (lt : Object CaptureLoadTestSpec CaptureLoadTestStatus) : LoadTestKey :=
  {| ltk_Namespace := Namespace lt; ltk_Name := Name lt |}.

(** The list of load tests the server hands to its spokes. *)
Definition publish_load_tests (w : W) : Server → Server :=
  match client_List (Sp := CaptureLoadTestSpec) (St := CaptureLoadTestStatus) w with
  | Err _ => SetActiveLoadTests [] false
  | Ok items => SetActiveLoadTests (load_test_key <$> items) true
  end.

Definition spoke_status (ss : SpokeStatusSnapshot) : CaptureHubSpokeStatus :=
  {| hss_Name := sss_Name ss; hss_Cell := sss_Cell ss; hss_LastHeartbeat := Some (sss_LastHeartbeat ss);
     hss_ActiveCaptures := sss_ActiveCaptures ss; hss_ActiveReplays := sss_ActiveReplays ss |}.

Definition cell_status (cs : CellStatusSnapshot) : CaptureHubCellStatus :=
  {| hcs_Name := cst_Name cs; hcs_ConnectedSpokes := cst_ConnectedSpokes cs; hcs_TotalSpokes := cst_TotalSpokes cs;
     hcs_ActiveCaptures := cst_ActiveCaptures cs; hcs_ActiveReplays := cst_ActiveReplays cs |}.

(** The status [updateStatus] writes for a server. *)
Definition hub_status (srv : Server) (st : CaptureHubStatus) : CaptureHubStatus :=
  {| chst_ConnectedSpokes := ConnectedSpokeCount now_count srv;
     chst_ActiveCaptures := ActiveCaptureCount srv;
     chst_ActiveReplays := ActiveReplayCount srv;
     chst_Spokes := spoke_status <$> SpokeStatuses srv;
     chst_Cells := cell_status <$> CellStatuses now_cells srv;
     chst_Conditions := SetStatusCondition (chst_Conditions st)
       (active_condition ConditionTrue "Authoritative" (Fmt "gRPC server follows this CaptureHub" [])) |}.

Definition updateStatus (hub : CaptureHub) (s : world) : world * option go_error :=
  match hr_server (hw_hub s) with
  | None => (s, Some (FmtError "gRPC server not running" []))
  | Some hs =>
      let srv := publish_load_tests (hw_api s) (hs_srv hs) in
      let st := hub_status srv (Status hub) in
      let '(w, (_, err)) := client_StatusUpdate (with_Status st hub) (hw_api s) in
      (HubWorld w (on_server (publish_load_tests (hw_api s)) (hw_hub s))
         {| hg_ConnectedSpokes := chst_ConnectedSpokes st; hg_ActiveCaptures := chst_ActiveCaptures st;
            hg_ActiveReplays := chst_ActiveReplays st |}, err)
  end.

Definition Reconcile (s : world) : world * result Result :=
  match (client_List (hw_api s) : result (list CaptureHub)) with
  | Err err => (s, Err err)
  | Ok hubs =>
      match authoritativeHub hubs with
      | None => (HubWorld (hw_api s) (stopServer (hw_hub s)) (hw_gauges s), Ok {| RequeueAfter := 0 |})
      | Some hub =>
          match ensureServer hub s with
          | (s, Some err) => (s, Err err)
          | (s, None) =>
              let s := mark_others (Name hub) hubs s in
              match updateStatus hub s with
              | (s, Some err) => (s, Err err)
              | (s, None) => (s, Ok {| RequeueAfter := 30 * Second |})
              end
          end
      end
  end.
End Controller.
