(* ===== verification/HubControl.v ===== *)
(** * What the hub serves

    Theorems about [HubController]: which resource the gRPC server follows, that
    its transport security is what that resource and its secret demand in every
    state the controller, the server's goroutines and its RPCs can reach, and when
    starting and stopping it is free of races. *)

From S2P Require Import Prelude GoStd Kube KubeWorld Api CaptureApi HubProto HubServer HubInvariant HubController.
From Stdlib Require Import Ascii.

Local Open Scope Z_scope.

(** ** The oldest [CaptureHub] *)

Lemma ltb_spec s t : String.ltb s t = true ↔ String.le s t ∧ s ≠ t.
Proof.
  unfold String.ltb, String.le, String.leb. destruct (String.compare s t) eqn:E; simpl.
  - apply String.compare_eq_iff in E. split; [done|]. by intros [_ ?].
  - split; [|done]. intros _. split; [done|]. intros ->. pose proof (String.compare_antisym t t) as Ha. by rewrite E in Ha.
  - split; [done|]. by intros [[] _].
Qed.

Lemma older_irrefl a b : Name a = Name b → om_CreationTimestamp (Meta a) = om_CreationTimestamp (Meta b) → older a b = false.
Proof.
  intros Hn Ht. unfold older. rewrite Ht, Hn, Z.ltb_irrefl. simpl. apply andb_false_iff. right.
  apply not_true_is_false. by intros [_ ?]%ltb_spec.
Qed.

Lemma older_spec a b : older a b = true ↔
  om_CreationTimestamp (Meta a) < om_CreationTimestamp (Meta b) ∨
  om_CreationTimestamp (Meta a) = om_CreationTimestamp (Meta b) ∧ String.le (Name a) (Name b) ∧ Name a ≠ Name b.
Proof. unfold older. rewrite orb_true_iff, andb_true_iff, Z.ltb_lt, Z.eqb_eq, ltb_spec. done. Qed.

Lemma older_trans a b c : older a b = true → older b c = true → older a c = true.
Proof.
  rewrite !older_spec. intros [?|(? & ? & ?)] [?|(? & ? & ?)]; [lia..| |left; lia|right]; [left; lia|].
  split; [lia|]. split; [by etrans|]. intros Heq. assert (Name a = Name b); [|done].
  apply (anti_symm String.le); [done|]. by rewrite Heq.
Qed.

Lemma older_total a b : Name a ≠ Name b → older a b = true ∨ older b a = true.
Proof.
  intros Hne. rewrite !older_spec. destruct (Z.lt_trichotomy (om_CreationTimestamp (Meta a)) (om_CreationTimestamp (Meta b)))
    as [?|[?|?]]; [by left; left| |by right; left].
  destruct (total String.le (Name a) (Name b)); [left|right]; right; by repeat split.
Qed.

Lemma older_asymm a b : older a b = true → older b a = false.
Proof.
  intros Hab. destruct (older b a) eqn:Hba; [|done]. pose proof (older_trans _ _ _ Hab Hba) as Haa.
  by rewrite older_irrefl in Haa.
Qed.

(** The resource of a list that is older than all others. *)
Definition oldest (hub : CaptureHub) (items : list CaptureHub) : Prop :=
  hub ∈ items ∧ ∀ other, other ∈ items → Name other = Name hub ∨ older hub other = true.

Lemma name_inj (a b : CaptureHub) items : NoDup (Name <$> items) → a ∈ items → b ∈ items → Name a = Name b → a = b.
Proof.
  intros Hnd [i Hi]%list_elem_of_lookup [j Hj]%list_elem_of_lookup Heq.
  pose proof (eq_trans (list_lookup_fmap Name items i) (f_equal (fmap Name) Hi)) as Hi'.
  pose proof (eq_trans (list_lookup_fmap Name items j) (f_equal (fmap Name) Hj)) as Hj'.
  simpl in Hi', Hj'. rewrite <-Heq in Hj'.
  pose proof (NoDup_lookup _ _ _ _ Hnd Hi' Hj') as ->. congruence.
Qed.

Lemma oldest_unique a b items : NoDup (Name <$> items) → oldest a items → oldest b items → a = b.
Proof.
  intros Hnd [Ha Hoa] [Hb Hob]. destruct (decide (Name a = Name b)) as [Heq|Hne]; [by eapply name_inj|].
  destruct (Hoa b Hb) as [?|Hab]; [done|]. destruct (Hob a Ha) as [?|Hba]; [done|].
  apply older_asymm in Hab. congruence.
Qed.

Lemma oldest_snoc a h seen : oldest a seen → NoDup (Name <$> seen ++ [h]) →
  oldest (if older h a then h else a) (seen ++ [h]).
Proof.
  intros [Ha Ho] Hnd. assert (∀ o, o ∈ seen → Name o = Name a → o = a) as Hinj.
  { intros o Hin Hn. eapply name_inj; [done|set_solver|set_solver|done]. }
  assert (Name h ≠ Name a) as Hne.
  { intros Heq. rewrite fmap_app in Hnd. apply NoDup_app in Hnd as (_ & Hd & _).
    apply (Hd (Name a)); [by apply list_elem_of_fmap_2|]. simpl. rewrite Heq. set_solver. }
  destruct (older h a) eqn:E; (split; [set_solver|]); intros o [Hin| ->%list_elem_of_singleton]%elem_of_app; [|by left|by auto|].
  - right. destruct (Ho o Hin) as [->%Hinj|Hao]; [done|done|by eapply older_trans].
  - destruct (older_total h a Hne) as [?|?]; [congruence|by right].
Qed.

Lemma fold_oldest items : ∀ a seen, oldest a seen → NoDup (Name <$> seen ++ items) →
  ∃ hub, foldl (λ active h, match active with None => Some h | Some a => if older h a then Some h else Some a end)
           (Some a) items = Some hub ∧ oldest hub (seen ++ items).
Proof.
  induction items as [|h items IH]; intros a seen Ha Hnd; simpl; [exists a; by rewrite app_nil_r|].
  assert (seen ++ h :: items = (seen ++ [h]) ++ items) as Happ by (by rewrite <-app_assoc).
  rewrite Happ in *. replace (if older h a then Some h else Some a) with (Some (if older h a then h else a))
    by (by destruct (older h a)).
  apply IH; [|done]. apply oldest_snoc; [done|]. rewrite fmap_app in Hnd. by apply NoDup_app in Hnd as (Hnd & _).
Qed.

Lemma authoritativeHub_oldest items : items ≠ [] → NoDup (Name <$> items) →
  ∃ hub, authoritativeHub items = Some hub ∧ oldest hub items.
Proof.
  destruct items as [|h items]; [done|]. intros _ Hnd. unfold authoritativeHub. simpl.
  apply (fold_oldest items h [h]); [|done]. split; [set_solver|]. intros o ->%list_elem_of_singleton. by left.
Qed.

(** ** The steps of the controller *)

Section Control.
Context {KeyPair CertPool : Type} {TL : TLSLib KeyPair CertPool} {MR : MapRange}.
Abbreviation state := (hub_state KeyPair CertPool).
Implicit Types (r : state) (data : secret_data).

Lemma hub_step_address s lbl s' : hub_step s lbl s' → sv_address s' = sv_address s.
Proof.
  destruct 1.
  all: try done.
  all: unfold RegisterSpoke, Heartbeat, DeregisterSpoke, ReportCaptureStatus, ReportReplayStatus, queue_lookup, queue_send, try_send,
    WatchDirectives_select, pop_directive, close_done, SetDirectiveBufferSize, alloc_entry, set_entries, set_spokes, set_metrics in *.
  all: repeat (case_match; simplify_eq/=; try done).
  all: destruct (sv_entries s !! l) as [e|]; simpl in *; [|done]; by repeat (case_match; simplify_eq/=).
Qed.
(** One atomic action of the controller, of a goroutine of a server, or of an RPC.
    A hub whose TLS section names a secret loads the data of one.  When [prompt]
    holds, the scheduler runs the goroutine that starts a server before the
    controller reconciles again. *)
Inductive control_step (prompt : bool) : state → state → Prop :=
  | step_ensure bufferSize hub data key r :
      (prompt = true → hr_starting r = []) → (data = None ↔ key = "") →
      control_step prompt r (fst (ensure_config bufferSize hub data key r))
  | step_shutdown r : (prompt = true → hr_starting r = []) → control_step prompt r (stopServer r)
  | step_start i listening r r' : run_start i listening r = Ret r' → control_step prompt r r'
  | step_stopper i r : control_step prompt r (run_stopper i r)
  | step_rpc hs lbl srv r : hr_server r = Some hs → hub_step (hs_srv hs) lbl srv →
      control_step prompt r (on_server (λ _, srv) r).

Definition control_reachable (prompt : bool) : state → Prop := rtc (control_step prompt) initial_hub.

(** ** The invariant *)

(** The listener is what [data] asks for: plaintext without data, and otherwise a
    configuration built from data with the same digest. *)
Definition secured (data : secret_data) (mtls : bool) (creds : option nat) r : Prop :=
  match data, creds with
  | None, None => True
  | Some _, Some l => ∃ cfg data', hr_tls r !! l = Some cfg ∧ buildServerTLSConfig data' mtls = Ok cfg ∧
                        hashTLSData data' = hashTLSData data
  | _, _ => False
  end.

Record hub_inv r : Prop := {
  hi_creds : ∀ hs, hr_server r = Some hs → hs_creds hs = hr_dynamicTLS r;
  hi_secured : ∀ hs, hr_server r = Some hs → ∃ data,
    (data = None ↔ hr_tlsSecret r = "") ∧ hr_tlsDataHash r = hashTLSData data ∧
    secured data (hr_tlsMTLS r) (hr_dynamicTLS r) r
}.

Lemma hash_none data : hashTLSData data = "" → data = None.
Proof.
  destruct data as [m|]; [|done]. simpl. intros Hh. pose proof (sha256_length (tls_preimage m)) as Hl. by rewrite Hh in Hl.
Qed.

Lemma secured_same r r' data mtls creds : hr_tls r' = hr_tls r → secured data mtls creds r → secured data mtls creds r'.
Proof. intros Ht. unfold secured. by rewrite Ht. Qed.

(** Steps that keep the configuration keep the invariant. *)
Lemma hub_inv_frame r r' : hr_tlsSecret r' = hr_tlsSecret r → hr_tlsMTLS r' = hr_tlsMTLS r → hr_tlsDataHash r' = hr_tlsDataHash r →
  hr_dynamicTLS r' = hr_dynamicTLS r → hr_tls r' = hr_tls r →
  (∀ hs', hr_server r' = Some hs' → ∃ hs, hr_server r = Some hs ∧ hs_creds hs' = hs_creds hs) → hub_inv r → hub_inv r'.
Proof.
  intros Hs Hm Hh Hd Ht Hsrv [Hc Hsec]. split; intros hs' Hhs'; destruct (Hsrv hs' Hhs') as (hs & Hhs & Hcr).
  - rewrite Hcr, Hd. by apply Hc.
  - destruct (Hsec hs Hhs) as (data & Hn & Hha & Hse). exists data. rewrite Hs, Hh, Hm, Hd.
    split; [done|]. split; [done|]. by eapply secured_same.
Qed.

Lemma hub_inv_down r : hr_server r = None → hub_inv r.
Proof. intros Hn. split; intros hs Hhs; congruence. Qed.

Lemma drop_server_none r : hr_server (drop_server r) = None.
Proof. unfold drop_server. by destruct (hr_server r) eqn:E. Qed.

Lemma unchanged_inv address key mtls r : unchanged address key mtls r = true →
  ∃ hs, hr_server r = Some hs ∧ sv_address (hs_srv hs) = address ∧ hr_tlsSecret r = key ∧ hr_tlsMTLS r = mtls.
Proof.
  unfold unchanged. destruct (hr_server r) as [hs|]; [|done].
  rewrite !andb_true_iff, !bool_decide_eq_true, Bool.eqb_true_iff. intros [[? ?] ?]. by exists hs.
Qed.

Lemma build_some data mtls cfg : buildServerTLSConfig data mtls = Ok cfg → is_Some data.
Proof. destruct data; [done|]. simpl. done. Qed.

(** What a successful [ensureServer] establishes in the state it leaves. *)
Definition serves (hub : CaptureHub) (data : secret_data) (key : string) (hs : hub_server) r : Prop :=
  hr_server r = Some hs ∧ sv_address (hs_srv hs) = hub_address hub ∧ hr_tlsSecret r = key ∧
  hr_tlsMTLS r = hubRequiresMTLS hub ∧ secured data (hubRequiresMTLS hub) (hs_creds hs) r.

Lemma install_serves bufferSize hub creds key data r : (data = None ↔ key = "") → secured data (hubRequiresMTLS hub) creds r →
  let r' := install bufferSize (hub_address hub) creds key (hubRequiresMTLS hub) (hashTLSData data) r in
  hub_inv r' ∧ ∃ hs, serves hub data key hs r'.
Proof.
  intros Hdk Hs. simpl. split.
  - split; intros hs [= <-]; [done|]. by exists data.
  - eexists. split; [reflexivity|]. simpl. unfold SetDirectiveBufferSize. split; [by destruct (0 <? bufferSize)|done].
Qed.

(** Rotation in place. *)
Lemma rotate_serves hub data key hs l r r' : hub_inv r → (data = None ↔ key = "") →
  hr_server r = Some hs → sv_address (hs_srv hs) = hub_address hub → hr_tlsSecret r = key → hr_tlsMTLS r = hubRequiresMTLS hub →
  hr_dynamicTLS r = Some l → DynamicServerTLS_Update l data (hubRequiresMTLS hub) r = (r', None) →
  hub_inv (with_hash (hashTLSData data) r') ∧ serves hub data key hs (with_hash (hashTLSData data) r').
Proof.
  intros Hinv Hdk Hhs Haddr Hkey Hm Hl.
  pose proof (hi_creds r Hinv hs Hhs) as Hcr. destruct (hi_secured r Hinv hs Hhs) as (d & _ & _ & Hse). rewrite Hl in Hcr, Hse.
  unfold DynamicServerTLS_Update. destruct (buildServerTLSConfig data (hubRequiresMTLS hub)) as [cfg|e] eqn:Hb; [|done].
  intros [= <-]. destruct (build_some _ _ _ Hb) as [m ->]. destruct d as [m0|]; [|done]. destruct Hse as (cfg0 & d0 & Hlk & _).
  assert (<[l:=cfg]> (hr_tls r) !! l = Some cfg) as Hnew by (apply list_lookup_insert_eq; by eapply lookup_lt_Some).
  split.
  - split; simpl; intros hs' Hhs'; [rewrite Hhs in Hhs'; simplify_eq; by rewrite Hl|]. exists (Some m).
    rewrite Hkey, Hm, Hl. split; [done|]. split; [done|]. by exists cfg, (Some m).
  - split; [done|]. split; [done|]. split; [done|]. split; [done|]. rewrite Hcr. by exists cfg, (Some m).
Qed.

(** Nothing to do. *)
Lemma unchanged_serves hub data key hs r : hub_inv r → (data = None ↔ key = "") →
  hr_server r = Some hs → sv_address (hs_srv hs) = hub_address hub → hr_tlsSecret r = key → hr_tlsMTLS r = hubRequiresMTLS hub →
  hr_dynamicTLS r = None ∨ hashTLSData data = hr_tlsDataHash r → serves hub data key hs r.
Proof.
  intros Hinv Hdk Hhs Haddr Hkey Hm Hor. repeat (split; [done|]). rewrite (hi_creds r Hinv hs Hhs).
  destruct (hi_secured r Hinv hs Hhs) as (d & Hdn & Hh & Hse). rewrite Hkey in Hdn. rewrite Hm in Hse.
  destruct d as [m0|], (hr_dynamicTLS r) as [l|]; try done.
  - destruct Hor as [?|Hor]; [done|]. rewrite Hh in Hor. destruct Hse as (cfg & d' & Hlk & Hb & Hd').
    destruct data as [m|]; [|by symmetry in Hor; apply hash_none in Hor]. exists cfg, d'. by rewrite Hd', Hor.
  - destruct data as [m|]; [|done]. destruct Hdk as [_ Hdk], Hdn as [Hdn _]. discriminate (Hdk (Hdn eq_refl)).
Qed.

Lemma ensure_config_ok bufferSize hub data key r r' : hub_inv r → (data = None ↔ key = "") →
  ensure_config bufferSize hub data key r = (r', None) →
  hub_inv r' ∧ ∃ hs, serves hub data key hs r' ∧
    (unchanged (hub_address hub) key (hubRequiresMTLS hub) r = true → hr_server r = Some hs).
Proof.
  intros Hinv Hdk. unfold ensure_config.
  destruct (unchanged (hub_address hub) key (hubRequiresMTLS hub) r) eqn:Hun.
  - apply unchanged_inv in Hun as (hs & Hhs & Haddr & Hkey & Hm). destruct (hr_dynamicTLS r) as [l|] eqn:Hl.
    + case_bool_decide as Hne.
      * destruct (DynamicServerTLS_Update l data (hubRequiresMTLS hub) r) as [r1 [e|]] eqn:Hup; [done|]. intros [= <-].
        destruct (rotate_serves hub data key hs l r r1) as [Hi Hs]; [done..|]. split; [done|]. by exists hs.
      * intros [= <-]. split; [done|]. exists hs. split; [|done]. apply unchanged_serves; auto.
    + intros [= <-]. split; [done|]. exists hs. split; [|done]. apply unchanged_serves; auto.
  - destruct data as [m|].
    + unfold NewDynamicServerTLS. destruct (buildServerTLSConfig (Some m) (hubRequiresMTLS hub)) as [cfg|e] eqn:Hb; [|done].
      intros [= <-]. edestruct install_serves as [Hi [hs Hs]]; [exact Hdk| |split; [exact Hi|exists hs; by split]].
      exists cfg, (Some m). split; [|done]. by apply list_lookup_middle.
    + intros [= <-]. edestruct install_serves as [Hi [hs Hs]]; [exact Hdk| |split; [exact Hi|exists hs; by split]]. done.
Qed.

(** A failed [ensureServer] leaves the configuration of the running server alone,
    or no server. *)
Lemma ensure_config_err bufferSize hub data key r r' e : ensure_config bufferSize hub data key r = (r', Some e) →
  r' = r ∨ hr_server r' = None.
Proof.
  unfold ensure_config. destruct (unchanged _ _ _ r).
  - destruct (hr_dynamicTLS r) as [l|]; [|done]. case_bool_decide; [|done]. unfold DynamicServerTLS_Update.
    destruct (buildServerTLSConfig data (hubRequiresMTLS hub)); [done|]. intros [= <- _]. by left.
  - destruct data as [m|]; [|done]. unfold NewDynamicServerTLS. destruct (buildServerTLSConfig (Some m) (hubRequiresMTLS hub)); [done|].
    intros [= <- _]. right. apply drop_server_none.
Qed.

Lemma control_step_inv prompt r r' : control_step prompt r r' → hub_inv r → hub_inv r'.
Proof.
  intros Hst Hinv. destruct Hst as [bufferSize hub data key r _ Hdk|r _|i listening r r' Hs|i r|hs lbl srv r Hhs Hs].
  - destruct (ensure_config bufferSize hub data key r) as [r' [e|]] eqn:He; simpl.
    + apply ensure_config_err in He as [->|Hn]; [done|by apply hub_inv_down].
    + by apply ensure_config_ok in He as [Hi _].
  - apply hub_inv_down, drop_server_none.
  - unfold run_start in Hs. destruct (hr_starting r !! i); [|by simplify_eq]. destruct (hr_server r) as [hs|] eqn:Hhs; [|done].
    injection Hs as <-. eapply hub_inv_frame; [..|exact Hinv]; try done. simpl. intros hs' Hhs'. exists hs'. split; [congruence|done].
  - unfold run_stopper. destruct (hr_stoppers r !! i) as [[c id]|]; [|done]. case_bool_decide; [|done].
    eapply hub_inv_frame; [..|exact Hinv]; try done. simpl. intros hs' Hhs'. destruct (hr_server r) as [hs|]; [|done].
    exists hs. split; [done|]. injection Hhs' as <-. by case_bool_decide.
  - eapply hub_inv_frame; [..|exact Hinv]; try done. simpl. intros hs' Hhs'. rewrite Hhs in Hhs'. injection Hhs' as <-. by exists hs.
Qed.

Lemma control_reachable_inv prompt r : control_reachable prompt r → hub_inv r.
Proof.
  intros Hr. apply rtc_nsteps in Hr as [n Hn]. remember initial_hub as r0 eqn:E.
  assert (hub_inv r0) as H0 by (subst; by apply hub_inv_down). clear E.
  induction Hn as [|n r1 r2 r3 Hs _ IH]; [done|]. apply IH. by eapply control_step_inv.
Qed.
(** ** Starting and stopping in order *)

(** Every context is the one of the server it was made for; only the current
    server may still have to start, and its context is not done. *)
Record prompt_inv r : Prop := {
  pi_server : ∀ hs, hr_server r = Some hs → hr_cancel r = Some (hs_id hs) ∧ (hs_id hs < hr_next r)%nat ∧ hs_id hs ∉ hr_cancelled r;
  pi_starting : ∀ c, c ∈ hr_starting r → ∃ hs, hr_server r = Some hs ∧ hs_id hs = c;
  pi_stoppers : ∀ c id, (c, id) ∈ hr_stoppers r → c = id;
  pi_cancelled : ∀ c, c ∈ hr_cancelled r → (c < hr_next r)%nat
}.

(** A stopper whose context is done is not the current server's. *)
Lemma run_stopper_server i r : prompt_inv r → hr_server (run_stopper i r) = hr_server r.
Proof.
  intros [Hs _ Hst _]. unfold run_stopper. destruct (hr_stoppers r !! i) as [[c id]|] eqn:Hi; [|done].
  case_bool_decide as Hc; [|done]. simpl. destruct (hr_server r) as [hs|]; [|done]. simpl.
  apply list_elem_of_lookup_2, Hst in Hi as ->. destruct (Hs hs eq_refl) as (_ & _ & Hn).
  case_bool_decide as Hid; [|done]. by rewrite Hid in Hn.
Qed.

Lemma drop_prompt r : prompt_inv r → hr_starting r = [] → prompt_inv (drop_server r) ∧ hr_starting (drop_server r) = [].
Proof.
  intros Hp He. unfold drop_server. destruct (hr_server r) as [hs|] eqn:Hs; [|done]. split; [|done]. destruct Hp as [H1 _ H3 H4].
  destruct (H1 hs Hs) as (Hc & Hlt & _). split; simpl; try done.
  - intros c. rewrite He. by intros ?%not_elem_of_nil.
  - intros c. rewrite Hc. simpl. intros [->|Hin]%elem_of_cons; [done|by apply H4].
Qed.

Lemma install_prompt bufferSize address creds key mtls hash r : prompt_inv r → hr_starting r = [] →
  prompt_inv (install bufferSize address creds key mtls hash r).
Proof.
  intros [H1 _ H3 H4] He. split; simpl; try done.
  - intros hs [= <-]. simpl. split; [done|]. split; [lia|]. intros Hin%H4. lia.
  - intros c. rewrite He. intros ->%list_elem_of_singleton. by eexists.
  - intros c Hc%H4. lia.
Qed.

Lemma ensure_prompt bufferSize hub data key r : prompt_inv r → hr_starting r = [] →
  prompt_inv (fst (ensure_config bufferSize hub data key r)).
Proof.
  intros Hp He. destruct (drop_prompt r Hp He) as [Hpd Hed]. unfold ensure_config. destruct (unchanged _ _ _ r).
  - destruct (hr_dynamicTLS r); [|done]. case_bool_decide; [|done]. unfold DynamicServerTLS_Update.
    destruct (buildServerTLSConfig _ _); [|done]. destruct Hp. by split.
  - destruct data as [m|]; [|by apply install_prompt]. unfold NewDynamicServerTLS. destruct (buildServerTLSConfig _ _); [|done].
    apply install_prompt; [|done]. destruct Hpd. by split.
Qed.

Lemma control_step_prompt r r' : control_step true r r' → prompt_inv r → prompt_inv r'.
Proof.
  intros Hst Hp. destruct Hst as [bufferSize hub data key r Hg _|r Hg|i listening r r' Hs|i r|hs lbl srv r Hhs Hs].
  - by apply ensure_prompt, Hg.
  - by apply drop_prompt, Hg.
  - unfold run_start in Hs. destruct (hr_starting r !! i) as [c|] eqn:Hi; [|by simplify_eq].
    pose proof Hp as [H1 H2 H3 H4]. apply list_elem_of_lookup_2 in Hi. destruct (H2 c Hi) as (hs & Hhs & <-). rewrite Hhs in Hs.
    injection Hs as <-. rewrite Hhs in H1. setoid_rewrite Hhs in H2. split; simpl; [done| | |done].
    + intros c Hc. by eapply H2, list_subseteq_delete.
    + intros c id. destruct listening; [|apply H3]. intros [Hin|[= -> ->]%list_elem_of_singleton]%elem_of_app; [by apply H3|done].
  - pose proof (run_stopper_server i r Hp) as Hsame. destruct Hp as [H1 H2 H3 H4].
    unfold run_stopper in *. destruct (hr_stoppers r !! i) as [[c id]|]; [|done].
    case_bool_decide; [|done]. simpl in Hsame. split; simpl; rewrite ?Hsame; [done|done| |done].
    intros c' id' Hin. by eapply H3, list_subseteq_delete.
  - destruct Hp as [H1 H2 H3 H4]. split; simpl; [| |done|done].
    + intros hs' Hhs'. rewrite Hhs in Hhs'. injection Hhs' as <-. exact (H1 hs Hhs).
    + intros c Hc%H2. destruct Hc as (hs' & Hhs' & Hid). rewrite Hhs'. by eexists.
Qed.

Lemma prompt_reachable_inv r : control_reachable true r → prompt_inv r.
Proof.
  intros Hr. apply rtc_nsteps in Hr as [n Hn]. remember initial_hub as r0 eqn:E.
  assert (prompt_inv r0) as H0 by (subst; split; simpl; set_solver). clear E.
  induction Hn as [|n r1 r2 r3 Hs _ IH]; [done|]. apply IH. by eapply control_step_prompt.
Qed.

(** Under a scheduler that runs the goroutine of a server before the next
    reconcile, starting a server never meets a nil pointer and no goroutine of an
    older server stops the current one. *)
Theorem prompt_starts_are_safe r : control_reachable true r →
  (∀ i listening, run_start i listening r ≠ Panic) ∧ ∀ i, hr_server (run_stopper i r) = hr_server r.
Proof.
  intros Hp%prompt_reachable_inv. split; [|intros i; by apply run_stopper_server]. intros i listening. unfold run_start.
  destruct (hr_starting r !! i) as [c|] eqn:Hi; [|done]. apply list_elem_of_lookup_2 in Hi.
  by destruct (pi_starting r Hp c Hi) as (hs & -> & _).
Qed.
End Control.

(** ** A reconcile *)

Section Reconcile.
Context {KeyPair CertPool W : Type} {TL : TLSLib KeyPair CertPool} {MR : MapRange} {AE : ApiErrors}.
Context {KH : KubeClient W CaptureHubSpec CaptureHubStatus} {KS : KubeClient W SecretSpec SecretStatus}.
Context {KL : KubeClient W CaptureLoadTestSpec CaptureLoadTestStatus}.
Context {KHL : KubeClientLaws W CaptureHubSpec CaptureHubStatus}.
Context {CU : ConditionUtil} {CC : ConditionChange}.
Context (getenv : string → string) (bufferSize now_count now_cells : Z).
Abbreviation world := (hub_world W KeyPair CertPool).
Abbreviation reconcile := (Reconcile getenv bufferSize now_count now_cells).

Lemma loadTLS_key hub (w : W) data key : loadTLSSecret getenv hub w = Ok (data, key) → key = "" → data = None.
Proof.
  unfold loadTLSSecret. destruct (chs_TLS (Spec hub)) as [tls|]; [|by intros [= <- _]].
  set (ns := hubSecretNamespace getenv (htc_CertSecretRef tls)). clearbody ns.
  destruct (client_Get ns _ w); [|done]. intros [= _ <-] Hk. by destruct ns.
Qed.

Lemma mark_others_hub active items (s : world) : hw_hub (mark_others active items s) = hw_hub s.
Proof.
  revert s. induction items as [|h items IH]; intros s; simpl; [done|]. case_bool_decide; [apply IH|]. rewrite IH.
  unfold markNotAuthoritative. destruct (condition_changed _ _); [|done]. by destruct (client_StatusUpdate _ _) as [? [? ?]].
Qed.

(** The registry of the server is the one it had. *)
Definition same_registry (a b : Server) : Prop := sv_spokes a = sv_spokes b ∧ sv_entries a = sv_entries b.

Lemma updateStatus_ok hub (s s' : world) : updateStatus now_count now_cells hub s = (s', None) →
  ∃ hs srv, hr_server (hw_hub s) = Some hs ∧ hw_hub s' = on_server (λ _, srv) (hw_hub s) ∧
    same_registry srv (hs_srv hs) ∧ sv_address srv = sv_address (hs_srv hs) ∧ hub_step (hs_srv hs) Tau srv ∧
    ∃ o, client_Get (Namespace hub) (Name hub) (hw_api s') = Ok o ∧ Status o = hub_status now_count now_cells srv (Status hub).
Proof using KHL.
  unfold updateStatus. destruct (hr_server (hw_hub s)) as [hs|] eqn:Hhs; [|done].
  destruct (client_StatusUpdate _ _) as [w [o [e|]]] eqn:Hu; [done|]. intros [= <-].
  exists hs, (publish_load_tests (hw_api s) (hs_srv hs)). split; [done|]. split.
  { simpl. unfold on_server. by rewrite Hhs. }
  pose proof (status_ok _ _ _ _ Hu) as (Hst & _ & _ & Hg). simpl.
  assert (∃ keys complete, publish_load_tests (hw_api s) = SetActiveLoadTests keys complete) as (keys & complete & Hp).
  { unfold publish_load_tests. destruct (client_List (hw_api s)); eauto. }
  rewrite Hp in Hst |- *. repeat (split; [done|]). split; [constructor|]. by exists o.
Qed.

End Reconcile.

(** ** What goes wrong *)

Section Holes.
Context {KeyPair CertPool : Type} {TL : TLSLib KeyPair CertPool}.
Implicit Types r : hub_state KeyPair CertPool.

(** A [CaptureHub] whose TLS secret exists but holds no data gets a plaintext
    server, mutual TLS or not, and keeps it when the secret is filled. *)
Theorem empty_secret_serves_plaintext bufferSize hub key data r : hr_server r = None →
  ∃ r' hs, ensure_config bufferSize hub None key r = (r', None) ∧ hr_server r' = Some hs ∧ hs_creds hs = None ∧
    ensure_config bufferSize hub (Some data) key r' = (r', None).
Proof.
  intros Hn. unfold ensure_config. unfold unchanged at 1. rewrite Hn. do 2 eexists. split; [reflexivity|].
  split; [reflexivity|]. split; [done|]. unfold unchanged. simpl.
  assert (sv_address (SetDirectiveBufferSize bufferSize (NewServer (hub_address hub))) = hub_address hub) as ->
    by (unfold SetDirectiveBufferSize; by destruct (0 <? bufferSize)).
  by rewrite !bool_decide_eq_true_2, Bool.eqb_reflx.
Qed.
End Holes.

(** ** Witnesses *)

#[local] Existing Instances mem_errors mem_client mem_client_laws mem_conditionutil canonical_range.

#[local] Instance demo_tls : TLSLib (string * string) string := {|
  X509KeyPair cert key := Ok (cert, key);
  AppendCertsFromPEM pem := if bool_decide (pem = "") then None else Some pem;
  sha256_hex s := fixed 64 (Z.of_nat (String.length s));
  sha256_length s := length_fixed 64 (Z.of_nat (String.length s))
|}.

#[local] Instance demo_change : ConditionChange.
Proof. by refine {| condition_changed _ _ := true |}. Defined.

Definition demo_world : Type :=
  store CaptureHubSpec CaptureHubStatus * store SecretSpec SecretStatus * store CaptureLoadTestSpec CaptureLoadTestStatus.

#[local] Instance demo_hub_client : KubeClient demo_world CaptureHubSpec CaptureHubStatus :=
  part_client (H := mem_client) (λ w, w.1.1) (λ v w, (v, w.1.2, w.2)).
#[local] Instance demo_secret_client : KubeClient demo_world SecretSpec SecretStatus :=
  part_client (H := mem_client) (λ w, w.1.2) (λ v w, (w.1.1, v, w.2)).
#[local] Instance demo_test_client : KubeClient demo_world CaptureLoadTestSpec CaptureLoadTestStatus :=
  part_client (H := mem_client) (λ w, w.2) (λ v w, (w.1.1, w.1.2, v)).
#[local] Instance demo_hub_laws : KubeClientLaws demo_world CaptureHubSpec CaptureHubStatus.
Proof. apply part_laws; [done|by intros [[] ?]|apply mem_client_laws]. Qed.

Definition empty_status : CaptureHubStatus :=
  {| chst_ConnectedSpokes := 0; chst_ActiveCaptures := 0; chst_ActiveReplays := 0; chst_Spokes := []; chst_Cells := [];
     chst_Conditions := [] |}.

Definition demo_hub (name address : string) (created : Z) (tls : bool) : CaptureHub :=
  MkObject (MkObjectMeta name "" "" ∅ ∅ [] [] created None 1)
    {| chs_GRPCAddress := address;
       chs_TLS := if tls then Some {| htc_CertSecretRef := {| sor_Name := "hub-tls"; sor_Namespace := None |} |} else None;
       chs_Authentication := if tls then Some {| ha_Type := HubAuthenticationTypeMTLS |} else None |} empty_status.

Definition demo_secret : Secret :=
  MkObject (newObjectMeta "default" "hub-tls" ∅) (Some {[TLSCertKey := "cert"; TLSKeyKey := "key"; TLSCAKey := "ca"]}) EmptySecretStatus.

(** The older of two hubs asks for mutual TLS. *)
Definition demo_start : hub_world demo_world (string * string) string :=
  HubWorld ({[("", "main") := demo_hub "main" ":7443" 5 true; ("", "extra") := demo_hub "extra" ":8443" 6 false]},
            {[("default", "hub-tls") := demo_secret]}, ∅) initial_hub
    {| hg_ConnectedSpokes := 0; hg_ActiveCaptures := 0; hg_ActiveReplays := 0 |}.

Abbreviation demo_reconcile := (Reconcile (λ _, "") 0 0 0 demo_start).

Definition demo_address (s : hub_world demo_world (string * string) string) : option string :=
  sv_address ∘ hs_srv <$> hr_server (hw_hub s).


(** The goroutine of a first server may run after the server was replaced: it
    then starts the second server with the context of the first, which is done, and
    stops it for good; or after the hub resources are gone, and dereferences nil. *)
Definition demo_first := fst (ensure_config 0 (demo_hub "main" ":7443" 5 false) None "" (initial_hub : hub_state (string * string) string)).
Definition demo_second := fst (ensure_config 0 (demo_hub "main" ":8443" 5 false) None "" demo_first).

Definition shut_down (r : hub_state (string * string) string) : option bool := sv_shutdown ∘ hs_srv <$> hr_server r.

Lemma stale_start_stops_new_server :
  ∃ r, control_reachable false demo_second ∧ run_start 0 true demo_second = Ret r ∧
    shut_down r = Some false ∧ shut_down (run_stopper 0 r) = Some true ∧
    ensure_config 0 (demo_hub "main" ":8443" 5 false) None "" (run_stopper 0 r) = (run_stopper 0 r, None).
Proof.
  eexists. split; [|split; [reflexivity|by vm_compute]].
  eapply rtc_l; [by apply (step_ensure false 0 (demo_hub "main" ":7443" 5 false) None "")|].
  eapply rtc_l; [by apply (step_ensure false 0 (demo_hub "main" ":8443" 5 false) None "")|]. apply rtc_refl.
Qed.

Lemma stale_start_panics : control_reachable false (stopServer demo_first) ∧ run_start 0 true (stopServer demo_first) = Panic.
Proof.
  split; [|reflexivity]. eapply rtc_l; [by apply (step_ensure false 0 (demo_hub "main" ":7443" 5 false) None "")|].
  eapply rtc_l; [by apply step_shutdown|]. apply rtc_refl.
Qed.
