(* ===== verification/HubClient.v ===== *)
(** * The spoke's client of the hub ([internal/spoke/hub_client.go])

    The connection of a spoke to the hub: registration, heartbeats, status reports
    and the loop that receives directives.  The hub is behind the interface
    [HubService], which [server_service] implements with the server of
    [HubServer].  Goroutines are known by the channel that stops them; what a
    round of the directive loop meets is an argument. *)

From S2P Require Import Prelude HubProto HubServer Kube Api SpokeDirectives GoFlag Summary ReplayController.

Local Open Scope Z_scope.

(** ** The hub's RPCs *)

Class HubService (S : Type) := {
  svc_RegisterSpoke : RegisterSpokeRequest → S → S * result RegisterSpokeResponse;
  svc_Heartbeat : HeartbeatRequest → S → S * result HeartbeatResponse;
  svc_ReportCaptureStatus : ReportCaptureStatusRequest → S → S * result Acknowledged;
  svc_ReportReplayStatus : ReportReplayStatusRequest → S → S * result Acknowledged;
  svc_DeregisterSpoke : DeregisterSpokeRequest → S → S * result Acknowledged
}.

(** A handler of the server as its caller sees it: one that panics takes the
    process down and the call fails. *)
Definition served {A} (h : Server → go (Server * result A)) (s : Server) : Server * result A :=
  match h s with
  | Ret r => r
  | Panic => (s, Err (StatusError Unavailable "connection lost" []))
  end.

Definition server_service {MR : MapRange} (ctx : Context) (now : Z) : HubService Server := {|
  svc_RegisterSpoke req := served (RegisterSpoke ctx now req);
  svc_Heartbeat req := served (Heartbeat ctx now req);
  svc_ReportCaptureStatus req := served (ReportCaptureStatus ctx req);
  svc_ReportReplayStatus req := served (ReportReplayStatus ctx req);
  svc_DeregisterSpoke req := served (DeregisterSpoke ctx req)
|}.

(** What the network does to a call: it arrives and is answered, it never arrives,
    or the answer is lost. *)
Inductive network := Delivered | CallLost (err : go_error) | ReplyLost (err : go_error).

Definition invoke {S A} (net : network) (rpc : S → S * result A) (s : S) : S * result A :=
  match net with
  | Delivered => rpc s
  | CallLost err => (s, Err err)
  | ReplyLost err => (fst (rpc s), Err err)
  end.

(** ** The client *)

Record HubClient := MkHubClient {
  hc_hubAddress : string;
  hc_spokeName : string;
  hc_clusterID : string;
  hc_cell : string;
  hc_spokeID : string;
  hc_client : bool;            (* [client != nil] *)
  hc_connected : bool;
  hc_heartbeatStop : option nat;
  hc_directiveStop : option nat;
  hc_chans : list bool;        (* the stop channels made so far: closed or not *)
  hc_beats : list nat;         (* the heartbeat goroutines, by stop channel *)
  hc_watchers : list nat       (* the directive goroutines *)
}.

Definition NewHubClient (address name cluster cell : string) : HubClient :=
  MkHubClient address name cluster cell "" false false None None [] [] [].

(** [err] is that of [grpc.NewClient]. *)
Definition Connect (err : option go_error) (c : HubClient) : HubClient * option go_error :=
  match err with
  | Some err => (c, Some (WrapError "dialing hub at %s: %w" [FStr (hc_hubAddress c)] err))
  | None =>
      (MkHubClient (hc_hubAddress c) (hc_spokeName c) (hc_clusterID c) (hc_cell c) (hc_spokeID c) true true
         (hc_heartbeatStop c) (hc_directiveStop c) (hc_chans c) (hc_beats c) (hc_watchers c), None)
  end.

Definition err_not_connected : go_error := FmtError "not connected to hub" [].

(** ** Channels *)

(** [close]: closing a closed channel panics. *)
Definition close_chan (l : nat) (chans : list bool) : go (list bool) :=
  match chans !! l with
  | Some false => Ret (<[l := true]> chans)
  | _ => Panic
  end.

Definition close_opt (l : option nat) (chans : list bool) : go (list bool) :=
  match l with Some l => close_chan l chans | None => Ret chans end.

Definition StartHeartbeat (c : HubClient) : go HubClient :=
  match close_opt (hc_heartbeatStop c) (hc_chans c) with
  | Panic => Panic
  | Ret chans =>
      Ret (MkHubClient (hc_hubAddress c) (hc_spokeName c) (hc_clusterID c) (hc_cell c) (hc_spokeID c) (hc_client c) (hc_connected c)
             (Some (length chans)) (hc_directiveStop c) (chans ++ [false]) (length chans :: hc_beats c) (hc_watchers c))
  end.

Definition WatchDirectives (c : HubClient) : go HubClient :=
  match close_opt (hc_directiveStop c) (hc_chans c) with
  | Panic => Panic
  | Ret chans =>
      Ret (MkHubClient (hc_hubAddress c) (hc_spokeName c) (hc_clusterID c) (hc_cell c) (hc_spokeID c) (hc_client c) (hc_connected c)
             (hc_heartbeatStop c) (Some (length chans)) (chans ++ [false]) (hc_beats c) (length chans :: hc_watchers c))
  end.

(** Closing the connection itself is the library's. *)
Definition Close (c : HubClient) : go HubClient :=
  match close_opt (hc_heartbeatStop c) (hc_chans c) with
  | Panic => Panic
  | Ret chans =>
      match close_opt (hc_directiveStop c) chans with
      | Panic => Panic
      | Ret chans =>
          Ret (MkHubClient (hc_hubAddress c) (hc_spokeName c) (hc_clusterID c) (hc_cell c) (hc_spokeID c) (hc_client c) false
                 None None chans (hc_beats c) (hc_watchers c))
      end
  end.

(** The goroutine of the channel goes on: the select finds the channel open. *)
Definition running (chans : list bool) (l : nat) : bool := bool_decide (chans !! l = Some false).

(** ** Calls *)

Section Calls.
Context {S W : Type} {HS : HubService S}.

Definition with_spokeID (id : string) (c : HubClient) : HubClient :=
  MkHubClient (hc_hubAddress c) (hc_spokeName c) (hc_clusterID c) (hc_cell c) id (hc_client c) (hc_connected c)
    (hc_heartbeatStop c) (hc_directiveStop c) (hc_chans c) (hc_beats c) (hc_watchers c).

Definition register_request (c : HubClient) : RegisterSpokeRequest :=
  {| rsr_SpokeId := hc_spokeName c; rsr_ClusterName := hc_clusterID c; rsr_KubernetesVersion := "";
     rsr_Capabilities := []; rsr_Cell := hc_cell c |}.

Definition Register (net : network) (c : HubClient) (s : S) : S * (HubClient * result Z) :=
  if hc_client c then
    match invoke net (svc_RegisterSpoke (register_request c)) s with
    | (s, Err err) => (s, (c, Err (WrapError "registering spoke: %w" [] err)))
    | (s, Ok resp) =>
        if rsp_Accepted resp then (s, (with_spokeID (hc_spokeName c) c, Ok (rsp_HeartbeatIntervalSeconds resp)))
        else (s, (c, Err (FmtError "spoke registration rejected: %s" [FStr (rsp_Message resp)])))
    end
  else (s, (c, Err err_not_connected)).

(** The callbacks a client may be given, over the spoke's cluster. *)
Record callbacks := Callbacks {
  cb_CaptureSummaries : option (W → list CaptureStatusSummary);
  cb_ReplaySummaries : option (W → list ReplayStatusSummary);
  cb_OnActiveLoadTests : option (list LoadTestKey → W → W);
  cb_OnDirective : option (WatchDirectivesResponse → W → W)
}.

Definition heartbeat_request (cb : callbacks) (c : HubClient) (w : W) : HeartbeatRequest :=
  let captures := from_option (λ f, f w) [] (cb_CaptureSummaries cb) in
  {| hbr_SpokeId := hc_spokeID c; hbr_ActiveCaptures := int32 (len captures); hbr_CaptureSummaries := captures;
     hbr_ReplaySummaries := from_option (λ f, f w) [] (cb_ReplaySummaries cb) |}.

(** Errors are counted. *)
Definition sendHeartbeat (net : network) (cb : callbacks) (c : HubClient) (s : S) (w : W) : S * W * Z :=
  if hc_client c then
    match invoke net (svc_Heartbeat (heartbeat_request cb c w)) s with
    | (s, Err _) => (s, w, 1)
    | (s, Ok resp) =>
        match cb_OnActiveLoadTests cb with
        | Some f => if hbp_ActiveLoadTestsComplete resp then (s, f (hbp_ActiveLoadTests resp) w, 0) else (s, w, 0)
        | None => (s, w, 0)
        end
    end
  else (s, w, 0).

Definition ReportStatus (net : network) (statuses : list CaptureStatusSummary) (c : HubClient) (s : S) : S * option go_error :=
  if hc_client c then
    match invoke net (svc_ReportCaptureStatus {| rcs_SpokeId := hc_spokeID c; rcs_Statuses := statuses |}) s with
    | (s, Err err) => (s, Some (WrapError "reporting status: %w" [] err))
    | (s, Ok _) => (s, None)
    end
  else (s, Some err_not_connected).

Definition ReportReplayStatus (net : network) (statuses : list ReplayStatusSummary) (c : HubClient) (s : S) : S * option go_error :=
  if hc_client c then
    match invoke net (svc_ReportReplayStatus {| rrs_SpokeId := hc_spokeID c; rrs_Statuses := statuses |}) s with
    | (s, Err err) => (s, Some (WrapError "reporting replay status: %w" [] err))
    | (s, Ok _) => (s, None)
    end
  else (s, Some err_not_connected).

Definition Deregister (net : network) (c : HubClient) (s : S) : S * option go_error :=
  if hc_client c then
    match invoke net (svc_DeregisterSpoke {| dsr_SpokeId := hc_spokeID c; dsr_Reason := "spoke shutting down" |}) s with
    | (s, Err err) => (s, Some (WrapError "deregistering spoke: %w" [] err))
    | (s, Ok _) => (s, None)
    end
  else (s, None).

(** ** The directive loop *)

Definition initial_backoff : Z := Second.
Definition max_backoff : Z := 60 * Second.

(** [time.Sleep(d/2 + rand.N(d))]: [rand.N] panics unless [d] is positive and
    draws [jitter] below it. *)
Definition sleep (d jitter : Z) : go Z :=
  if d <=? 0 then Panic else Ret (Z.quot d 2 + jitter mod d).

(** One round of the loop: whether there is a client, and the outcome of opening
    the stream, with what it delivered before it failed. *)
Record round := Round { rd_client : bool; rd_stream : result (list WatchDirectivesResponse); rd_jitter : Z }.

(** The back-off, the sleeps so far and the cluster. *)
Record loop_state := Loop { lp_backoff : Z; lp_sleeps : list Z; lp_world : W }.

Definition handle_directive (cb : callbacks) (w : W) (resp : WatchDirectivesResponse) : W :=
  match cb_OnDirective cb with Some f => f resp w | None => w end.

Definition watch_round (cb : callbacks) (r : round) (st : loop_state) : go loop_state :=
  if rd_client r then
    match rd_stream r with
    | Err _ =>
        match sleep (lp_backoff st) (rd_jitter r) with
        | Panic => Panic
        | Ret t => Ret (Loop (Z.min (int64 (lp_backoff st * 2)) max_backoff) (lp_sleeps st ++ [t]) (lp_world st))
        end
    | Ok resps => Ret (Loop initial_backoff (lp_sleeps st) (foldl (handle_directive cb) (lp_world st) resps))
    end
  else
    match sleep (lp_backoff st) (rd_jitter r) with
    | Panic => Panic
    | Ret t => Ret (Loop (lp_backoff st) (lp_sleeps st ++ [t]) (lp_world st))
    end.

(** The rounds before the loop finds its context done or its channel closed. *)
Fixpoint watch_rounds (cb : callbacks) (rounds : list round) (st : loop_state) : go loop_state :=
  match rounds with
  | [] => Ret st
  | r :: rounds => match watch_round cb r st with Ret st => watch_rounds cb rounds st | Panic => Panic end
  end.

Definition watchDirectivesLoop (cb : callbacks) (rounds : list round) (w : W) : go loop_state :=
  watch_rounds cb rounds (Loop initial_backoff [] w).
End Calls.
Arguments callbacks : clear implicits.
Arguments loop_state : clear implicits.

(** ** The callbacks of a spoke ([cmd/spoke/main.go]) *)

Section Spoke.
Context {W : Type} {KC : KubeClient W TrafficReplaySpec TrafficReplayStatus} {AE : ApiErrors} {RC : ReportCodec} {GP : GoParse}.

(** Replays that belong to a load test; none while the list fails. *)
Definition replay_summaries (w : W) : list ReplayStatusSummary :=
  match (client_List w : result (list TrafficReplay)) with
  | Err _ => []
  | Ok items => omap ReplaySummaryFromStatus items
  end.

(** A capture directive is logged only. *)
Definition on_directive (resp : WatchDirectivesResponse) (w : W) : W :=
  match wdr_ReplayDirective resp with
  | Some d => fst (Handle (Some d) w)
  | None => w
  end.

(** [now] is the clock of the orphan collector. *)
Definition spoke_callbacks (now : Z) : callbacks W :=
  Callbacks None (Some replay_summaries) (Some (λ keys w, fst (Collect 0 keys now w))) (Some on_directive).
End Spoke.
