(* ===== verification/HubSync.v ===== *)
(** * Spoke and hub in step

    Theorems about [HubClient] together with the hub server: what a heartbeat
    leaves on both sides, that the client's goroutines are started and stopped
    properly, and how the directive loop backs off. *)

From S2P Require Import Prelude GoStd HubProto HubServer HubInvariant Kube Api SpokeDirectives GoFlag Summary ReplayController HubClient.

Local Open Scope Z_scope.

(** ** The client's goroutines *)

Lemma rtc_preserves {A} (R : relation A) (P : A → Prop) : (∀ x y, R x y → P x → P y) → ∀ x y, rtc R x y → P x → P y.
Proof. intros HR x y Hr. induction Hr; eauto. Qed.

(** The operations on a client; [net] and the hub decide what [Register] does. *)
Inductive client_step : HubClient → HubClient → Prop :=
  | client_connect err c : client_step c (fst (Connect err c))
  | client_register id c : client_step c (with_spokeID id c)
  | client_heartbeats c c' : StartHeartbeat c = Ret c' → client_step c c'
  | client_watch c c' : WatchDirectives c = Ret c' → client_step c c'
  | client_close c c' : Close c = Ret c' → client_step c c'.

Definition client_reachable (c : HubClient) : Prop :=
  ∃ address name cluster cell, rtc client_step (NewHubClient address name cluster cell) c.

(** [stop] is the channel of the one goroutine of [gs] that may still run. *)
Definition stoppable (chans : list bool) (stop : option nat) (gs : list nat) : Prop :=
  (∀ l, stop = Some l → chans !! l = Some false) ∧
  (∀ l, l ∈ gs → (l < length chans)%nat ∧ (running chans l = true → stop = Some l)).

Record client_inv (c : HubClient) : Prop := {
  ci_beats : stoppable (hc_chans c) (hc_heartbeatStop c) (hc_beats c);
  ci_watchers : stoppable (hc_chans c) (hc_directiveStop c) (hc_watchers c);
  ci_apart : ∀ l, hc_heartbeatStop c = Some l → hc_directiveStop c ≠ Some l
}.

Lemma running_spec chans l : running chans l = true ↔ chans !! l = Some false.
Proof. unfold running. by rewrite bool_decide_eq_true. Qed.

(** The channels once [stop], if any, is closed. *)
Definition closed (stop : option nat) (chans : list bool) : list bool :=
  match stop with Some l => <[l := true]> chans | None => chans end.

Lemma close_opt_ok stop chans : (∀ l, stop = Some l → chans !! l = Some false) → close_opt stop chans = Ret (closed stop chans).
Proof. destruct stop as [l|]; [|done]. intros Hs. simpl. unfold close_chan. by rewrite (Hs l eq_refl). Qed.

Lemma closed_length stop chans : length (closed stop chans) = length chans.
Proof. destruct stop; [apply length_insert|done]. Qed.

Lemma closed_ne stop chans l : stop ≠ Some l → closed stop chans !! l = chans !! l.
Proof. destruct stop as [k|]; [|done]. intros Hne. apply list_lookup_insert_ne. congruence. Qed.

Lemma closed_running stop chans l : running (closed stop chans) l = true → stop ≠ Some l ∧ running chans l = true.
Proof.
  rewrite !running_spec. intros Hr. assert (stop ≠ Some l) as Hne; [|by rewrite closed_ne in Hr].
  intros ->. simpl in Hr. apply list_lookup_insert_Some in Hr. naive_solver.
Qed.

Lemma closed_own chans stop gs : stoppable chans stop gs → stoppable (closed stop chans) None gs.
Proof.
  intros [Hs Hg]. split; [done|]. intros l Hl. rewrite closed_length. destruct (Hg l Hl) as [Hlt Hr]. split; [done|].
  intros [Hne Hrun]%closed_running. by destruct Hne; apply Hr.
Qed.

Lemma closed_other chans stop stop' gs : stoppable chans stop gs → (∀ l, stop = Some l → stop' ≠ Some l) →
  stoppable (closed stop' chans) stop gs.
Proof.
  intros [Hs Hg] Hap. split.
  - intros l Hl. rewrite closed_ne by by apply Hap. by apply Hs.
  - intros l Hl. rewrite closed_length. destruct (Hg l Hl) as [Hlt Hr]. split; [done|]. intros [_ Hrun]%closed_running. by apply Hr.
Qed.

(** A fresh channel for a new goroutine. *)
Lemma alloc_own chans gs : stoppable chans None gs → stoppable (chans ++ [false]) (Some (length chans)) (length chans :: gs).
Proof.
  intros [_ Hg]. split.
  - intros l [= <-]. by apply list_lookup_middle.
  - intros l [->|Hl]%elem_of_cons; rewrite length_app; simpl; [split; [lia|done]|]. destruct (Hg l Hl) as [Hlt Hr]. split; [lia|].
    rewrite running_spec, lookup_app_l, <-running_spec by done. by intros ?%Hr.
Qed.

Lemma alloc_other chans stop gs : stoppable chans stop gs → stoppable (chans ++ [false]) stop gs.
Proof.
  intros [Hs Hg]. split.
  - intros l Hl. by apply lookup_app_l_Some, Hs.
  - intros l Hl. rewrite length_app. destruct (Hg l Hl) as [Hlt Hr]. simpl. split; [lia|].
    by rewrite running_spec, lookup_app_l, <-running_spec.
Qed.

Lemma stoppable_lt chans stop gs l : stoppable chans stop gs → stop = Some l → (l < length chans)%nat.
Proof. intros [Hs _] Hl. eapply lookup_lt_Some, Hs, Hl. Qed.

Lemma start_inv c : client_inv c → ∃ c', StartHeartbeat c = Ret c' ∧ client_inv c'.
Proof.
  intros [Hb Hw Hap]. unfold StartHeartbeat. rewrite close_opt_ok by apply Hb. eexists. split; [done|].
  assert (stoppable (closed (hc_heartbeatStop c) (hc_chans c)) (hc_directiveStop c) (hc_watchers c)) as Hw'.
  { apply closed_other; [done|]. intros l Hd Hh. by apply (Hap l). }
  split; simpl.
  - apply alloc_own. by apply closed_own.
  - by apply alloc_other.
  - intros l [= <-] Hd. apply (stoppable_lt _ _ _ _ Hw') in Hd. lia.
Qed.

Lemma watch_inv c : client_inv c → ∃ c', WatchDirectives c = Ret c' ∧ client_inv c'.
Proof.
  intros [Hb Hw Hap]. unfold WatchDirectives. rewrite close_opt_ok by apply Hw. eexists. split; [done|].
  assert (stoppable (closed (hc_directiveStop c) (hc_chans c)) (hc_heartbeatStop c) (hc_beats c)) as Hb'.
  { by apply closed_other. }
  split; simpl.
  - by apply alloc_other.
  - apply alloc_own. by apply closed_own.
  - intros l Hh [= <-]. apply (stoppable_lt _ _ _ _ Hb') in Hh. lia.
Qed.

Lemma close_inv c : client_inv c → ∃ c', Close c = Ret c' ∧ client_inv c' ∧ hc_heartbeatStop c' = None ∧ hc_directiveStop c' = None.
Proof.
  intros [Hb Hw Hap]. unfold Close. rewrite close_opt_ok by apply Hb.
  assert (stoppable (closed (hc_heartbeatStop c) (hc_chans c)) (hc_directiveStop c) (hc_watchers c)) as Hw'.
  { apply closed_other; [done|]. intros l Hd Hh. by apply (Hap l). }
  rewrite close_opt_ok by apply Hw'. eexists. split; [done|]. split; [|done]. split; simpl; [|by apply closed_own|done].
  apply closed_other; [by apply closed_own|done].
Qed.

Lemma client_step_inv c c' : client_step c c' → client_inv c → client_inv c'.
Proof.
  intros Hs Hinv. destruct Hs as [err c|id c|c c' Hs|c c' Hs|c c' Hs].
  - destruct err; [done|]. by destruct Hinv.
  - by destruct Hinv.
  - destruct (start_inv c Hinv) as (c1 & H1 & ?). congruence.
  - destruct (watch_inv c Hinv) as (c1 & H1 & ?). congruence.
  - destruct (close_inv c Hinv) as (c1 & H1 & ? & _). congruence.
Qed.

Lemma client_reachable_inv c : client_reachable c → client_inv c.
Proof.
  intros (address & name & cluster & cell & Hr). apply (rtc_preserves client_step client_inv client_step_inv) in Hr; [done|].
  split; simpl; [| |done]; (split; [done|]; intros l Hl; by apply not_elem_of_nil in Hl).
Qed.

(** However a client is connected, registered, started and closed, no channel is
    closed twice, and at most one heartbeat and one directive goroutine go on: the
    last started, and none after [Close]. *)
Theorem client_goroutines c : client_reachable c →
  StartHeartbeat c ≠ Panic ∧ WatchDirectives c ≠ Panic ∧
  (∀ l k, l ∈ hc_beats c → k ∈ hc_beats c → running (hc_chans c) l = true → running (hc_chans c) k = true → l = k) ∧
  (∀ l k, l ∈ hc_watchers c → k ∈ hc_watchers c → running (hc_chans c) l = true → running (hc_chans c) k = true → l = k) ∧
  ∃ c', Close c = Ret c' ∧ ∀ l, l ∈ hc_beats c' ++ hc_watchers c' → running (hc_chans c') l = false.
Proof.
  intros Hinv%client_reachable_inv. pose proof Hinv as [[_ Hb] [_ Hw] _].
  split; [by destruct (start_inv c Hinv) as (? & -> & _)|]. split; [by destruct (watch_inv c Hinv) as (? & -> & _)|].
  split; [|split].
  - intros l k Hl Hk Hrl Hrk. apply Hb in Hl as [_ Hl], Hk as [_ Hk]. rewrite (Hl Hrl) in Hk. specialize (Hk Hrk). congruence.
  - intros l k Hl Hk Hrl Hrk. apply Hw in Hl as [_ Hl], Hk as [_ Hk]. rewrite (Hl Hrl) in Hk. specialize (Hk Hrk). congruence.
  - destruct (close_inv c Hinv) as (c' & Hc & [[_ Hb'] [_ Hw'] _] & Hn & Hn'). exists c'. split; [done|].
    intros l Hl. apply not_true_is_false. intros Hr. apply elem_of_app in Hl as [Hl|Hl].
    + apply Hb' in Hl as [_ Hl]. specialize (Hl Hr). congruence.
    + apply Hw' in Hl as [_ Hl]. specialize (Hl Hr). congruence.
Qed.

(** ** Backing off *)

Section Loop.
Context {W : Type}.
Implicit Types (st : loop_state W) (cb : callbacks W).

Definition backoff_ok st : Prop :=
  initial_backoff <= lp_backoff st <= max_backoff ∧ Forall (λ t, Second / 2 <= t < 90 * Second) (lp_sleeps st).

Definition handled cb (r : round) (w : W) : W :=
  if rd_client r then match rd_stream r with Ok resps => foldl (handle_directive cb) w resps | Err _ => w end else w.

Lemma sleep_ok d jitter : initial_backoff <= d <= max_backoff →
  ∃ t, sleep d jitter = Ret t ∧ Second / 2 <= t < 90 * Second.
Proof.
  unfold initial_backoff, max_backoff, sleep, Second. intros Hd. destruct (Z.leb_spec d 0); [lia|]. eexists. split; [done|].
  rewrite Z.quot_div_nonneg by lia. pose proof (Z.mod_pos_bound jitter d ltac:(lia)).
  assert (1000000000 / 2 <= d / 2) by (apply Z.div_le_mono; lia). assert (d / 2 <= 60 * 1000000000 / 2) by (apply Z.div_le_mono; lia).
  change (1000000000 / 2) with 500000000 in *. change (60 * 1000000000 / 2) with 30000000000 in *. lia.
Qed.

Lemma watch_round_ok cb r st : backoff_ok st → ∃ st', watch_round cb r st = Ret st' ∧ backoff_ok st' ∧ lp_world st' = handled cb r (lp_world st).
Proof.
  intros [Hb Hs]. unfold watch_round, handled. destruct (sleep_ok (lp_backoff st) (rd_jitter r) Hb) as (t & -> & Ht).
  assert (Forall (λ t, Second / 2 <= t < 90 * Second) (lp_sleeps st ++ [t])) as Hs' by (apply Forall_app; split; [done|by constructor]).
  destruct (rd_client r); [|eexists; split; [reflexivity|by split]]. destruct (rd_stream r) as [resps|e].
  - eexists. split; [reflexivity|]. split; [|done]. split; [unfold initial_backoff, max_backoff, Second; simpl; lia|done].
  - eexists. split; [reflexivity|]. split; [|done]. split; [|done]. simpl. unfold initial_backoff, max_backoff, Second in *.
    rewrite int64_id by (unfold in_int64; lia). lia.
Qed.

(** The directive loop never panics, keeps its back-off between one second and a
    minute and sleeps between half a second and a minute and a half; what it does
    to the cluster is to handle every directive a stream delivered, in order. *)
Theorem directive_loop_backs_off cb rounds (w : W) : ∃ st, watchDirectivesLoop cb rounds w = Ret st ∧ backoff_ok st ∧
  lp_world st = foldl (λ w r, handled cb r w) w rounds.
Proof.
  unfold watchDirectivesLoop. assert (backoff_ok (Loop initial_backoff [] w)) as H0
    by (split; [unfold initial_backoff, max_backoff, Second; simpl; lia|constructor]).
  change w with (lp_world (Loop initial_backoff [] w)) at 2. revert H0. generalize (Loop initial_backoff [] w).
  induction rounds as [|r rounds IH]; intros st Hst; simpl; [by exists st|].
  destruct (watch_round_ok cb r st Hst) as (st' & -> & Hst' & Hw). destruct (IH st' Hst') as (st2 & -> & ? & Hw2).
  exists st2. split; [done|]. split; [done|]. by rewrite Hw2, Hw.
Qed.

(** A stream that opens and fails at once is opened again without a pause. *)
Theorem failing_stream_never_sleeps cb n (w : W) :
  watchDirectivesLoop cb (replicate n (Round true (Ok []) 0)) w = Ret (Loop initial_backoff [] w).
Proof. unfold watchDirectivesLoop. induction n as [|n IH]; [done|]. exact IH. Qed.
End Loop.

(** ** A heartbeat *)

Section Heartbeat.
Context {MR : MapRange} {W : Type} {KC : KubeClient W TrafficReplaySpec TrafficReplayStatus} {AE : ApiErrors}.
Context {KL : KubeClientLaws W TrafficReplaySpec TrafficReplayStatus} {RC : ReportCodec} {GP : GoParse}.
Implicit Types (tr : TrafficReplay) (w : W).

(** Names of Kubernetes objects hold no slash. *)
Definition plain_names (items : list TrafficReplay) : Prop :=
  Forall (λ tr, Contains (Namespace tr) "/" = false ∧ Contains (Name tr) "/" = false ∧
            ∀ ref, trs_LoadTestRef (Spec tr) = Some ref → Contains (ltr_Name ref) "/" = false) items.

Definition distinct_names (items : list TrafficReplay) : Prop :=
  ∀ tr tr', tr ∈ items → tr' ∈ items → Namespace tr = Namespace tr' → Name tr = Name tr' → tr = tr'.

Lemma summary_key tr rs : ReplaySummaryFromStatus tr = Some rs →
  ∃ ref, trs_LoadTestRef (Spec tr) = Some ref ∧ replayKey rs = Namespace tr +:+ "/" +:+ ltr_Name ref +:+ "/" +:+ Name tr.
Proof. unfold ReplaySummaryFromStatus. destruct (trs_LoadTestRef (Spec tr)) as [ref|]; [|done]. intros [= <-]. by exists ref. Qed.

(** Summaries of different replays have different keys. *)
Lemma summary_key_inj items tr tr' rs rs' : plain_names items → distinct_names items → tr ∈ items → tr' ∈ items →
  ReplaySummaryFromStatus tr = Some rs → ReplaySummaryFromStatus tr' = Some rs' → replayKey rs = replayKey rs' → rs = rs'.
Proof.
  intros Hp Hd Hin Hin' Hs Hs' Hk. destruct (summary_key _ _ Hs) as (ref & Hr & Hk0), (summary_key _ _ Hs') as (ref' & Hr' & Hk').
  rewrite Hk0, Hk' in Hk. unfold plain_names in Hp. rewrite Forall_forall in Hp.
  destruct (Hp tr Hin) as (Hns & _ & Hl), (Hp tr' Hin') as (Hns' & _ & Hl'). specialize (Hl ref Hr). specialize (Hl' ref' Hr').
  apply noslash_inj in Hk as [Hn Hk]; [|done..]. apply noslash_inj in Hk as [_ Hk]; [|done..].
  assert (tr = tr') as -> by (by apply Hd). congruence.
Qed.

Lemma store_replays_lookup rs l m : rs ∈ l → (∀ rs', rs' ∈ l → replayKey rs' = replayKey rs → rs' = rs) →
  store_replays l m !! replayKey rs = Some rs.
Proof.
  intros Hin Hu. assert (rs ∈ l ∨ m !! replayKey rs = Some rs) as Hor by (by left). clear Hin. revert m Hor.
  induction l as [|x l IH]; intros m Hor; simpl; [by destruct Hor as [?%not_elem_of_nil|]|].
  apply IH; [intros rs' Hrs'; apply Hu; by right|]. destruct (decide (replayKey x = replayKey rs)) as [He|Hne].
  - right. rewrite He, lookup_insert_eq. by rewrite (Hu x (list_elem_of_here _ _) He).
  - destruct Hor as [[->|Hin]%elem_of_cons|Hm]; [done|by left|right; by rewrite lookup_insert_ne].
Qed.

(** The heartbeat of the replays of a cluster as the hub records it. *)
Lemma heartbeat_entry_replays now req e items : hbr_ReplaySummaries req = omap ReplaySummaryFromStatus items →
  plain_names items → distinct_names items → ∀ tr rs, tr ∈ items → ReplaySummaryFromStatus tr = Some rs →
  se_replays (heartbeat_entry now req e) !! replayKey rs = Some rs.
Proof.
  intros Hreq Hp Hd tr rs Hin Hs. simpl. rewrite Hreq. apply store_replays_lookup.
  - apply list_elem_of_omap. eauto.
  - intros rs' (tr' & Hin' & Hs')%list_elem_of_omap Hk. by eapply (summary_key_inj items tr' tr).
Qed.

(** C18: The heartbeat of a registered spoke that gets through leaves spoke and hub
    in step.  The hub knows the spoke as alive, with the current status of every
    shard the spoke's cluster lists, and nothing of any other spoke changed.  On
    the spoke, when the hub's list of load tests is complete, every listed shard
    whose load test the hub does not have and that is past the grace period is
    gone, on its way out, or its deletion failed, and every other replay is as it
    was; and nothing at all changes when the list is not complete, or when the
    call or its answer is lost. *)
Theorem heartbeat_syncs ctx now gc_now (c : HubClient) (srv srv' : Server) l w w' errs items net :
  hub_reachable srv → sv_spokes srv !! hc_spokeID c = Some l → verifySpokeIdentity ctx (hc_spokeID c) = None →
  hc_client c = true → client_List w = Ok items → plain_names items → distinct_names items →
  key_slash_free (sv_activeLoadTests srv) →
  sendHeartbeat (HS := server_service ctx now) net (spoke_callbacks gc_now) c srv w = (srv', w', errs) →
  (net = Delivered →
     (∃ e', sv_entries srv' !! l = Some e' ∧ se_lastHeartbeat e' = now ∧
        ∀ tr rs, tr ∈ items → ReplaySummaryFromStatus tr = Some rs → se_replays e' !! replayKey rs = Some rs) ∧
     (∀ k, k ≠ l → sv_entries srv' !! k = sv_entries srv !! k) ∧ sv_spokes srv' = sv_spokes srv ∧ errs = 0) ∧
  (net = Delivered → sv_activeLoadTestsComplete srv = true →
     ∃ failed, (∀ tr, tr ∈ items → ~ protected 0 (sv_activeLoadTests srv) gc_now tr → going tr w' ∨ ∃ e, (tr, e) ∈ (failed : list (TrafficReplay * go_error))) ∧
     ∀ ns n o, client_Get ns n w = Ok o →
       (∀ tr, tr ∈ items → (Namespace tr, Name tr) = (ns, n) → protected 0 (sv_activeLoadTests srv) gc_now tr) →
       client_Get ns n w' = Ok o) ∧
  (net ≠ Delivered ∨ sv_activeLoadTestsComplete srv = false → w' = w).
Proof using KL.
  intros Hreach Hl Hid Hcl Hlist Hp Hd Hks Hhb. pose proof (hub_reachable_server_inv srv Hreach) as Hinv.
  destruct (inv_registered srv Hinv _ _ Hl) as (e & He & _).
  assert (hc_spokeID c ≠ "") as Hne by (intros Hz; rewrite Hz, (inv_ids srv Hinv) in Hl; done).
  set (req := heartbeat_request (spoke_callbacks gc_now) c w).
  assert (hbr_ReplaySummaries req = omap ReplaySummaryFromStatus items) as Hreq by (simpl; unfold replay_summaries; by rewrite Hlist).
  set (srv1 := set_metrics incHeartbeats (set_entries (<[l := heartbeat_entry now req e]>) srv)).
  assert (served (Heartbeat ctx now req) srv = (srv1, Ok {| hbp_Acknowledged := true;
     hbp_ActiveLoadTests := sv_activeLoadTests srv; hbp_ActiveLoadTestsComplete := sv_activeLoadTestsComplete srv |})) as Hserved.
  { unfold served, Heartbeat. rewrite bool_decide_eq_false_2 by done. simpl. by rewrite Hid, Hl, He. }
  unfold sendHeartbeat in Hhb. rewrite Hcl in Hhb. fold req in Hhb. cbn [svc_Heartbeat server_service] in Hhb.
  split; [|split].
  - intros ->. unfold invoke in Hhb. rewrite Hserved in Hhb. cbn [cb_OnActiveLoadTests spoke_callbacks hbp_ActiveLoadTestsComplete] in Hhb.
    assert (srv' = srv1 ∧ errs = 0) as [-> ->] by (destruct (sv_activeLoadTestsComplete srv); by injection Hhb).
    split; [|split; [intros k Hk; by apply lookup_insert_ne|done]].
    exists (heartbeat_entry now req e). split; [by apply lookup_insert_eq|]. split; [done|]. exact (heartbeat_entry_replays now req e items Hreq Hp Hd).
  - intros -> Hc. unfold invoke in Hhb. rewrite Hserved in Hhb. cbn [cb_OnActiveLoadTests spoke_callbacks hbp_ActiveLoadTestsComplete hbp_ActiveLoadTests] in Hhb.
    rewrite Hc in Hhb. injection Hhb as _ <- _. destruct (Collect 0 (sv_activeLoadTests srv) gc_now w) as [w1 failed] eqn:Hcol.
    exists failed. apply (collect_only_orphans 0 _ _ w w1 items failed); [done|done|done|].
    eapply Forall_impl; [exact Hp|]. by intros tr (? & _).
  - intros Hor. destruct net as [|err|err]; unfold invoke in Hhb.
    + destruct Hor as [?|Hc]; [done|]. rewrite Hserved in Hhb. cbn [cb_OnActiveLoadTests spoke_callbacks hbp_ActiveLoadTestsComplete] in Hhb.
      rewrite Hc in Hhb. by injection Hhb.
    + by injection Hhb.
    + by injection Hhb.
Qed.
(** A spoke as [cmd/spoke] configures it reports no capture in its heartbeats: the
    hub sets its number of active captures to 0, whatever captures it stores of it. *)
Theorem heartbeat_forgets_captures ctx now gc_now (c : HubClient) (srv : Server) l e w :
  sv_spokes srv !! hc_spokeID c = Some l → sv_entries srv !! l = Some e → hc_spokeID c ≠ "" →
  verifySpokeIdentity ctx (hc_spokeID c) = None → hc_client c = true →
  ∃ e', sv_entries (fst (fst (sendHeartbeat (HS := server_service ctx now) Delivered (spoke_callbacks gc_now) c srv w))) !! l = Some e' ∧
    se_captures e' = se_captures e ∧ si_ActiveCaptures (se_info e') = 0.
Proof.
  intros Hl He Hne Hid Hcl. unfold sendHeartbeat, invoke. rewrite Hcl. cbn [svc_Heartbeat server_service]. unfold served, Heartbeat.
  rewrite bool_decide_eq_false_2 by done. simpl. rewrite Hid, Hl, He. simpl. exists (heartbeat_entry now (heartbeat_request (spoke_callbacks gc_now) c w) e).
  split; [|done]. destruct (sv_activeLoadTestsComplete srv); simpl; by rewrite lookup_insert_eq.
Qed.
End Heartbeat.

(** ** Witness *)

#[local] Existing Instances mem_errors mem_client mem_client_laws decimal_parser demo_reports canonical_range.

(** A hub without load tests, and a spoke that still has a shard of one. *)
Definition demo_hub : Server := SetActiveLoadTests [] true (demo_server 5 [("a", "east")]).
Definition demo_client : HubClient := with_spokeID "a" (fst (Connect None (NewHubClient "hub:9443" "a" "cluster-a" "east"))).
Definition demo_beat := sendHeartbeat (HS := server_service demo_ctx 6) Delivered (spoke_callbacks (10 * Minute)) demo_client demo_hub demo_cluster.

Lemma heartbeat_syncs_witness :
  going (SpokeDirectives.demo_shard 0) (snd (fst demo_beat)) ∧ client_Get "prod" "lt-shard-0" demo_cluster = Ok (SpokeDirectives.demo_shard 0) ∧
  ∃ e, sv_entries (fst (fst demo_beat)) !! 0%nat = Some e ∧ size (se_replays e) = 1%nat.
Proof.
  destruct (heartbeat_syncs demo_ctx 6 (10 * Minute) demo_client demo_hub (fst (fst demo_beat)) 0%nat demo_cluster (snd (fst demo_beat))
    (snd demo_beat) [SpokeDirectives.demo_shard 0] Delivered) as (Hhub & Hgc & _).
  - exists ":9443", [Tau; Tau]. apply (run_step _ [Tau] Tau _ _ demo_server_run). apply step_load_tests.
  - reflexivity.
  - reflexivity.
  - reflexivity.
  - reflexivity.
  - constructor; [|constructor]. split; [reflexivity|]. split; [reflexivity|]. intros ref [= <-]. reflexivity.
  - intros tr tr' ->%list_elem_of_singleton ->%list_elem_of_singleton. done.
  - constructor.
  - assert (∀ x : Server * store TrafficReplaySpec TrafficReplayStatus * Z, x = (x.1.1, x.1.2, x.2)) as Heta by (by intros [[? ?] ?]). exact (Heta demo_beat).
  - destruct (Hhub eq_refl) as ((e & He & _) & _). destruct (Hgc eq_refl eq_refl) as (failed & Hgone & _).
    split; [|split; [reflexivity|]].
    + intros o Ho. assert (match client_Get "prod" "lt-shard-0" (snd (fst demo_beat)) with
                             | Ok o => Some (Name (o : TrafficReplay)) | Err _ => None end = None) as Hn by (vm_compute; reflexivity).
      assert (Namespace (SpokeDirectives.demo_shard 0) = "prod" ∧ Name (SpokeDirectives.demo_shard 0) = "lt-shard-0") as [Hns Hnm]
        by (vm_compute; by split). rewrite Hns, Hnm in Ho. by rewrite Ho in Hn.
    + exists e. split; [exact He|].
      assert ((λ e, size (se_replays e)) <$> sv_entries (fst (fst demo_beat)) !! 0%nat = Some 1%nat) as Hn by (vm_compute; reflexivity).
      pose proof (eq_trans (eq_sym (f_equal (fmap (λ e, size (se_replays e))) He)) Hn) as Hs. by injection Hs.
Defined.
