(* ===== verification/StorageController.v ===== *)
(** * The storage controller ([internal/spoke/capturestorage_controller.go])

    Validation of a [CaptureStorage] and its Ready status, and what it is worth to
    an agent: the writer factory of a capture whose storage is Ready opens, except
    for what the cloud SDKs have to say. *)

From S2P Require Import Prelude GoStd Kube Api CaptureApi Storage StorageBackends GoFlag ReplayJob ReplayMain Agent AgentDeployer AgentMain.

Local Open Scope Z_scope.

Definition storageConditionReady : string := "Ready".

(** [json.Unmarshal] into a map. *)
Class JsonObject (J : Type) := { json_object : string → result J }.

Section Controller.
Context {W J PF : Type} {KS : KubeClient W CaptureStorageSpec CaptureStorageStatus} {AE : ApiErrors} {JO : JsonObject J}.
Context (plugin_Open : string → option go_error).
Context (plugin_Lookup : string → string → result (option (option J → result (option PF)))).

Definition blank (s : string) : bool := bool_decide (TrimSpace s = "").

Definition plugin_config (p : StoragePluginConfig) : result (PluginWriterConfig J) :=
  let symbol := from_option TrimSpace "" (spc_Symbol p) in
  match spc_Config p with
  | Some raw =>
      if 0 <? Z.of_nat (String.length (Raw raw)) then
        match json_object (Raw raw) with
        | Err err => Err (WrapError "decode plugin config: %w" [] err)
        | Ok m => Ok (Build_PluginWriterConfig (spc_Path p) symbol (Some m))
        end
      else Ok (Build_PluginWriterConfig (spc_Path p) symbol None)
  | None => Ok (Build_PluginWriterConfig (spc_Path p) symbol None)
  end.

Definition validateCaptureStorageSpec (spec : CaptureStorageSpec) : option go_error :=
  let t := css_Type spec in
  if bool_decide (t = CaptureStorageTypeS3) then
    match css_S3 spec with
    | Some c => if blank (s3c_Bucket c) || blank (s3c_Region c) then Some (FmtError "s3 configuration is incomplete" []) else None
    | None => Some (FmtError "s3 configuration is incomplete" [])
    end
  else if bool_decide (t = CaptureStorageTypeGCS) then
    match css_GCS spec with
    | Some c => if blank (gcs_Bucket c) then Some (FmtError "gcs configuration is incomplete" []) else None
    | None => Some (FmtError "gcs configuration is incomplete" [])
    end
  else if bool_decide (t = CaptureStorageTypeEFS) then
    match css_EFS spec with
    | Some c => if blank (efs_FileSystemID c) || blank (efs_MountPath c) then Some (FmtError "efs configuration is incomplete" []) else None
    | None => Some (FmtError "efs configuration is incomplete" [])
    end
  else if bool_decide (t = CaptureStorageTypeEBS) then
    match css_EBS spec with
    | Some c => if blank (ebs_VolumeID c) || blank (ebs_MountPath c) then Some (FmtError "ebs configuration is incomplete" []) else None
    | None => Some (FmtError "ebs configuration is incomplete" [])
    end
  else if bool_decide (t = CaptureStorageTypePlugin) then
    match css_Plugin spec with
    | Some p =>
        if blank (spc_Path p) then Some (FmtError "plugin configuration requires plugin.path" [])
        else
          match plugin_config p with
          | Err err => Some err
          | Ok cfg => match ValidatePluginConfig plugin_Open plugin_Lookup cfg with
                      | Some err => Some (WrapError "validate plugin backend: %w" [] err)
                      | None => None
                      end
          end
    | None => Some (FmtError "plugin configuration requires plugin.path" [])
    end
  else Some (FmtError "unsupported storage type %q" [FStr t]).

Definition setStatus (cs : CaptureStorage) (phase reason : string) (message : text) (status : ConditionStatus) (w : W)
    : W * option go_error :=
  let st := {| csst_Phase := phase;
               csst_Conditions := setCondition (csst_Conditions (Status cs))
                 {| cond_Type := storageConditionReady; cond_Status := status; cond_Reason := reason; cond_Message := message |} |} in
  let '(w, (_, err)) := client_StatusUpdate (with_Status st cs) w in (w, err).

Definition Reconcile (namespace name : string) (w : W) : W * result Result :=
  match (client_Get namespace name w : result CaptureStorage) with
  | Err err => (w, match IgnoreNotFound err with Some err => Err err | None => Ok {| RequeueAfter := 0 |} end)
  | Ok cs =>
      match validateCaptureStorageSpec (Spec cs) with
      | Some err =>
          match setStatus cs CaptureStoragePhaseError "ValidationFailed" (ErrText err) ConditionFalse w with
          | (w, Some err) => (w, Err err)
          | (w, None) => (w, Ok {| RequeueAfter := 30 * Second |})
          end
      | None =>
          match setStatus cs CaptureStoragePhaseReady "Validated" (Fmt "storage backend configuration validated" []) ConditionTrue w with
          | (w, Some err) => (w, Err err)
          | (w, None) => (w, Ok {| RequeueAfter := 0 |})
          end
      end
  end.
End Controller.

(** ** A Ready storage can be written *)

Section Theorems.
Context {W J PF : Type} {KS : KubeClient W CaptureStorageSpec CaptureStorageStatus} {AE : ApiErrors} {JO : JsonObject J}.
Context {KSL : KubeClientLaws W CaptureStorageSpec CaptureStorageStatus}.
Context (plugin_Open : string → option go_error).
Context (plugin_Lookup : string → string → result (option (option J → result (option PF)))).
Context (load_aws_config : string → option go_error) (new_gcs_client : option go_error).

Abbreviation reconcile := (Reconcile plugin_Open plugin_Lookup).
Abbreviation validate := (validateCaptureStorageSpec plugin_Open plugin_Lookup).
Abbreviation new_factory := (NewWriterFactory plugin_Open plugin_Lookup load_aws_config new_gcs_client).

Lemma not_blank s : blank s = false → s ≠ "".
Proof. unfold blank. intros Hb ->. by apply bool_decide_eq_false in Hb. Qed.

(** The factory of each type of storage. *)
Lemma factory_s3 c : new_factory CaptureStorageTypeS3 (S3Writer c) = NewS3WriterFactory load_aws_config c.
Proof. reflexivity. Qed.
Lemma factory_gcs c : new_factory CaptureStorageTypeGCS (GCSWriter c) = NewGCSWriterFactory new_gcs_client c.
Proof. reflexivity. Qed.
Lemma factory_efs c : new_factory CaptureStorageTypeEFS (EFSWriter c) = newFilesystemWriterFactory c.
Proof. reflexivity. Qed.
Lemma factory_ebs c : new_factory CaptureStorageTypeEBS (EBSWriter c) = newFilesystemWriterFactory c.
Proof. reflexivity. Qed.

(** A configuration for the location of a valid storage passes the checks of its
    factory. *)
Lemma valid_opens (storage : CaptureStorage) (sc : writer_config J) : validate (Spec storage) = None →
  location storage = Some (config_location sc) → (∀ region, load_aws_config region = None) → new_gcs_client = None →
  ∃ f, new_factory (css_Type (Spec storage)) sc = Ok f.
Proof.
  unfold validateCaptureStorageSpec, location. intros Hv Hl Haws Hgcs.
  case_bool_decide as H1; [|case_bool_decide as H2; [|case_bool_decide as H3; [|case_bool_decide as H4; [|done]]]].
  - destruct (css_S3 (Spec storage)) as [c|]; [|done]. destruct (blank (s3c_Bucket c)) eqn:Hb; [done|]. apply not_blank in Hb.
    destruct sc as [s|s|s|s|s]; try discriminate Hl. injection Hl as Hbk _ _. rewrite H1, factory_s3. unfold NewS3WriterFactory.
    rewrite <-Hbk, bool_decide_eq_false_2, Haws by done. by eexists.
  - destruct (css_GCS (Spec storage)) as [c|]; [|done]. destruct (blank (gcs_Bucket c)) eqn:Hb; [done|]. apply not_blank in Hb.
    destruct sc as [s|s|s|s|s]; try discriminate Hl. injection Hl as Hbk _. rewrite H2, factory_gcs. unfold NewGCSWriterFactory.
    rewrite <-Hbk, bool_decide_eq_false_2, Hgcs by done. by eexists.
  - destruct (css_EFS (Spec storage)) as [c|]; [|done]. destruct (blank (efs_FileSystemID c)); [done|].
    destruct (blank (efs_MountPath c)) eqn:Hb; [done|]. apply not_blank in Hb.
    destruct sc as [s|s|s|s|s]; try discriminate Hl. injection Hl as Hbk. rewrite H3, factory_efs. unfold newFilesystemWriterFactory.
    rewrite <-Hbk, bool_decide_eq_false_2 by done. by eexists.
  - destruct (css_EBS (Spec storage)) as [c|]; [|done]. destruct (blank (ebs_VolumeID c)); [done|].
    destruct (blank (ebs_MountPath c)) eqn:Hb; [done|]. apply not_blank in Hb.
    destruct sc as [s|s|s|s|s]; try discriminate Hl. injection Hl as Hbk. rewrite H4, factory_ebs. unfold newFilesystemWriterFactory.
    rewrite <-Hbk, bool_decide_eq_false_2 by done. by eexists.
Qed.

(** A successful reconcile records Ready exactly for a valid storage. *)
Lemma reconcile_status ns n w w' r (cs : CaptureStorage) : client_Get ns n w = Ok cs → reconcile ns n w = (w', Ok r) →
  ∃ cs' : CaptureStorage, client_Get ns n w' = Ok cs' ∧ Spec cs' = Spec cs ∧
    csst_Phase (Status cs') = match validate (Spec cs) with None => CaptureStoragePhaseReady | Some _ => CaptureStoragePhaseError end.
Proof using KSL.
  intros Hg. unfold Reconcile. rewrite Hg. destruct (get_name _ _ _ _ Hg) as [Hns Hn].
  assert (∀ phase reason message status w1, setStatus cs phase reason message status w = (w1, None) →
    ∃ cs' : CaptureStorage, client_Get ns n w1 = Ok cs' ∧ Spec cs' = Spec cs ∧ csst_Phase (Status cs') = phase) as Hset.
  { intros phase reason message status w1. unfold setStatus. destruct (client_StatusUpdate _ w) as [w2 [o [e|]]] eqn:Hu; [done|].
    intros [= <-]. pose proof (status_ok _ _ _ _ Hu) as (Hst & _ & _ & Hg'). unfold Namespace, Name in *. simpl in Hg'.
    rewrite Hns, Hn in Hg'. exists o. split; [done|]. split; [|by rewrite Hst]. apply (status_spec _ _ _ _ cs Hu).
    unfold Namespace, Name. simpl. by rewrite Hns, Hn. }
  destruct (validate (Spec cs)) as [e|]; destruct (setStatus _ _ _ _ _ w) as [w1 [e'|]] eqn:Hs; try done;
    intros [= <- _]; by eapply Hset.
Qed.

(** The agent of a capture whose storage a reconcile recorded as Ready opens its
    writer factory from the environment the spoke gives it, when the cloud SDKs
    let it. *)
Theorem ready_storage_opens {GP : GoParse} {HC : HeaderCodec} {CC : ConfigCodec J} ns n w w' r cs spoke_env getenv tc :
  client_Get ns n w = Ok cs → reconcile ns n w = (w', Ok r) → (∀ region, load_aws_config region = None) → new_gcs_client = None →
  ∃ cs' : CaptureStorage, client_Get ns n w' = Ok cs' ∧
    (csst_Phase (Status cs') = CaptureStoragePhaseReady → capture_ok tc cs' → runs_in (buildEnvVars spoke_env tc cs') getenv →
     ∃ sc f, parseStorageConfig (J := J) getenv (css_Type (Spec cs')) "{}" = Ok sc ∧ new_factory (css_Type (Spec cs')) sc = Ok f).
Proof using KSL.
  intros Hg Hr Haws Hgcs. destruct (reconcile_status _ _ _ _ _ _ Hg Hr) as (cs' & Hg' & Hsp & Hph). exists cs'. split; [done|].
  intros Hready Hok Hrun. destruct (storage_reaches spoke_env getenv tc cs' Hok Hrun) as (sc & Hsc & Hloc & _).
  destruct (valid_opens cs' sc) as [f Hf]; [|done|done|done|by exists sc, f]. rewrite Hsp. rewrite Hready in Hph.
  destruct (validate (Spec cs)); [discriminate Hph|done].
Qed.
End Theorems.
