(* ===== verification/EngineAbi.v ===== *)
(** * The replay engine ABI ([pkg/replayengine], [internal/replayengine])

    What a replay host and an engine plugin exchange: the messages of the wire
    protocol ([proto/replayengine/v1]), the version negotiation and the
    handshake, the conversion of captured requests to feed items and back, and
    the run configuration the replay command builds.  The text of an error in a
    message is kept as the error; no error of the program has an empty text. *)

From S2P Require Import Prelude GoStd GoTime GoFlag GoFloat Api Storage Readers Shard Engine Summary ReplayJob ReplayMain.
From Stdlib Require Import Ascii.

Local Open Scope Z_scope.

(** ** Messages *)

Record FeedItem := {
  fi_RequestId : string;
  fi_CapturedAt : option Z;
  fi_Protocol : string;
  fi_Method : string;
  fi_Path : string;
  fi_Headers : gmap string (list string);
  fi_Body : string;
  fi_Metadata : gmap string string;
  fi_SourceOffsetNs : Z
}.

Record RequestResult := {
  rr_RequestId : string;
  rr_StatusCode : Z;
  rr_LatencyMs : Z;
  rr_Error : option go_error
}.

Record Progress := { pg_Sent : Z; pg_Failed : Z }.

Record RunSummary := {
  rs_TotalRequests : Z;
  rs_SentRequests : Z;
  rs_FailedRequests : Z;
  rs_AchievedRps : float64;
  rs_MeanLatencyMs : Z;
  rs_P50LatencyMs : Z;
  rs_P95LatencyMs : Z;
  rs_P99LatencyMs : Z;
  rs_StatusCodes : gmap string Z
}.

(** The [Event] of an [ExecuteResponse]. *)
Inductive event :=
  | EvResult (r : RequestResult)
  | EvProgress (p : Progress)
  | EvSummary (s : RunSummary).

Record Target := { tg_Host : string; tg_Port : Z; tg_Tls : bool }.

Record RateHint := { rh_Mode : string; rh_RequestsPerSecond : Z; rh_TimeScale : string }.

Record RunConfig := {
  rc_RunId : string;
  rc_Target : Target;
  rc_Concurrency : Z;
  rc_Rate : RateHint;
  rc_ShardIndex : Z;
  rc_ShardCount : Z;
  rc_EngineConfigJson : string
}.

Record DescribeResponse := {
  ds_Name : string;
  ds_Version : string;
  ds_AbiVersions : list string;
  ds_Protocols : list string;
  ds_Capabilities : list string
}.

(** ** The contract ([abi.go]) *)

Definition ABIVersion : string := "v1".
Definition HandshakePrefix : string := "KAPTURE-ENGINE".
Definition HandshakeFormatVersion : string := "1".
Definition PluginBinaryPrefix : string := "kapture-engine-".
Definition CapabilityPerRequestResults : string := "per-request-results".
Definition CapabilityAggregateResults : string := "aggregate-results".
Definition CapabilitySelfPaced : string := "self-paced".
Definition HostABIVersions : list string := [ABIVersion].

(** The first version of the host's list that the engine speaks. *)
Fixpoint SupportsABIVersion (hostPreference engineVersions : list string) : option string :=
  match hostPreference with
  | [] => None
  | v :: hostPreference =>
      if bool_decide (v ∈ engineVersions) then Some v else SupportsABIVersion hostPreference engineVersions
  end.

(** The line an engine prints when it listens. *)
Definition handshake_line (socketPath : string) : string :=
  HandshakePrefix +:+ "|" +:+ HandshakeFormatVersion +:+ "|unix|" +:+ socketPath +:+ "|grpc".

(** [readHandshake] on the line it received. *)
Definition readHandshake (line : string) : result string :=
  match split_char "|" (TrimSpace line) with
  | [prefix; version; network; addr; protocol] =>
      if bool_decide (prefix ≠ HandshakePrefix) then Err (FmtError "malformed handshake line %q" [FStr line])
      else if bool_decide (version ≠ HandshakeFormatVersion)
      then Err (FmtError "unsupported handshake format version %q" [FStr version])
      else if bool_decide (network ≠ "unix") || bool_decide (protocol ≠ "grpc")
      then Err (FmtError "unsupported transport %q/%q" [FStr network; FStr protocol])
      else Ok addr
  | _ => Err (FmtError "malformed handshake line %q" [FStr line])
  end.

(** [SelfPaced] of an engine that described itself. *)
Definition SelfPaced (info : option DescribeResponse) : bool :=
  match info with
  | None => false
  | Some i => bool_decide (CapabilitySelfPaced ∈ ds_Capabilities i)
  end.

Definition IsPluginBinary (name : string) : bool := HasPrefix name PluginBinaryPrefix.

(** ** Captured requests on the wire *)

Definition feedItemFromCaptured (req : CapturedRequest) (baseTime : Z) : FeedItem :=
  let stamped := negb (IsZero (cr_Timestamp req)) in
  {| fi_RequestId := cr_ID req; fi_Protocol := cr_Protocol req; fi_Method := cr_Method req;
     fi_Path := cr_Path req; fi_Body := cr_Body req; fi_Metadata := cr_Metadata req;
     fi_CapturedAt := if stamped then Some (cr_Timestamp req) else None;
     fi_SourceOffsetNs := if stamped && negb (IsZero baseTime) then time_Sub (cr_Timestamp req) baseTime else 0;
     fi_Headers := cr_Headers req |}.

(** [capturedFromFeedItem] of the builtin engine and [capturedFromItem] of the feed
    bridge. *)
Definition capturedFromFeedItem (item : FeedItem) : CapturedRequest :=
  {| cr_ID := fi_RequestId item; cr_Method := fi_Method item; cr_Path := fi_Path item;
     cr_Body := fi_Body item; cr_Protocol := fi_Protocol item; cr_Metadata := fi_Metadata item;
     cr_Timestamp := default zero_time (fi_CapturedAt item);
     cr_Headers := fi_Headers item; cr_ContentLength := 0 |}.

(** What of a request survives the wire: everything but the recorded content
    length. *)
Definition without_length (req : CapturedRequest) : CapturedRequest :=
  {| cr_ID := cr_ID req; cr_Timestamp := cr_Timestamp req; cr_Method := cr_Method req; cr_Path := cr_Path req;
     cr_Headers := cr_Headers req; cr_Body := cr_Body req; cr_ContentLength := 0;
     cr_Protocol := cr_Protocol req; cr_Metadata := cr_Metadata req |}.

Lemma captured_from_feed req base : capturedFromFeedItem (feedItemFromCaptured req base) = without_length req.
Proof.
  unfold capturedFromFeedItem, feedItemFromCaptured, without_length. simpl. f_equal.
  unfold IsZero. destruct (Z.eqb_spec (cr_Timestamp req) zero_time) as [->|]; done.
Qed.

(** ** The run configuration *)

(** [net/url.Parse]: what the program reads of a parsed URL. *)
Record URL := { url_Scheme : string; url_Hostname : string; url_Port : string }.

(** A host name as the resource validation admits it. *)
Definition host_char (a : ascii) : bool :=
  let n := nat_of_ascii a in
  ((48 <=? n)%nat && (n <=? 57)%nat) || ((65 <=? n)%nat && (n <=? 90)%nat) || ((97 <=? n)%nat && (n <=? 122)%nat)
  || (n =? 45)%nat || (n =? 46)%nat.

Fixpoint host_name (s : string) : bool :=
  match s with "" => true | String a s => host_char a && host_name s end.

Definition web_schemes : list string := ["http"; "https"].

(** A URL of a web scheme with a host name and a port parses to its parts. *)
Class UrlParse := {
  url_Parse : string → result URL;
  FormatFloat : float64 → string;
  url_parse_parts : ∀ scheme host port, scheme ∈ web_schemes → host_name host = true → 0 <= port →
    url_Parse (scheme +:+ "://" +:+ host +:+ ":" +:+ Itoa port) =
      Ok {| url_Scheme := scheme; url_Hostname := host; url_Port := Itoa port |}
}.

Definition canonicalRateMode (mode : string) : string :=
  let m := ToLower mode in
  if bool_decide (m ∈ ["original"; "recorded"]) then "OriginalTiming"
  else if bool_decide (m = "constant") then "Constant"
  else "Unlimited".

Definition engine_target (target : URL) (port : Z) : Target :=
  {| tg_Host := url_Hostname target; tg_Port := int32 port; tg_Tls := bool_decide (url_Scheme target = "https") |}.

Definition buildRunConfig {GP : GoParse} {UP : UrlParse} (cfg : config) : result RunConfig :=
  match url_Parse (cfg_targetURL cfg) with
  | Err e => Err (WrapError "parse target url: %w" [] e)
  | Ok target =>
      let mk port := Ok {|
        rc_RunId := cfg_replayID cfg; rc_Target := engine_target target port;
        rc_Concurrency := int32 (cfg_concurrency cfg);
        rc_Rate := {| rh_Mode := canonicalRateMode (cfg_rateMode cfg);
                      rh_RequestsPerSecond := int32 (f64_trunc (cfg_ratePerSecond cfg));
                      rh_TimeScale := FormatFloat (cfg_timeScale cfg) |};
        rc_ShardIndex := int32 (cfg_shardIndex cfg); rc_ShardCount := int32 (cfg_shardCount cfg);
        rc_EngineConfigJson := cfg_engineConfig cfg |} in
      if bool_decide (url_Port target ≠ "")
      then match Atoi (url_Port target) with
           | Err e => Err (WrapError "parse target port: %w" [] e)
           | Ok port => mk port
           end
      else mk (if bool_decide (url_Scheme target = "https") then 443 else 80)
  end.

(** [defaultSender] and [targetURL]: the base URL an engine sends to. *)
Definition engine_url (t : Target) : string :=
  let scheme := if tg_Tls t then "https" else "http" in
  let port := if bool_decide (tg_Port t ≠ 0) then tg_Port t else if tg_Tls t then 443 else 80 in
  scheme +:+ "://" +:+ tg_Host t +:+ ":" +:+ Itoa port.

(** ** Round trips *)

Lemma handshake_round_trip path : Contains path "|" = false → TrimSpace (handshake_line path) = handshake_line path →
  readHandshake (handshake_line path) = Ok path.
Proof.
  intros Hp Ht. unfold readHandshake. rewrite Ht.
  assert (split_char "|" (handshake_line path) = [HandshakePrefix; HandshakeFormatVersion; "unix"; path; "grpc"]) as ->.
  { change (handshake_line path) with (HandshakePrefix +:+ String "|" (HandshakeFormatVersion +:+ String "|"
      ("unix" +:+ String "|" (path +:+ String "|" "grpc")))).
    by rewrite !split_char_app. }
  reflexivity.
Qed.

Lemma SupportsABIVersion_spec host engine v : SupportsABIVersion host engine = Some v ↔
  ∃ pre post, host = pre ++ v :: post ∧ v ∈ engine ∧ Forall (λ w, w ∉ engine) pre.
Proof.
  induction host as [|w host IH]; simpl.
  { split; [done|]. by intros ([] & ? & ? & _). }
  case_bool_decide as Hw.
  - split.
    + intros [= ->]. exists [], host. split_and!; [done..|constructor].
    + intros ([|w' pre] & post & [= -> ->] & Hv & Hpre); [done|]. by apply Forall_cons in Hpre as [? _].
  - rewrite IH. split.
    + intros (pre & post & -> & Hv & Hpre). exists (w :: pre), post. split_and!; [done..|by constructor].
    + intros ([|w' pre] & post & [= -> ->] & Hv & Hpre); [done|]. apply Forall_cons in Hpre as [_ Hpre]. eauto.
Qed.

(** The target of a replay, as far as the resource validation admits it. *)
Definition target_ok (t : ReplayTarget) : Prop :=
  host_name (rt_Host t) = true ∧ ∀ port, rt_Port t = Some port → 1 <= port ∧ in_int32 port.

(** An engine that is configured by a worker of a replay sends to the URL the
    replay's Job was given, and its rate mode is that of the worker. *)
Lemma target_round_trip {GP : GoParse} {UP : UrlParse} cfg t : target_ok t → cfg_targetURL cfg = target_url t →
  ∃ rc, buildRunConfig cfg = Ok rc ∧ tg_Host (rc_Target rc) = rt_Host t ∧
    tg_Tls (rc_Target rc) = default false (rt_TLS t) ∧ engine_url (rc_Target rc) = target_url t.
Proof.
  intros [Hh Hport] Hurl. unfold buildRunConfig. rewrite Hurl. unfold target_url.
  set (tls := default false (rt_TLS t)). set (port := default (if tls then 443 else 80) (rt_Port t)).
  assert (1 <= port ∧ in_int32 port) as [Hp Hr].
  { subst port. destruct (rt_Port t) as [p|]; [by apply Hport|]. destruct tls; by split. }
  rewrite url_parse_parts; [|destruct tls; unfold web_schemes; set_solver|done|lia].
  assert (Itoa port ≠ "") as Hne.
  { intros E. pose proof (Itoa_length_pos port ltac:(lia)) as Hl. rewrite E in Hl. simpl in Hl. lia. }
  cbn [url_Port]. rewrite bool_decide_eq_true_2 by done. rewrite atoi_Itoa by (unfold in_int32, in_int64 in *; lia).
  eexists. split; [reflexivity|]. cbn -[Itoa int32].
  split; [done|]. split; [by destruct tls|]. unfold engine_url. cbn -[Itoa int32]. rewrite int32_id by done.
  rewrite (bool_decide_eq_true_2 (port ≠ 0)) by lia. by destruct tls.
Qed.
