(* ===== verification/Feeder.v ===== *)
(** * Feeding an engine ([internal/replayengine/feeder.go])

    The host side of a replay through an external engine: [feed] streams the
    shard's slice of a capture into the engine, [collect] folds the engine's
    events into a report, [Run] does both.  What a round of the feeding loop
    meets (a cancelled context, an interrupted wait, a failing [Send]) is an
    argument, and so are the answers of [Recv]. *)

From S2P Require Import Prelude GoStd GoTime GoFloat Storage Readers Shard Engine Preshard Summary EngineAbi.

Local Open Scope Z_scope.

(** [fc_Reader] tells whether the interface value is set. *)
Record FeederConfig := {
  fc_Reader : bool;
  fc_ReadOptions : ReadOptions;
  fc_ShardIndex : Z;
  fc_ShardCount : Z;
  fc_RateMode : RateMode;
  fc_RatePerSecond : float64;
  fc_TimeScale : float64
}.

Definition NewFeeder (cfg : FeederConfig) : result FeederConfig :=
  if negb (fc_Reader cfg) then Err (FmtError "reader is required" [])
  else if (1 <? fc_ShardCount cfg) && ((fc_ShardIndex cfg <? 0) || (fc_ShardCount cfg <=? fc_ShardIndex cfg))
  then Err (FmtError "shard index %d out of range [0, %d)" [FInt (fc_ShardIndex cfg); FInt (fc_ShardCount cfg)])
  else Ok {| fc_Reader := fc_Reader cfg; fc_ReadOptions := fc_ReadOptions cfg;
             fc_ShardIndex := fc_ShardIndex cfg; fc_ShardCount := fc_ShardCount cfg;
             fc_RateMode := fc_RateMode cfg; fc_RatePerSecond := fc_RatePerSecond cfg;
             fc_TimeScale := if f64_leb (fc_TimeScale cfg) f64_zero then f64_one else fc_TimeScale cfg |}.

(** The ticker of a constant rate; [time.NewTicker] panics when its period is not
    positive. *)
Definition feed_limiter (cfg : FeederConfig) (paced : bool) : bool :=
  paced && match fc_RateMode cfg with RateModeConstant => f64_gtb (fc_RatePerSecond cfg) f64_zero | _ => false end.

Definition feed_limiter_ok (cfg : FeederConfig) (paced : bool) : bool :=
  negb (feed_limiter cfg paced) || (0 <? f64_trunc (f64_div (f64_of_Z Second) (fc_RatePerSecond cfg))).

(** How an item is held back, and the timestamp to remember. *)
Definition feed_pace (cfg : FeederConfig) (paced : bool) (prevTimestamp : Z) (req : CapturedRequest) : pacing * Z :=
  if negb paced then (NoWait, prevTimestamp)
  else match fc_RateMode cfg with
  | RateModeConstant => (if feed_limiter cfg paced then WaitTick else NoWait, prevTimestamp)
  | RateModeOriginalTiming =>
      let delay := time_Sub (cr_Timestamp req) prevTimestamp in
      (if negb (IsZero prevTimestamp) && negb (IsZero (cr_Timestamp req)) && (0 <? delay)
       then WaitFor (f64_trunc (f64_mul (f64_of_Z delay) (fc_TimeScale cfg))) else NoWait, cr_Timestamp req)
  | RateModeUnlimited => (NoWait, prevTimestamp)
  end.

(** What a round of the loop meets: whether the context is done at its head,
    whether it is done before a wait is over, and what [Send] answers. *)
Record round := { rn_done : bool; rn_interrupted : bool; rn_send : option go_error }.

(** The end of the stream, to the feeder. *)
Definition feed_end (err : go_error) : bool := is_done err || errors_Is err io_EOF.

(** What is owned by the feeder's shard, and what is fed of it: the first
    timestamp is the base of the offsets. *)
Definition feed_owns (cfg : FeederConfig) (req : CapturedRequest) : bool :=
  ShardOwns (cr_ID req) (fc_ShardIndex cfg) (fc_ShardCount cfg).

Definition next_base (base : Z) (req : CapturedRequest) : Z :=
  if IsZero base && negb (IsZero (cr_Timestamp req)) then cr_Timestamp req else base.

Section Feed.
Context {R : Type} (Next : R → R * result CapturedRequest) (ctxErr : go_error).
Context (cfg : FeederConfig) (paced : bool).

Record feed_state := FeedState {
  fs_reader : R;
  fs_base : Z;
  fs_prev : Z;
  fs_fed : Z;
  fs_skipped : Z;
  fs_sent : list FeedItem
}.

(** [fs_sent] records the items [Send] took. *)

Definition feed_start (r : R) : feed_state := FeedState r zero_time zero_time 0 0 [].

(** One round of the loop, and what [feed] returns when it ends there. *)
Definition feed_round (rd : round) (st : feed_state) : feed_state * option (option go_error) :=
  if rn_done rd then (st, Some (Some ctxErr))
  else match Next (fs_reader st) with
  | (r, Err err) =>
      (FeedState r (fs_base st) (fs_prev st) (fs_fed st) (fs_skipped st) (fs_sent st),
       Some (if feed_end err then None else Some (WrapError "reader: %w" [] err)))
  | (r, Ok req) =>
      if negb (feed_owns cfg req)
      then (FeedState r (fs_base st) (fs_prev st) (fs_fed st) (int64 (fs_skipped st + 1)) (fs_sent st), None)
      else
        let base := next_base (fs_base st) req in
        let '(wait, prev) := feed_pace cfg paced (fs_prev st) req in
        let stop prev err := (FeedState r base prev (fs_fed st) (fs_skipped st) (fs_sent st), Some (Some err)) in
        match wait, rn_interrupted rd with
        | NoWait, _ | _, false =>
            match rn_send rd with
            | Some err => stop prev (WrapError "send feed item: %w" [] err)
            | None => (FeedState r base prev (int64 (fs_fed st + 1)) (fs_skipped st)
                         (fs_sent st ++ [feedItemFromCaptured req base]), None)
            end
        | _, true => stop (fs_prev st) ctxErr
        end
  end.

(** The loop; [None] while [feed] has not returned. *)
Fixpoint feed_loop (rounds : list round) (st : feed_state) : feed_state * option (option go_error) :=
  match rounds with
  | [] => (st, None)
  | rd :: rounds =>
      match feed_round rd st with
      | (st, None) => feed_loop rounds st
      | (st, Some ret) => (st, Some ret)
      end
  end.

(** [feed]; when it returns it has half-closed the stream. *)
Definition feed (rounds : list round) (r : R) : go (feed_state * option (option go_error)) :=
  if feed_limiter_ok cfg paced then Ret (feed_loop rounds (feed_start r)) else Panic.
End Feed.
Arguments feed_state : clear implicits.

(** ** Collecting the engine's events *)

Record collect_state := CollectState {
  cs_report : RunReport;
  cs_sawSummary : bool;
  cs_sent : Z;
  cs_failed : Z
}.

Definition emptyReport : RunReport :=
  {| rp_TotalRequests := 0; rp_SentRequests := 0; rp_FailedRequests := 0; rp_FilteredRequests := 0;
     rp_DurationMs := 0; rp_AchievedRPS := f64_zero; rp_MeanLatencyMs := 0; rp_P50LatencyMs := 0;
     rp_P95LatencyMs := 0; rp_P99LatencyMs := 0 |}.

Definition collect_event (ev : event) (st : collect_state) : collect_state :=
  match ev with
  | EvResult r =>
      match rr_Error r with
      | None => CollectState (cs_report st) (cs_sawSummary st) (int64 (cs_sent st + 1)) (cs_failed st)
      | Some _ => CollectState (cs_report st) (cs_sawSummary st) (cs_sent st) (int64 (cs_failed st + 1))
      end
  | EvProgress p => CollectState (cs_report st) (cs_sawSummary st) (pg_Sent p) (pg_Failed p)
  | EvSummary s =>
      let report := cs_report st in
      CollectState
        {| rp_TotalRequests := rs_TotalRequests s; rp_SentRequests := rs_SentRequests s;
           rp_FailedRequests := rs_FailedRequests s; rp_FilteredRequests := rp_FilteredRequests report;
           rp_DurationMs := rp_DurationMs report; rp_AchievedRPS := rs_AchievedRps s;
           rp_MeanLatencyMs := rs_MeanLatencyMs s; rp_P50LatencyMs := rs_P50LatencyMs s;
           rp_P95LatencyMs := rs_P95LatencyMs s; rp_P99LatencyMs := rs_P99LatencyMs s |}
        true (cs_sent st) (cs_failed st)
  end.

Definition collect_start : collect_state := CollectState emptyReport false 0 0.

(** [collect] over the answers of [Recv]; [None] while it has not returned. *)
Fixpoint collect_loop (recvs : list (result event)) (st : collect_state) : option (result RunReport) :=
  match recvs with
  | [] => None
  | Err err :: _ =>
      Some (if errors_Is err io_EOF
            then if cs_sawSummary st then Ok (cs_report st)
                 else Err (FmtError "engine closed stream without a final RunSummary" [])
            else Err (WrapError "receive engine event: %w" [] err))
  | Ok ev :: recvs => collect_loop recvs (collect_event ev st)
  end.

Definition collect (recvs : list (result event)) : option (result RunReport) := collect_loop recvs collect_start.

(** [Run] when the reader opened with [opened] and the execute stream with
    [executed], in terms of what [feed] and [collect] return. *)
Definition run_result (opened executed : option go_error) (sendErr : option go_error)
    (collected : result RunReport) : result RunReport :=
  match opened with
  | Some err => Err (WrapError "open reader: %w" [] err)
  | None =>
      match executed with
      | Some err => Err (WrapError "open execute stream: %w" [] err)
      | None =>
          match collected, sendErr with
          | Err recvErr, _ => Err recvErr
          | Ok _, Some err => Err err
          | Ok report, None => Ok report
          end
      end
  end.

(** [Run] with an engine that described itself with [info]: the feeder's state
    and the report; [None] while it has not returned. *)
Definition Run {R} (Next : R → R * result CapturedRequest) (ctxErr : go_error) (cfg : FeederConfig)
    (opened executed : option go_error) (info : option DescribeResponse)
    (rounds : list round) (recvs : list (result event)) (r : R) : go (option (feed_state R * result RunReport)) :=
  match opened, executed with
  | None, None =>
      match feed Next ctxErr cfg (negb (SelfPaced info)) rounds r with
      | Panic => Panic
      | Ret (st, Some sendErr) =>
          Ret match collect recvs with
              | Some collected => Some (st, run_result opened executed sendErr collected)
              | None => None
              end
      | Ret (_, None) => Ret None
      end
  | _, _ => Ret (Some (feed_start r, run_result opened executed None (Err (FmtError "" []))))
  end.

(** ** What is fed *)

(** The items of a slice of the capture, with the offsets from its first
    timestamp. *)
Fixpoint items_from (base : Z) (reqs : list CapturedRequest) : list FeedItem :=
  match reqs with
  | [] => []
  | req :: reqs => let base := next_base base req in feedItemFromCaptured req base :: items_from base reqs
  end.

Definition feeder_slice (cfg : FeederConfig) (reqs : list CapturedRequest) : list CapturedRequest :=
  List.filter (feed_owns cfg) reqs.

Lemma items_from_snoc reqs base req :
  items_from base (reqs ++ [req]) = items_from base reqs
    ++ [feedItemFromCaptured req (next_base (foldl next_base base reqs) req)].
Proof. revert base. induction reqs as [|q reqs IH]; intros base; simpl; [done|]. by rewrite IH. Qed.

Lemma items_from_captured base reqs : capturedFromFeedItem <$> items_from base reqs = without_length <$> reqs.
Proof.
  revert base. induction reqs as [|q reqs IH]; intros base; simpl; [done|].
  by rewrite captured_from_feed, IH.
Qed.

Lemma items_from_length base reqs : length (items_from base reqs) = length reqs.
Proof. revert base. by induction reqs as [|q reqs IH]; intros base; simpl; [|rewrite IH]. Qed.

Section FeedSpec.
Context {R : Type} (Next : R → R * result CapturedRequest) (ctxErr : go_error).
Context (cfg : FeederConfig) (paced : bool).

Definition passed_over (reqs : list CapturedRequest) : list CapturedRequest :=
  List.filter (λ req, negb (feed_owns cfg req)) reqs.

(** [seen] has been read: its slice was sent, and the rest of it skipped. *)
Record fed (seen : list CapturedRequest) (st : feed_state R) : Prop := {
  fd_sent : fs_sent st = items_from zero_time (feeder_slice cfg seen);
  fd_fed : fs_fed st = int64 (len (feeder_slice cfg seen));
  fd_skipped : fs_skipped st = int64 (len (passed_over seen))
}.

Lemma fed_skip seen st req r : fed seen st → feed_owns cfg req = false →
  fed (seen ++ [req]) (FeedState r (fs_base st) (fs_prev st) (fs_fed st) (int64 (fs_skipped st + 1)) (fs_sent st)).
Proof.
  intros [Hs Hf Hk] Ho. unfold feeder_slice, passed_over in *.
  constructor; unfold feeder_slice, passed_over; rewrite !List.filter_app; simpl; rewrite Ho; simpl; rewrite ?app_nil_r; try done.
  by rewrite len_snoc, Hk, int64_add_l.
Qed.

Lemma fed_send seen st req r prev : fed seen st → feed_owns cfg req = true →
  fs_base st = foldl next_base zero_time (feeder_slice cfg seen) →
  let base := next_base (fs_base st) req in
  let st' := FeedState r base prev (int64 (fs_fed st + 1)) (fs_skipped st)
    (fs_sent st ++ [feedItemFromCaptured req base]) in
  fed (seen ++ [req]) st' ∧ fs_base st' = foldl next_base zero_time (feeder_slice cfg (seen ++ [req])).
Proof.
  intros [Hs Hf Hk] Ho Hb base st'. unfold feeder_slice, passed_over in *.
  assert (List.filter (feed_owns cfg) (seen ++ [req]) = List.filter (feed_owns cfg) seen ++ [req]) as Hsl.
  { rewrite List.filter_app. simpl. by rewrite Ho. }
  split; [constructor|]; unfold feeder_slice, passed_over, st'; cbn -[int64].
  - rewrite Hsl, items_from_snoc, <- Hb. by rewrite Hs.
  - by rewrite Hsl, len_snoc, Hf, int64_add_l.
  - rewrite List.filter_app. simpl. rewrite Ho. simpl. by rewrite app_nil_r.
  - by rewrite Hsl, foldl_app, <- Hb.
Qed.

Lemma feed_loop_spec rounds st seen rest err :
  reads Next (fs_reader st) rest err → fed seen st →
  fs_base st = foldl next_base zero_time (feeder_slice cfg seen) →
  let '(st', ret) := feed_loop Next ctxErr cfg paced rounds st in
  ∃ more rest', rest = more ++ rest' ∧ fed (seen ++ more) st' ∧
    (ret = Some None → rest' = [] ∧ feed_end err = true) ∧
    (ret = None → length more = length rounds).
Proof.
  revert st seen rest. induction rounds as [|rd rounds IH]; intros st seen rest Hr Hfed Hbase; simpl.
  { exists [], rest. rewrite (app_nil_r seen). split_and!; done. }
  unfold feed_round. destruct (rn_done rd).
  { exists [], rest. rewrite (app_nil_r seen). split_and!; done. }
  inversion Hr as [r r' err' Hn|r r' req reqs err' Hn Hr']; simplify_eq/=; rewrite Hn.
  { exists [], []. rewrite (app_nil_r seen). split_and!; [done| |by destruct (feed_end err)|by destruct (feed_end err)].
    by destruct Hfed; constructor. }
  destruct (feed_owns cfg req) eqn:Ho; simpl.
  2:{ set (st1 := FeedState _ _ _ _ _ _). specialize (IH st1 (seen ++ [req]) reqs Hr').
      destruct (feed_loop _ _ _ _ rounds st1) as [st' ret].
      destruct IH as (more & rest' & -> & Hfed' & Hend & Hlen); [by apply fed_skip| |].
      { unfold feeder_slice. rewrite List.filter_app. simpl. rewrite Ho, app_nil_r. exact Hbase. }
      exists (req :: more), rest'. rewrite <- app_assoc in Hfed'. split_and!; [done..|].
      intros E. simpl. by rewrite Hlen. }
  destruct (feed_pace cfg paced (fs_prev st) req) as [wait prev].
  assert (∀ p e, ∃ more rest', req :: reqs = more ++ rest' ∧
    fed (seen ++ more) (FeedState r' (next_base (fs_base st) req) p (fs_fed st) (fs_skipped st) (fs_sent st)) ∧
    (Some (Some e) = Some (@None go_error) → rest' = [] ∧ feed_end err = true) ∧
    (Some (Some e) = None → length more = S (length rounds))) as Hstop.
  { intros p e. exists [], (req :: reqs). rewrite (app_nil_r seen). split_and!; [done| |done..]. by destruct Hfed; constructor. }
  assert (∀ st1, fed (seen ++ [req]) st1 → fs_reader st1 = r' →
    fs_base st1 = foldl next_base zero_time (feeder_slice cfg (seen ++ [req])) →
    let '(st', ret) := feed_loop Next ctxErr cfg paced rounds st1 in
    ∃ more rest', req :: reqs = more ++ rest' ∧ fed (seen ++ more) st' ∧
      (ret = Some None → rest' = [] ∧ feed_end err = true) ∧
      (ret = None → length more = S (length rounds))) as Hgo.
  { intros st1 Hf1 Hr1 Hb1. rewrite <- Hr1 in Hr'. specialize (IH st1 (seen ++ [req]) reqs Hr' Hf1 Hb1).
    destruct (feed_loop _ _ _ _ rounds st1) as [st' ret]. destruct IH as (more & rest' & -> & Hfed' & Hend & Hlen).
    exists (req :: more), rest'. rewrite <- app_assoc in Hfed'. split_and!; [done..|].
    intros E. simpl. by rewrite Hlen. }
  destruct (fed_send seen st req r' prev Hfed Ho Hbase) as [Hf1 Hb1].
  destruct wait, (rn_interrupted rd); try apply Hstop;
    (destruct (rn_send rd); [apply Hstop|by apply Hgo]).
Qed.

(** What [feed] sent is the slice of what it read of the capture, in order and
    each request once; it returns without an error only at the end of the
    capture, and it returns within one round more than the requests. *)
Lemma feed_sends rounds r stream err st ret :
  reads Next r stream err → feed Next ctxErr cfg paced rounds r = Ret (st, ret) →
  ∃ seen rest, stream = seen ++ rest ∧ fed seen st ∧
    (ret = Some None → rest = [] ∧ feed_end err = true) ∧
    ((length stream < length rounds)%nat → is_Some ret).
Proof.
  intros Hr. unfold feed. destruct (feed_limiter_ok _ _); [|done]. intros [= Hf].
  pose proof (feed_loop_spec rounds (feed_start r) [] stream err Hr) as Hs.
  destruct (feed_loop _ _ _ _ _ _) as [st' ret']. simplify_eq.
  destruct Hs as (more & rest & -> & Hfed & Hend & Hlen); [by constructor|done|].
  exists more, rest. split_and!; [done..|]. intros Hl. destruct ret; [eauto|].
  specialize (Hlen eq_refl). rewrite length_app in Hl. lia.
Qed.

(** When nothing goes wrong, [feed] feeds the whole slice. *)
Definition smooth (rd : round) : Prop := rn_done rd = false ∧ rn_interrupted rd = false ∧ rn_send rd = None.

Lemma feed_loop_smooth rounds st rest err :
  reads Next (fs_reader st) rest err → feed_end err = true → Forall smooth rounds →
  (length rest < length rounds)%nat → ∃ st', feed_loop Next ctxErr cfg paced rounds st = (st', Some None).
Proof.
  revert st rest. induction rounds as [|rd rounds IH]; intros st rest Hr He Hs Hl; simpl in Hl; [lia|].
  apply Forall_cons in Hs as [(Hd & Hi & Hsend) Hs]. simpl. unfold feed_round. rewrite Hd.
  inversion Hr as [r r' err' Hn|r r' req reqs err' Hn Hr']; simplify_eq/=; rewrite Hn; [rewrite He; eauto|].
  destruct (feed_owns cfg req); simpl; [|by eapply IH; eauto; simpl in *; lia].
  destruct (feed_pace _ _ _ _) as [wait prev]. rewrite Hi, Hsend.
  destruct wait; eapply IH; eauto; simpl in *; lia.
Qed.
End FeedSpec.

(** [collect] returns the last summary of a stream that ended. *)
Lemma collect_spec evs st err : errors_Is err io_EOF = true →
  collect_loop ((Ok <$> evs) ++ [Err err]) st =
    Some (let st' := foldl (λ st ev, collect_event ev st) st evs in
          if cs_sawSummary st' then Ok (cs_report st')
          else Err (FmtError "engine closed stream without a final RunSummary" [])).
Proof.
  intros He. revert st. induction evs as [|ev evs IH]; intros st; simpl; [by rewrite He|]. apply IH.
Qed.

Lemma collect_ok recvs st report : collect_loop recvs st = Some (Ok report) →
  ∃ evs err later, recvs = (Ok <$> evs) ++ Err err :: later ∧ errors_Is err io_EOF = true ∧
    cs_sawSummary (foldl (λ st ev, collect_event ev st) st evs) = true ∧
    report = cs_report (foldl (λ st ev, collect_event ev st) st evs).
Proof.
  revert st. induction recvs as [|[ev|err] recvs IH]; intros st H; simpl in H; [done| |].
  - destruct (IH _ H) as (evs & err & later & -> & ? & ? & ?). by exists (ev :: evs), err, later.
  - exists [], err, recvs. destruct (errors_Is err io_EOF) eqn:He; [|done].
    destruct (cs_sawSummary st) eqn:Hs; simplify_eq. by split_and!.
Qed.

(** When [Run] returns a report, both of its goroutines ended well. *)
Lemma Run_ok {R} (Next : R → R * result CapturedRequest) ctxErr cfg opened executed info rounds recvs r host report :
  Run Next ctxErr cfg opened executed info rounds recvs r = Ret (Some (host, Ok report)) →
  feed Next ctxErr cfg (negb (SelfPaced info)) rounds r = Ret (host, Some None) ∧
  collect recvs = Some (Ok report).
Proof.
  unfold Run, run_result. destruct opened, executed; simpl; try done.
  destruct (feed _ _ _ _ _ _) as [[st [sendErr|]]|]; [|done..].
  destruct (collect recvs) as [[collected|]|]; [|done..].
  destruct sendErr; [done|]. by intros [= -> ->].
Qed.
