(* ===== verification/BuiltinEngine.v ===== *)
(** * The builtin engine behind the plugin SDK ([internal/engines/builtin], [pkg/replayengine/serve.go])

    The engine side of a run: [engineServer.Execute] bridges the gRPC stream to
    channels with a receiving and a sending goroutine, and the builtin engine's
    [Execute] sends the feed with [concurrency] workers and ends with a summary.
    The goroutines are a step relation over their shared state, one step per
    channel operation, [select] or call, in any interleaving; the context may be
    cancelled and [Drain] may be called at any point.  The sender of requests and
    the stream may answer anything. *)

From S2P Require Import Prelude GoStd GoTime GoFloat Storage Readers Shard Engine Preshard Summary EngineAbi Feeder.

Local Open Scope Z_scope.

Definition maxLatencySamples : Z := 100000.
Definition feedBuffer : Z := 256.

(** ** The engine *)

(** [be_cfg] is set with the sender. *)
Record BuiltinEngine := { be_cfg : option RunConfig; be_draining : bool }.

Definition builtin_New : BuiltinEngine := {| be_cfg := None; be_draining := false |}.

Definition builtin_Describe : DescribeResponse :=
  {| ds_Name := "builtin"; ds_Version := "v1"; ds_AbiVersions := [ABIVersion]; ds_Protocols := ["HTTP"];
     ds_Capabilities := [CapabilityPerRequestResults] |}.

(** [Configure], with the answer of [newSender]. *)
Definition builtin_Configure (cfg : RunConfig) (newSender : option go_error) (e : BuiltinEngine)
    : BuiltinEngine * option go_error :=
  if bool_decide (tg_Host (rc_Target cfg) = "") then (e, Some (FmtError "target host is required" []))
  else match newSender with
  | Some err => (e, Some (WrapError "create sender: %w" [] err))
  | None => ({| be_cfg := Some cfg; be_draining := be_draining e |}, None)
  end.

Definition builtin_concurrency (cfg : RunConfig) : Z := if rc_Concurrency cfg <=? 0 then 1 else rc_Concurrency cfg.

(** [fillLatencyStats]: the mean and the percentiles, in milliseconds; an index
    out of range panics. *)
Definition fillLatencyStats (latencies : list Z) (s : RunSummary) : go RunSummary :=
  if bool_decide (latencies = []) then Ret s
  else
    let sorted := merge_sort Z.le latencies in
    let totalLat := foldl (λ total l, int64 (total + l)) 0 sorted in
    let pct p :=
      let idx := f64_index (len latencies - 1) p in
      if idx <? 0 then Panic
      else match sorted !! Z.to_nat idx with Some d => Ret (Milliseconds d) | None => Panic end in
    match pct (fraction p50), pct (fraction p95), pct (fraction p99) with
    | Ret q50, Ret q95, Ret q99 =>
        Ret {| rs_TotalRequests := rs_TotalRequests s; rs_SentRequests := rs_SentRequests s;
               rs_FailedRequests := rs_FailedRequests s; rs_AchievedRps := rs_AchievedRps s;
               rs_MeanLatencyMs := Milliseconds (Z.quot totalLat (len latencies));
               rs_P50LatencyMs := q50; rs_P95LatencyMs := q95; rs_P99LatencyMs := q99;
               rs_StatusCodes := rs_StatusCodes s |}
    | _, _, _ => Panic
    end.

(** ** The goroutines of a run *)

(** The receive loop: in [Recv], sending an item into the feed, returned. *)
Inductive recv_pc := RvRecv | RvSend (item : FeedItem) | RvDone.

(** A worker: at the head of its loop, with an item, inside [Send], emitting a
    result, returned. *)
Inductive bworker := BwRange | BwItem (item : FeedItem) | BwSend (item : FeedItem) | BwEmit (r : RequestResult) | BwExit.

(** The engine's [Execute]: waiting for its workers, emitting the summary,
    returned (the events channel is closed then). *)
Inductive exec_pc := ExWait | ExSummary (s : RunSummary) | ExReturned (err : option go_error).

(** The send loop: at the head of its loop, inside [Send], returned. *)
Inductive send_pc := SdRange | SdSend (ev : event) | SdDone.

Record exec_state := ExecState {
  xs_items : list (option FeedItem);
  xs_end : go_error;
  xs_recv : recv_pc;
  xs_recvErr : option go_error;
  xs_feed : list FeedItem;
  xs_workers : list bworker;
  xs_exec : exec_pc;
  xs_events : list event;
  xs_send : send_pc;
  xs_sendErr : option go_error;
  xs_total : Z;
  xs_sent : Z;
  xs_failed : Z;
  xs_latencies : list Z;
  xs_codes : gmap string Z;
  xs_cancelled : bool;
  xs_draining : bool;
  xs_down : list event;
  xs_log : list (FeedItem * RequestResult)
}.

(** [xs_items] and then [xs_end] are what [Recv] will answer (an [ExecuteRequest]
    may carry no item); [xs_down] are the events [Send] took; [xs_log] are the
    completed sends of the workers with their results. *)

(** ** Updates of single fields *)

Definition set_recv (pc : recv_pc) (items : list (option FeedItem)) (err : option go_error) (st : exec_state) : exec_state :=
  ExecState items (xs_end st) pc err (xs_feed st) (xs_workers st) (xs_exec st) (xs_events st) (xs_send st)
    (xs_sendErr st) (xs_total st) (xs_sent st) (xs_failed st) (xs_latencies st) (xs_codes st) (xs_cancelled st)
    (xs_draining st) (xs_down st) (xs_log st).

Definition set_feed (feed : list FeedItem) (st : exec_state) : exec_state :=
  ExecState (xs_items st) (xs_end st) (xs_recv st) (xs_recvErr st) feed (xs_workers st) (xs_exec st) (xs_events st)
    (xs_send st) (xs_sendErr st) (xs_total st) (xs_sent st) (xs_failed st) (xs_latencies st) (xs_codes st)
    (xs_cancelled st) (xs_draining st) (xs_down st) (xs_log st).

Definition set_bworker (i : nat) (w : bworker) (st : exec_state) : exec_state :=
  ExecState (xs_items st) (xs_end st) (xs_recv st) (xs_recvErr st) (xs_feed st) (<[i := w]> (xs_workers st)) (xs_exec st)
    (xs_events st) (xs_send st) (xs_sendErr st) (xs_total st) (xs_sent st) (xs_failed st) (xs_latencies st)
    (xs_codes st) (xs_cancelled st) (xs_draining st) (xs_down st) (xs_log st).

Definition set_exec (pc : exec_pc) (events : list event) (st : exec_state) : exec_state :=
  ExecState (xs_items st) (xs_end st) (xs_recv st) (xs_recvErr st) (xs_feed st) (xs_workers st) pc events
    (xs_send st) (xs_sendErr st) (xs_total st) (xs_sent st) (xs_failed st) (xs_latencies st) (xs_codes st)
    (xs_cancelled st) (xs_draining st) (xs_down st) (xs_log st).

Definition set_send (pc : send_pc) (events : list event) (err : option go_error) (down : list event)
    (st : exec_state) : exec_state :=
  ExecState (xs_items st) (xs_end st) (xs_recv st) (xs_recvErr st) (xs_feed st) (xs_workers st) (xs_exec st) events
    pc err (xs_total st) (xs_sent st) (xs_failed st) (xs_latencies st) (xs_codes st) (xs_cancelled st)
    (xs_draining st) down (xs_log st).

Definition set_total (n : Z) (st : exec_state) : exec_state :=
  ExecState (xs_items st) (xs_end st) (xs_recv st) (xs_recvErr st) (xs_feed st) (xs_workers st) (xs_exec st)
    (xs_events st) (xs_send st) (xs_sendErr st) n (xs_sent st) (xs_failed st) (xs_latencies st) (xs_codes st)
    (xs_cancelled st) (xs_draining st) (xs_down st) (xs_log st).

Definition set_flags (cancelled draining : bool) (st : exec_state) : exec_state :=
  ExecState (xs_items st) (xs_end st) (xs_recv st) (xs_recvErr st) (xs_feed st) (xs_workers st) (xs_exec st)
    (xs_events st) (xs_send st) (xs_sendErr st) (xs_total st) (xs_sent st) (xs_failed st) (xs_latencies st)
    (xs_codes st) cancelled draining (xs_down st) (xs_log st).

(** The state when [engineServer.Execute] has started its loops and called the
    engine's [Execute]. *)
Definition exec_start (e : BuiltinEngine) (items : list (option FeedItem)) (err : go_error) : exec_state :=
  let '(workers, pc) :=
    match be_cfg e with
    | None => ([], ExReturned (Some (FmtError "engine not configured" [])))
    | Some cfg => (replicate (Z.to_nat (builtin_concurrency cfg)) BwRange, ExWait)
    end in
  ExecState items err RvRecv None [] workers pc [] SdRange None 0 0 0 [] ∅ false (be_draining e) [] [].

(** ** What the goroutines do between two blocking points *)

(** [Recv] answered. *)
Definition after_recv (st : exec_state) : exec_state :=
  match xs_items st with
  | [] => set_recv RvDone [] (if errors_Is (xs_end st) io_EOF then None else Some (xs_end st)) st
  | Some item :: items => set_recv (RvSend item) items (xs_recvErr st) st
  | None :: items => set_recv RvRecv items (xs_recvErr st) st
  end.

(** A worker that took an item: it drops the item while draining. *)
Definition take_item (i : nat) (item : FeedItem) (st : exec_state) : exec_state :=
  if xs_draining st then set_bworker i BwRange st
  else set_bworker i (BwSend item) (set_total (int64 (xs_total st + 1)) st).

(** The result of a completed [Send]. *)
Definition result_of (item : FeedItem) (a : send_answer) : RequestResult :=
  match a with
  | SendFailed _ err => {| rr_RequestId := fi_RequestId item; rr_StatusCode := 0; rr_LatencyMs := 0; rr_Error := Some err |}
  | Sent r => {| rr_RequestId := fi_RequestId item; rr_StatusCode := int32 (res_StatusCode r);
                 rr_LatencyMs := Milliseconds (res_Duration r); rr_Error := None |}
  end.

Definition sent_ok (r : RequestResult) : bool := match rr_Error r with None => true | Some _ => false end.

Definition complete_send (i : nat) (item : FeedItem) (a : send_answer) (st : exec_state) : exec_state :=
  let r := result_of item a in
  let upd sent failed latencies codes :=
    ExecState (xs_items st) (xs_end st) (xs_recv st) (xs_recvErr st) (xs_feed st)
      (<[i := BwEmit r]> (xs_workers st)) (xs_exec st) (xs_events st) (xs_send st) (xs_sendErr st) (xs_total st)
      sent failed latencies codes (xs_cancelled st) (xs_draining st) (xs_down st) (xs_log st ++ [(item, r)]) in
  match a with
  | SendFailed _ _ => upd (xs_sent st) (int64 (xs_failed st + 1)) (xs_latencies st) (xs_codes st)
  | Sent res =>
      upd (int64 (xs_sent st + 1)) (xs_failed st)
        (if len (xs_latencies st) <? maxLatencySamples then xs_latencies st ++ [res_Duration res] else xs_latencies st)
        (incr (Itoa (res_StatusCode res)) (xs_codes st))
  end.

(** The summary, when all workers have returned, [elapsed] after the start. *)
Definition run_summary_of (elapsed : Z) (st : exec_state) : go RunSummary :=
  fillLatencyStats (xs_latencies st)
    {| rs_TotalRequests := xs_total st; rs_SentRequests := xs_sent st; rs_FailedRequests := xs_failed st;
       rs_AchievedRps := if 0 <? elapsed then f64_div (f64_of_Z (xs_sent st)) (Seconds elapsed) else f64_zero;
       rs_MeanLatencyMs := 0; rs_P50LatencyMs := 0; rs_P95LatencyMs := 0; rs_P99LatencyMs := 0;
       rs_StatusCodes := xs_codes st |}.

Section Steps.
Variable ctxErr : go_error.

Inductive exec_step (st : exec_state) : exec_state → Prop :=
  | ex_recv : xs_recv st = RvRecv → exec_step st (after_recv st)
  | ex_feed item : xs_recv st = RvSend item → len (xs_feed st) < feedBuffer →
      exec_step st (set_recv RvRecv (xs_items st) (xs_recvErr st) (set_feed (xs_feed st ++ [item]) st))
  | ex_feed_cancelled item : xs_recv st = RvSend item → xs_cancelled st = true →
      exec_step st (set_recv RvDone (xs_items st) (xs_recvErr st) st)
  | ex_take i item feed : xs_workers st !! i = Some BwRange → xs_feed st = item :: feed →
      exec_step st (set_bworker i (BwItem item) (set_feed feed st))
  | ex_range_end i : xs_workers st !! i = Some BwRange → xs_feed st = [] → xs_recv st = RvDone →
      exec_step st (set_bworker i BwExit st)
  | ex_item i item : xs_workers st !! i = Some (BwItem item) → exec_step st (take_item i item st)
  | ex_sent i item a : xs_workers st !! i = Some (BwSend item) → exec_step st (complete_send i item a st)
  | ex_emit i r : xs_workers st !! i = Some (BwEmit r) → len (xs_events st) < feedBuffer →
      exec_step st (set_bworker i BwRange (set_exec (xs_exec st) (xs_events st ++ [EvResult r]) st))
  | ex_emit_cancelled i r : xs_workers st !! i = Some (BwEmit r) → xs_cancelled st = true →
      exec_step st (set_bworker i BwExit st)
  | ex_wait elapsed s : xs_exec st = ExWait → Forall (λ w, w = BwExit) (xs_workers st) →
      run_summary_of elapsed st = Ret s → exec_step st (set_exec (ExSummary s) (xs_events st) st)
  | ex_summary s : xs_exec st = ExSummary s → len (xs_events st) < feedBuffer →
      exec_step st (set_exec (ExReturned None) (xs_events st ++ [EvSummary s]) st)
  | ex_summary_cancelled s : xs_exec st = ExSummary s → xs_cancelled st = true →
      exec_step st (set_exec (ExReturned (Some ctxErr)) (xs_events st) st)
  | ex_next ev events : xs_send st = SdRange → xs_events st = ev :: events →
      exec_step st (set_send (match xs_sendErr st with None => SdSend ev | Some _ => SdRange end) events
        (xs_sendErr st) (xs_down st) st)
  | ex_down ev : xs_send st = SdSend ev →
      exec_step st (set_send SdRange (xs_events st) (xs_sendErr st) (xs_down st ++ [ev]) st)
  | ex_down_failed ev err : xs_send st = SdSend ev →
      exec_step st (set_send SdRange (xs_events st) (Some err) (xs_down st) st)
  | ex_send_end err : xs_send st = SdRange → xs_events st = [] → xs_exec st = ExReturned err →
      exec_step st (set_send SdDone [] (xs_sendErr st) (xs_down st) st).

(** The steps, and what may come from outside: a cancelled context, [Drain]. *)
Inductive exec_any (st : exec_state) : exec_state → Prop :=
  | any_step st' : exec_step st st' → exec_any st st'
  | any_cancel : xs_cancelled st = false → exec_any st (set_flags true (xs_draining st) st)
  | any_drain : xs_draining st = false → exec_any st (set_flags (xs_cancelled st) true st).
End Steps.

(** [engineServer.Execute] has returned. *)
Definition exec_finished (st : exec_state) : Prop :=
  xs_recv st = RvDone ∧ xs_send st = SdDone ∧ ∃ err, xs_exec st = ExReturned err.

(** What it returned. *)
Definition exec_result (st : exec_state) : option go_error :=
  match xs_exec st with
  | ExReturned (Some err) => Some err
  | _ => match xs_sendErr st with Some err => Some err | None => xs_recvErr st end
  end.

(** ** The items *)

Definition bitems (w : bworker) : list FeedItem := match w with BwItem item | BwSend item => [item] | _ => [] end.
Definition bsending (w : bworker) : list FeedItem := match w with BwSend item => [item] | _ => [] end.
Definition bemits (w : bworker) : list RequestResult := match w with BwEmit r => [r] | _ => [] end.
Definition recv_item (pc : recv_pc) : list FeedItem := match pc with RvSend item => [item] | _ => [] end.
Definition send_event (pc : send_pc) : list event := match pc with SdSend ev => [ev] | _ => [] end.

Section Invariants.
Context (items0 : list (option FeedItem)) (err0 ctxErr : go_error).

(** The items on their way to the sender. *)
Definition items_in_flight (st : exec_state) : list FeedItem :=
  concat (bitems <$> xs_workers st) ++ xs_feed st ++ recv_item (xs_recv st).

(** [got] are the answers of [Recv] so far: every item of them was sent once, is
    in flight, or was dropped because of a cancellation or while draining. *)
Record flow_inv (st : exec_state) (got : list (option FeedItem)) (dropped : list FeedItem) : Prop := {
  fl_items : items0 = got ++ xs_items st;
  fl_end : xs_end st = err0;
  fl_flow : omap id got ≡ₚ (xs_log st).*1 ++ items_in_flight st ++ dropped;
  fl_clean : xs_cancelled st = false → xs_draining st = false → dropped = [];
  fl_recvErr : xs_recv st ≠ RvDone → xs_recvErr st = None;
  fl_done : xs_recv st = RvDone → xs_cancelled st = true ∨
    (xs_items st = [] ∧ xs_recvErr st = if errors_Is err0 io_EOF then None else Some err0);
  fl_exit : ∀ i, xs_workers st !! i = Some BwExit → xs_cancelled st = true ∨ (xs_feed st = [] ∧ xs_recv st = RvDone);
  fl_feed : len (xs_feed st) <= feedBuffer
}.

Lemma flow_start e cfg : be_cfg e = Some cfg → flow_inv (exec_start e items0 err0) [] [].
Proof.
  intros He. unfold exec_start. rewrite He. constructor; try done; simpl.
  - unfold items_in_flight. simpl. by induction (Z.to_nat _).
  - intros i Hi. apply lookup_replicate in Hi as [? _]. done.
Qed.

Lemma bexit_insert (ws : list bworker) (i j : nat) w : w ≠ BwExit → <[i := w]> ws !! j = Some BwExit → ws !! j = Some BwExit.
Proof. intros Hw. rewrite list_lookup_insert_Some. by intros [(_ & -> & _)|[_ ?]]. Qed.

Lemma flow_step st st' got dropped : flow_inv st got dropped → exec_step ctxErr st st' →
  ∃ got' dropped', flow_inv st' got' dropped'.
Proof.
  intros [Hi He Hf Hc Hre Hd Hx Hb] Hstep. unfold items_in_flight in *.
  destruct Hstep as [Hpc|item Hpc Hcap|item Hpc Hcan|i item feed Hw Hfeed|i Hw Hfeed Hpc|i item Hw|i item a Hw
    |i r Hw Hcap|i r Hw Hcan|elapsed s Hpc Hall Hs|s Hpc Hcap|s Hpc Hcan|ev evs Hpc Hev|ev Hpc|ev err Hpc|err Hpc Hev Hex].
  - unfold after_recv. destruct (xs_items st) as [|[item|] items] eqn:Eit.
    + exists got, dropped. constructor; simpl; try done.
      * unfold items_in_flight. simpl. by rewrite Hpc in Hf.
      * intros _. right. split; [done|]. by rewrite He.
      * intros i Hi'. destruct (Hx i Hi') as [?|[_ E]]; [by left|]. congruence.
    + exists (got ++ [Some item]), dropped. constructor; simpl; try done.
      * by rewrite <- app_assoc.
      * rewrite omap_app, Hf. simpl. unfold items_in_flight. simpl. rewrite Hpc. simpl.
        rewrite app_nil_r, <-!app_assoc. rewrite (Permutation_app_comm dropped). done.
      * intros _. apply Hre. by rewrite Hpc.
      * intros i Hi'. destruct (Hx i Hi') as [?|[_ E]]; [by left|]. congruence.
    + exists (got ++ [None]), dropped. constructor; simpl; try done.
      * by rewrite <- app_assoc.
      * rewrite omap_app, Hf. simpl. unfold items_in_flight. simpl. by rewrite Hpc, app_nil_r.
      * intros _. apply Hre. by rewrite Hpc.
      * intros i Hi'. destruct (Hx i Hi') as [?|[_ E]]; [by left|]. congruence.
  - exists got, dropped. constructor; simpl; try done.
    + rewrite Hf. unfold items_in_flight. simpl. rewrite Hpc. simpl. by rewrite app_nil_r.
    + intros _. apply Hre. by rewrite Hpc.
    + intros i Hi'. destruct (Hx i Hi') as [?|[_ E]]; [by left|]. congruence.
    + rewrite len_snoc. lia.
  - exists got, (item :: dropped). constructor; simpl; try done.
    + rewrite Hf. unfold items_in_flight. simpl. rewrite Hpc. simpl. by rewrite !app_nil_r, <-!app_assoc.
    + intros ?. congruence.
    + intros _. by left.
    + intros i Hi'. by left.
  - exists got, dropped. destruct (concat_insert bitems _ i _ (BwItem item) Hw) as (rest & Hr1 & Hr2).
    constructor; simpl; try done.
    + rewrite Hf. unfold items_in_flight. simpl. rewrite Hr1, Hr2, Hfeed. simpl. by rewrite <-Permutation_middle.
    + intros j Hj. apply bexit_insert in Hj; [|done]. destruct (Hx j Hj) as [?|[E _]]; [by left|]. congruence.
    + rewrite Hfeed in Hb. unfold len in *. simpl in Hb. lia.
  - exists got, dropped. destruct (concat_insert bitems _ i _ BwExit Hw) as (rest & Hr1 & Hr2).
    constructor; simpl; try done.
    + rewrite Hf. unfold items_in_flight. simpl. by rewrite Hr1, Hr2.
    + intros j _. by right.
  - unfold take_item. destruct (concat_insert bitems _ i _ (BwSend item) Hw) as (rest & Hr1 & Hr2).
    destruct (concat_insert bitems _ i _ BwRange Hw) as (rest' & Hr1' & Hr2'). destruct (xs_draining st) eqn:Edr.
    + exists got, (item :: dropped). constructor; simpl; try done.
      * rewrite Hf. unfold items_in_flight. simpl. rewrite Hr1', Hr2'. simpl.
        apply Permutation_app_head, Permutation_middle.
      * congruence.
      * intros j Hj. apply bexit_insert in Hj; [by apply (Hx j)|done].
    + exists got, dropped. constructor; simpl; try done.
      * rewrite Hf. unfold items_in_flight. simpl. by rewrite Hr1, Hr2.
      * by rewrite Edr.
      * intros j Hj. apply bexit_insert in Hj; [by apply (Hx j)|done].
  - exists got, dropped. destruct (concat_insert bitems _ i _ (BwEmit (result_of item a)) Hw) as (rest & Hr1 & Hr2).
    assert (omap id got ≡ₚ (xs_log st ++ [(item, result_of item a)]).*1
      ++ (concat (bitems <$> <[i := BwEmit (result_of item a)]> (xs_workers st)) ++ xs_feed st ++ recv_item (xs_recv st)) ++ dropped) as Hf'.
    { rewrite Hf, Hr1, Hr2, fmap_app. simpl. by rewrite <-!app_assoc. }
    assert (∀ j, <[i := BwEmit (result_of item a)]> (xs_workers st) !! j = Some BwExit →
      xs_cancelled st = true ∨ (xs_feed st = [] ∧ xs_recv st = RvDone)) as Hx'.
    { intros j Hj. apply bexit_insert in Hj; [by apply (Hx j)|done]. }
    destruct a; constructor; simpl; done.
  - exists got, dropped. destruct (concat_insert bitems _ i _ BwRange Hw) as (rest & Hr1 & Hr2).
    constructor; simpl; try done.
    + rewrite Hf. unfold items_in_flight. simpl. by rewrite Hr1, Hr2.
    + intros j Hj. apply bexit_insert in Hj; [by apply (Hx j)|done].
  - exists got, dropped. destruct (concat_insert bitems _ i _ BwExit Hw) as (rest & Hr1 & Hr2).
    constructor; simpl; try done.
    + rewrite Hf. unfold items_in_flight. simpl. by rewrite Hr1, Hr2.
    + intros j _. by left.
  - by exists got, dropped.
  - by exists got, dropped.
  - by exists got, dropped.
  - by exists got, dropped.
  - by exists got, dropped.
  - by exists got, dropped.
  - by exists got, dropped.
Qed.
End Invariants.

(** ** The counters and the events *)

Section Events.
Variable ctxErr : go_error.

Definition all_exited (st : exec_state) : Prop := Forall (λ w, w = BwExit) (xs_workers st).

Definition summary_counts (s : RunSummary) (st : exec_state) : Prop :=
  rs_TotalRequests s = xs_total st ∧ rs_SentRequests s = xs_sent st ∧ rs_FailedRequests s = xs_failed st.

Lemma fill_counts latencies s s' : fillLatencyStats latencies s = Ret s' →
  rs_TotalRequests s' = rs_TotalRequests s ∧ rs_SentRequests s' = rs_SentRequests s ∧
  rs_FailedRequests s' = rs_FailedRequests s ∧ rs_StatusCodes s' = rs_StatusCodes s.
Proof. unfold fillLatencyStats. intros H. repeat case_match; simplify_eq; done. Qed.

Lemma summary_of_counts elapsed st s : run_summary_of elapsed st = Ret s → summary_counts s st.
Proof. intros H%fill_counts. unfold summary_counts. by destruct H as (-> & -> & -> & _). Qed.

(** The events in the order of their emission: those taken by the stream, that
    in [Send] and those queued. *)
Definition trace (st : exec_state) : list event := xs_down st ++ send_event (xs_send st) ++ xs_events st.

(** While nothing was cancelled and no [Send] failed, the events are one result
    per completed send, and after them the summary. *)
Definition events_ok (st : exec_state) (rs : list RequestResult) : Prop :=
  match xs_exec st with
  | ExWait => trace st = EvResult <$> rs
  | ExSummary s => summary_counts s st ∧ trace st = EvResult <$> rs
  | ExReturned err => err = None ∧ ∃ s, summary_counts s st ∧ trace st = (EvResult <$> rs) ++ [EvSummary s]
  end.

Record count_inv (st : exec_state) : Prop := {
  cn_total : xs_total st = int64 (len (xs_log st) + len (concat (bsending <$> xs_workers st)));
  cn_sent : xs_sent st = int64 (len (List.filter sent_ok (xs_log st).*2));
  cn_failed : xs_failed st = int64 (len (List.filter (λ r, negb (sent_ok r)) (xs_log st).*2));
  cn_latencies : len (xs_latencies st) <= maxLatencySamples;
  cn_exited : xs_exec st = ExWait ∨ all_exited st;
  cn_events : xs_cancelled st = false → xs_sendErr st = None →
    ∃ rs, rs ++ concat (bemits <$> xs_workers st) ≡ₚ (xs_log st).*2 ∧ events_ok st rs;
  cn_done : xs_send st = SdDone → xs_events st = [] ∧ ∃ err, xs_exec st = ExReturned err;
  cn_queue : len (xs_events st) <= feedBuffer;
  cn_workers : xs_workers st ≠ [];
  cn_ids : Forall (λ x, rr_RequestId x.2 = fi_RequestId x.1) (xs_log st)
}.

Lemma builtin_concurrency_pos cfg : 0 < builtin_concurrency cfg.
Proof. unfold builtin_concurrency. destruct (_ <=? _) eqn:E; zbool; lia. Qed.

Lemma insert_not_nil {A} (l : list A) i x : l ≠ [] → <[i := x]> l ≠ [].
Proof. destruct l, i; done. Qed.

Lemma count_start e cfg items err : be_cfg e = Some cfg → count_inv (exec_start e items err).
Proof.
  intros He. unfold exec_start. rewrite He.
  assert (∀ {B} (f : bworker → list B) n, f BwRange = [] → concat (f <$> replicate n BwRange) = []) as Hrep.
  { intros B f n Hf. induction n; [done|]. simpl. by rewrite Hf. }
  constructor; simpl; rewrite ?(Hrep _ bsending), ?(Hrep _ bemits) by done; try done.
  - by left.
  - intros _ _. by exists [].
  - pose proof (builtin_concurrency_pos cfg). by destruct (Z.to_nat (builtin_concurrency cfg)) eqn:E; [lia|].
Qed.

Lemma working st i w : count_inv st → xs_workers st !! i = Some w → w ≠ BwExit → xs_exec st = ExWait.
Proof.
  intros [_ _ _ _ [Hw|Hall] _ _ _ _ _] Hi Hw'; [done|]. exfalso. apply Hw'. by apply (Forall_lookup_1 _ _ _ _ Hall Hi).
Qed.

Lemma sending_insert ws (i : nat) w w' : ws !! i = Some w →
  len (concat (bsending <$> <[i := w']> ws)) + len (bsending w) = len (concat (bsending <$> ws)) + len (bsending w').
Proof.
  intros Hi. destruct (concat_insert bsending ws i w w' Hi) as (rest & H1 & H2).
  unfold len. apply Permutation_length in H1, H2. rewrite length_app in H1, H2. lia.
Qed.

(** A worker moves on without sending or emitting. *)
Lemma count_worker st st' i w w' : count_inv st → xs_workers st !! i = Some w → w ≠ BwExit →
  xs_workers st' = <[i := w']> (xs_workers st) →
  xs_total st' = int64 (xs_total st + (len (bsending w') - len (bsending w))) → xs_log st' = xs_log st →
  xs_sent st' = xs_sent st → xs_failed st' = xs_failed st → xs_latencies st' = xs_latencies st →
  xs_exec st' = xs_exec st → xs_cancelled st' = xs_cancelled st → xs_sendErr st' = xs_sendErr st →
  xs_send st' = xs_send st → xs_events st' = xs_events st → xs_down st' = xs_down st →
  (xs_cancelled st = false → bemits w' = bemits w) → count_inv st'.
Proof.
  intros Hinv Hi Hnx Hws Htot Hlog Hsent Hfail Hlat Hex Hcan Herr Hsnd Hev Hdown Hemit.
  pose proof (working st i w Hinv Hi Hnx) as Hwait. destruct Hinv as [Ht Hs Hf Hl Hx He Hd Hq Hne Hids].
  constructor; rewrite ?Htot, ?Hlog, ?Hsent, ?Hfail, ?Hlat, ?Hex, ?Hws, ?Hcan, ?Herr, ?Hsnd, ?Hev; try done.
  - rewrite Ht, int64_add_l. f_equal. pose proof (sending_insert _ i w w' Hi). lia.
  - by left.
  - intros Hc Hse. destruct (He Hc Hse) as (rs & Hp & Hok). exists rs.
    destruct (concat_insert bemits _ i _ w' Hi) as (rest & Hr1 & Hr2).
    split; [by rewrite Hr2, Hemit, <- Hr1|]. unfold events_ok, trace in *. by rewrite Hex, Hsnd, Hev, Hdown, Hwait in *.
  - by apply insert_not_nil.
Qed.

Lemma int64_same st z : count_inv st → z = 0 → xs_total st = int64 (xs_total st + z).
Proof. intros Hinv ->. rewrite Z.add_0_r. destruct Hinv as [-> _ _ _ _ _ _ _ _ _]. by rewrite int64_idemp. Qed.

(** A completed send. *)
Lemma count_sent st i item a : count_inv st → xs_workers st !! i = Some (BwSend item) → count_inv (complete_send i item a st).
Proof.
  intros Hinv Hi. pose proof (working st i _ Hinv Hi ltac:(done)) as Hwait. destruct Hinv as [Ht Hs Hf Hl Hx He Hd Hq Hne Hids].
  set (r := result_of item a).
  pose proof (sending_insert _ i _ (BwEmit r) Hi) as Hsend. simpl in Hsend.
  change (len (@nil FeedItem)) with 0 in Hsend. change (len [item]) with 1 in Hsend.
  destruct (concat_insert bemits _ i _ (BwEmit r) Hi) as (rest & Hr1 & Hr2).
  assert (∀ f, List.filter f (xs_log st ++ [(item, r)]).*2 = List.filter f (xs_log st).*2 ++ (if f r then [r] else [])) as Hfil.
  { intros f. rewrite fmap_app, List.filter_app. done. }
  assert (∀ st', xs_exec st' = xs_exec st → xs_send st' = xs_send st → xs_events st' = xs_events st → xs_down st' = xs_down st →
    xs_workers st' = <[i := BwEmit r]> (xs_workers st) → xs_log st' = xs_log st ++ [(item, r)] →
    xs_cancelled st = false → xs_sendErr st = None →
    ∃ rs, rs ++ concat (bemits <$> xs_workers st') ≡ₚ (xs_log st').*2 ∧ events_ok st' rs) as Hev.
  { intros st' E1 E2 E3 E4 E5 E6 Hc Hse. destruct (He Hc Hse) as (rs & Hp & Hok). exists rs. rewrite E5, E6. split.
    - rewrite Hr2, fmap_app. simpl. rewrite <-Hp, Hr1. simpl. rewrite <-Permutation_middle. by rewrite <-Permutation_cons_append.
    - unfold events_ok, trace in *. by rewrite E1, E2, E3, E4, Hwait in *. }
  assert (int64 (len (xs_log st) + len (concat (bsending <$> xs_workers st))) =
    int64 (len (xs_log st ++ [(item, r)]) + len (concat (bsending <$> <[i := BwEmit r]> (xs_workers st))))) as Htot.
  { rewrite len_snoc. f_equal. lia. }
  specialize (Hev (complete_send i item a st)).
  destruct a as [res|? err]; (constructor; [simpl|simpl|simpl|simpl|by left|by apply Hev|done|done|by apply insert_not_nil|by apply Forall_app_2; [|constructor]]); rewrite ?Hfil; try done.
  - by rewrite Ht.
  - simpl. by rewrite len_snoc, Hs, int64_add_l.
  - simpl. by rewrite app_nil_r.
  - destruct (_ <? _) eqn:E; [|done]. zbool. rewrite len_snoc. lia.
  - by rewrite Ht.
  - simpl. by rewrite app_nil_r.
  - simpl. by rewrite len_snoc, Hf, int64_add_l.
Qed.

Lemma count_step st st' : count_inv st → exec_step ctxErr st st' → count_inv st'.
Proof.
  intros Hinv Hstep.
  destruct Hstep as [Hpc|item Hpc Hcap|item Hpc Hcan|i item feed Hw Hfeed|i Hw Hfeed Hpc|i item Hw|i item a Hw
    |i r Hw Hcap|i r Hw Hcan|elapsed s Hpc Hall Hs|s Hpc Hcap|s Hpc Hcan|ev evs Hpc Hev|ev Hpc|ev err Hpc|err Hpc Hev Hex].
  - destruct Hinv. unfold after_recv. by destruct (xs_items st) as [|[item|] items].
  - by destruct Hinv.
  - by destruct Hinv.
  - eapply (count_worker st _ i); eauto. by apply (int64_same st).
  - eapply (count_worker st _ i); eauto. by apply (int64_same st).
  - unfold take_item. destruct (xs_draining st) eqn:E.
    + eapply (count_worker st _ i); eauto. by apply (int64_same st).
    + by eapply (count_worker st _ i); eauto.
  - by apply count_sent.
  - pose proof (working st i _ Hinv Hw ltac:(done)) as Hwait.
    pose proof (sending_insert _ i _ BwRange Hw) as Hsend. simpl in Hsend.
    destruct (concat_insert bemits _ i _ BwRange Hw) as (rest & Hr1 & Hr2).
    destruct Hinv as [Ht Hs Hf Hl Hx He Hd Hq Hne Hids]. constructor; simpl; try done.
    + rewrite Ht. f_equal. lia.
    + by left.
    + intros Hc Hse. destruct (He Hc Hse) as (rs & Hp & Hok). exists (rs ++ [r]). split.
      * rewrite Hr2. simpl. by rewrite <- Hp, Hr1, <- app_assoc.
      * unfold events_ok, trace in *. simpl. rewrite Hwait in *. by rewrite fmap_app, <- Hok, <-!app_assoc.
    + intros Hd'. destruct (Hd Hd') as (_ & err & E). congruence.
    + rewrite len_snoc. lia.
    + by apply insert_not_nil.
  - eapply (count_worker st _ i); eauto; [by apply (int64_same st)|congruence].
  - destruct Hinv as [Ht Hs' Hf Hl Hx He Hd Hq Hne Hids]. constructor; simpl; try done.
    + by right.
    + intros Hc Hse. destruct (He Hc Hse) as (rs & Hp & Hok). exists rs. split; [done|].
      unfold events_ok, trace in *. simpl. rewrite Hpc in Hok. split; [|done]. by eapply summary_of_counts.
    + intros Hd'. destruct (Hd Hd') as (_ & err & E). congruence.
  - destruct Hinv as [Ht Hs Hf Hl Hx He Hd Hq Hne Hids]. constructor; simpl; try done.
    + right. destruct Hx as [E|?]; [congruence|done].
    + intros Hc Hse. destruct (He Hc Hse) as (rs & Hp & Hok). exists rs. split; [done|].
      unfold events_ok, trace in *. simpl. rewrite Hpc in Hok. destruct Hok as [Hcnt Htr].
      split; [done|]. exists s. split; [done|]. by rewrite <- Htr, <-!app_assoc.
    + intros Hd'. destruct (Hd Hd') as (_ & err & E). congruence.
    + rewrite len_snoc. lia.
  - destruct Hinv as [Ht Hs Hf Hl Hx He Hd Hq Hne Hids]. constructor; simpl; try done.
    + right. destruct Hx as [E|?]; [congruence|done].
    + congruence.
    + intros Hd'. destruct (Hd Hd') as (_ & err & E). congruence.
  - destruct Hinv as [Ht Hs Hf Hl Hx He Hd Hq Hne Hids]. constructor; simpl; try done.
    + intros Hc Hse. destruct (He Hc Hse) as (rs & Hp & Hok). exists rs. split; [done|].
      unfold events_ok, trace in *. simpl. by rewrite Hse, Hpc, Hev in *.
    + by destruct (xs_sendErr st).
    + rewrite Hev in Hq. unfold len in *. simpl in Hq. lia.
  - destruct Hinv as [Ht Hs Hf Hl Hx He Hd Hq Hne Hids]. constructor; simpl; try done.
    intros Hc Hse. destruct (He Hc Hse) as (rs & Hp & Hok). exists rs. split; [done|].
    unfold events_ok, trace in *. simpl. rewrite Hpc in Hok. by rewrite <- app_assoc.
  - destruct Hinv as [Ht Hs Hf Hl Hx He Hd Hq Hne Hids]. by constructor.
  - destruct Hinv as [Ht Hs Hf Hl Hx He Hd Hq Hne Hids]. constructor; simpl; try done.
    + intros Hc Hse. destruct (He Hc Hse) as (rs & Hp & Hok). exists rs. split; [done|].
      unfold events_ok, trace in *. simpl. by rewrite Hpc, Hev in Hok.
    + eauto.
Qed.
End Events.

(** ** The summary never panics *)

Lemma fill_returns latencies s : len latencies <= maxLatencySamples → ∃ s', fillLatencyStats latencies s = Ret s'.
Proof.
  intros Hl. unfold fillLatencyStats. case_bool_decide as Hn; [eauto|].
  assert (0 < len latencies) as Hpos by (unfold len; destruct latencies; simpl; [done|lia]).
  assert (∀ p, is_fraction p → ∃ d, (if f64_index (len latencies - 1) (fraction p) <? 0 then Panic
    else match merge_sort Z.le latencies !! Z.to_nat (f64_index (len latencies - 1) (fraction p)) with
         | Some d => Ret (Milliseconds d) | None => Panic end) = Ret d) as Hp.
  { intros p Hp. unfold maxLatencySamples in Hl.
    pose proof (f64_index_range (len latencies - 1) p ltac:(lia) Hp) as Hr.
    rewrite (proj2 (Z.ltb_ge _ 0)) by lia.
    destruct (merge_sort Z.le latencies !! _) as [d|] eqn:E; [eauto|].
    apply lookup_ge_None in E. rewrite (Permutation_length (merge_sort_Permutation Z.le latencies)) in E.
    unfold len in *. lia. }
  destruct (Hp p50) as [q50 ->]; [by unfold is_fraction, p50; lia|].
  destruct (Hp p95) as [q95 ->]; [by unfold is_fraction, p95; lia|].
  destruct (Hp p99) as [q99 ->]; [by unfold is_fraction, p99; lia|]. eauto.
Qed.

Lemma summary_returns elapsed st : count_inv st → ∃ s, run_summary_of elapsed st = Ret s.
Proof. intros Hinv. apply fill_returns, (cn_latencies _ Hinv). Qed.

(** ** Reachable states *)

Section Runs.
Context (e : BuiltinEngine) (cfg : RunConfig) (items0 : list (option FeedItem)) (err0 ctxErr : go_error).
Hypothesis configured : be_cfg e = Some cfg.

Definition exec_inv (st : exec_state) : Prop := (∃ got dropped, flow_inv items0 err0 st got dropped) ∧ count_inv st.

Lemma exec_inv_start : exec_inv (exec_start e items0 err0).
Proof.
  split; [exists [], []; by eapply flow_start|by eapply count_start].
Qed.

Lemma exec_inv_step st st' : exec_inv st → exec_any ctxErr st st' → exec_inv st'.
Proof.
  intros [(got & dropped & Hf) Hc] [st1 Hs|Hn|Hn].
  - split; [by eapply flow_step|by eapply count_step].
  - split.
    + exists got, dropped. destruct Hf. constructor; simpl; try done; by left.
    + by destruct Hc.
  - split.
    + exists got, dropped. by destruct Hf.
    + by destruct Hc.
Qed.

Lemma exec_inv_reachable st : rtc (exec_any ctxErr) (exec_start e items0 err0) st → exec_inv st.
Proof.
  revert st. apply rtc_ind_r; [apply exec_inv_start|]. intros y z _ Hyz Hy. by eapply exec_inv_step.
Qed.

(** A run that ended well and was neither cancelled nor drained. *)
Lemma finished_spec st : exec_inv st → exec_finished st → exec_result st = None →
  xs_cancelled st = false → xs_draining st = false →
  errors_Is err0 io_EOF = true ∧ (xs_log st).*1 ≡ₚ omap id items0 ∧
  ∃ rs s, xs_down st = (EvResult <$> rs) ++ [EvSummary s] ∧ rs ≡ₚ (xs_log st).*2 ∧
    rs_TotalRequests s = int64 (len (omap id items0)) ∧
    rs_SentRequests s = int64 (len (List.filter sent_ok rs)) ∧
    rs_FailedRequests s = int64 (len (List.filter (λ r, negb (sent_ok r)) rs)).
Proof.
  intros [(got & dropped & Hflow) Hcount] (Hrecv & Hsend & err & Hexec) Hres Hcan Hdr.
  destruct Hflow as [Hi _ Hf Hcl _ Hd Hx _]. destruct Hcount as [Ht Hs Hfl _ Hex He Hdn _ Hne _].
  unfold exec_result in Hres. rewrite Hexec in Hres. destruct err; [done|]. destruct (xs_sendErr st) eqn:Hse; [done|].
  destruct (Hd Hrecv) as [?|[Hit Herr]]; [congruence|]. rewrite Hres in Herr.
  split; [by destruct (errors_Is err0 io_EOF)|].
  assert (all_exited st) as Hall by (destruct Hex; [congruence|done]).
  assert (xs_feed st = []) as Hfeed.
  { destruct (xs_workers st) as [|w ws] eqn:Hw; [done|]. unfold all_exited in Hall. rewrite Hw in Hall.
    apply Forall_cons in Hall as [-> _]. destruct (Hx 0%nat eq_refl) as [?|[? _]]; [congruence|done]. }
  assert (∀ {B} (f : bworker → list B), f BwExit = [] → concat (f <$> xs_workers st) = []) as Hidle.
  { intros B f Hfx. eapply concat_nil_Forall; [|exact Hall]. by intros w ->. }
  rewrite Hit, app_nil_r in Hi. subst items0.
  unfold items_in_flight in Hf. rewrite (Hidle _ bitems), Hfeed, Hrecv, (Hcl Hcan Hdr), !app_nil_r in Hf by done.
  split; [done|]. destruct (He Hcan eq_refl) as (rs & Hp & Hok). destruct (Hdn Hsend) as [Hev _].
  unfold events_ok in Hok. rewrite Hexec in Hok. destruct Hok as (_ & s & (Hs1 & Hs2 & Hs3) & Htr).
  unfold trace in Htr. rewrite Hsend, Hev in Htr. simpl in Htr. rewrite !app_nil_r in Htr.
  rewrite (Hidle _ bemits), app_nil_r in Hp by done.
  exists rs, s. split; [done|]. split; [done|].
  assert (∀ f, len (List.filter f rs) = len (List.filter f (xs_log st).*2)) as Hfil.
  { intros f. unfold len. f_equal. by apply Permutation_length, filter_bool_perm. }
  split_and!.
  - rewrite Hs1, Ht, (Hidle _ bsending) by done. f_equal. unfold len. rewrite Hf, length_fmap. simpl. lia.
  - by rewrite Hs2, Hs, Hfil.
  - by rewrite Hs3, Hfl, Hfil.
Qed.
End Runs.

(** ** Termination *)

Definition item_weight (o : option FeedItem) : nat := match o with Some _ => 12 | None => 1 end.
Definition recv_weight (pc : recv_pc) : nat := match pc with RvRecv => 1 | RvSend _ => 12 | RvDone => 0 end.
Definition bworker_weight (w : bworker) : nat :=
  match w with BwRange => 1 | BwItem _ => 10 | BwSend _ => 9 | BwEmit _ => 8 | BwExit => 0 end.
Definition exec_weight (pc : exec_pc) : nat := match pc with ExWait => 8 | ExSummary _ => 7 | ExReturned _ => 0 end.
Definition send_weight (pc : send_pc) : nat := match pc with SdRange => 1 | SdSend _ => 3 | SdDone => 0 end.

(** What is left to do. *)
Definition exec_measure (st : exec_state) : nat :=
  (sum_list_with item_weight (xs_items st) + recv_weight (xs_recv st) + 10 * length (xs_feed st)
   + sum_list_with bworker_weight (xs_workers st) + exec_weight (xs_exec st) + 5 * length (xs_events st)
   + send_weight (xs_send st))%nat.

Definition outside_measure (st : exec_state) : nat :=
  ((if xs_cancelled st then 0 else 1) + (if xs_draining st then 0 else 1))%nat.

Lemma exec_step_measure ctxErr st st' : exec_step ctxErr st st' →
  (exec_measure st' < exec_measure st)%nat ∧ outside_measure st' = outside_measure st.
Proof.
  assert (∀ st1 i w w', xs_workers st !! i = Some w → xs_workers st1 = <[i := w']> (xs_workers st) →
    (sum_list_with bworker_weight (xs_workers st1) + bworker_weight w =
     sum_list_with bworker_weight (xs_workers st) + bworker_weight w')%nat) as Hins.
  { intros st1 i w w' Hi ->. by apply sum_insert. }
  unfold exec_measure.
  intros [Hpc|item Hpc Hcap|item Hpc Hcan|i item feed Hw Hfeed|i Hw Hfeed Hpc|i item Hw|i item a Hw
    |i r Hw Hcap|i r Hw Hcan|elapsed s Hpc Hall Hs|s Hpc Hcap|s Hpc Hcan|ev evs Hpc Hev|ev Hpc|ev err Hpc|err Hpc Hev Hex].
  - unfold after_recv. destruct (xs_items st) as [|[item|] items]; rewrite Hpc; simpl; split; done || lia.
  - rewrite Hpc. simpl. rewrite length_app. simpl. split; [lia|done].
  - rewrite Hpc. simpl. split; [lia|done].
  - rewrite Hfeed. pose proof (sum_insert bworker_weight _ i _ (BwItem item) Hw) as E. simpl in *. split; [lia|done].
  - pose proof (sum_insert bworker_weight _ i _ BwExit Hw) as E. simpl in *. split; [lia|done].
  - pose proof (sum_insert bworker_weight _ i _ BwRange Hw) as E. pose proof (sum_insert bworker_weight _ i _ (BwSend item) Hw) as E'.
    unfold take_item. destruct (xs_draining st) eqn:Ed; simpl in *; unfold outside_measure; simpl; rewrite ?Ed; split; done || lia.
  - pose proof (sum_insert bworker_weight _ i _ (BwEmit (result_of item a)) Hw) as E. simpl in *.
    destruct a; simpl in *; split; done || lia.
  - pose proof (sum_insert bworker_weight _ i _ BwRange Hw) as E. simpl in *. rewrite length_app. simpl. split; [lia|done].
  - pose proof (sum_insert bworker_weight _ i _ BwExit Hw) as E. simpl in *. split; [lia|done].
  - rewrite Hpc. simpl. split; [lia|done].
  - rewrite Hpc. simpl. rewrite length_app. simpl. split; [lia|done].
  - rewrite Hpc. simpl. split; [lia|done].
  - rewrite Hpc, Hev. destruct (xs_sendErr st); simpl; split; done || lia.
  - rewrite Hpc. simpl. split; [lia|done].
  - rewrite Hpc. simpl. split; [lia|done].
  - rewrite Hpc, Hev. simpl. split; [lia|done].
Qed.

(** Every execution of the goroutines is bounded, cancellation and [Drain]
    included. *)
Lemma exec_bounded ctxErr k st st' : nsteps (exec_any ctxErr) k st st' →
  (k + exec_measure st' + outside_measure st' <= exec_measure st + outside_measure st)%nat.
Proof.
  induction 1 as [st|k st1 st2 st3 Hstep _ IH]; [lia|]. destruct Hstep as [st2 Hstep|Hn|Hn].
  - apply exec_step_measure in Hstep. lia.
  - unfold outside_measure, exec_measure in *. simpl in *. rewrite Hn. destruct (xs_draining st1); lia.
  - unfold outside_measure, exec_measure in *. simpl in *. rewrite Hn. destruct (xs_cancelled st1); lia.
Qed.

#[global] Instance exited_dec (w : bworker) : Decision (w = BwExit).
Proof. destruct w; (by left) || (by right). Defined.

#[global] Instance all_exited_dec st : Decision (all_exited st).
Proof. unfold all_exited. apply _. Defined.

(** A worker that has not returned, and room for its event: something moves. *)
Lemma worker_progress ctxErr st : ¬ all_exited st → len (xs_events st) < feedBuffer →
  ∃ st', exec_step ctxErr st st'.
Proof.
  intros Hall Hroom. apply (not_Forall_Exists (λ w, w = BwExit)), Exists_exists in Hall as (w & (i & Hw)%list_elem_of_lookup & Hne).
  destruct w as [|item|item|r|]; [|by eexists; eapply ex_item|by eexists; eapply (ex_sent _ _ i item (SendFailed None ctxErr))
    |by eexists; eapply ex_emit|by destruct Hne].
  destruct (xs_feed st) as [|item feed] eqn:Hfeed; [|by eexists; eapply ex_take].
  destruct (xs_recv st) as [|item|] eqn:Hrecv; [by eexists; eapply ex_recv| |by eexists; eapply ex_range_end].
  eexists. eapply ex_feed; [done|]. by rewrite Hfeed.
Qed.

(** ... and until everything has returned, some goroutine can move. *)
Lemma exec_progress items0 err0 ctxErr st : exec_inv items0 err0 st →
  exec_finished st ∨ ∃ st', exec_step ctxErr st st'.
Proof.
  intros [(got & dropped & Hflow) Hcount].
  destruct (xs_send st) as [|ev|] eqn:Hsend; [|right; eexists; by eapply ex_down|].
  1: destruct (xs_events st) as [|ev evs] eqn:Hev; [|right; eexists; by eapply ex_next].
  2: destruct (cn_done _ Hcount Hsend) as [Hev _].
  all: assert (len (xs_events st) < feedBuffer) as Hroom by (by rewrite Hev).
  all: destruct (xs_exec st) as [|s|err] eqn:Hexec; [|right; eexists; by eapply ex_summary|].
  1, 3: right; destruct (decide (all_exited st)) as [Hall|Hall];
    [destruct (summary_returns 0 st Hcount) as [s Hs]; eexists; by eapply ex_wait|by eapply worker_progress].
  - right. eexists. by eapply ex_send_end.
  - destruct (xs_recv st) as [|item|] eqn:Hrecv; [right; eexists; by apply ex_recv| |left; split_and!; eauto].
    right. destruct (cn_exited _ Hcount) as [?|Hall]; [congruence|].
    pose proof (cn_workers _ Hcount) as Hne. unfold all_exited in Hall.
    destruct (xs_workers st) as [|w ws] eqn:Hw; [done|]. apply Forall_cons in Hall as [-> _].
    destruct (fl_exit _ _ _ _ _ Hflow 0%nat) as [Hc|[_ ?]]; [by rewrite Hw| |congruence].
    eexists. by eapply ex_feed_cancelled.
Qed.
