(* ===== verification/ExternalRun.v ===== *)
(** * A replay through an external engine

    Both ends of the engine ABI put together: the feeder of the replay command
    ([Feeder]) and the builtin engine behind the plugin SDK ([BuiltinEngine]).
    gRPC delivers the messages of a stream reliably and in order; what the two
    ends rely on is the record [connected].  Then: what a run that returned a
    report has sent, that the engine's side always finishes, and two ways in
    which it does less than it should. *)

From S2P Require Import Prelude GoStd GoTime GoFloat Storage Readers Shard Engine Preshard Summary EngineAbi Feeder BuiltinEngine.

Local Open Scope Z_scope.

(** What gRPC promises about one stream, given what its two ends did and saw:
    the engine sees the end of the stream only after it received everything the
    host sent, in order; the host sees it only after the handler returned without
    an error and everything it sent was received, in order, on a stream that
    nobody cancelled. *)
Record connected {R} (host : feed_state R) (recvs : list (result event)) (items : list (option FeedItem))
    (err : go_error) (st : exec_state) : Prop := {
  co_up : errors_Is err io_EOF = true → items = Some <$> fs_sent host;
  co_down : ∀ evs e later, recvs = (Ok <$> evs) ++ Err e :: later → errors_Is e io_EOF = true →
    exec_finished st ∧ exec_result st = None ∧ xs_cancelled st = false ∧ evs = xs_down st
}.

Section External.
Context {R : Type} (Next : R → R * result CapturedRequest) (hostErr engineErr : go_error).

Lemma fold_results rs st : foldl (λ st ev, collect_event ev st) st (EvResult <$> rs) =
  CollectState (cs_report st) (cs_sawSummary st)
    (cs_sent (foldl (λ st ev, collect_event ev st) st (EvResult <$> rs)))
    (cs_failed (foldl (λ st ev, collect_event ev st) st (EvResult <$> rs))).
Proof.
  revert st. induction rs as [|r rs IH]; intros st; simpl; [by destruct st|].
  rewrite IH. destruct (rr_Error r); done.
Qed.

(** The report of a run is the engine's summary. *)
Lemma report_of_summary rs s :
  let st := foldl (λ st ev, collect_event ev st) collect_start ((EvResult <$> rs) ++ [EvSummary s]) in
  cs_sawSummary st = true ∧ rp_TotalRequests (cs_report st) = rs_TotalRequests s ∧
  rp_SentRequests (cs_report st) = rs_SentRequests s ∧ rp_FailedRequests (cs_report st) = rs_FailedRequests s.
Proof. rewrite foldl_app. by rewrite fold_results. Qed.

(** What one run through an engine does. *)
Lemma external_run cfg opened executed info rounds recvs r stream err host report e rc items end_ st :
  reads Next r stream err →
  Run Next hostErr cfg opened executed info rounds recvs r = Ret (Some (host, Ok report)) →
  be_cfg e = Some rc → rtc (exec_any engineErr) (exec_start e items end_) st →
  connected host recvs items end_ st → xs_draining st = false →
  feed_end err = true ∧
  capturedFromFeedItem <$> (xs_log st).*1 ≡ₚ without_length <$> feeder_slice cfg stream ∧
  fed cfg stream host ∧
  rp_TotalRequests report = int64 (len (feeder_slice cfg stream)) ∧
  rp_SentRequests report = int64 (len (List.filter sent_ok (xs_log st).*2)) ∧
  rp_FailedRequests report = int64 (len (List.filter (λ x, negb (sent_ok x)) (xs_log st).*2)).
Proof.
  intros Hr Hrun Hcfg Hst [Hup Hdown] Hdr. destruct (Run_ok _ _ _ _ _ _ _ _ _ _ _ Hrun) as [Hfeed Hcol].
  destruct (feed_sends Next hostErr cfg _ rounds r stream err host (Some None) Hr Hfeed)
    as (seen & rest & -> & Hfed & Hend & _).
  destruct (Hend eq_refl) as [-> He]. rewrite app_nil_r in *.
  destruct (collect_ok _ _ _ Hcol) as (evs & e' & later & Hrecvs & He' & _ & Hrep).
  destruct (Hdown _ _ _ Hrecvs He') as (Hfin & Hres & Hcan & ->).
  pose proof (exec_inv_reachable e rc items end_ engineErr Hcfg st Hst) as Hinv.
  destruct (finished_spec items end_ st Hinv Hfin Hres Hcan Hdr) as (Heof & Hlog & rs & s & Hdn & Hp & Ht & Hs & Hf).
  specialize (Hup Heof). rewrite Hdn in Hrep. destruct (report_of_summary rs s) as (_ & R1 & R2 & R3).
  rewrite <- Hrep in R1, R2, R3.
  assert (omap id items = fs_sent host) as Hit.
  { rewrite Hup. clear. induction (fs_sent host) as [|x l IH]; [done|]. simpl. by f_equal. }
  rewrite Hit, (fd_sent _ _ _ Hfed) in *.
  split; [done|]. split; [by rewrite Hlog, items_from_captured|]. split; [done|].
  assert (∀ f, len (List.filter f rs) = len (List.filter f (xs_log st).*2)) as Hfil.
  { intros f. unfold len. f_equal. by apply Permutation_length, filter_bool_perm. }
  rewrite R1, R2, R3, Ht, Hs, Hf, !Hfil. unfold len at 1. by rewrite items_from_length.
Qed.


(** ** All shards *)

Definition with_feeder_shard (cfg : FeederConfig) (index count : Z) : FeederConfig :=
  {| fc_Reader := fc_Reader cfg; fc_ReadOptions := fc_ReadOptions cfg; fc_ShardIndex := index; fc_ShardCount := count;
     fc_RateMode := fc_RateMode cfg; fc_RatePerSecond := fc_RatePerSecond cfg; fc_TimeScale := fc_TimeScale cfg |}.

(** The run of a shard whose engine ends in [st] returned a report. *)
Definition shard_reports (cfg : FeederConfig) (stream : list CapturedRequest) (st : exec_state) : Prop :=
  ∃ f opened executed info rounds recvs r err host report e rc items end_,
    NewFeeder cfg = Ok f ∧ reads Next r stream err ∧
    Run Next hostErr f opened executed info rounds recvs r = Ret (Some (host, Ok report)) ∧
    be_cfg e = Some rc ∧ rtc (exec_any engineErr) (exec_start e items end_) st ∧
    connected host recvs items end_ st ∧ xs_draining st = false.

Lemma feeder_owns cfg (index count : Z) f : 1 < count → in_int64 count →
  NewFeeder (with_feeder_shard cfg index count) = Ok f →
  ∀ req, feed_owns f req = (shardOf (cr_ID req) count =? index).
Proof.
  intros Hc Hin. unfold NewFeeder. cbn [fc_Reader fc_ShardCount fc_ShardIndex with_feeder_shard].
  destruct (fc_Reader cfg); [|done]. rewrite (proj2 (Z.ltb_lt 1 _)) by lia. cbn [negb andb].
  destruct ((index <? 0) || _) eqn:E; [done|]. zbool. intros [= <-] req. unfold feed_owns, ShardOwns.
  cbn [fc_ShardCount fc_ShardIndex]. unfold in_int64 in Hin. by rewrite (proj2 (Z.leb_gt _ _)), !uint64_id by lia.
Qed.

(** The external engines of a sharded replay together send every request of
    the capture exactly once, when the runs of all shards returned their reports:
    however their feeders were paced, their engines' workers interleaved and the
    target answered. *)
Theorem external_fleet_exactly_once cfg (count : nat) stream (finals : nat → exec_state) :
  (1 < count)%nat → in_int64 (Z.of_nat count) →
  (∀ i, (i < count)%nat →
    shard_reports (with_feeder_shard cfg (Z.of_nat i) (Z.of_nat count)) stream (finals i)) →
  concat ((λ i, capturedFromFeedItem <$> (xs_log (finals i)).*1) <$> seq 0 count) ≡ₚ without_length <$> stream.
Proof.
  intros Hcount Hin Hruns.
  assert (omap (transform []) stream = stream) as Hid.
  { clear. induction stream as [|q l IH]; [done|]. simpl. by f_equal. }
  rewrite <- Hid at 1. rewrite <- (shards_cover [] count stream) by lia. rewrite fmap_concat, <- list_fmap_compose.
  apply concat_perm. intros i Hi%elem_of_seq.
  destruct (Hruns i ltac:(lia)) as (f & op & ex & info & rounds & recvs & r & err & host & rep & e & rc & items & en & Hnew & Hr & Hrun & Hcfg & Hst & Hcon & Hdr).
  destruct (external_run _ _ _ _ _ _ _ _ _ _ _ _ _ _ _ _ Hr Hrun Hcfg Hst Hcon Hdr) as (_ & Hlog & _).
  cbn [compose]. rewrite Hlog. apply reflexive_eq. unfold feeder_slice.
  rewrite (List.filter_ext _ _ (feeder_owns cfg (Z.of_nat i) (Z.of_nat count) f ltac:(lia) Hin Hnew)).
  cbn [compose].
  clear. induction (List.filter _ stream) as [|q l IH]; [done|]. simpl. by f_equal.
Qed.
End External.

(** ** The engine's side always finishes *)


(** ** Where a run does less than it should *)

(** The receive loop alone takes what fits into the feed. *)
Lemma unread_feed err ctxErr l more : (length l <= 256)%nat →
  rtc (exec_step ctxErr) (exec_start builtin_New (Some <$> (l ++ more)) err)
    (set_recv RvRecv (Some <$> more) None (set_feed l (exec_start builtin_New [] err))).
Proof.
  revert more. induction l as [|x l IH] using rev_ind; intros more Hl; [apply rtc_refl|].
  rewrite length_app in Hl. simpl in Hl. rewrite <- app_assoc. etrans; [apply IH; lia|].
  eapply rtc_l; [by apply ex_recv|]. eapply rtc_l; [eapply ex_feed; [done|]|apply rtc_refl].
  unfold len, feedBuffer. simpl. lia.
Qed.

(** An engine whose [Execute] returns early, such as one that was not configured,
    leaves its feed unread: when the host sends more than the feed holds, the
    handler waits for its receive loop, which waits for room, and neither moves
    until the stream is cancelled. *)
Theorem early_return_hangs err ctxErr items : (256 < length items)%nat →
  ∃ st, rtc (exec_step ctxErr) (exec_start builtin_New (Some <$> items) err) st ∧
    xs_exec st = ExReturned (Some (FmtError "engine not configured" [])) ∧
    ¬ exec_finished st ∧ ∀ st', ¬ exec_step ctxErr st st'.
Proof.
  intros Hl. rewrite <- (take_drop 256 items). destruct (drop 256 items) as [|x more] eqn:E.
  { apply (f_equal length) in E. rewrite length_drop in E. simpl in E. lia. }
  assert (length (take 256 items) = 256%nat) as Htake by (rewrite length_take; lia).
  set (l := take 256 items) in *. clearbody l.
  exists (set_send SdDone [] None [] (set_recv (RvSend x) (Some <$> more) None (set_feed l (exec_start builtin_New [] err)))).
  split; [|split; [done|split; [by intros (? & _)|]]].
  - etrans; [apply unread_feed; lia|]. eapply rtc_l; [by apply ex_recv|].
    eapply rtc_l; [by eapply ex_send_end|]. apply rtc_refl.
  - intros st' Hstep. inversion Hstep; simplify_eq/=; try done.
    unfold len, feedBuffer in *. lia.
Qed.

(** ** Concrete runs *)

Definition demo_run_config : RunConfig :=
  {| rc_RunId := "run"; rc_Target := {| tg_Host := "target"; tg_Port := 80; tg_Tls := false |};
     rc_Concurrency := 1;
     rc_Rate := {| rh_Mode := "Unlimited"; rh_RequestsPerSecond := 0; rh_TimeScale := "1" |};
     rc_ShardIndex := 0; rc_ShardCount := 2; rc_EngineConfigJson := "" |}.

Definition demo_builtin : BuiltinEngine := fst (builtin_Configure demo_run_config None builtin_New).

Definition demo_feeder (index : Z) : FeederConfig :=
  {| fc_Reader := true; fc_ReadOptions := emptyOptions; fc_ShardIndex := index; fc_ShardCount := 2;
     fc_RateMode := RateModeUnlimited; fc_RatePerSecond := f64_zero; fc_TimeScale := f64_one |}.

Definition EOF : go_error := Sentinel "EOF".
Definition canceled : go_error := Sentinel "context canceled".
Definition demo_rounds : list round := replicate 3 {| rn_done := false; rn_interrupted := false; rn_send := None |}.

(** The engine's side of a run that is sent [item] and whose target answers it, up
    to the return of its worker. *)
Definition demo_worked (item : FeedItem) (id : string) : exec_state :=
  let s0 := exec_start demo_builtin [Some item] EOF in
  let s1 := after_recv s0 in
  let s2 := set_recv RvRecv (xs_items s1) (xs_recvErr s1) (set_feed (xs_feed s1 ++ [item]) s1) in
  let s3 := set_bworker 0 (BwItem item) (set_feed [] s2) in
  let s4 := after_recv (complete_send 0 item (Sent (demo_result id)) (take_item 0 item s3)) in
  let s5 := set_bworker 0 BwRange
    (set_exec (xs_exec s4) (xs_events s4 ++ [EvResult (result_of item (Sent (demo_result id)))]) s4) in
  set_bworker 0 BwExit s5.

Lemma demo_works item id : rtc (exec_any canceled) (exec_start demo_builtin [Some item] EOF) (demo_worked item id).
Proof.
  eapply rtc_l; [apply any_step, ex_recv; reflexivity|].
  eapply rtc_l; [apply any_step; eapply (ex_feed _ _ item); reflexivity|].
  eapply rtc_l; [apply any_step; eapply (ex_take _ _ 0%nat item []); reflexivity|].
  eapply rtc_l; [apply any_step; eapply (ex_item _ _ 0%nat item); reflexivity|].
  eapply rtc_l; [apply any_step; eapply (ex_sent _ _ 0%nat item (Sent (demo_result id))); reflexivity|].
  eapply rtc_l; [apply any_step, ex_recv; reflexivity|].
  eapply rtc_l; [apply any_step; eapply (ex_emit _ _ 0%nat); reflexivity|].
  eapply rtc_l; [apply any_step; eapply (ex_range_end _ _ 0%nat); reflexivity|].
  apply rtc_refl.
Qed.

(** From there, the summary is made and the events are sent. *)
Lemma events_out ctxErr st ev s elapsed : xs_exec st = ExWait → all_exited st → run_summary_of elapsed st = Ret s →
  xs_recv st = RvDone → xs_send st = SdRange → xs_sendErr st = None → xs_events st = ev → xs_down st = [] →
  (length ev <= 1)%nat →
  ∃ st', rtc (exec_any ctxErr) st st' ∧ exec_finished st' ∧ exec_result st' = xs_recvErr st ∧
    xs_down st' = ev ++ [EvSummary s] ∧ xs_log st' = xs_log st ∧
    xs_cancelled st' = xs_cancelled st ∧ xs_draining st' = xs_draining st.
Proof.
  intros H1 H2 H3 H4 H5 H6 H7 H8 H9. unfold exec_finished, exec_result.
  destruct st as [items end_ recv recvErr feed workers exec events send sendErr total sent failed lat codes can dr down log].
  cbn in H1, H2, H4, H5, H6, H7, H8. subst. destruct ev as [|ev [|]]; [| |simpl in H9; lia].
  - eexists. split.
    + eapply rtc_l; [apply any_step; by eapply ex_wait|]. eapply rtc_l; [apply any_step; by eapply ex_summary|].
      eapply rtc_l; [apply any_step; by eapply ex_next|]. eapply rtc_l; [apply any_step; by eapply ex_down|].
      eapply rtc_l; [apply any_step; by eapply ex_send_end|]. apply rtc_refl.
    + cbn. split_and!; eauto.
  - eexists. split.
    + eapply rtc_l; [apply any_step; by eapply ex_wait|]. eapply rtc_l; [apply any_step; by eapply ex_summary|].
      eapply rtc_l; [apply any_step; by eapply ex_next|]. eapply rtc_l; [apply any_step; by eapply ex_down|].
      eapply rtc_l; [apply any_step; by eapply ex_next|]. eapply rtc_l; [apply any_step; by eapply ex_down|].
      eapply rtc_l; [apply any_step; by eapply ex_send_end|]. apply rtc_refl.
    + cbn. split_and!; eauto.
Qed.

Lemma demo_exec item id : ∃ st s, rtc (exec_any canceled) (exec_start demo_builtin [Some item] EOF) st ∧
  exec_finished st ∧ exec_result st = None ∧ xs_cancelled st = false ∧ xs_draining st = false ∧
  xs_log st = [(item, result_of item (Sent (demo_result id)))] ∧
  xs_down st = [EvResult (result_of item (Sent (demo_result id))); EvSummary s].
Proof.
  destruct (fill_returns [5] (Build_RunSummary 1 1 0 (f64_div (f64_of_Z 1) (Seconds Second)) 0 0 0 0 (incr "200" ∅)))
    as [s Hs]; [by vm_compute|].
  destruct (events_out canceled (demo_worked item id) [EvResult (result_of item (Sent (demo_result id)))] s Second)
    as (st & H1 & H2 & H3 & H4 & H5 & H6 & H7); [try reflexivity..|].
  - by repeat constructor.
  - exact Hs.
  - exists st, s. split_and!; [etrans; [apply demo_works|exact H1]|done|..].
    + by rewrite H3.
    + by rewrite H6.
    + by rewrite H7.
    + by rewrite H5.
    + exact H4.
Qed.

(** A stream that ended delivered what was sent. *)
Lemma ended_prefix (a b : list event) e e' later : (Ok <$> a) ++ [Err e] = (Ok <$> b) ++ Err e' :: later → b = a.
Proof.
  revert b. induction a as [|x a IH]; intros [|y b] H; simplify_eq/=; [done|]. f_equal. by apply IH.
Qed.

Lemma demo_connected (host : feed_state (list CapturedRequest)) item st : fs_sent host = [item] →
  exec_finished st → exec_result st = None → xs_cancelled st = false →
  connected host ((Ok <$> xs_down st) ++ [Err EOF]) [Some item] EOF st.
Proof.
  intros Hs Hf Hr Hc. constructor; [by rewrite Hs|]. intros evs e later H _.
  apply ended_prefix in H. by split_and!.
Qed.

(** The feeder of a shard over the capture of [demo_stream]; shard 0 owns the first
    request, shard 1 the second. *)
Definition demo_item (req : CapturedRequest) : FeedItem := feedItemFromCaptured req (next_base zero_time req).

Definition demo_host (index : Z) : feed_state (list CapturedRequest) :=
  match feed list_Next canceled (demo_feeder index) true demo_rounds demo_stream with
  | Ret (host, _) => host | Panic => feed_start [] end.

Lemma demo_feed index : index = 0 ∨ index = 1 →
  feed list_Next canceled (demo_feeder index) true demo_rounds demo_stream = Ret (demo_host index, Some None).
Proof. intros [->| ->]; vm_compute; reflexivity. Qed.

Lemma demo_run index item id st s : index = 0 ∨ index = 1 →
  xs_down st = [EvResult (result_of item (Sent (demo_result id))); EvSummary s] →
  ∃ report, Run list_Next canceled (demo_feeder index) None None (Some builtin_Describe) demo_rounds
    ((Ok <$> xs_down st) ++ [Err EOF]) demo_stream = Ret (Some (demo_host index, Ok report)).
Proof.
  intros Hi Hd. eexists. unfold Run. change (negb (SelfPaced (Some builtin_Describe))) with true.
  rewrite (demo_feed index Hi), Hd. reflexivity.
Qed.



(** ** Draining in the middle of a run

    Replacing an engine's binary drains the process of the old one.  The rest of
    its feed is dropped and the run still reports success, with the requests that
    were dropped left out of the total. *)
Definition drained_state (item : FeedItem) : exec_state :=
  let s0 := exec_start demo_builtin [Some item] EOF in
  let s1 := after_recv s0 in
  let s2 := set_recv RvRecv (xs_items s1) (xs_recvErr s1) (set_feed (xs_feed s1 ++ [item]) s1) in
  let s3 := set_bworker 0 (BwItem item) (set_feed [] s2) in
  let s4 := set_flags (xs_cancelled s3) true s3 in
  set_bworker 0 BwExit (after_recv (take_item 0 item s4)).

Theorem drained_run_reports_success : ∃ st host report,
  rtc (exec_any canceled) (exec_start demo_builtin (Some <$> fs_sent host) EOF) st ∧
  exec_finished st ∧ exec_result st = None ∧
  Run list_Next canceled (demo_feeder 0) None None (Some builtin_Describe) demo_rounds
    ((Ok <$> xs_down st) ++ [Err EOF]) demo_stream = Ret (Some (host, Ok report)) ∧
  fs_fed host = 1 ∧ xs_log st = [] ∧ rp_TotalRequests report = 0 ∧ rp_FailedRequests report = 0.
Proof.
  set (item := demo_item (demo_request "a")).
  set (sum := Build_RunSummary 0 0 0 (f64_div (f64_of_Z 0) (Seconds Second)) 0 0 0 0 ∅).
  destruct (events_out canceled (drained_state item) [] sum Second) as (st & H1 & H2 & H3 & H4 & H5 & _);
    [try reflexivity..|].
  - by repeat constructor.
  - simpl. lia.
  - exists st, (demo_host 0). eexists. split; [|split; [done|split; [by rewrite H3|split; [|split; [|split]]]]].
    + change (Some <$> fs_sent (demo_host 0)) with [Some item].
      eapply rtc_l; [apply any_step, ex_recv; reflexivity|].
      eapply rtc_l; [apply any_step; eapply (ex_feed _ _ item); reflexivity|].
      eapply rtc_l; [apply any_step; eapply (ex_take _ _ 0%nat item []); reflexivity|].
      eapply rtc_l; [apply any_drain; reflexivity|].
      eapply rtc_l; [apply any_step; eapply (ex_item _ _ 0%nat item); reflexivity|].
      eapply rtc_l; [apply any_step, ex_recv; reflexivity|].
      eapply rtc_l; [apply any_step; eapply (ex_range_end _ _ 0%nat); reflexivity|]. exact H1.
    + unfold Run. change (negb (SelfPaced (Some builtin_Describe))) with true.
      rewrite (demo_feed 0 (or_introl eq_refl)), H4. reflexivity.
    + vm_compute. reflexivity.
    + by rewrite H5.
    + split; reflexivity.
Qed.
