(* ===== verification/FeedServer.v ===== *)
(** * The feed server ([internal/plugin/replay/feedserver.go])

    Captured requests over HTTP, for load generators that pull: a reading
    goroutine fills a bounded channel and any number of handlers empty it.  The
    goroutines are a step relation over their shared state; a handler is a
    request in progress or its reply.  The feed server reads a capture directly
    ([runFeedServer] of [cmd/replay-engine/main.go]) or, inside the k6 engine,
    the items of an engine's feed through [feedbridge.Reader]. *)

From S2P Require Import Prelude GoStd GoTime GoFlag GoFloat Storage Readers Shard Engine Preshard Summary ReplayMain EngineAbi Feeder.

Local Open Scope Z_scope.

(** ** Configuration *)

Record FeedServerConfig := {
  fsc_Reader : bool;
  fsc_ReadOpts : ReadOptions;
  fsc_RateMode : RateMode;
  fsc_TimeScale : float64;
  fsc_Addr : string;
  fsc_BufferSize : Z
}.

Record FeedServer := {
  fsv_readOpts : ReadOptions;
  fsv_rateMode : RateMode;
  fsv_timeScale : float64;
  fsv_addr : string;
  fsv_bufferSize : Z
}.

Definition NewFeedServer (cfg : FeedServerConfig) : result FeedServer :=
  if negb (fsc_Reader cfg) then Err (FmtError "reader is required" [])
  else Ok {|
    fsv_readOpts := fsc_ReadOpts cfg;
    fsv_rateMode := match fsc_RateMode cfg with RateModeConstant => RateModeUnlimited | m => m end;
    fsv_timeScale := if f64_leb (fsc_TimeScale cfg) f64_zero then f64_one else fsc_TimeScale cfg;
    fsv_addr := if bool_decide (fsc_Addr cfg = "") then ":6565" else fsc_Addr cfg;
    fsv_bufferSize := if fsc_BufferSize cfg <=? 0 then 1000 else fsc_BufferSize cfg |}.

(** The feed server of [runFeedServer]. *)
Definition feed_server_config {GP : GoParse} (cfg : config) : result FeedServerConfig :=
  match parseRateMode (cfg_rateMode cfg) with
  | Err e => Err e
  | Ok rateMode =>
      match buildReadOptions cfg with
      | Err e => Err e
      | Ok opts => Ok {| fsc_Reader := true; fsc_ReadOpts := opts; fsc_RateMode := rateMode;
                         fsc_TimeScale := cfg_timeScale cfg; fsc_Addr := cfg_addr cfg;
                         fsc_BufferSize := int64 (cfg_concurrency cfg * 100) |}
      end
  end.

(** [?n=] of a batch request. *)
Definition batch_size {GP : GoParse} (q : string) : Z :=
  let n := if bool_decide (q ≠ "") then match Atoi q with Ok parsed => parsed | Err _ => 100 end else 100 in
  let n := if n <=? 0 then 1 else n in
  if 1000 <? n then 1000 else n.

(** The delay before a request is offered, by the timestamp of the one before. *)
Definition feed_delay (s : FeedServer) (prev : Z) (req : CapturedRequest) : option Z :=
  match fsv_rateMode s with
  | RateModeOriginalTiming =>
      if negb (IsZero prev) && negb (IsZero (cr_Timestamp req)) then
        let delay := time_Sub (cr_Timestamp req) prev in
        if 0 <? delay then Some (f64_trunc (f64_mul (f64_of_Z delay) (fsv_timeScale s))) else None
      else None
  | _ => None
  end.

(** The bridge of the k6 engine: the items of a feed that the SDK closes. *)
Definition bridge_Next (feed : list FeedItem) : list FeedItem * result CapturedRequest :=
  match feed with
  | [] => ([], Err (Sentinel io_EOF))
  | item :: feed => (feed, Ok (capturedFromFeedItem item))
  end.

(** [err == ErrReaderDone]: the sentinel itself, not an error that wraps it. *)
Definition is_ErrReaderDone (err : go_error) : bool :=
  match err with Sentinel n => bool_decide (n = "reader: no more requests") | _ => false end.

(** ** The goroutines *)

Inductive feed_pc := FpTop | FpWait (req : CapturedRequest) | FpSend (req : CapturedRequest) | FpDone.

Definition StatusOK : Z := 200.
Definition StatusRequestTimeout : Z := 408.
Definition StatusGone : Z := 410.
Definition StatusInternalServerError : Z := 500.

(** A handler of [/next] or [/batch], or what it replied. *)
Inductive handler :=
  | HNext
  | HBatch (n : Z) (batch : list CapturedRequest)
  | HReply (status : Z) (body : list CapturedRequest).

Section Server.
Context {R : Type} (Next : R → R * result CapturedRequest) (s : FeedServer).

Record serve_state := ServeState {
  sv_reader : R;
  sv_pc : feed_pc;
  sv_prev : Z;
  sv_chan : list CapturedRequest;
  sv_readErr : option go_error;
  sv_stopped : bool;
  sv_handlers : list handler;
  sv_served : Z;
  sv_acked : Z;
  sv_given : list CapturedRequest
}.

(** [sv_stopped]: [Stop] was called or the context cancelled.  [sv_given] are the
    requests taken from the channel, in that order. *)

Definition serve_start (r : R) : serve_state := ServeState r FpTop zero_time [] None false [] 0 0 [].

Definition set_feed_pc (pc : feed_pc) (st : serve_state) : serve_state :=
  ServeState (sv_reader st) pc (sv_prev st) (sv_chan st) (sv_readErr st) (sv_stopped st) (sv_handlers st)
    (sv_served st) (sv_acked st) (sv_given st).

(** One pass of [readLoop] to its next blocking point. *)
Definition feed_read (st : serve_state) : serve_state :=
  match Next (sv_reader st) with
  | (r, Err err) =>
      ServeState r FpDone (sv_prev st) (sv_chan st)
        (if is_ErrReaderDone err then sv_readErr st else Some err) (sv_stopped st) (sv_handlers st)
        (sv_served st) (sv_acked st) (sv_given st)
  | (r, Ok req) =>
      ServeState r (match feed_delay s (sv_prev st) req with Some _ => FpWait req | None => FpSend req end)
        (cr_Timestamp req) (sv_chan st) (sv_readErr st) (sv_stopped st) (sv_handlers st) (sv_served st)
        (sv_acked st) (sv_given st)
  end.

(** A [Next] that a stop interrupts. *)
Definition interrupt_read (err : go_error) (st : serve_state) : serve_state :=
  ServeState (sv_reader st) FpDone (sv_prev st) (sv_chan st) (Some err) (sv_stopped st) (sv_handlers st)
    (sv_served st) (sv_acked st) (sv_given st).

Definition offer (req : CapturedRequest) (st : serve_state) : serve_state :=
  ServeState (sv_reader st) FpTop (sv_prev st) (sv_chan st ++ [req]) (sv_readErr st) (sv_stopped st) (sv_handlers st)
    (sv_served st) (sv_acked st) (sv_given st).

(** Handler [i] moves on, having served [n] requests. *)
Definition set_handler (i : nat) (h : handler) (n : Z) (st : serve_state) : serve_state :=
  ServeState (sv_reader st) (sv_pc st) (sv_prev st) (sv_chan st) (sv_readErr st) (sv_stopped st)
    (<[i := h]> (sv_handlers st)) (int64 (sv_served st + n)) (sv_acked st) (sv_given st).

Definition take_request (req : CapturedRequest) (chan : list CapturedRequest) (st : serve_state) : serve_state :=
  ServeState (sv_reader st) (sv_pc st) (sv_prev st) chan (sv_readErr st) (sv_stopped st) (sv_handlers st)
    (sv_served st) (sv_acked st) (sv_given st ++ [req]).

(** The reply when the channel is closed and empty. *)
Definition end_reply (st : serve_state) : handler :=
  HReply (match sv_readErr st with Some _ => StatusInternalServerError | None => StatusGone end) [].

Definition StatusBadRequest : Z := 400.

(** [handleAck] on the decoded body: the new state and the reply's status. *)
Definition handleAck (body : result Z) (st : serve_state) : serve_state * Z :=
  match body with
  | Err _ => (st, StatusBadRequest)
  | Ok count =>
      if count <? 0 then (st, StatusBadRequest)
      else (ServeState (sv_reader st) (sv_pc st) (sv_prev st) (sv_chan st) (sv_readErr st) (sv_stopped st)
              (sv_handlers st) (sv_served st) (int64 (sv_acked st + count)) (sv_given st), StatusOK)
  end.

(** The answer of [/status], [elapsed] after the start.  The reader is done before
    it closes the channel; the model does both in one step. *)
Record feedStatus := {
  fst_Served : Z;
  fst_Acked : Z;
  fst_BufferLen : Z;
  fst_BufferCap : Z;
  fst_Elapsed : Z;
  fst_CurrentRPS : float64;
  fst_ReaderDone : bool;
  fst_ReaderError : option go_error
}.

Definition handleStatus (elapsed : Z) (st : serve_state) : feedStatus :=
  {| fst_Served := sv_served st; fst_Acked := sv_acked st; fst_BufferLen := len (sv_chan st);
     fst_BufferCap := fsv_bufferSize s; fst_Elapsed := elapsed;
     fst_CurrentRPS := if 0 <? elapsed then f64_div (f64_of_Z (sv_served st)) (Seconds elapsed) else f64_zero;
     fst_ReaderDone := match sv_pc st with FpDone => true | _ => false end;
     fst_ReaderError := sv_readErr st |}.

Inductive serve_step (st : serve_state) : serve_state → Prop :=
  | sv_stop_top : sv_pc st = FpTop → sv_stopped st = true → serve_step st (set_feed_pc FpDone st)
  | sv_read : sv_pc st = FpTop → sv_stopped st = false → serve_step st (feed_read st)
  | sv_read_stopped err : sv_pc st = FpTop → sv_stopped st = true → serve_step st (interrupt_read err st)
  | sv_wait req : sv_pc st = FpWait req → serve_step st (set_feed_pc (FpSend req) st)
  | sv_stop_wait req : sv_pc st = FpWait req → sv_stopped st = true → serve_step st (set_feed_pc FpDone st)
  | sv_send req : sv_pc st = FpSend req → len (sv_chan st) < fsv_bufferSize s → serve_step st (offer req st)
  | sv_stop_send req : sv_pc st = FpSend req → sv_stopped st = true → serve_step st (set_feed_pc FpDone st)
  | sv_arrive h : h = HNext ∨ (∃ n, 1 <= n <= 1000 ∧ h = HBatch n []) →
      serve_step st (ServeState (sv_reader st) (sv_pc st) (sv_prev st) (sv_chan st) (sv_readErr st) (sv_stopped st)
        (sv_handlers st ++ [h]) (sv_served st) (sv_acked st) (sv_given st))
  | sv_next i req chan : sv_handlers st !! i = Some HNext → sv_chan st = req :: chan →
      serve_step st (set_handler i (HReply StatusOK [req]) 1 (take_request req chan st))
  | sv_next_end i : sv_handlers st !! i = Some HNext → sv_chan st = [] → sv_pc st = FpDone →
      serve_step st (set_handler i (end_reply st) 0 st)
  | sv_next_gone i : sv_handlers st !! i = Some HNext →
      serve_step st (set_handler i (HReply StatusRequestTimeout []) 0 st)
  | sv_batch i n batch req chan : sv_handlers st !! i = Some (HBatch n batch) → len batch < n → sv_chan st = req :: chan →
      serve_step st (set_handler i (HBatch n (batch ++ [req])) 0 (take_request req chan st))
  | sv_batch_reply i n batch : sv_handlers st !! i = Some (HBatch n batch) → batch ≠ [] →
      n <= len batch ∨ sv_chan st = [] →
      serve_step st (set_handler i (HReply StatusOK batch) (len batch) st)
  | sv_batch_end i n : sv_handlers st !! i = Some (HBatch n []) → sv_chan st = [] → sv_pc st = FpDone →
      serve_step st (set_handler i (end_reply st) 0 st)
  | sv_ack body : serve_step st (fst (handleAck body st))
  | sv_stop : serve_step st (ServeState (sv_reader st) (sv_pc st) (sv_prev st) (sv_chan st) (sv_readErr st) true
        (sv_handlers st) (sv_served st) (sv_acked st) (sv_given st)).

(** ** What is handed out *)

Definition handed (h : handler) : list CapturedRequest :=
  match h with HNext => [] | HBatch _ b | HReply _ b => b end.

Definition replied (h : handler) : Z := match h with HReply _ b => len b | _ => 0 end.

Definition feed_holds (pc : feed_pc) : list CapturedRequest := match pc with FpWait r | FpSend r => [r] | _ => [] end.

(** [seen] has been read, [rest] is still to be read; what was seen was handed out,
    is buffered, or was dropped by a stop. *)
Record serve_inv (stream : list CapturedRequest) (err : go_error) (st : serve_state)
    (seen rest dropped : list CapturedRequest) : Prop := {
  si_stream : stream = seen ++ rest;
  si_reader : sv_pc st = FpDone ∨ reads Next (sv_reader st) rest err;
  si_seen : seen = sv_given st ++ sv_chan st ++ feed_holds (sv_pc st) ++ dropped;
  si_dropped : sv_stopped st = false → dropped = [];
  si_done : sv_pc st = FpDone → sv_stopped st = true ∨
    (rest = [] ∧ sv_readErr st = if is_ErrReaderDone err then None else Some err);
  si_holds : sv_pc st ≠ FpDone → dropped = [] ∧ sv_readErr st = None;
  si_handed : sv_given st ≡ₚ concat (handed <$> sv_handlers st);
  si_order : Forall (λ h, handed h `sublist_of` sv_given st) (sv_handlers st);
  si_served : sv_served st = int64 (foldr Z.add 0 (replied <$> sv_handlers st));
  si_gone : ∀ i b, sv_handlers st !! i = Some (HReply StatusGone b) →
    sv_pc st = FpDone ∧ sv_chan st = [] ∧ sv_readErr st = None
}.
End Server.
Arguments serve_state : clear implicits.

Section ServerSpec.
Context {R : Type} (Next : R → R * result CapturedRequest) (s : FeedServer).
Context (stream : list CapturedRequest) (err : go_error).

Definition served_inv (st : serve_state R) : Prop := ∃ seen rest dropped, serve_inv Next stream err st seen rest dropped.

Lemma serve_inv_start r : reads Next r stream err → served_inv (serve_start r).
Proof. intros Hr. exists [], stream, []. constructor; simpl; try done. by right. Qed.

(** A handler that has nothing in hand and gets nothing. *)
Lemma handlers_insert hs (i : nat) h h' : hs !! i = Some h →
  (concat (handed <$> <[i := h']> hs) ++ handed h ≡ₚ concat (handed <$> hs) ++ handed h') ∧
  foldr Z.add 0 (replied <$> <[i := h']> hs) + replied h = foldr Z.add 0 (replied <$> hs) + replied h'.
Proof.
  revert i. induction hs as [|x hs IH]; intros [|i] Hi; simplify_eq/=.
  - split; [|lia]. rewrite <- !app_assoc. rewrite (Permutation_app_comm (concat _) (handed h)).
    rewrite (Permutation_app_comm (concat _) (handed h')). rewrite !app_assoc.
    by rewrite (Permutation_app_comm (handed h') (handed h)).
  - destruct (IH i Hi) as [Hp Hs]. split; [|lia]. by rewrite <- !app_assoc, Hp.
Qed.

Lemma order_insert g hs (i : nat) h' : Forall (λ h, handed h `sublist_of` g) hs → handed h' `sublist_of` g →
  Forall (λ h, handed h `sublist_of` g) (<[i := h']> hs).
Proof. intros. by apply Forall_insert. Qed.

Lemma gone_insert (hs : list handler) (i j : nat) h' b : (∀ b, h' ≠ HReply StatusGone b) →
  <[i := h']> hs !! j = Some (HReply StatusGone b) → hs !! j = Some (HReply StatusGone b).
Proof. intros Hh. rewrite list_lookup_insert_Some. intros [(_ & E & _)|[_ ?]]; [by destruct (Hh b)|done]. Qed.

(** A handler changes without a request changing hands. *)
Lemma serve_reply st i h h' n : served_inv st → sv_handlers st !! i = Some h → handed h' = handed h →
  n = replied h' - replied h →
  (∀ b, h' = HReply StatusGone b → sv_pc st = FpDone ∧ sv_chan st = [] ∧ sv_readErr st = None) →
  served_inv (set_handler i h' n st).
Proof.
  intros (seen & rest & dropped & Hinv) Hi Hh -> Hg. exists seen, rest, dropped.
  destruct Hinv as [H1 H2 H3 H4 H5 H6 H7 H8 H9 H10].
  destruct (handlers_insert _ i h h' Hi) as [Hp Hs]. rewrite Hh in Hp. apply Permutation_app_inv_r in Hp.
  constructor; simpl; try done.
  - by rewrite Hp.
  - apply order_insert; [done|]. rewrite Hh. by apply (Forall_lookup_1 _ _ i h H8).
  - rewrite H9, int64_add_l. f_equal. lia.
  - intros j b. rewrite list_lookup_insert_Some. intros [(_ & -> & _)|[_ Hj]]; [by apply (Hg b)|by apply (H10 j b)].
Qed.

(** A handler takes the next request. *)
Lemma serve_take st i h h' n req chan : served_inv st → sv_handlers st !! i = Some h → sv_chan st = req :: chan →
  handed h' = handed h ++ [req] → n = replied h' - replied h → (∀ b, h' ≠ HReply StatusGone b) →
  served_inv (set_handler i h' n (take_request req chan st)).
Proof.
  intros (seen & rest & dropped & Hinv) Hi Hch Hh -> Hg. exists seen, rest, dropped.
  destruct Hinv as [H1 H2 H3 H4 H5 H6 H7 H8 H9 H10].
  destruct (handlers_insert _ i h h' Hi) as [Hp Hs]. rewrite Hh in Hp.
  rewrite (Permutation_app_comm (handed h)), app_assoc in Hp. apply Permutation_app_inv_r in Hp.
  constructor; simpl; try done.
  - rewrite H3, Hch. by rewrite <- app_assoc.
  - by rewrite Hp, H7.
  - apply Forall_insert.
    + eapply Forall_impl; [exact H8|]. intros x Hx. by apply sublist_inserts_r.
    + rewrite Hh. apply sublist_app; [|done]. by apply (Forall_lookup_1 _ _ i h H8).
  - rewrite H9, int64_add_l. f_equal. lia.
  - intros j b Hj%gone_insert; [|done]. destruct (H10 j b Hj) as (_ & E & _). congruence.
Qed.

Lemma serve_step_inv st st' : served_inv st → serve_step Next s st st' → served_inv st'.
Proof.
  intros Hinv Hstep. destruct Hstep as [Hpc Hs|Hpc Hs|e Hpc Hs|req Hpc|req Hpc Hs|req Hpc Hcap|req Hpc Hs|h Hh
    |i req chan Hi Hch|i Hi Hch Hpc|i Hi|i n batch req chan Hi Hl Hch|i n batch Hi Hne Hl|i n Hi Hch Hpc|body|].
  all: pose proof Hinv as (seen & rest & dropped & [H1 H2 H3 H4 H5 H6 H7 H8 H9 H10]).
  - exists seen, rest, dropped. constructor; simpl; try done; try (by left).
    + by rewrite H3, Hpc.
    + intros i b Hi. destruct (H10 i b Hi) as (E & _). congruence.
  - unfold feed_read. destruct (Next (sv_reader st)) as [r a] eqn:Hn. destruct H2 as [E|Hr]; [congruence|].
    destruct H6 as [-> Hre]; [congruence|]. rewrite Hpc in H3. simpl in H3. rewrite app_nil_r in H3.
    pose proof (reads_inv Next _ _ _ _ _ Hr Hn) as Ha. destruct a as [req|e].
    + destruct Ha as (rest' & -> & Hr'). exists (seen ++ [req]), rest', [].
      constructor; simpl; try done; try (by right); try (by (destruct (feed_delay _ _ _))).
      * by rewrite <- app_assoc.
      * rewrite H3, <- app_assoc. by destruct (feed_delay _ _ _).
      * intros i b Hi. destruct (H10 i b Hi) as (E & _). congruence.
    + destruct Ha as [-> ->]. exists seen, [], []. constructor; simpl; try done; try (by left).
      * by rewrite app_nil_r.
      * intros _. right. split; [done|]. by rewrite Hre.
      * intros i b Hi. destruct (H10 i b Hi) as (E & _). congruence.
  - exists seen, rest, dropped. constructor; simpl; try done; try (by left).
    + by rewrite H3, Hpc.
    + intros i b Hi. destruct (H10 i b Hi) as (E & _). congruence.
  - exists seen, rest, dropped. constructor; simpl; try done.
    + right. destruct H2; [congruence|done].
    + by rewrite H3, Hpc.
    + intros _. apply H6. congruence.
    + intros i b Hi. destruct (H10 i b Hi) as (E & _). congruence.
  - destruct H6 as [-> Hre]; [congruence|]. exists seen, rest, [req]. constructor; simpl; try done; try (by left).
    + by rewrite H3, Hpc.
    + congruence.
    + intros i b Hi. destruct (H10 i b Hi) as (E & _). congruence.
  - exists seen, rest, dropped. constructor; simpl; try done.
    + right. destruct H2; [congruence|done].
    + rewrite H3, Hpc. simpl. by rewrite <- app_assoc.
    + intros _. apply H6. congruence.
    + intros i b Hi. destruct (H10 i b Hi) as (E & _). congruence.
  - destruct H6 as [-> Hre]; [congruence|]. exists seen, rest, [req]. constructor; simpl; try done; try (by left).
    + by rewrite H3, Hpc.
    + congruence.
    + intros i b Hi. destruct (H10 i b Hi) as (E & _). congruence.
  - assert (handed h = [] ∧ replied h = 0 ∧ ∀ b, h ≠ HReply StatusGone b) as (E1 & E2 & E3).
    { destruct Hh as [->|(n & _ & ->)]; done. }
    exists seen, rest, dropped. constructor; simpl; try done.
    + rewrite fmap_app, concat_app. simpl. by rewrite E1, !app_nil_r.
    + apply Forall_app_2; [done|]. constructor; [|done]. rewrite E1. apply sublist_nil_l.
    + rewrite H9, fmap_app, foldr_app. simpl. by rewrite E2.
    + intros i b. rewrite lookup_app_Some. intros [?|[_ Hl]]; [by apply (H10 i b)|].
      apply list_lookup_singleton_Some in Hl as [_ ->]. by destruct (E3 b).
  - by eapply (serve_take st i HNext (HReply StatusOK [req])).
  - eapply (serve_reply st i HNext); try done. intros b E. unfold end_reply in E. by destruct (sv_readErr st).
  - by eapply (serve_reply st i HNext).
  - by eapply (serve_take st i (HBatch n batch) (HBatch n (batch ++ [req]))).
  - by eapply (serve_reply st i (HBatch n batch)); [| | |simpl; lia|].
  - eapply (serve_reply st i (HBatch n [])); try done. intros b E. unfold end_reply in E. by destruct (sv_readErr st).
  - unfold handleAck. destruct body as [count|]; [|done].
    destruct (count <? 0); [done|]. exists seen, rest, dropped. by constructor.
  - exists seen, rest, dropped. constructor; simpl; try done. intros Hd. by left.
Qed.
End ServerSpec.

Section Theorems.
Context {R : Type} (Next : R → R * result CapturedRequest) (s : FeedServer).

Lemma served_reachable r stream err st : reads Next r stream err → rtc (serve_step Next s) (serve_start r) st →
  served_inv Next stream err st.
Proof.
  intros Hr. revert st. apply rtc_ind_r; [by apply serve_inv_start|].
  intros y z _ Hyz Hy. by eapply serve_step_inv.
Qed.

(** The buffer never exceeds its capacity, and the status never reports more. *)
Theorem feed_buffer_bounded r st elapsed : 0 <= fsv_bufferSize s → rtc (serve_step Next s) (serve_start r) st →
  fst_BufferLen (handleStatus s elapsed st) <= fst_BufferCap (handleStatus s elapsed st).
Proof.
  intros Hs. revert st. apply (rtc_ind_r (λ st, len (sv_chan st) <= fsv_bufferSize s)); [done|].
  intros y z _ Hyz Hy. destruct Hyz; simpl; try done; try lia.
  - unfold feed_read. by destruct (Next (sv_reader y)) as [? []].
  - rewrite len_snoc. lia.
  - match goal with H : sv_chan y = _ |- _ => rewrite H in Hy end. unfold len in *. simpl in Hy. lia.
  - match goal with H : sv_chan y = _ |- _ => rewrite H in Hy end. unfold len in *. simpl in Hy. lia.
  - unfold handleAck. destruct body as [c|]; [|done]. by destruct (c <? 0).
Qed.

(** C32: however many clients pull from a feed server and however their requests
    interleave with the reader, every captured request is handed out at most once,
    to one client, in the order of the capture, and the served counter is exact.
    The server answers that the replay is complete only when every request of the
    capture was handed out and the reader ended without an error, or after it was
    stopped. *)
Theorem feed_server_hands_out_once r stream err st :
  reads Next r stream err → rtc (serve_step Next s) (serve_start r) st →
  ∃ left, stream = sv_given st ++ left ∧
    sv_given st ≡ₚ concat (handed <$> sv_handlers st) ∧
    Forall (λ h, handed h `sublist_of` stream) (sv_handlers st) ∧
    sv_served st = int64 (foldr Z.add 0 (replied <$> sv_handlers st)) ∧
    ∀ i b, sv_handlers st !! i = Some (HReply StatusGone b) → sv_stopped st = false →
      left = [] ∧ is_ErrReaderDone err = true.
Proof.
  intros Hr Hst. destruct (served_reachable r stream err st Hr Hst)
    as (seen & rest & dropped & [-> _ -> H4 H5 _ H7 H8 H9 H10]).
  exists (sv_chan st ++ feed_holds (sv_pc st) ++ dropped ++ rest). split_and!; [by rewrite <- !app_assoc|done| |done|].
  - eapply Forall_impl; [exact H8|]. intros h Hh. rewrite <- !app_assoc. by apply sublist_inserts_r.
  - intros i b Hi Hs. destruct (H10 i b Hi) as (Hpc & Hch & Hre). destruct (H5 Hpc) as [?|[-> Hre']]; [congruence|].
    rewrite Hch, Hpc, (H4 Hs). split; [done|]. rewrite Hre in Hre'. by destruct (is_ErrReaderDone err).
Qed.
End Theorems.

(** The feed server of the k6 engine never says that the replay is complete: the
    bridge ends with [io.EOF], which [readLoop] takes for a failure, so that at the
    end of the feed every client is answered with an internal error. *)
Lemma bridge_reads feed : reads bridge_Next feed (capturedFromFeedItem <$> feed) (Sentinel io_EOF).
Proof. induction feed as [|item feed IH]; [by eapply reads_end|by eapply reads_cons]. Qed.

Theorem bridged_feed_never_gone s feed st i b :
  rtc (serve_step bridge_Next s) (serve_start feed) st → sv_stopped st = false →
  sv_handlers st !! i ≠ Some (HReply StatusGone b).
Proof.
  intros Hst Hs Hi. destruct (served_reachable bridge_Next s feed _ _ st (bridge_reads feed) Hst)
    as (seen & rest & dropped & [_ _ _ _ H5 _ _ _ _ H10]).
  destruct (H10 i b Hi) as (Hpc & _ & Hre). destruct (H5 Hpc) as [?|[_ Hre']]; [congruence|]. by rewrite Hre in Hre'.
Qed.

(** ** A concrete run *)

Definition demo_feed_server : FeedServer :=
  {| fsv_readOpts := emptyOptions; fsv_rateMode := RateModeUnlimited; fsv_timeScale := f64_one;
     fsv_addr := ":6565"; fsv_bufferSize := 1 |}.

(** Two clients get one request each, a third comes too late. *)
Lemma demo_serves : rtc (serve_step list_Next demo_feed_server) (serve_start demo_stream)
  (ServeState [] FpDone (cr_Timestamp (demo_request "b")) [] None false
    [HReply StatusOK [demo_request "a"]; HReply StatusOK [demo_request "b"]; HReply StatusGone []] 2 0
    [demo_request "a"; demo_request "b"]).
Proof.
  eapply rtc_l; [by apply sv_read|cbn]. eapply rtc_l; [by eapply sv_send|cbn].
  eapply rtc_l; [by apply (sv_arrive _ _ _ HNext); left|cbn].
  eapply rtc_l; [apply (sv_arrive _ _ _ (HBatch 10 [])); right; exists 10; split; [lia|done]|cbn].
  eapply rtc_l; [by eapply (sv_next _ _ _ 0%nat)|cbn].
  eapply rtc_l; [by apply sv_read|cbn]. eapply rtc_l; [by eapply sv_send|cbn].
  eapply rtc_l; [by eapply (sv_batch _ _ _ 1%nat)|cbn].
  eapply rtc_l; [eapply (sv_batch_reply _ _ _ 1%nat); [done|done|by right]|cbn].
  eapply rtc_l; [by apply sv_read|cbn].
  eapply rtc_l; [by apply (sv_arrive _ _ _ HNext); left|cbn].
  eapply rtc_l; [by eapply (sv_next_end _ _ _ 2%nat)|cbn].
  apply rtc_refl.
Qed.

Lemma feed_server_hands_out_once_witness : ∃ left, demo_stream = [demo_request "a"; demo_request "b"] ++ left ∧ left = [].
Proof.
  destruct (feed_server_hands_out_once list_Next demo_feed_server demo_stream demo_stream ErrReaderDone _
    (list_reads _) demo_serves) as (left & Heq & _ & _ & _ & Hgone).
  exists left. split; [exact Heq|]. by destruct (Hgone 2%nat [] eq_refl eq_refl).
Defined.
