(* ===== verification/EngineAdapters.v ===== *)
(** * The ghz and k6 engines ([internal/engines/ghz], [internal/engines/k6])

    The adapters around external load generators: their configuration, the
    command lines they build, what they make of the feed and of the reports.
    The tools themselves, JSON and the file system are parameters: a run of a
    tool is given by what it prints. *)

From S2P Require Import Prelude GoStd GoTime GoFlag GoFloat Storage Readers Shard Engine Preshard Summary ReplayMain EngineAbi Feeder.

Local Open Scope Z_scope.

(** ** ghz *)

Record ghz_Config := {
  gz_Binary : string;
  gz_Protoset : string;
  gz_Insecure : option bool;
  gz_Args : list string
}.

Definition ghz_Describe : DescribeResponse :=
  {| ds_Name := "ghz"; ds_Version := "adapter-v1"; ds_AbiVersions := [ABIVersion]; ds_Protocols := ["GRPC"];
     ds_Capabilities := [CapabilityAggregateResults; CapabilitySelfPaced] |}.

(** [Configure], with what [json.Unmarshal] makes of the engine configuration. *)
Definition ghz_Configure (unmarshal : string → result ghz_Config) (cfg : RunConfig) : result (RunConfig * ghz_Config) :=
  if bool_decide (tg_Host (rc_Target cfg) = "") then Err (FmtError "target host is required" [])
  else if bool_decide (rh_Mode (rc_Rate cfg) = "OriginalTiming")
  then Err (FmtError ("the ghz engine cannot reproduce recorded timing; use rate mode Constant or Unlimited, "
                      +:+ "or the builtin engine") [])
  else
    let finish c := Ok (cfg, {| gz_Binary := if bool_decide (gz_Binary c = "") then "ghz" else gz_Binary c;
                                gz_Protoset := gz_Protoset c; gz_Insecure := gz_Insecure c; gz_Args := gz_Args c |}) in
    if bool_decide (rc_EngineConfigJson cfg ≠ "")
    then match unmarshal (rc_EngineConfigJson cfg) with
         | Err e => Err (WrapError "parse ghz engine config: %w" [] e)
         | Ok c => finish c
         end
    else finish {| gz_Binary := ""; gz_Protoset := ""; gz_Insecure := None; gz_Args := [] |}.

(** The calls of a method: how many, and the first payload. *)
Record methodSample := { ms_count : Z; ms_body : string }.

Definition add_sample (samples : gmap string methodSample) (item : FeedItem) : gmap string methodSample :=
  let method := TrimPrefix (fi_Path item) "/" in
  match samples !! method with
  | None => <[method := {| ms_count := 1; ms_body := fi_Body item |}]> samples
  | Some s => <[method := {| ms_count := int64 (ms_count s + 1); ms_body := ms_body s |}]> samples
  end.

(** What ghz reports. *)
Record ghzReport := {
  gr_Count : Z;
  gr_Average : float64;
  gr_RPS : float64;
  gr_LatencyDistribution : list (Z * float64);
  gr_ErrorDistribution : gmap string Z
}.

Definition errorCount (r : ghzReport) : Z := int64 (foldr Z.add 0 (map_to_list (gr_ErrorDistribution r)).*2).

Definition nsToMs (ns : float64) : Z := f64_trunc (f64_div ns (f64_of_Z 1000000)).

Definition percentileMs (r : ghzReport) (p : Z) : Z :=
  match find (λ d, fst d =? p) (gr_LatencyDistribution r) with Some d => nsToMs (snd d) | None => 0 end.

Definition maxInt64 (a b : Z) : Z := if b <? a then a else b.

Definition targetPort (cfg : RunConfig) : Z :=
  if bool_decide (tg_Port (rc_Target cfg) ≠ 0) then tg_Port (rc_Target cfg) else 443.

Definition ghz_concurrency (cfg : RunConfig) : Z := if 0 <? rc_Concurrency cfg then rc_Concurrency cfg else 10.

Definition insecureTarget (cfg : RunConfig) (c : ghz_Config) : bool :=
  default (negb (tg_Tls (rc_Target cfg))) (gz_Insecure c).

(** The command line of one run. *)
Definition ghz_args (cfg : RunConfig) (c : ghz_Config) (dataPath method : string) (s : methodSample) (rps : Z) : list string :=
  ["--call"; method; "--total"; Itoa (ms_count s); "--concurrency"; Itoa (ghz_concurrency cfg);
   "--binary-file"; dataPath; "--format"; "json"]
  ++ (if 0 <? rps then ["--rps"; Itoa rps] else [])
  ++ (if bool_decide (gz_Protoset c ≠ "") then ["--protoset"; gz_Protoset c] else [])
  ++ (if insecureTarget cfg c then ["--insecure"] else [])
  ++ gz_Args c ++ [tg_Host (rc_Target cfg) +:+ ":" +:+ Itoa (targetPort cfg)].

(** The rate of a run, for the number of methods. *)
Definition rpsPerMethod (cfg : RunConfig) (methods : Z) : Z :=
  if bool_decide (rh_Mode (rc_Rate cfg) = "Constant") && (0 <? rh_RequestsPerSecond (rc_Rate cfg)) then
    let rps := Z.quot (rh_RequestsPerSecond (rc_Rate cfg)) (int32 methods) in
    if rps <? 1 then 1 else rps
  else 0.

Definition noSummary : RunSummary :=
  {| rs_TotalRequests := 0; rs_SentRequests := 0; rs_FailedRequests := 0; rs_AchievedRps := f64_zero;
     rs_MeanLatencyMs := 0; rs_P50LatencyMs := 0; rs_P95LatencyMs := 0; rs_P99LatencyMs := 0; rs_StatusCodes := ∅ |}.

Section Ghz.
(** [runMethod]: the index of the method, the method, its sample and the rate;
    [emits]: whether the i-th event was taken before the context ended. *)
Context (runMethod : nat → string → methodSample → Z → result ghzReport) (emits : nat → bool) (ctxErr : go_error).

(** The totals after one more report. *)
Definition add_report (total : RunSummary) (r : ghzReport) : RunSummary :=
  {| rs_TotalRequests := int64 (rs_TotalRequests total + gr_Count r);
     rs_SentRequests := int64 (rs_SentRequests total + (gr_Count r - errorCount r));
     rs_FailedRequests := int64 (rs_FailedRequests total + errorCount r);
     rs_AchievedRps := f64_add (rs_AchievedRps total) (gr_RPS r);
     rs_MeanLatencyMs := rs_MeanLatencyMs total;
     rs_P50LatencyMs := maxInt64 (rs_P50LatencyMs total) (percentileMs r 50);
     rs_P95LatencyMs := maxInt64 (rs_P95LatencyMs total) (percentileMs r 95);
     rs_P99LatencyMs := maxInt64 (rs_P99LatencyMs total) (percentileMs r 99);
     rs_StatusCodes := rs_StatusCodes total |}.

(** The second phase: the totals, the weighted latency, the events and the error. *)
Fixpoint run_methods (samples : gmap string methodSample) (rps : Z) (i : nat) (methods : list string)
    (total : RunSummary) (weighted : Z) (events : list event) : result (RunSummary * Z) * list event :=
  match methods with
  | [] => (Ok (total, weighted), events)
  | method :: methods =>
      match samples !! method with
      | None => (Err (FmtError "nil sample" []), events)
      | Some s =>
          match runMethod i method s rps with
          | Err err => (Err (WrapError "ghz run for %s: %w" [FStr method] err), events)
          | Ok report =>
              let total := add_report total report in
              let weighted := int64 (weighted + int64 (nsToMs (gr_Average report) * gr_Count report)) in
              if emits i
              then run_methods samples rps (S i) methods total weighted
                     (events ++ [EvProgress {| pg_Sent := rs_SentRequests total; pg_Failed := rs_FailedRequests total |}])
              else (Err ctxErr, events)
          end
      end
  end.

Definition with_mean (mean : Z) (s : RunSummary) : RunSummary :=
  {| rs_TotalRequests := rs_TotalRequests s; rs_SentRequests := rs_SentRequests s;
     rs_FailedRequests := rs_FailedRequests s; rs_AchievedRps := rs_AchievedRps s; rs_MeanLatencyMs := mean;
     rs_P50LatencyMs := rs_P50LatencyMs s; rs_P95LatencyMs := rs_P95LatencyMs s; rs_P99LatencyMs := rs_P99LatencyMs s;
     rs_StatusCodes := rs_StatusCodes s |}.

Definition emitSummary (i : nat) (s : RunSummary) (events : list event) : option go_error * list event :=
  if emits i then (None, events ++ [EvSummary s]) else (Some ctxErr, events).

(** [Execute] over a feed that ends, with the answer of [os.MkdirTemp]. *)
Definition ghz_Execute (cfg : option RunConfig) (mkdir : option go_error) (feed : list FeedItem)
    : option go_error * list event :=
  match cfg with
  | None => (Some (FmtError "engine not configured" []), [])
  | Some cfg =>
      let samples := foldl add_sample ∅ feed in
      if bool_decide (samples = ∅) then emitSummary 0 noSummary []
      else match mkdir with
      | Some err => (Some (WrapError "create work dir: %w" [] err), [])
      | None =>
          let methods := sort_Strings (map_to_list samples).*1 in
          match run_methods samples (rpsPerMethod cfg (map_len samples)) 0 methods noSummary 0 [] with
          | (Err err, events) => (Some err, events)
          | (Ok (total, weighted), events) =>
              let total := if 0 <? rs_TotalRequests total then with_mean (Z.quot weighted (rs_TotalRequests total)) total
                           else total in
              emitSummary (length methods) total events
          end
      end
  end.
End Ghz.

(** [runMethod]: writing the payload, running ghz and decoding its report. *)
Definition ghz_runMethod (write : nat → string → option go_error) (output : string → list string → result string)
    (decode : string → result ghzReport) (path : nat → string) (cfg : RunConfig) (c : ghz_Config)
    (idx : nat) (method : string) (s : methodSample) (rps : Z) : result ghzReport :=
  match write idx (ms_body s) with
  | Some err => Err (WrapError "write payload: %w" [] err)
  | None =>
      match output (gz_Binary c) (ghz_args cfg c (path idx) method s rps) with
      | Err err => Err (WrapError "ghz: %w" [] err)
      | Ok out =>
          match decode out with
          | Err err => Err (WrapError "parse ghz report: %w" [] err)
          | Ok report => Ok report
          end
      end
  end.

(** ** k6 *)

Record k6_Config := {
  k6_Binary : string;
  k6_Script : string;
  k6_VUs : Z;
  k6_BatchSize : Z;
  k6_Args : list string
}.

Definition k6_Describe : DescribeResponse :=
  {| ds_Name := "k6"; ds_Version := "adapter-v1"; ds_AbiVersions := [ABIVersion]; ds_Protocols := ["HTTP"];
     ds_Capabilities := [CapabilityAggregateResults] |}.

Definition k6_Configure (unmarshal : string → result k6_Config) (cfg : RunConfig) : result (RunConfig * k6_Config) :=
  if bool_decide (tg_Host (rc_Target cfg) = "") then Err (FmtError "target host is required" [])
  else
    let vus n := if n <=? 0 then (if rc_Concurrency cfg <=? 0 then 10 else rc_Concurrency cfg) else n in
    let finish c := Ok (cfg, {| k6_Binary := if bool_decide (k6_Binary c = "") then "k6" else k6_Binary c;
                                k6_Script := k6_Script c; k6_VUs := vus (k6_VUs c);
                                k6_BatchSize := k6_BatchSize c; k6_Args := k6_Args c |}) in
    if bool_decide (rc_EngineConfigJson cfg ≠ "")
    then match unmarshal (rc_EngineConfigJson cfg) with
         | Err e => Err (WrapError "parse k6 engine config: %w" [] e)
         | Ok c => finish c
         end
    else finish {| k6_Binary := ""; k6_Script := ""; k6_VUs := 0; k6_BatchSize := 0; k6_Args := [] |}.

Definition orDefault (v def : Z) : Z := if 0 <? v then v else def.

(** The command line and the environment of the k6 process. *)
Definition k6_args (c : k6_Config) (summaryPath scriptPath : string) : list string :=
  ["run"; "--vus"; Itoa (k6_VUs c); "--summary-export"; summaryPath;
   "--summary-trend-stats"; "avg,med,p(95),p(99)"] ++ k6_Args c ++ [scriptPath].

Definition k6_env (cfg : RunConfig) (c : k6_Config) (feedURL : string) : list (string * string) :=
  [("FEED_URL", feedURL); ("TARGET_URL", engine_url (rc_Target cfg)); ("VUS", Itoa (k6_VUs c));
   ("BATCH_SIZE", Itoa (orDefault (k6_BatchSize c) 10))].

(** The summary of an exported file; a missing metric value is zero. *)
Definition parseSummaryExport (read : result string) (decode : string → result (gmap string (gmap string float64)))
    (fedCount : Z) : result RunSummary :=
  match read with
  | Err e => Err e
  | Ok raw =>
      match decode raw with
      | Err e => Err (WrapError "decode summary export: %w" [] e)
      | Ok metrics =>
          let get (m : gmap string float64) k := default f64_zero (m !! k) in
          let '(count, rate) := match metrics !! "http_reqs" with
            | Some reqs => (f64_trunc (get reqs "count"), get reqs "rate") | None => (0, f64_zero) end in
          let '(sent, failed) := match metrics !! "http_req_failed" with
            | Some m => let failed := f64_trunc (get m "passes") in (if failed <=? count then int64 (count - failed) else count, failed)
            | None => (count, 0) end in
          let lat k := match metrics !! "http_req_duration" with Some m => f64_trunc (get m k) | None => 0 end in
          Ok {| rs_TotalRequests := fedCount; rs_SentRequests := sent; rs_FailedRequests := failed;
                rs_AchievedRps := rate; rs_MeanLatencyMs := lat "avg"; rs_P50LatencyMs := lat "med";
                rs_P95LatencyMs := lat "p(95)"; rs_P99LatencyMs := lat "p(99)"; rs_StatusCodes := ∅ |}
      end
  end.

(** What [Execute] returns once the k6 process ended with [runErr], and the
    summary it emits when the context lets it. *)
Definition k6_finish (runErr : option go_error) (summary : result RunSummary) (emitted : bool) (ctxErr : go_error)
    : option go_error * list event :=
  match summary with
  | Err parseErr =>
      (Some match runErr with
            | Some err => WrapError "k6 run failed: %w (and no summary export: %v)" [] err
            | None => WrapError "parse k6 summary: %w" [] parseErr
            end, [])
  | Ok s => if emitted then (None, [EvSummary s]) else (Some ctxErr, [])
  end.

(** ** What ghz replays *)

Definition item_method (item : FeedItem) : string := TrimPrefix (fi_Path item) "/".

Definition calls_of (m : string) (feed : list FeedItem) : list FeedItem :=
  List.filter (λ item, bool_decide (item_method item = m)) feed.

Lemma samples_spec feed m : foldl add_sample ∅ feed !! m =
  match calls_of m feed with
  | [] => None
  | first :: _ => Some {| ms_count := int64 (len (calls_of m feed)); ms_body := fi_Body first |}
  end.
Proof.
  induction feed as [|item feed IH] using rev_ind; [done|].
  rewrite foldl_app. simpl. unfold add_sample at 1. fold (item_method item).
  unfold calls_of in *. rewrite List.filter_app. simpl. case_bool_decide as Hm.
  - rewrite Hm, IH. destruct (List.filter _ feed) as [|first rest]; simpl; rewrite lookup_insert_eq; [done|].
    f_equal. f_equal. rewrite int64_add_l. f_equal. rewrite app_comm_cons. by rewrite len_snoc.
  - rewrite app_nil_r. destruct (foldl _ _ feed !! item_method item); by rewrite lookup_insert_ne.
Qed.

Lemma calls_partition ms feed : NoDup ms → (∀ item, item ∈ feed → item_method item ∈ ms) →
  concat ((λ m, calls_of m feed) <$> ms) ≡ₚ feed.
Proof.
  intros Hms. induction feed as [|item feed IH]; intros Hin.
  { clear. by induction ms. }
  assert (∀ ms, NoDup ms → concat ((λ m, calls_of m (item :: feed)) <$> ms) ≡ₚ
    (if bool_decide (item_method item ∈ ms) then [item] else []) ++ concat ((λ m, calls_of m feed) <$> ms)) as Hc.
  { clear. induction 1 as [|m ms Hm Hms IH]; [done|]. rewrite !fmap_cons. simpl. rewrite IH.
    unfold calls_of at 1. simpl. fold (calls_of m feed). destruct (decide (item_method item = m)) as [E|E].
    - rewrite (bool_decide_eq_true_2 (item_method item = m)) by done. subst m.
      rewrite (bool_decide_eq_false_2 (item_method item ∈ ms)) by done.
      by rewrite (bool_decide_eq_true_2 (item_method item ∈ _ :: ms)) by by left.
    - rewrite (bool_decide_eq_false_2 (item_method item = m)) by done. rewrite app_assoc, (Permutation_app_comm (calls_of m feed)), <- app_assoc.
      apply Permutation_app_tail. apply reflexive_eq.
      by rewrite (bool_decide_ext (item_method item ∈ ms) (item_method item ∈ m :: ms)) by set_solver. }
  rewrite Hc by done. rewrite bool_decide_eq_true_2 by (apply Hin; by left). simpl. f_equiv. apply IH. intros i Hi. apply Hin. by right.
Qed.

Section GhzSpec.
Context (runMethod : nat → string → methodSample → Z → result ghzReport) (emits : nat → bool) (ctxErr : go_error).

(** The runs of the second phase all succeeded with [reports]. *)
Lemma run_methods_spec samples rps i methods total weighted events total' weighted' events' :
  run_methods runMethod emits ctxErr samples rps i methods total weighted events = (Ok (total', weighted'), events') →
  ∃ reports, length reports = length methods ∧
    (∀ k m r, methods !! k = Some m → reports !! k = Some r →
      ∃ s, samples !! m = Some s ∧ runMethod (i + k)%nat m s rps = Ok r) ∧
    total' = foldl add_report total reports ∧
    ∃ more, events' = events ++ more ∧ length more = length methods.
Proof.
  revert i total weighted events. induction methods as [|m methods IH]; intros i total weighted events H; simpl in H.
  - simplify_eq. exists []. split_and!; [done..|by exists []; rewrite app_nil_r].
  - destruct (samples !! m) as [s|] eqn:Hs; [|done]. destruct (runMethod i m s rps) as [r|] eqn:Hr; [|done].
    destruct (emits i); [|done]. destruct (IH _ _ _ _ H) as (reports & Hl & Hall & -> & more & -> & Hm).
    exists (r :: reports). split_and!; [simpl; congruence| |done|].
    + intros [|k] m' r' Hm' Hr'; simplify_eq/=; [rewrite Nat.add_0_r; eauto|].
      destruct (Hall k m' r' Hm' Hr') as (s' & ? & ?). exists s'. by rewrite Nat.add_succ_r.
    + eexists. rewrite <- app_assoc. split; [reflexivity|]. simpl. by rewrite Hm.
Qed.

Lemma add_reports_total reports total : rs_TotalRequests total = int64 (rs_TotalRequests total) →
  rs_TotalRequests (foldl add_report total reports) = int64 (rs_TotalRequests total + foldr Z.add 0 (gr_Count <$> reports)).
Proof.
  revert total. induction reports as [|r reports IH]; intros total Ht; simpl; [by rewrite Z.add_0_r|].
  rewrite IH; [|simpl; by rewrite int64_idemp]. simpl. by rewrite int64_add_l, Z.add_assoc.
Qed.

(** A successful ghz run replays the shape of the feed: one run per method, in the
    order of their names, with the count of its calls and the payload of the first,
    and together these are the calls of the feed; the summary comes last and totals
    what ghz reported. *)
Theorem ghz_replays_shape cfg mkdir feed events : feed ≠ [] →
  ghz_Execute runMethod emits ctxErr (Some cfg) mkdir feed = (None, events) →
  ∃ methods reports s progress,
    StronglySorted String.le methods ∧ NoDup methods ∧ length reports = length methods ∧
    concat ((λ m, calls_of m feed) <$> methods) ≡ₚ feed ∧
    (∀ k m r, methods !! k = Some m → reports !! k = Some r →
      ∃ first rest, calls_of m feed = first :: rest ∧
        runMethod k m {| ms_count := int64 (len (calls_of m feed)); ms_body := fi_Body first |}
          (rpsPerMethod cfg (len methods)) = Ok r) ∧
    events = progress ++ [EvSummary s] ∧ length progress = length methods ∧
    rs_TotalRequests s = int64 (foldr Z.add 0 (gr_Count <$> reports)).
Proof.
  intros Hne. unfold ghz_Execute. set (samples := foldl add_sample ∅ feed).
  set (methods := sort_Strings (map_to_list samples).*1).
  assert (∀ m, m ∈ methods ↔ calls_of m feed ≠ []) as Hmem.
  { intros m. unfold methods. rewrite sort_Strings_perm, list_elem_of_fmap. split.
    - intros ([m' s] & -> & Hin%elem_of_map_to_list). simpl. intros E. unfold samples in Hin.
      by rewrite samples_spec, E in Hin.
    - intros Hc. destruct (calls_of m feed) as [|first rest] eqn:E; [done|]. eexists (m, _). split; [done|].
      apply elem_of_map_to_list. unfold samples. rewrite samples_spec, E. reflexivity. }
  assert (NoDup methods) as Hnd by (unfold methods; rewrite sort_Strings_perm; apply NoDup_fst_map_to_list).
  assert (concat ((λ m, calls_of m feed) <$> methods) ≡ₚ feed) as Hpart.
  { apply calls_partition; [done|]. intros item Hi. apply Hmem. intros E.
    assert (item ∈ calls_of (item_method item) feed) as Hin; [|rewrite E in Hin; by apply not_elem_of_nil in Hin].
    unfold calls_of. apply list_elem_of_In, filter_In. split; [by apply list_elem_of_In|by apply bool_decide_eq_true_2]. }
  assert (map_len samples = len methods) as Hlen.
  { unfold map_len, len, methods. by rewrite (Permutation_length (sort_Strings_perm _)), length_fmap, length_map_to_list. }
  rewrite Hlen. case_bool_decide as Hemp.
  { destruct methods as [|m ms] eqn:E; [by simpl in Hpart; apply Permutation_nil in Hpart|].
    by rewrite Hemp in Hlen. }
  destruct mkdir; [done|].
  destruct (run_methods _ _ _ _ _ _ _ _ _ _) as [[[total weighted]|err] evs] eqn:Hrun; [|done].
  destruct (run_methods_spec _ _ _ _ _ _ _ _ _ _ Hrun) as (reports & Hl & Hall & Htot & more & -> & Hmore).
  unfold emitSummary. destruct (emits (length methods)); [|done]. intros [= <-].
  exists methods, reports. eexists _, more. split_and!; [apply sort_Strings_sorted|done..| |reflexivity|done|].
  - intros k m r Hk Hr. destruct (Hall k m r Hk Hr) as (s & Hs & Hok). unfold samples in Hs. rewrite samples_spec in Hs.
    destruct (calls_of m feed) as [|first rest]; [done|]. simplify_eq. exists first, rest. split; [done|exact Hok].
  - assert (rs_TotalRequests total = int64 (foldr Z.add 0 (gr_Count <$> reports))) as <-.
    { by rewrite Htot, add_reports_total. }
    by destruct (0 <? rs_TotalRequests total).
Qed.
End GhzSpec.
