(* ===== verification/K6Run.v ===== *)
(** * A run of the k6 engine ([Execute] and [Drain] of [internal/engines/k6/k6.go])

    What [Execute] sets up before it starts k6, and the goroutines of a run as a
    step relation: the feed server k6 pulls from, the progress ticker and
    [Execute] itself, which waits for the process, reads its summary and returns;
    the SDK then closes the event channel ([pkg/replayengine/serve.go]).  The k6
    process, the file system and the clock are parameters. *)

From S2P Require Import Prelude GoStd GoTime GoFlag GoFloat Storage Readers Shard Engine Preshard Summary ReplayMain EngineAbi Feeder FeedServer EngineAdapters.

Local Open Scope Z_scope.

(** ** Before k6 starts *)

(** The feed server between the engine's feed and k6: the host has already paced
    the stream. *)
Definition k6_feed_config : FeedServerConfig :=
  {| fsc_Reader := true; fsc_ReadOpts := emptyOptions; fsc_RateMode := RateModeUnlimited;
     fsc_TimeScale := f64_zero; fsc_Addr := "127.0.0.1:0"; fsc_BufferSize := 0 |}.

Definition hostPort (addr : option string) : string := default "127.0.0.1:6565" addr.

(** The answers of the system: [os.MkdirTemp], the start of the feed server with
    the address it got, [os.WriteFile] on the script and the start of the command. *)
Record k6_system := {
  k6s_workDir : result string;
  k6s_listen : result (option string);
  k6s_write : string → option go_error;
  k6s_start : string → list string → list (string * string) → option go_error
}.

(** [Execute] until k6 runs: the feed server, the script and the summary's path. *)
Definition k6_launch (sys : k6_system) (engine : option (RunConfig * k6_Config))
    : result (FeedServer * string * string) :=
  match engine with
  | None => Err (FmtError "engine not configured" [])
  | Some (cfg, c) =>
      match k6s_workDir sys with
      | Err err => Err (WrapError "create work dir: %w" [] err)
      | Ok workDir =>
          match NewFeedServer k6_feed_config with
          | Err err => Err (WrapError "create feed bridge: %w" [] err)
          | Ok feedServer =>
              match k6s_listen sys with
              | Err err => Err (WrapError "start feed bridge: %w" [] err)
              | Ok addr =>
                  let feedURL := "http://" +:+ hostPort addr in
                  let scriptPath := if bool_decide (k6_Script c = "") then path_Join [workDir; "replay.js"] else k6_Script c in
                  match (if bool_decide (k6_Script c = "") then k6s_write sys scriptPath else None) with
                  | Some err => Err (WrapError "write k6 script: %w" [] err)
                  | None =>
                      let summaryPath := path_Join [workDir; "summary.json"] in
                      match k6s_start sys (k6_Binary c) (k6_args c summaryPath scriptPath) (k6_env cfg c feedURL) with
                      | Some err => Err (WrapError "start k6: %w" [] err)
                      | None => Ok (feedServer, scriptPath, summaryPath)
                      end
                  end
              end
          end
      end
  end.

(** k6 is started with the script that was configured, or else with the one just
    written; it pulls from a feed server that does not pace. *)
Lemma k6_launch_ok sys engine fs script summary : k6_launch sys engine = Ok (fs, script, summary) →
  ∃ cfg c workDir addr, engine = Some (cfg, c) ∧ k6s_workDir sys = Ok workDir ∧ k6s_listen sys = Ok addr ∧
    fsv_rateMode fs = RateModeUnlimited ∧ fsv_bufferSize fs = 1000 ∧
    (if bool_decide (k6_Script c = "") then k6s_write sys script = None else script = k6_Script c) ∧
    k6s_start sys (k6_Binary c) (k6_args c summary script) (k6_env cfg c ("http://" +:+ hostPort addr)) = None.
Proof.
  unfold k6_launch. destruct engine as [[cfg c]|]; [|done]. destruct (k6s_workDir sys) as [workDir|]; [|done].
  cbn [NewFeedServer k6_feed_config negb fsc_Reader]. destruct (k6s_listen sys) as [addr|]; [|done].
  intros H. exists cfg, c, workDir, addr. revert H. case_bool_decide as Hs.
  - destruct (k6s_write sys _) eqn:Hw; [done|]. destruct (k6s_start sys _ _ _) eqn:Hst; [done|].
    intros H. by simplify_eq/=.
  - destruct (k6s_start sys _ _ _) eqn:Hst; [done|]. intros H. by simplify_eq/=.
Qed.

(** ** While k6 runs *)

(** The ticker waits for a tick, holds a progress event, or has returned. *)
Inductive ticker_pc := TkSelect | TkSend (sent : Z) | TkDone.

(** [Execute] waits for the process, holds the summary, or has returned. *)
Inductive k6_pc := ExWait | ExSummary (s : RunSummary) | ExReturned (err : option go_error).

Section Run.
(** [s] is the feed server, [decode] reads an exported summary. *)
Context (s : FeedServer) (decode : string → result (gmap string (gmap string float64))) (ctxErr : go_error).

(** [kr_ctxDone] and [kr_runDone]: the call's context and the context of the
    process have ended. *)
Record k6_state := K6State {
  kr_serve : serve_state (list FeedItem);
  kr_ticker : ticker_pc;
  kr_exec : k6_pc;
  kr_ctxDone : bool;
  kr_runDone : bool;
  kr_progressDone : bool;
  kr_closed : bool;
  kr_events : list event;
  kr_panicked : bool
}.

Definition k6_start (feed : list FeedItem) : k6_state :=
  K6State (serve_start feed) TkSelect ExWait false false false false [] false.

Definition progress_of (sent : Z) : event := EvProgress {| pg_Sent := sent; pg_Failed := 0 |}.

(** The end of the process: [progressDone] is closed, the summary is read with the
    requests served so far; [Execute] returns when there is none. *)
Definition k6_exit (runErr : option go_error) (read : result string) (st : k6_state) : k6_state :=
  match parseSummaryExport read decode (sv_served (kr_serve st)) with
  | Err parseErr =>
      K6State (kr_serve st) (kr_ticker st) (ExReturned (fst (k6_finish runErr (Err parseErr) true ctxErr)))
        (kr_ctxDone st) true true (kr_closed st) (kr_events st) (kr_panicked st)
  | Ok summary =>
      K6State (kr_serve st) (kr_ticker st) (ExSummary summary) (kr_ctxDone st) (kr_runDone st) true (kr_closed st)
        (kr_events st) (kr_panicked st)
  end.

(** The last select of [Execute], and its deferred cancellation. *)
Definition k6_return (runErr : option go_error) (summary : RunSummary) (emitted : bool) (st : k6_state) : k6_state :=
  let '(err, events) := k6_finish runErr (Ok summary) emitted ctxErr in
  K6State (kr_serve st) (kr_ticker st) (ExReturned err) (kr_ctxDone st) true (kr_progressDone st) (kr_closed st)
    (kr_events st ++ events) (kr_panicked st).

Definition set_ticker (t : ticker_pc) (st : k6_state) : k6_state :=
  K6State (kr_serve st) t (kr_exec st) (kr_ctxDone st) (kr_runDone st) (kr_progressDone st) (kr_closed st)
    (kr_events st) (kr_panicked st).

(** A select with more than one case ready takes any of them; a send on the closed
    channel counts as ready, and panics. *)
Inductive k6_step (st : k6_state) : k6_state → Prop :=
  | k6_feed serve' : serve_step bridge_Next s (kr_serve st) serve' →
      k6_step st (K6State serve' (kr_ticker st) (kr_exec st) (kr_ctxDone st) (kr_runDone st) (kr_progressDone st)
        (kr_closed st) (kr_events st) (kr_panicked st))
  | k6_tick : kr_ticker st = TkSelect → k6_step st (set_ticker (TkSend (sv_served (kr_serve st))) st)
  | k6_tick_stop : kr_ticker st = TkSelect → kr_progressDone st = true → k6_step st (set_ticker TkDone st)
  | k6_tick_cancelled n : kr_ticker st = TkSend n → kr_runDone st = true → k6_step st (set_ticker TkDone st)
  | k6_tick_send n : kr_ticker st = TkSend n → kr_closed st = false →
      k6_step st (K6State (kr_serve st) TkSelect (kr_exec st) (kr_ctxDone st) (kr_runDone st) (kr_progressDone st)
        (kr_closed st) (kr_events st ++ [progress_of n]) (kr_panicked st))
  | k6_tick_panic n : kr_ticker st = TkSend n → kr_closed st = true →
      k6_step st (K6State (kr_serve st) (kr_ticker st) (kr_exec st) (kr_ctxDone st) (kr_runDone st) (kr_progressDone st)
        (kr_closed st) (kr_events st) true)
  | k6_process runErr read : kr_exec st = ExWait → k6_step st (k6_exit runErr read st)
  | k6_emit runErr summary : kr_exec st = ExSummary summary → k6_step st (k6_return runErr summary true st)
  | k6_give_up runErr summary : kr_exec st = ExSummary summary → kr_ctxDone st = true →
      k6_step st (k6_return runErr summary false st)
  | k6_cancel : k6_step st (K6State (kr_serve st) (kr_ticker st) (kr_exec st) true true (kr_progressDone st)
        (kr_closed st) (kr_events st) (kr_panicked st))
  | k6_Drain : k6_step st (K6State (kr_serve st) (kr_ticker st) (kr_exec st) (kr_ctxDone st) true (kr_progressDone st)
        (kr_closed st) (kr_events st) (kr_panicked st))
  | k6_close err : kr_exec st = ExReturned err →
      k6_step st (K6State (kr_serve st) (kr_ticker st) (kr_exec st) (kr_ctxDone st) (kr_runDone st) (kr_progressDone st)
        true (kr_events st) (kr_panicked st)).
End Run.

(** ** What a run reports *)

Definition progress_count (ev : event) : option Z := match ev with EvProgress p => Some (pg_Sent p) | _ => None end.

Definition progress_counts (events : list event) : list Z := omap progress_count events.

Definition is_progress (ev : event) : Prop := match ev with EvProgress _ => True | _ => False end.

Definition pending (t : ticker_pc) : list Z := match t with TkSend n => [n] | _ => [] end.

(** The counts a client of the feed server can see only grow. *)
Lemma replied_le hs : 0 <= foldr Z.add 0 (replied <$> hs) <= len (concat (handed <$> hs)).
Proof.
  induction hs as [|h hs IH]; [done|]. rewrite !fmap_cons. simpl. rewrite len_app.
  pose proof (len_nonneg (handed h)). destruct h as [|n b|st b]; simpl in *; lia.
Qed.

Section Served.
Context {R : Type} (Next : R → R * result CapturedRequest) (s : FeedServer).
Context (stream : list CapturedRequest) (err : go_error) (Hlen : len stream < 2 ^ 63).

Lemma served_exact st : served_inv Next stream err st →
  sv_served st = foldr Z.add 0 (replied <$> sv_handlers st) ∧ 0 <= sv_served st <= len stream.
Proof.
  intros (seen & rest & dropped & [-> _ -> _ _ _ H7 _ -> _]).
  pose proof (replied_le (sv_handlers st)) as Hb.
  assert (len (concat (handed <$> sv_handlers st)) = len (sv_given st)) as E by (unfold len; by rewrite H7).
  rewrite E in Hb. rewrite !len_app in *. pose proof (len_nonneg (sv_chan st)).
  pose proof (len_nonneg (feed_holds (sv_pc st))). pose proof (len_nonneg dropped). pose proof (len_nonneg rest).
  rewrite int64_id by (unfold in_int64; lia). lia.
Qed.

Lemma replied_insert hs (i : nat) h h' : hs !! i = Some h → replied h = 0 →
  foldr Z.add 0 (replied <$> hs) <= foldr Z.add 0 (replied <$> <[i := h']> hs).
Proof.
  intros Hi Hh. destruct (handlers_insert hs i h h' Hi) as [_ Hs]. rewrite Hh in Hs.
  enough (0 <= replied h') by lia. destruct h'; simpl; try done. apply len_nonneg.
Qed.

Lemma served_grows st st' : served_inv Next stream err st → serve_step Next s st st' → sv_served st <= sv_served st'.
Proof.
  intros Hinv Hstep. destruct (served_exact _ Hinv) as [-> _].
  destruct (served_exact _ (serve_step_inv Next s stream err _ _ Hinv Hstep)) as [-> _]. clear Hinv.
  destruct Hstep; simpl; try done; try (by eapply replied_insert).
  - unfold feed_read. by destruct (Next (sv_reader st)) as [? []].
  - rewrite fmap_app, foldr_app. simpl. destruct H as [->|(n & _ & ->)]; done.
  - unfold handleAck. destruct body as [c|]; [|done]. by destruct (c <? 0).
Qed.
End Served.

Lemma parseSummaryExport_total read decode n summary :
  parseSummaryExport read decode n = Ok summary → rs_TotalRequests summary = n.
Proof.
  unfold parseSummaryExport. destruct read as [raw|]; [|done]. destruct (decode raw) as [metrics|]; [|done].
  destruct (metrics !! "http_reqs"), (metrics !! "http_req_failed"); by intros [= <-].
Qed.

Lemma collect_progress events st : Forall is_progress events →
  cs_sawSummary (foldl (λ st ev, collect_event ev st) st events) = cs_sawSummary st ∧
  cs_report (foldl (λ st ev, collect_event ev st) st events) = cs_report st.
Proof.
  intros Hp. revert st. induction Hp as [|ev events Hev _ IH]; intros st; [done|]. simpl.
  destruct ev as [|p|]; try done. by destruct (IH (collect_event (EvProgress p) st)) as [-> ->].
Qed.

Section RunSpec.
Context (s : FeedServer) (decode : string → result (gmap string (gmap string float64))) (ctxErr : go_error).
Context (feed : list FeedItem) (Hlen : len feed < 2 ^ 63).

Local Notation stream := (capturedFromFeedItem <$> feed).
Local Notation steps := (rtc (k6_step s decode ctxErr) (k6_start feed)).

Lemma stream_len : len stream < 2 ^ 63.
Proof. unfold len. by rewrite length_fmap. Qed.

(** The events of a run, by how far [Execute] is. *)
Definition events_ok (ex : k6_pc) (served : Z) (events : list event) : Prop :=
  match ex with
  | ExReturned None => ∃ before summary after, events = before ++ EvSummary summary :: after ∧
      Forall is_progress before ∧ Forall is_progress after ∧ 0 <= rs_TotalRequests summary <= served
  | ExSummary summary => Forall is_progress events ∧ 0 <= rs_TotalRequests summary <= served
  | _ => Forall is_progress events
  end.

Record k6_inv (st : k6_state) : Prop := {
  ki_serve : served_inv bridge_Next stream (Sentinel io_EOF) (kr_serve st);
  ki_sorted : StronglySorted Z.le (progress_counts (kr_events st) ++ pending (kr_ticker st));
  ki_bounds : Forall (λ n, 0 <= n <= sv_served (kr_serve st)) (progress_counts (kr_events st) ++ pending (kr_ticker st));
  ki_events : events_ok (kr_exec st) (sv_served (kr_serve st)) (kr_events st);
  ki_closed : kr_closed st = true → ∃ err, kr_exec st = ExReturned err
}.

Lemma events_ok_grow ex n n' events : n <= n' → events_ok ex n events → events_ok ex n' events.
Proof.
  intros Hn. destruct ex as [|summary|[]]; simpl; [done|intros [? ?]; split; [done|lia]|done|].
  intros (before & summary & after & -> & ? & ? & ?). exists before, summary, after. split_and!; [done..|lia|lia].
Qed.

Lemma events_ok_progress ex n events p : events_ok ex n events → events_ok ex n (events ++ [EvProgress p]).
Proof.
  assert (Forall is_progress [EvProgress p]) as Hp by by constructor.
  destruct ex as [|summary|[]]; simpl; try (intros; by apply Forall_app).
  - intros [? ?]. split; [by apply Forall_app|done].
  - intros (before & summary & after & -> & ? & ? & ?). exists before, summary, (after ++ [EvProgress p]).
    split_and!; [by rewrite <- app_assoc|done|by apply Forall_app|lia|lia].
Qed.

Lemma progress_counts_snoc events ev :
  progress_counts (events ++ [ev]) = progress_counts events ++ option_list (progress_count ev).
Proof. unfold progress_counts. rewrite omap_app. simpl. by destruct (progress_count ev). Qed.

Lemma k6_inv_drop_pending st : k6_inv st → k6_inv (set_ticker TkDone st).
Proof.
  intros [H1 H2 H3 H4 H5]. constructor; simpl; try done; rewrite app_nil_r.
  - by eapply StronglySorted_app_1_l.
  - by apply Forall_app in H3 as [? _].
Qed.

Lemma k6_step_inv st st' : k6_inv st → k6_step s decode ctxErr st st' → k6_inv st'.
Proof.
  intros Hinv Hstep. pose proof Hinv as [H1 H2 H3 H4 H5].
  destruct (served_exact bridge_Next stream _ stream_len _ H1) as [_ Hb].
  destruct Hstep as [serve' Hs|Ht|Ht Hd|n Ht Hd|n Ht Hc|n Ht Hc|runErr read Hx|runErr summary Hx|runErr summary Hx Hc| | |err Hx].
  - pose proof (served_grows bridge_Next s stream _ stream_len _ _ H1 Hs) as Hg.
    constructor; simpl; [by eapply serve_step_inv|done| |by eapply events_ok_grow|done].
    eapply Forall_impl; [exact H3|]. simpl. lia.
  - rewrite Ht, app_nil_r in *. constructor; simpl; try done.
    + apply StronglySorted_app_2; [|done|by repeat constructor]. intros x y Hx Hy. apply list_elem_of_singleton in Hy as ->.
      rewrite Forall_forall in H3. by apply H3.
    + apply Forall_app. split; [done|]. constructor; [lia|done].
  - by apply k6_inv_drop_pending.
  - by apply k6_inv_drop_pending.
  - rewrite Ht in *. constructor; simpl; try done; rewrite ?progress_counts_snoc, ?app_nil_r; try done.
    by apply events_ok_progress.
  - by constructor.
  - unfold k6_exit. destruct (parseSummaryExport _ _ _) as [summary|parseErr] eqn:Hp; rewrite Hx in H4.
    + constructor; simpl; try done; [|by intros [err ?]%H5; congruence].
      rewrite (parseSummaryExport_total _ _ _ _ Hp). split; [done|lia].
    + constructor; simpl; try done. intros _. by eexists.
  - rewrite Hx in H4. destruct H4 as [Hp Hn]. constructor; simpl; rewrite ?progress_counts_snoc, ?app_nil_r; try done.
    + exists (kr_events st), summary, []. split_and!; [done|done|constructor|lia|lia].
    + intros _. by eexists.
  - rewrite Hx in H4. destruct H4 as [Hp Hn]. constructor; simpl; rewrite ?app_nil_r; try done. intros _. by eexists.
  - by constructor.
  - by constructor.
  - constructor; simpl; try done. intros _. by eexists.
Qed.

Lemma k6_reachable st : steps st → k6_inv st.
Proof.
  revert st. apply rtc_ind_r; [|by eauto using k6_step_inv].
  constructor; simpl; try done; [|constructor]. apply serve_inv_start. apply bridge_reads.
Qed.

(** However k6, the ticker and the host interleave: the progress counts a run sends
    never decrease, nothing is reported that was not in the feed, and [Execute]
    succeeds only after exactly one summary, which a late progress may follow.  The
    report the host makes of such a run carries the summary's totals. *)
Theorem k6_run_reports st err : steps st → errors_Is err io_EOF = true →
  StronglySorted Z.le (progress_counts (kr_events st)) ∧
  Forall (λ n, 0 <= n <= len feed) (progress_counts (kr_events st)) ∧
  (kr_exec st = ExReturned None → ∃ summary report, EvSummary summary ∈ kr_events st ∧
    collect ((Ok <$> kr_events st) ++ [Err err]) = Some (Ok report) ∧
    rp_TotalRequests report = rs_TotalRequests summary ∧ rp_SentRequests report = rs_SentRequests summary ∧
    rp_FailedRequests report = rs_FailedRequests summary ∧ 0 <= rp_TotalRequests report <= len feed).
Proof.
  intros Hst He. destruct (k6_reachable st Hst) as [H1 H2 H3 H4 _].
  destruct (served_exact bridge_Next stream _ stream_len _ H1) as [_ Hb].
  assert (len stream = len feed) as Hl by (unfold len; by rewrite length_fmap). rewrite Hl in Hb.
  apply StronglySorted_app_1_l in H2. apply Forall_app in H3 as [H3 _]. split_and!; [done| |].
  { eapply Forall_impl; [exact H3|]. simpl. lia. }
  intros Hx. rewrite Hx in H4. destruct H4 as (before & summary & after & -> & Hpre & Hpost & Hn).
  unfold collect. rewrite collect_spec by done. rewrite foldl_app. cbn [foldl]. set (st0 := foldl _ collect_start before).
  destruct (collect_progress after (collect_event (EvSummary summary) st0) Hpost) as [-> ->].
  eexists summary, _. split_and!; try reflexivity; simpl; [|lia|lia].
  apply elem_of_app. right. left.
Qed.
End RunSpec.

(** ** Concrete runs *)

(** An empty summary: k6 made no request. *)
Definition demo_decode (_ : string) : result (gmap string (gmap string float64)) := Ok ∅.

(** A tick that fires while the process ends: the ticker takes it although
    [progressDone] is closed, and comes to its send after [Execute] returned and the
    SDK closed the events.  The context of the process has ended too, but the select
    may take the send, on a closed channel. *)
Theorem k6_late_tick_panics s ctxErr feed :
  ∃ st, rtc (k6_step s demo_decode ctxErr) (k6_start feed) st ∧ kr_panicked st = true.
Proof.
  eexists. split; [|shelve].
  eapply rtc_l; [by apply (k6_process _ _ _ _ None (Ok "{}"))|cbn].
  eapply rtc_l; [by eapply (k6_emit _ _ _ _ None)|cbn].
  eapply rtc_l; [by eapply k6_tick|cbn].
  eapply rtc_l; [by eapply k6_close|cbn].
  eapply rtc_l; [by eapply k6_tick_panic|cbn].
  apply rtc_refl.
  Unshelve. reflexivity.
Qed.
