(* ===== verification/EngineManager.v ===== *)
(** * Engine plugins on the host ([internal/replayengine/manager.go], [subprocess.go], [install.go])

    Launching a plugin process, the manager that keeps one process per engine name
    and replaces it when its binary changes, and the installation of plugin
    binaries.  Processes are numbered in the order of their launch; what the
    operating system and gRPC answer are arguments. *)

From S2P Require Import Prelude GoStd GoTime GoFloat Storage Readers Shard Engine Preshard Summary ReplayMain EngineAbi.

Local Open Scope Z_scope.

(** ** Launching *)

(** What the outside answers to one [Launch]: the temporary directory, the pipe
    and the start of the process, the line it prints, the connection and
    [Describe]. *)
Record launch_answers := {
  la_mkdir : option go_error;
  la_pipe : option go_error;
  la_start : option go_error;
  la_line : result string;
  la_dial : option go_error;
  la_describe : result DescribeResponse
}.

(** [Launch]: the description of the engine, or the error and whether a process
    was started; it is killed then. *)
Definition Launch (path : string) (a : launch_answers) : result DescribeResponse :=
  match la_mkdir a, la_pipe a, la_start a with
  | Some err, _, _ => Err (WrapError "create socket dir: %w" [] err)
  | None, Some err, _ => Err (WrapError "stdout pipe: %w" [] err)
  | None, None, Some err => Err (WrapError "start engine %s: %w" [FStr path] err)
  | None, None, None =>
      match (match la_line a with Err err => Err err | Ok line => readHandshake line end) with
      | Err err => Err (WrapError "engine %s handshake: %w" [FStr path] err)
      | Ok addr =>
          match la_dial a with
          | Some err => Err (WrapError "dial engine socket: %w" [] err)
          | None =>
              match la_describe a with
              | Err err => Err (WrapError "describe engine %s: %w" [FStr path] err)
              | Ok info =>
                  match SupportsABIVersion HostABIVersions (ds_AbiVersions info) with
                  | None => Err (FmtError "engine %s speaks ABI %v, host speaks %v: no common version"
                                   [FStr (ds_Name info); FStrs (ds_AbiVersions info); FStrs HostABIVersions])
                  | Some _ => Ok info
                  end
              end
          end
      end
  end.

(** ** The manager *)

(** A launched process: serving, asked to drain, closed. *)
Inductive proc_status := Serving | Draining | Closed.

#[global] Instance proc_status_dec : EqDecision proc_status.
Proof. solve_decision. Defined.

Record Manager := {
  mg_PluginDir : string;
  mg_engines : gmap string nat;
  mg_pending : gset string;
  mg_procs : list (DescribeResponse * proc_status)
}.

Definition NewManager (pluginDir : string) : Manager :=
  {| mg_PluginDir := pluginDir; mg_engines := ∅; mg_pending := ∅; mg_procs := [] |}.

Definition PluginPath (m : Manager) (name : string) : string :=
  path_Join [mg_PluginDir m; PluginBinaryPrefix +:+ name].

Definition with_engines (engines : gmap string nat) (procs : list (DescribeResponse * proc_status)) (m : Manager) : Manager :=
  {| mg_PluginDir := mg_PluginDir m; mg_engines := engines; mg_pending := mg_pending m; mg_procs := procs |}.

Definition with_pending (pending : gset string) (m : Manager) : Manager :=
  {| mg_PluginDir := mg_PluginDir m; mg_engines := mg_engines m; mg_pending := pending; mg_procs := mg_procs m |}.

(** [Acquire], with the answers of [os.Stat] and [Launch]: the process. *)
Definition Acquire (name : string) (stat : option go_error) (a : launch_answers) (m : Manager) : Manager * result nat :=
  match mg_engines m !! name with
  | Some p => (m, Ok p)
  | None =>
      match stat with
      | Some err => (m, Err (WrapError "engine plugin %q not found at %s: %w" [FStr name; FStr (PluginPath m name)] err))
      | None =>
          match Launch (PluginPath m name) a with
          | Err err => (m, Err err)
          | Ok info =>
              let p := length (mg_procs m) in
              if bool_decide (ds_Name info ≠ name)
              then (with_engines (mg_engines m) (mg_procs m ++ [(info, Closed)]) m,
                    Err (FmtError "plugin %s identifies as %q, expected %q"
                           [FStr (PluginPath m name); FStr (ds_Name info); FStr name]))
              else (with_engines (<[name := p]> (mg_engines m)) (mg_procs m ++ [(info, Serving)]) m, Ok p)
          end
      end
  end.

Definition set_status (p : nat) (s : proc_status) (procs : list (DescribeResponse * proc_status)) :
    list (DescribeResponse * proc_status) :=
  alter (λ x, (fst x, s)) p procs.

(** [Reload]; the process it replaces is asked to drain and closed later. *)
Definition Reload (name : string) (a : launch_answers) (m : Manager) : Manager * option go_error :=
  match mg_engines m !! name with
  | None => (m, None)
  | Some old =>
      match Launch (PluginPath m name) a with
      | Err err => (m, Some (WrapError "hot reload of engine %q failed, keeping old process: %w" [FStr name] err))
      | Ok info =>
          if bool_decide (ds_Name info ≠ name)
          then (with_engines (mg_engines m) (mg_procs m ++ [(info, Closed)]) m,
                Some (FmtError "reloaded plugin identifies as %q, expected %q" [FStr (ds_Name info); FStr name]))
          else (with_engines (<[name := length (mg_procs m)]> (mg_engines m))
                  (set_status old Draining (mg_procs m) ++ [(info, Serving)]) m, None)
      end
  end.

(** The name of the engine of a changed file; nothing for other files. *)
Definition changed_engine (base : string) : option string :=
  if bool_decide (String.length base <= String.length PluginBinaryPrefix)%nat then None
  else CutPrefix base PluginBinaryPrefix.

(** [Close]: every running engine is closed. *)
Definition Manager_Close (m : Manager) : Manager :=
  with_engines ∅ (foldr (λ p procs, set_status p Closed procs) (mg_procs m) (map_to_list (mg_engines m)).*2) m.

(** What happens to a manager: calls of its methods, a change of a plugin binary
    that restarts the timer of its engine, a timer that fires, and the end of the
    grace period of a replaced process. *)
Inductive manager_step (m : Manager) : Manager → Prop :=
  | mg_acquire name stat a : manager_step m (fst (Acquire name stat a m))
  | mg_reload name a : manager_step m (fst (Reload name a m))
  | mg_changed base name : changed_engine base = Some name →
      manager_step m (with_pending ({[name]} ∪ mg_pending m) m)
  | mg_fires name a : name ∈ mg_pending m →
      manager_step m (fst (Reload name a (with_pending (mg_pending m ∖ {[name]}) m)))
  | mg_drained p info : mg_procs m !! p = Some (info, Draining) →
      manager_step m (with_engines (mg_engines m) (set_status p Closed (mg_procs m)) m)
  | mg_close : manager_step m (Manager_Close m).

(** ** Installing plugins *)

(** [copyAtomic] with what its system calls answer: the target gets the whole
    binary by a rename or stays as it was. *)
Definition copyAtomic (stat open create copy close chmod rename : option go_error) (content : string) (dst : string)
    (fs : gmap string string) : gmap string string * option go_error :=
  match stat, open, create with
  | Some err, _, _ | None, Some err, _ | None, None, Some err => (fs, Some err)
  | None, None, None =>
      match copy, close, chmod, rename with
      | Some err, _, _, _ => (fs, Some (WrapError "copy %s: %w" [] err))
      | None, Some err, _, _ => (fs, Some err)
      | None, None, Some err, _ => (fs, Some err)
      | None, None, None, Some err => (fs, Some (WrapError "install %s: %w" [FStr dst] err))
      | None, None, None, None => (<[dst := content]> fs, None)
      end
  end.

(** ** The processes of a manager *)

(** What the system calls answer for one file: see [copyAtomic]. *)
Record copy_answers := {
  ca_stat : option go_error;
  ca_open : option go_error;
  ca_create : option go_error;
  ca_copy : option go_error;
  ca_close : option go_error;
  ca_chmod : option go_error;
  ca_rename : option go_error;
  ca_content : string
}.

(** An entry of the source directory: its name, whether it is a directory, and the
    answers for its copy. *)
Record dir_entry := { de_Name : string; de_IsDir : bool; de_answers : copy_answers }.

Definition plugin_dst (dst : string) (e : dir_entry) : string := path_Join [dst; de_Name e].

Definition copy_entry (dst : string) (e : dir_entry) (fs : gmap string string) : gmap string string * option go_error :=
  let a := de_answers e in
  copyAtomic (ca_stat a) (ca_open a) (ca_create a) (ca_copy a) (ca_close a) (ca_chmod a) (ca_rename a) (ca_content a)
    (plugin_dst dst e) fs.

Fixpoint copy_entries (dst : string) (entries : list dir_entry) (copied : Z) (fs : gmap string string)
    : gmap string string * Z * option go_error :=
  match entries with
  | [] => (fs, copied, None)
  | e :: entries =>
      if de_IsDir e then copy_entries dst entries copied fs
      else match copy_entry dst e fs with
      | (fs, Some err) => (fs, copied, Some err)
      | (fs, None) => copy_entries dst entries (int64 (copied + 1)) fs
      end
  end.

(** [CopyPlugins], with what reading the source and making the target directory
    answer. *)
Definition CopyPlugins (read : result (list dir_entry)) (mkdir : option go_error) (src dst : string) (fs : gmap string string)
    : gmap string string * Z * option go_error :=
  match read with
  | Err err => (fs, 0, Some (WrapError "read plugin source %s: %w" [FStr src] err))
  | Ok entries =>
      match mkdir with
      | Some err => (fs, 0, Some (WrapError "create plugin target %s: %w" [FStr dst] err))
      | None => copy_entries dst entries 0 fs
      end
  end.

(** A file is installed whole or not at all. *)
Lemma copy_entry_atomic dst e fs fs' err : copy_entry dst e fs = (fs', err) →
  fs' = match err with None => <[plugin_dst dst e := ca_content (de_answers e)]> fs | Some _ => fs end.
Proof.
  unfold copy_entry, copyAtomic. destruct (de_answers e) as [st op cr cp cl ch rn ct]. simpl.
  by destruct st, op, cr, cp, cl, ch, rn; intros [= <- <-].
Qed.

Lemma copy_entries_files dst entries copied fs fs' n err : copy_entries dst entries copied fs = (fs', n, err) →
  ∀ path, fs' !! path = fs !! path ∨
    ∃ e, e ∈ entries ∧ de_IsDir e = false ∧ path = plugin_dst dst e ∧ fs' !! path = Some (ca_content (de_answers e)).
Proof.
  revert copied fs. induction entries as [|e entries IH]; intros copied fs H path; simpl in H; [simplify_eq; by left|].
  destruct (de_IsDir e) eqn:Hd.
  { destruct (IH _ _ H path) as [?|(x & ? & ?)]; [by left|]. right. exists x. split; [by right|done]. }
  destruct (copy_entry dst e fs) as [fs1 [er|]] eqn:Hc; apply copy_entry_atomic in Hc as ->; [simplify_eq; by left|].
  destruct (IH _ _ H path) as [Hp|(x & ? & ?)]; [|right; exists x; split; [by right|done]].
  destruct (decide (path = plugin_dst dst e)) as [->|Hne].
  - right. exists e. rewrite Hp, lookup_insert_eq. split; [by left|done].
  - left. by rewrite Hp, lookup_insert_ne.
Qed.

Lemma copy_entries_count dst entries copied fs fs' n : copy_entries dst entries copied fs = (fs', n, None) →
  n = int64 (copied + len (List.filter (λ e, negb (de_IsDir e)) entries)) ∨ n = copied ∧ List.filter (λ e, negb (de_IsDir e)) entries = [].
Proof.
  revert copied fs. induction entries as [|e entries IH]; intros copied fs H; simpl in *; [simplify_eq; by right|].
  destruct (de_IsDir e); simpl; [by eapply IH|].
  destruct (copy_entry dst e fs) as [fs1 [er|]]; [done|].
  left. destruct (IH _ _ H) as [->|[-> ->]]; [rewrite int64_add_l|]; f_equal; unfold len; simpl; lia.
Qed.

(** However the copying goes and wherever it stops, every file under the target is
    as it was or a whole new plugin; when it succeeds, the count is that of the
    source's files. *)
Theorem plugins_installed_whole read mkdir src dst fs fs' n err : CopyPlugins read mkdir src dst fs = (fs', n, err) →
  (∀ path, fs' !! path = fs !! path ∨ ∃ entries e, read = Ok entries ∧ e ∈ entries ∧ de_IsDir e = false ∧
     path = plugin_dst dst e ∧ fs' !! path = Some (ca_content (de_answers e))) ∧
  (err = None → ∃ entries, read = Ok entries ∧ n = int64 (len (List.filter (λ e, negb (de_IsDir e)) entries))).
Proof.
  unfold CopyPlugins. destruct read as [entries|e]; [|intros [= <- <- <-]; split; [by left|done]].
  destruct mkdir; [intros [= <- <- <-]; split; [by left|done]|]. intros H. split.
  - intros path. destruct (copy_entries_files _ _ _ _ _ _ _ H path) as [?|(x & ?)]; [by left|].
    right. by exists entries, x.
  - intros ->. exists entries. split; [done|].
    destruct (copy_entries_count _ _ _ _ _ _ H) as [->|[-> ->]]; [by rewrite Z.add_0_l|done].
Qed.

(** Every process is the one of its engine's name, draining or closed: none is
    forgotten; and an engine that is handed out serves and is what it is asked
    for. *)
Record manager_inv (m : Manager) : Prop := {
  mi_engine : ∀ name p, mg_engines m !! name = Some p →
    ∃ info, mg_procs m !! p = Some (info, Serving) ∧ ds_Name info = name ∧ ABIVersion ∈ ds_AbiVersions info;
  mi_serving : ∀ p info, mg_procs m !! p = Some (info, Serving) → mg_engines m !! ds_Name info = Some p
}.

Lemma Launch_speaks path a info : Launch path a = Ok info → ABIVersion ∈ ds_AbiVersions info.
Proof.
  unfold Launch. intros H. repeat case_match; simplify_eq.
  match goal with H : SupportsABIVersion _ _ = Some _ |- _ => apply SupportsABIVersion_spec in H as (pre & post & E & Hv & _) end.
  unfold HostABIVersions in E. destruct pre as [|? [|]]; by simplify_eq/=.
Qed.

Lemma set_status_lookup p s procs q info t : set_status p s procs !! q = Some (info, t) ↔
  (p ≠ q ∧ procs !! q = Some (info, t)) ∨ (p = q ∧ t = s ∧ ∃ t', procs !! q = Some (info, t')).
Proof.
  unfold set_status. destruct (decide (p = q)) as [->|Hne].
  - rewrite list_lookup_alter_eq. destruct (procs !! q) as [[i t']|]; naive_solver.
  - rewrite list_lookup_alter_ne by done. naive_solver.
Qed.

Lemma new_proc (procs : list (DescribeResponse * proc_status)) x q info s : (procs ++ [x]) !! q = Some (info, s) →
  procs !! q = Some (info, s) ∨ (q = length procs ∧ x = (info, s)).
Proof.
  rewrite lookup_app_Some. intros [?|[Hq Hx]]; [by left|right].
  apply list_lookup_singleton_Some in Hx as [? ->]. split; [lia|done].
Qed.

(** Adding a process that does not serve. *)
Lemma inv_closed m info : manager_inv m → manager_inv (with_engines (mg_engines m) (mg_procs m ++ [(info, Closed)]) m).
Proof.
  intros [He Hs]. constructor; simpl.
  - intros name p Hp. destruct (He name p Hp) as (i & Hi & ? & ?). exists i. split; [by apply lookup_app_l_Some|done].
  - intros p i [Hp|[_ ?]]%new_proc; [by apply Hs|done].
Qed.

Lemma inv_acquire name stat a m : manager_inv m → manager_inv (fst (Acquire name stat a m)).
Proof.
  intros Hm. unfold Acquire. destruct (mg_engines m !! name) as [p|] eqn:En; [done|]. destruct stat; [done|].
  destruct (Launch _ a) as [info|] eqn:Hl; [|done]. case_bool_decide as Hn; [by apply inv_closed|].
  destruct Hm as [He Hs]. constructor; simpl.
  - intros n p. rewrite lookup_insert_Some. intros [[<- <-]|[Hne Hp]].
    + exists info. rewrite lookup_app_r, Nat.sub_diag by done. split; [done|]. split; [done|by eapply Launch_speaks].
    + destruct (He n p Hp) as (i & Hi & ? & ?). exists i. split; [by apply lookup_app_l_Some|done].
  - intros p i [Hp|[-> [= ->]]]%new_proc.
    + specialize (Hs p i Hp). rewrite lookup_insert_ne; [done|]. intros E. congruence.
    + by rewrite <- Hn, lookup_insert_eq.
Qed.

Lemma inv_reload name a m : manager_inv m → manager_inv (fst (Reload name a m)).
Proof.
  intros Hm. unfold Reload. destruct (mg_engines m !! name) as [old|] eqn:En; [|done].
  destruct (Launch _ a) as [info|] eqn:Hl; [|done]. case_bool_decide as Hn; [by apply inv_closed|].
  destruct Hm as [He Hs].
  destruct (He name old En) as (oi & Hold & Hon & _).
  assert (length (set_status old Draining (mg_procs m)) = length (mg_procs m)) as Hlen by apply length_alter.
  constructor; simpl.
  - intros n p. rewrite lookup_insert_Some. intros [[<- <-]|[Hne Hp]].
    + exists info. rewrite lookup_app_r, Hlen, Nat.sub_diag by (rewrite Hlen; lia). split; [done|].
      split; [done|by eapply Launch_speaks].
    + destruct (He n p Hp) as (i & Hi & Hin & ?). exists i. split; [|done]. apply lookup_app_l_Some.
      apply set_status_lookup. left. split; [|done]. intros ->. congruence.
  - intros p i [Hp|[-> [= ->]]]%new_proc.
    + apply set_status_lookup in Hp as [[Hne Hp]|(_ & ? & _)]; [|done].
      specialize (Hs p i Hp). rewrite lookup_insert_ne; [done|]. intros E. congruence.
    + by rewrite Hlen, <- Hn, lookup_insert_eq.
Qed.

Lemma closed_all ps procs q info : foldr (λ p procs, set_status p Closed procs) procs ps !! q = Some (info, Serving) →
  q ∉ ps ∧ procs !! q = Some (info, Serving).
Proof.
  induction ps as [|p ps IH]; simpl; [intros; split; [apply not_elem_of_nil|done]|].
  intros [[Hne Hp]|(_ & ? & _)]%set_status_lookup; [|done]. destruct (IH Hp) as [Hn ?].
  split; [|done]. apply not_elem_of_cons. split; [congruence|done].
Qed.

Lemma inv_close m : manager_inv m → manager_inv (Manager_Close m) ∧
  ∀ p info, mg_procs (Manager_Close m) !! p ≠ Some (info, Serving).
Proof.
  intros [He Hs].
  assert (∀ p info, mg_procs (Manager_Close m) !! p ≠ Some (info, Serving)) as Hn.
  { simpl. intros p info [Hn Hp]%closed_all. apply Hn, list_elem_of_fmap. exists (ds_Name info, p). split; [done|].
    by apply elem_of_map_to_list, Hs. }
  split; [|done]. constructor; [by intros|]. intros p info Hp. by destruct (Hn p info).
Qed.

Lemma inv_manager_step m m' : manager_inv m → manager_step m m' → manager_inv m'.
Proof.
  intros Hm [name stat a|name a|base name Hc|name a Hp|p info Hp|].
  - by apply inv_acquire.
  - by apply inv_reload.
  - by destruct Hm.
  - apply inv_reload. by destruct Hm.
  - destruct Hm as [He Hs]. constructor; simpl.
    + intros n q Hq. destruct (He n q Hq) as (i & Hi & ?). exists i. split; [|done].
      apply set_status_lookup. left. split; [|done]. intros ->. congruence.
    + intros q i [[Hne Hq]|(_ & ? & _)]%set_status_lookup; [by apply Hs|done].
  - by apply inv_close.
Qed.

(** C33: over any sequence of acquisitions, binary changes, reloads, timers and
    shutdowns, the manager runs at most one serving process per engine and forgets
    none: every process it launched serves as the engine of its name, drains or is
    closed; an acquired engine serves, has the name it was asked for and speaks
    the host's ABI; a failed reload keeps the old process; and after [Close]
    nothing serves. *)
Theorem manager_keeps_one_engine dir m name stat a m' p :
  rtc manager_step (NewManager dir) m → Acquire name stat a m = (m', Ok p) →
  (∃ info, mg_procs m' !! p = Some (info, Serving) ∧ ds_Name info = name ∧ ABIVersion ∈ ds_AbiVersions info) ∧
  (∀ q q' info info', mg_procs m' !! q = Some (info, Serving) → mg_procs m' !! q' = Some (info', Serving) →
    ds_Name info = ds_Name info' → q = q') ∧
  (∀ b err, snd (Reload name b m') = Some err → mg_engines (fst (Reload name b m')) !! name = Some p) ∧
  (∀ q info, mg_procs (Manager_Close m') !! q ≠ Some (info, Serving)).
Proof.
  intros Hst Hac.
  assert (manager_inv m) as Hm.
  { clear Hac. revert m Hst. apply rtc_ind_r; [by constructor|]. intros y z _ Hyz Hy. by eapply inv_manager_step. }
  assert (m' = fst (Acquire name stat a m)) as Hm' by by rewrite Hac.
  pose proof (inv_acquire name stat a m Hm) as Hinv. rewrite <- Hm' in Hinv.
  assert (mg_engines m' !! name = Some p) as Hp.
  { clear Hm' Hinv. unfold Acquire in Hac. destruct (mg_engines m !! name) as [q|] eqn:En; [by injection Hac as <- <-|].
    destruct stat; [done|]. destruct (Launch _ a); [|done]. case_bool_decide; [done|].
    injection Hac as <- <-. simpl. by rewrite lookup_insert_eq. }
  split; [by apply (mi_engine _ Hinv)|]. split; [|split; [|by apply inv_close]].
  - intros q q' info info' Hq Hq' E. apply (mi_serving _ Hinv) in Hq, Hq'. congruence.
  - intros b err. unfold Reload. rewrite Hp. destruct (Launch _ b); simpl; [|done]. case_bool_decide; simpl; done.
Qed.

Definition demo_launch (name : string) : launch_answers :=
  {| la_mkdir := None; la_pipe := None; la_start := None; la_line := Ok (handshake_line "/tmp/engine.sock");
     la_dial := None;
     la_describe := Ok {| ds_Name := name; ds_Version := "1"; ds_AbiVersions := ["v2"; "v1"]; ds_Protocols := [];
                          ds_Capabilities := [] |} |}.

(** A manager that launched k6 and replaced it. *)
Definition demo_manager : Manager :=
  fst (Reload "k6" (demo_launch "k6") (fst (Acquire "k6" None (demo_launch "k6") (NewManager "/plugins")))).

Lemma demo_manager_reachable : rtc manager_step (NewManager "/plugins") demo_manager.
Proof. eapply rtc_l; [apply mg_acquire|]. eapply rtc_l; [apply mg_reload|]. apply rtc_refl. Qed.

Lemma manager_keeps_one_engine_witness :
  Acquire "k6" None (demo_launch "k6") demo_manager = (demo_manager, Ok 1%nat) ∧
  (∃ info, mg_procs demo_manager !! 1%nat = Some (info, Serving) ∧ ds_Name info = "k6") ∧
  (snd <$> mg_procs demo_manager) = [Draining; Serving].
Proof.
  assert (Acquire "k6" None (demo_launch "k6") demo_manager = (demo_manager, Ok 1%nat)) as Hac by reflexivity.
  split; [exact Hac|]. split; [|reflexivity].
  destruct (manager_keeps_one_engine "/plugins" demo_manager "k6" None (demo_launch "k6") demo_manager 1
    demo_manager_reachable Hac) as ((info & Hi & Hn & _) & _). by exists info.
Defined.
