(* ===== verification/ExternalMain.v ===== *)
(** * The replay command with an external engine ([runExternalEngine] of [cmd/replay-engine/main.go])

    What a worker whose replay names an external engine does: it acquires the
    plugin, configures it, and feeds it the worker's shard.  The engine is
    whatever the plugin is: the theorems are about what it is given. *)

From S2P Require Import Prelude GoStd GoTime GoFlag GoFloat HubProto HubServer Kube Api CaptureApi LoadTest LoadTestPlan.
From S2P Require Import Storage Readers Shard Engine Summary SpokeDirectives ReplayJob ReplayMain ReplayController Preshard.
From S2P Require Import FleetReplay EngineAbi Feeder EngineAdapters.
From Stdlib Require Import Ascii.

Local Open Scope Z_scope.

Section External.
Context {GP : GoParse} {UP : UrlParse}.

(** The feeder of a worker. *)
Definition external_feeder_config (cfg : config) : result FeederConfig :=
  match parseRateMode (cfg_rateMode cfg) with
  | Err e => Err e
  | Ok rateMode =>
      match buildReadOptions cfg with
      | Err e => Err e
      | Ok opts =>
          Ok {| fc_Reader := true; fc_ReadOptions := opts; fc_ShardIndex := cfg_shardIndex cfg;
                fc_ShardCount := cfg_shardCount cfg; fc_RateMode := rateMode;
                fc_RatePerSecond := cfg_ratePerSecond cfg; fc_TimeScale := cfg_timeScale cfg |}
      end
  end.

Definition external_feeder (cfg : config) : result FeederConfig :=
  match external_feeder_config cfg with Err e => Err e | Ok fc => NewFeeder fc end.

(** What a plugin answers to [Configure]: a transport error, or whether it accepts
    and why not. *)
Definition configure_result (answer : result (bool * string)) : option go_error :=
  match answer with
  | Err e => Some (WrapError "configure engine: %w" [] e)
  | Ok (true, _) => None
  | Ok (false, message) => Some (FmtError "engine rejected configuration: %s" [FStr message])
  end.

Section Worker.
Context {R : Type} (Next : R → R * result CapturedRequest) (ctxErr : go_error).

(** [runExternalEngine] with the acquired plugin and its answer to [Configure]: the
    feeder's state, the error, and the report to write; [None] while it runs. *)
Definition runExternalEngine (cfg : config) (acquired : result DescribeResponse)
    (configure : RunConfig → result (bool * string)) (opened executed : option go_error)
    (rounds : list round) (recvs : list (result event)) (r : ReadOptions → R) :
    go (option (option (feed_state R) * option go_error * option RunReport)) :=
  let fail e := Ret (Some (None, Some e, None)) in
  match acquired with
  | Err e => fail e
  | Ok info =>
      match buildRunConfig cfg with
      | Err e => fail e
      | Ok rc =>
          match configure_result (configure rc), external_feeder cfg with
          | Some e, _ => fail e
          | None, Err e => fail e
          | None, Ok f =>
              match Run Next ctxErr f opened executed (Some info) rounds recvs (r (fc_ReadOptions f)) with
              | Panic => Panic
              | Ret None => Ret None
              | Ret (Some (host, Err e)) =>
                  Ret (Some (Some host, Some (WrapError "engine %s run: %w" [FStr (cfg_engine cfg)] e), None))
              | Ret (Some (host, Ok report)) =>
                  if cfg_failOnEmpty cfg && (fs_fed host =? 0) && (fs_skipped host =? 0)
                  then Ret (Some (Some host, Some (FmtError "no captured requests found for capture-id %q" [FStr (cfg_captureID cfg)]), None))
                  else Ret (Some (Some host, None,
                              if bool_decide (cfg_summaryPath cfg ≠ "") then Some report else None))
              end
          end
      end
  end.

(** ** What a replay's worker does with it *)

Lemma direct_fields cfg ec : direct_config cfg = Ok ec →
  external_feeder_config cfg = Ok {| fc_Reader := true; fc_ReadOptions := ec_ReadOptions ec;
    fc_ShardIndex := ec_ShardIndex ec; fc_ShardCount := ec_ShardCount ec; fc_RateMode := ec_RateMode ec;
    fc_RatePerSecond := ec_RatePerSecond ec; fc_TimeScale := ec_TimeScale ec |}.
Proof.
  unfold direct_config, external_feeder_config. case_bool_decide; [done|].
  destruct (buildReadOptions cfg); [|done]. destruct (parseRateMode _); [|done]. by intros [= <-].
Qed.

(** The worker of the Job of a replay that names an external engine configures it
    for the target of the replay and feeds it with the replay's selection, shard,
    rate mode, rate and scale. *)
Theorem external_worker_configured env tr storage job e :
  BuildReplayJob env tr storage = Ok job → job_ok tr → target_ok (trs_Target (Spec tr)) → external_engine tr = Some e →
  ∃ c cfg rc, js_Containers (Spec job) = [c] ∧ container_config c = Ok cfg ∧ run_checks cfg = None ∧
    run_mode_of cfg = ExternalEngine e ∧
    buildRunConfig cfg = Ok rc ∧ engine_url (rc_Target rc) = target_url (trs_Target (Spec tr)) ∧
    let ec := engine_config_of tr in
    external_feeder_config cfg = Ok {| fc_Reader := true; fc_ReadOptions := options_of tr;
      fc_ShardIndex := fst (shard_of tr); fc_ShardCount := snd (shard_of tr); fc_RateMode := ec_RateMode ec;
      fc_RatePerSecond := ec_RatePerSecond ec; fc_TimeScale := ec_TimeScale ec |}.
Proof.
  intros Hjob Hok Htgt He. destruct (job_container _ _ _ _ Hjob) as (c & Hc & Hargs & Henv & _).
  destruct (job_config (env_PluginDir env) tr storage _ Hargs Hok)
    as (cfg & Hp & Hrun & Hmode & _ & Hurl & Hdir & _). rewrite He in Hmode.
  destruct (target_round_trip cfg _ Htgt Hurl) as (rc & Hrc & _ & _ & Heu).
  exists c, cfg, rc. unfold container_config. rewrite Henv. split_and!; [done..|].
  by rewrite (direct_fields _ _ Hdir).
Qed.

(** ** A load test through external engines *)

Context (open : string * string * string * string * string → ReadOptions → R).

(** The worker of shard [i] ended without an error, its feeder in state [host]. *)
Definition external_shard_finished (loc : string * string * string * string * string) (lt : CaptureLoadTest) (i : nat)
    (host : feed_state R) : Prop :=
  ∃ env storage tr c cfg name acquired configure opened executed rounds recvs report,
    shard_job lt i env storage tr c ∧ job_ok tr ∧ location storage = Some loc ∧
    container_config c = Ok cfg ∧ run_mode_of cfg = ExternalEngine name ∧
    runExternalEngine cfg acquired configure opened executed rounds recvs (open loc) = Ret (Some (Some host, None, report)).

(** What the worker of a shard fed. *)
Lemma worker_feeds lt i env storage tr c cfg f : shard_job lt i env storage tr c → job_ok tr →
  container_config c = Ok cfg → external_feeder cfg = Ok f →
  fc_ReadOptions f = options_of tr ∧ fc_ShardIndex f = fst (shard_of tr) ∧ fc_ShardCount f = snd (shard_of tr).
Proof.
  intros (_ & job & Hjob & Hcs) Hok Hcfg Hf. destruct (job_container _ _ _ _ Hjob) as (c' & Hc & Hargs & Henv & _).
  rewrite Hc in Hcs. injection Hcs as ->. unfold container_config in Hcfg.
  destruct (job_config (env_PluginDir env) tr storage _ Hargs Hok) as (cfg' & Hp & _ & _ & _ & _ & Hd & _).
  rewrite Henv, Hp in Hcfg. injection Hcfg as ->.
  unfold external_feeder in Hf. rewrite (direct_fields _ _ Hd) in Hf. unfold NewFeeder in Hf.
  destruct (negb _); [done|]. destruct ((1 <? _) && _); [done|]. by injection Hf as <-.
Qed.

(** The capture, or the slice of it, that shard [i] reads. *)
Definition shard_capture (lt : CaptureLoadTest) (i : nat) : string :=
  if test_presharded lt then ShardSliceCaptureID (capture_of lt) (Z.of_nat i) (lst_TotalShards (Status lt))
  else capture_of lt.

Lemma external_run_feeds loc lt i host stream err :
  external_shard_finished loc lt i host →
  reads Next (open loc (test_options lt (shard_capture lt i))) stream err →
  ∃ f, fs_sent host = items_from zero_time (feeder_slice f stream) ∧
    (fc_ShardIndex f, fc_ShardCount f) = (if test_presharded lt then (0, 1) else (Z.of_nat i, lst_TotalShards (Status lt))).
Proof.
  intros (env & storage & tr & c & cfg & name & acq & conf & opened & executed & rounds & recvs & report & Hjob & Hok & Hloc & Hcfg & _ & Hrun) Hr.
  unfold runExternalEngine in Hrun. destruct acq as [info|]; [|done]. destruct (buildRunConfig cfg) as [rc|]; [|done].
  destruct (configure_result _); [done|]. destruct (external_feeder cfg) as [f|] eqn:Hf; [|done].
  destruct (worker_feeds _ _ _ _ _ _ _ _ Hjob Hok Hcfg Hf) as (Hopts & Hidx & Hcnt).
  destruct (Run _ _ _ _ _ _ _ _ _) as [[[h [rep|]]|]|] eqn:HRun; try done.
  destruct (cfg_failOnEmpty cfg && _ && _); [done|]. injection Hrun as -> _.
  destruct (Run_ok _ _ _ _ _ _ _ _ _ _ _ HRun) as [Hfeed _].
  destruct (shard_replay _ _ _ _ _ _ Hjob) as (Hp & Hsh & Hid & _).
  assert (reads Next (open loc (fc_ReadOptions f)) stream err) as Hreads.
  { rewrite Hopts, (shard_options _ _ _ _ _ _ Hjob), Hid. exact Hr. }
  destruct (feed_sends Next ctxErr f _ rounds _ stream err host (Some None) Hreads Hfeed) as (seen & rest & -> & Hfed & Hend & _).
  destruct (Hend eq_refl) as [-> _]. exists f. rewrite app_nil_r. split; [apply Hfed|].
  rewrite Hidx, Hcnt. unfold shard_of. rewrite Hsh, Hp. by destruct (test_presharded lt).
Qed.
(** C3: a load test through external engines gives them every request exactly once.
    Take the START directives of all shards of a load test that is not presharded,
    decoded by any spokes and run as Jobs that name any plugin; when all workers
    have ended without an error, however they were paced, the items they streamed
    into their engines are together the requests the load test selects from its
    capture, each once. *)
Theorem external_load_test_feeds_exactly_once loc lt (n : nat) (hosts : nat → feed_state R) stream err :
  lst_TotalShards (Status lt) = Z.of_nat n → 1 < Z.of_nat n < 2 ^ 31 → test_presharded lt = false →
  reads Next (open loc (test_options lt (capture_of lt))) stream err →
  (∀ i, (i < n)%nat → external_shard_finished loc lt i (hosts i)) →
  concat ((λ i, capturedFromFeedItem <$> fs_sent (hosts i)) <$> seq 0 n) ≡ₚ without_length <$> stream.
Proof.
  intros Htot Hn Hpre Hr Hfin. rewrite <- (slices_cover n stream) at 1 by lia. rewrite fmap_concat, <- list_fmap_compose.
  apply concat_perm. intros i Hi%elem_of_seq.
  destruct (external_run_feeds loc lt i (hosts i) stream err) as (f & Hsent & Hshard);
    [by apply Hfin; lia|unfold shard_capture; by rewrite Hpre|].
  rewrite Hsent, items_from_captured. cbn [compose]. apply reflexive_eq. f_equal.
  rewrite Hpre, Htot in Hshard. injection Hshard as Hidx Hcnt. unfold feeder_slice, slice.
  apply List.filter_ext. intros req. unfold feed_owns, ShardOwns. rewrite Hidx, Hcnt.
  by rewrite (proj2 (Z.leb_gt _ _)), !uint64_id, ShardIndexOf_shardOf by lia.
Qed.
End Worker.
End External.

(** ** Witness: a load test of two shards that names a plugin *)

#[local] Existing Instance decimal_parser.

(** A parser for the URLs of web schemes. *)
Definition parse_web_url (s : string) : result URL :=
  let parts scheme rest :=
    match split_char ":" rest with
    | [host; port] => Ok {| url_Scheme := scheme; url_Hostname := host; url_Port := port |}
    | [host] => Ok {| url_Scheme := scheme; url_Hostname := host; url_Port := "" |}
    | _ => Err (FmtError "parse" [FStr s])
    end in
  match CutPrefix s "https://", CutPrefix s "http://" with
  | Some rest, _ => parts "https" rest
  | None, Some rest => parts "http" rest
  | None, None => Err (FmtError "parse" [FStr s])
  end.

Lemma host_no_colon h : host_name h = true → Contains h ":" = false.
Proof.
  induction h as [|a h IH]; [done|]. cbn [host_name]. intros [Ha Hh]%andb_true_iff.
  rewrite Contains_cons, HasPrefix_char, (IH Hh), orb_false_r.
  by destruct (Ascii.eqb_spec ":"%char a) as [<-|Hne].
Qed.

Definition web_urls : UrlParse.
Proof.
  refine {| url_Parse := parse_web_url; FormatFloat := λ _, "1" |}.
  intros scheme host port Hs Hh Hp. unfold parse_web_url.
  assert (split_char ":" (host +:+ ":" +:+ Itoa port) = [host; Itoa port]) as Hsplit.
  { change (host +:+ ":" +:+ Itoa port) with (host +:+ String ":" (Itoa port)).
    rewrite split_char_app by by apply host_no_colon. by rewrite split_char_none by by apply Itoa_without. }
  set (rest := host +:+ ":" +:+ Itoa port) in *. clearbody rest.
  unfold web_schemes in Hs. apply elem_of_cons in Hs as [->|[->|[]%elem_of_nil]%elem_of_cons].
  - assert (CutPrefix ("http" +:+ "://" +:+ rest) "https://" = None) as -> by reflexivity.
    change ("http" +:+ "://" +:+ rest) with ("http://" +:+ rest).
    rewrite (proj2 (CutPrefix_spec _ "http://" rest) eq_refl). by rewrite Hsplit.
  - change ("https" +:+ "://" +:+ rest) with ("https://" +:+ rest).
    rewrite (proj2 (CutPrefix_spec _ "https://" rest) eq_refl). by rewrite Hsplit.
Defined.

#[local] Existing Instance web_urls.

Definition demo_plugin_test : CaptureLoadTest :=
  let spec := Spec (demo_test None) in
  MkObject (newObjectMeta "prod" "lt" ∅)
    {| ls_SourceRef := ls_SourceRef spec; ls_StorageRef := ls_StorageRef spec; ls_Target := ls_Target spec;
       ls_Rate := ls_Rate spec; ls_Filters := ls_Filters spec; ls_Distribution := ls_Distribution spec;
       ls_Abort := ls_Abort spec; ls_Engine := Some {| Api.res_Name := "k6"; res_Config := None |};
       ls_Safety := ls_Safety spec |}
    (Status (demo_test None)).

Definition demo_plugin_config (i : nat) : result config := container_config (demo_container demo_plugin_test i).

Definition demo_worker_run (i : nat) : go (option (option (feed_state (list CapturedRequest)) * option go_error * option RunReport)) :=
  match demo_plugin_config i with
  | Ok cfg => runExternalEngine list_Next (Sentinel "context canceled") cfg (Ok k6_Describe) (λ _, Ok (true, "")) None None
      (replicate 3 {| rn_done := false; rn_interrupted := false; rn_send := None |})
      [Ok (EvSummary noSummary); Err (Sentinel "EOF")] (λ _, demo_stream)
  | Err _ => Panic
  end.

Definition demo_worker_host (i : nat) : feed_state (list CapturedRequest) :=
  match demo_worker_run i with Ret (Some (Some host, _, _)) => host | _ => feed_start [] end.

Lemma demo_worker_finishes i : (i < 2)%nat →
  external_shard_finished list_Next (Sentinel "context canceled") (λ _ _, demo_stream) demo_loc demo_plugin_test i (demo_worker_host i).
Proof.
  intros Hi.
  assert (∃ cfg, demo_plugin_config i = Ok cfg ∧ run_mode_of cfg = ExternalEngine "k6" ∧
    ∃ report, demo_worker_run i = Ret (Some (Some (demo_worker_host i), None, report))) as (cfg & Hcfg & Hmode & report & Hrun).
  { destruct i as [|[|i]]; [| |lia]; (eexists; split; [vm_compute; reflexivity|]; split; [reflexivity|]; eexists; vm_compute; reflexivity). }
  unfold demo_worker_run in Hrun. rewrite Hcfg in Hrun.
  exists demo_env, demo_storage, (demo_tr demo_plugin_test i), (demo_container demo_plugin_test i), cfg, "k6".
  eexists _, _, None, None, _, _, report. split; [|split; [|split; [done|split; [exact Hcfg|split; [done|exact Hrun]]]]].
  - destruct i as [|[|i]]; [| |lia]; (split; eexists; split; reflexivity).
  - split; simpl.
    + intros f t [= <-] [[= <-]|]; [|done]. unfold formattable. vm_compute. split; congruence.
    + repeat constructor; done.
    + done.
    + done.
    + done.
    + intros n [= <-]. unfold in_int64. lia.
    + intros s [= <-]. unfold in_int64. simpl. lia.
Qed.

Lemma external_load_test_feeds_exactly_once_witness :
  concat ((λ i, capturedFromFeedItem <$> fs_sent (demo_worker_host i)) <$> seq 0 2) ≡ₚ without_length <$> demo_stream.
Proof.
  apply (external_load_test_feeds_exactly_once list_Next (Sentinel "context canceled") (λ _ _, demo_stream) demo_loc
    demo_plugin_test 2 demo_worker_host demo_stream ErrReaderDone);
    [reflexivity|lia|reflexivity|apply list_reads|exact demo_worker_finishes].
Defined.
