(* ===== verification/AgentServer.v ===== *)
(** * The agent's servers ([internal/agent/server.go])

    The HTTP and gRPC sinks that receive mirrored traffic, the health and metrics
    endpoints, and how the servers start and stop.  What the network hands a
    handler is a record; what the listeners and their shutdown answer are
    arguments. *)

From S2P Require Import Prelude GoStd Storage Readers Shard Engine Preshard Agent AsyncWriter.

Local Open Scope Z_scope.

Record AgentServer := { ase_httpPort : Z; ase_grpcPort : Z; ase_healthPort : Z }.

Definition NewAgentServer (httpPort grpcPort healthPort : Z) : AgentServer :=
  {| ase_httpPort := if httpPort <=? 0 then 8080 else httpPort;
     ase_grpcPort := if grpcPort <=? 0 then 9090 else grpcPort;
     ase_healthPort := if healthPort <=? 0 then 8081 else healthPort |}.

(** ** The sinks *)

(** What [net/http] parsed of a request: [htr_Path] is [URL.Path], decoded. *)
Record http_request := {
  htr_Method : string;
  htr_Path : string;
  htr_RawQuery : string;
  htr_Host : string;
  htr_RemoteAddr : string;
  htr_Headers : gmap string (list string);
  htr_Body : string;
  htr_BodyErr : option go_error
}.

Definition http_captured (r : http_request) : CapturedHTTPRequest :=
  {| chr_Method := htr_Method r; chr_Path := htr_Path r; chr_Headers := htr_Headers r; chr_Body := htr_Body r;
     chr_BodyErr := htr_BodyErr r; chr_Protocol := "HTTP";
     chr_Metadata := <["host" := htr_Host r]> (<["remoteAddr" := htr_RemoteAddr r]> {["query" := htr_RawQuery r]}) |}.

(** A stream of an unknown service: its method, its metadata, and the answer of the
    first [RecvMsg]. *)
Record grpc_stream := {
  gst_FullMethod : string;
  gst_Recv : result string;
  gst_Metadata : option (gmap string (list string))
}.

Definition grpc_captured (s : grpc_stream) (msg : string) : CapturedHTTPRequest :=
  {| chr_Method := "POST"; chr_Path := gst_FullMethod s; chr_Headers := default ∅ (gst_Metadata s);
     chr_Body := msg; chr_BodyErr := None; chr_Protocol := "gRPC";
     chr_Metadata := {["grpcMethod" := gst_FullMethod s]} |}.

(** [err == io.EOF]: the sentinel itself. *)
Definition is_EOF (err : go_error) : bool := match err with Sentinel n => bool_decide (n = io_EOF) | _ => false end.

Definition StatusOK : Z := 200.
Definition StatusInternalServerError : Z := 500.

Section Sinks.
Context {MR : MapRange} {W : Type} (write : CapturedRequest → W → W * option go_error).

(** [handleHTTP]: the handler, the writer and the status of the reply. *)
Definition handleHTTP (id : string) (now sample : Z) (r : http_request) (h : CaptureHandler) (w : W)
    : CaptureHandler * W * Z :=
  match Handle write id now sample (http_captured r) h w with
  | (h, w, Some _) => (h, w, StatusInternalServerError)
  | (h, w, None) => (h, w, StatusOK)
  end.

(** [handleGRPC]; a stream that ends without a message is an empty one. *)
Definition handleGRPC (id : string) (now sample : Z) (s : grpc_stream) (h : CaptureHandler) (w : W)
    : CaptureHandler * W * option go_error :=
  let captured msg :=
    match Handle write id now sample (grpc_captured s msg) h w with
    | (h, w, Some err) => (h, w, Some (StatusError Internal "capture: %v" []))
    | (h, w, None) => (h, w, None)
    end in
  match gst_Recv s with
  | Ok msg => captured msg
  | Err err =>
      if is_EOF err then captured ""
      else (h, w, Some (StatusError Internal "recv: %v" []))
  end.
End Sinks.

(** ** Health and metrics *)

(** The JSON fields of the health reply. *)
Definition handleHealth : Z * list (string * string) := (StatusOK, [("status", "ok")]).

(** The samples [handleMetrics] prints, in order; the queue's only when the server
    knows it. *)
Definition handleMetrics (h : CaptureHandler) (queue : option AsyncWriter) : list (string * Z) :=
  [("capture_agent_requests_total", ch_requestsTotal h);
   ("capture_agent_requests_filtered_total", ch_requestsFiltered h);
   ("capture_agent_requests_dropped_total", ch_requestsDropped h);
   ("capture_agent_bytes_received_total", ch_bytesReceived h)]
  ++ match queue with
     | None => []
     | Some q =>
         [("capture_agent_write_queue_depth", len (aw_queue q)); ("capture_agent_write_queue_capacity", aw_cap q);
          ("capture_agent_queue_dropped_total", aw_dropped q); ("capture_agent_storage_write_errors_total", aw_writeErrors q)]
     end.

(** ** Start and shutdown *)

(** [Shutdown], when the two HTTP servers shut down with these answers. *)
Definition Shutdown (http health : option go_error) : option go_error :=
  match http, health with
  | None, None => None
  | _, _ => Some (FmtError "shutdown errors: %v" [])
  end.

(** What ends the [select] of [Start]: the context, or one of the servers; a server
    that was closed normally sends nothing. *)
Inductive start_end := StartCancelled | HTTPFailed (err : go_error) | GRPCFailed (err : go_error) | HealthFailed (err : go_error).

Definition Start (listen : option go_error) (port : Z) (end_ : start_end) (http health : option go_error) : option go_error :=
  match listen with
  | Some err => Some (WrapError "listen gRPC port %d: %w" [FInt port] err)
  | None =>
      match end_ with
      | StartCancelled => Shutdown http health
      | HTTPFailed err => Some (WrapError "http server: %w" [] err)
      | GRPCFailed err => Some (WrapError "grpc server: %w" [] err)
      | HealthFailed err => Some (WrapError "health server: %w" [] err)
      end
  end.

(** ** What a sink does with a request *)

Section Theorems.
Context {MR : MapRange}.

(** The writer of the theorems records the requests it is given and answers each
    with [answer]. *)
Definition recording (answer : option go_error) (r : CapturedRequest) (log : list CapturedRequest)
    : list CapturedRequest * option go_error := (log ++ [r], answer).

(** What a handler does, by cases: pass over, fail to read, or write one request. *)
Lemma Handle_cases h id now sample req answer :
  let out := Handle (recording answer) id now sample req h [] in
  (Matches (ch_filter h) sample req = false ∧ out.1.2 = [] ∧ out.2 = None) ∨
  (Matches (ch_filter h) sample req = true ∧ ∃ e, out.1.2 = [] ∧ out.2 = Some e ∧ chr_BodyErr req = Some e) ∨
  (Matches (ch_filter h) sample req = true ∧ ∃ r, out.1.2 = [r] ∧ out.2 = answer ∧ cr_ID r = id ∧ cr_Timestamp r = now ∧
     cr_Method r = chr_Method req ∧ cr_Path r = chr_Path req ∧ cr_Protocol r = chr_Protocol req ∧
     (∀ k v, k ≠ "bodyTruncated" → chr_Metadata req !! k = Some v → cr_Metadata r !! k = Some v) ∧
     cr_Headers r = Redact (ch_redactor h) (chr_Headers req) ∧
     (0 < ch_maxBodyBytes h < max_int64 → str_len (chr_Body req) <= ch_maxBodyBytes h → cr_Body r = chr_Body req)).
Proof.
  unfold Handle. cbn [bump ch_filter ch_maxBodyBytes].
  destruct (Matches (ch_filter h) sample req) eqn:Hm; cbn [negb]; [|by left].
  right. destruct (read_limited _ req) as [body|e] eqn:Hb.
  - right. split; [done|]. set (truncated := _ <? str_len body). cbn [recording app].
    assert (0 < ch_maxBodyBytes h < max_int64 → str_len (chr_Body req) <= ch_maxBodyBytes h →
      (if truncated then str_take (ch_maxBodyBytes h) body else body) = chr_Body req) as Hbody.
    { intros Hm1 Hm2. unfold read_limited in Hb. rewrite int64_id in Hb by (unfold in_int64, max_int64 in *; lia).
      rewrite (proj2 (Z.leb_gt _ _)) in Hb by lia. destruct (chr_BodyErr req); simplify_eq. subst truncated.
      by rewrite (proj2 (Z.ltb_ge _ _)). }
    destruct answer as [e|]; eexists; (split; [reflexivity|]); (split; [done|]); cbn; split_and!; try done;
      intros k v Hk Hv; destruct truncated; [by rewrite lookup_insert_ne|done|by rewrite lookup_insert_ne|done].
  - left. split; [done|]. exists e. split_and!; [done..|]. unfold read_limited in Hb.
    destruct (_ <=? _); [done|]. by destruct (chr_BodyErr req); simplify_eq.
Qed.
(** The HTTP sink answers 200 exactly when it kept nothing because the filter said
    so, or when it gave the writer one request, made of the mirrored one, and the
    writer took it; in all other cases it answers 500 and what it gave the writer,
    if anything, was refused. *)
Lemma http_sink_answers h id now sample r answer h' log status :
  handleHTTP (recording answer) id now sample r h [] = (h', log, status) →
  (status = StatusOK ∧ log = [] ∧ Matches (ch_filter h) sample (http_captured r) = false) ∨
  (status = StatusOK ∧ answer = None ∧ ∃ c, log = [c] ∧ Matches (ch_filter h) sample (http_captured r) = true ∧
     cr_ID c = id ∧ cr_Timestamp c = now ∧ cr_Method c = htr_Method r ∧ cr_Path c = htr_Path r ∧ cr_Protocol c = "HTTP" ∧
     cr_Metadata c !! "query" = Some (htr_RawQuery r)) ∨
  (status = StatusInternalServerError ∧ (log = [] ∧ htr_BodyErr r ≠ None ∨ ∃ c, log = [c] ∧ answer ≠ None)).
Proof.
  unfold handleHTTP. pose proof (Handle_cases h id now sample (http_captured r) answer) as Hc. revert Hc.
  destruct (Handle _ _ _ _ _ _ _) as [[h2 log2] out] eqn:Ho. cbn [fst snd].
  intros [(Hm & -> & ->)|[(Hm & e & -> & -> & He)|(Hm & c & -> & -> & Hid & Hts & Hme & Hp & Hpr & Hmd & _)]] H.
  - left. by simplify_eq.
  - right; right. simplify_eq. split; [done|]. left. split; [done|]. cbn in He. congruence.
  - destruct answer as [e|]; simplify_eq.
    + right; right. split; [done|]. right. by exists c.
    + right; left. split; [done|]. split; [done|]. exists c. split_and!; try done. by apply Hmd.
Qed.

(** The gRPC sink gives its writer at most one request per stream, a POST to the
    method's path, and returns nil exactly when the writer took it or the filter
    passed it over. *)
Lemma grpc_sink_answers h id now sample s answer h' log err :
  handleGRPC (recording answer) id now sample s h [] = (h', log, err) →
  (err = None ∧ (log = [] ∨ answer = None) ∨ err ≠ None ∧ (log = [] ∨ answer ≠ None)) ∧
  ∀ c, c ∈ log → log = [c] ∧ cr_Method c = "POST" ∧ cr_Path c = gst_FullMethod s ∧ cr_Protocol c = "gRPC" ∧
    cr_Metadata c !! "grpcMethod" = Some (gst_FullMethod s).
Proof.
  unfold handleGRPC.
  assert (∀ msg h' log err, match Handle (recording answer) id now sample (grpc_captured s msg) h [] with
    | (h, w, Some err) => (h, w, Some (StatusError Internal "capture: %v" [])) | (h, w, None) => (h, w, None) end = (h', log, err) →
    (err = None ∧ (log = [] ∨ answer = None) ∨ err ≠ None ∧ (log = [] ∨ answer ≠ None)) ∧
    ∀ c, c ∈ log → log = [c] ∧ cr_Method c = "POST" ∧ cr_Path c = gst_FullMethod s ∧ cr_Protocol c = "gRPC" ∧
      cr_Metadata c !! "grpcMethod" = Some (gst_FullMethod s)) as Hone.
  { clear h' log err. intros msg h' log err.
    pose proof (Handle_cases h id now sample (grpc_captured s msg) answer) as Hc. revert Hc.
    destruct (Handle _ _ _ _ _ _ _) as [[h2 log2] out] eqn:Ho. cbn [fst snd].
    intros [(_ & -> & ->)|[(_ & e & -> & -> & _)|(_ & c & -> & -> & _ & _ & Hme & Hp & Hpr & Hmd & _)]] H.
    - simplify_eq. split; [left; eauto|]. intros c []%elem_of_nil.
    - simplify_eq. split; [right; eauto|]. intros c []%elem_of_nil.
    - assert (log = [c]) as -> by (by destruct answer; simplify_eq). split.
      + destruct answer; simplify_eq; [right|left]; eauto.
      + intros c' ->%list_elem_of_singleton. split_and!; try done. by apply Hmd. }
  destruct (gst_Recv s) as [msg|e]; [apply Hone|].
  destruct (is_EOF e); [apply Hone|]. intros [= <- <- <-]. split; [right; eauto|]. intros c []%elem_of_nil.
Qed.
End Theorems.

(** ** A concrete request *)

#[local] Existing Instance canonical_range.

Definition demo_mirror_request : http_request :=
  {| htr_Method := "GET"; htr_Path := "/orders"; htr_RawQuery := "id=7"; htr_Host := "shop"; htr_RemoteAddr := "10.0.0.1:5";
     htr_Headers := {["Accept" := ["text/html"]]}; htr_Body := "abc"; htr_BodyErr := None |}.

Definition demo_sunk : CapturedRequest :=
  {| cr_ID := "id-1"; cr_Timestamp := 7; cr_Method := "GET"; cr_Path := "/orders"; cr_Headers := {["Accept" := ["text/html"]]};
     cr_Body := "abc"; cr_ContentLength := 3; cr_Protocol := "HTTP";
     cr_Metadata := <["host" := "shop"]> (<["remoteAddr" := "10.0.0.1:5"]> {["query" := "id=7"]}) |}.

Lemma demo_sink : ∃ h', handleHTTP (recording None) "id-1" 7 0 demo_mirror_request (NewCaptureHandler 0 None None) []
  = (h', [demo_sunk], StatusOK).
Proof. eexists. vm_compute. reflexivity. Qed.
