(* ===== verification/AgentChain.v ===== *)
(** * The agent's write chain ([cmd/capture-agent/main.go])

    [main] puts the capture handler before an asynchronous writer, that before a
    batching writer, and that before the storage writer.  The chain is the product
    of [AsyncWriter] and [BatchWriter]: the calls that the drain goroutine and
    [Close] make are the calls the batching writer receives, everything else
    interleaves freely.  [Flush] of the asynchronous writer has no caller in the
    agent.  The theorems hold for every storage writer. *)

From S2P Require Import Prelude GoStd Storage Readers Shard Engine Preshard Agent AsyncWriter BatchWriter AgentServer.

Local Open Scope Z_scope.

Section Chain.
Context {Wr : Type} {SW : StorageWriter Wr}.

(** [cn_call] is the index of the drain goroutine's call of [Write], if it is
    inside one. *)
Record chain := Chain {
  cn_async : AsyncWriter;
  cn_batch : BufferedWriter Wr;
  cn_call : option nat
}.

Definition new_chain (queueSize batchSize : Z) (w : Wr) : chain :=
  Chain (NewAsyncWriter queueSize) (NewBufferedWriter batchSize w) None.

Definition with_async (a : AsyncWriter) (c : chain) : chain := Chain a (cn_batch c) (cn_call c).
Definition with_batch (b : BufferedWriter Wr) (c : chain) : chain := Chain (cn_async c) b (cn_call c).

(** [inner.Write] of the drain goroutine begins, and returns. *)
Definition begin_inner (req : CapturedRequest) (c : chain) : chain :=
  Chain (cn_async c) (begin_Write req (cn_batch c)) (Some (length (bt_calls (cn_batch c)))).

Definition end_inner (req : CapturedRequest) (err : option go_error) (c : chain) : chain :=
  Chain (drained_one req (match err with Some _ => true | None => false end) (cn_async c)) (cn_batch c) None.

(** [inner.Close] of the asynchronous writer's [Close] begins, and returns. *)
Definition begin_close (c : chain) : chain :=
  with_batch (set_close (bt_closed (cn_batch c)) true BcWait (cn_batch c)) c.

Definition end_close (c : chain) : chain :=
  with_async (set_closer CloseDone (aw_closed (cn_async c)) (aw_chclosed (cn_async c)) [InnerClose] (cn_async c)) c.

(** The steps of one writer that are not calls of the next one: those of the
    asynchronous writer leave its log alone, those of the batching writer start no
    call and no [Close]. *)
Inductive chain_step (c : chain) : chain → Prop :=
  | cn_local a : aw_step (cn_async c) a → aw_log a = aw_log (cn_async c) → chain_step c (with_async a c)
  | cn_internal b : aw_panicked (cn_async c) = false → batch_step (cn_batch c) b →
      length (bt_calls b) = length (bt_calls (cn_batch c)) → (bt_close (cn_batch c) = BcIdle → bt_close b = BcIdle) →
      chain_step c (with_batch b c)
  | cn_begin req : aw_panicked (cn_async c) = false → aw_drain (cn_async c) = DrainWrite req → cn_call c = None →
      chain_step c (begin_inner req c)
  | cn_return i req err : aw_panicked (cn_async c) = false → aw_drain (cn_async c) = DrainWrite req → cn_call c = Some i →
      bt_calls (cn_batch c) !! i = Some (CReturned err) → chain_step c (end_inner req err c)
  | cn_close : aw_panicked (cn_async c) = false → aw_closer (cn_async c) = CloseWaiting → aw_drain (cn_async c) = DrainExit →
      bt_close (cn_batch c) = BcIdle → chain_step c (begin_close c)
  | cn_closed err : aw_panicked (cn_async c) = false → aw_closer (cn_async c) = CloseWaiting →
      aw_drain (cn_async c) = DrainExit → bt_close (cn_batch c) = BcDone err → chain_step c (end_close c).

(** ** The chain runs both writers *)

Lemma chain_async c c' : chain_step c c' → rtc aw_step (cn_async c) (cn_async c').
Proof.
  intros [a Ha Hl|b Hp Hb Hc Hi|req Hp Hd Hn|i req err Hp Hd Hn Hi|Hp Hc Hd Hi|err Hp Hc Hd Hi]; simpl; try done.
  - by apply rtc_once.
  - apply rtc_once. split; [done|]. by apply aw_write.
  - apply rtc_once. split; [done|]. by apply aw_close_inner.
Qed.

Lemma chain_batch c c' : chain_step c c' → rtc batch_step (cn_batch c) (cn_batch c').
Proof.
  intros [a Ha Hl|b Hp Hb Hc Hi|req Hp Hd Hn|i req err Hp Hd Hn Hi|Hp Hc Hd Hi|err Hp Hc Hd Hi]; simpl; try done.
  - by apply rtc_once.
  - apply rtc_once, bt_write.
  - by apply rtc_once, bt_close_call.
Qed.

Lemma chain_runs c0 c : rtc chain_step c0 c →
  rtc aw_step (cn_async c0) (cn_async c) ∧ rtc batch_step (cn_batch c0) (cn_batch c).
Proof.
  induction 1 as [c|c c1 c2 Hs _ [Ha Hb]]; [done|]. split.
  - etrans; [by apply chain_async|done].
  - etrans; [by apply chain_batch|done].
Qed.
(** ** Invariant *)

(** What the drain goroutine's call has done of its request, and whether it failed. *)
Definition current (req : CapturedRequest) (pc : batch_call) : list CapturedRequest :=
  match pc with CWrite _ => [] | _ => [req] end.

Definition call_failed (pc : batch_call) : Z := match pc with CReturned (Some _) => 1 | _ => 0 end.

Definition returned (pc : batch_call) : Prop := ∃ err, pc = CReturned err.

(** [failures] writes have failed so far. *)
Definition call_inv (failures : Z) (c : chain) : Prop :=
  let b := cn_batch c in
  let given := inner_writes (aw_log (cn_async c)) in
  match cn_call c with
  | None => Forall returned (bt_calls b) ∧ bt_tried b = given ∧ len (bt_tried b) <= len (bt_accepted b) + failures
  | Some i => ∃ req pc done_, aw_drain (cn_async c) = DrainWrite req ∧ bt_calls b = done_ ++ [pc] ∧ length done_ = i ∧
      Forall returned done_ ∧ (∀ r, pc = CWrite r → r = req) ∧ bt_tried b = given ++ current req pc ∧
      len (bt_tried b) <= len (bt_accepted b) + failures + call_failed pc
  end.

Record close_inv (c : chain) : Prop := {
  cc_exit : bt_close (cn_batch c) ≠ BcIdle → aw_drain (cn_async c) = DrainExit;
  cc_closed : bt_closed (cn_batch c) = true → bt_close (cn_batch c) ≠ BcIdle;
  cc_done : aw_closer (cn_async c) = CloseDone → ∃ err, bt_close (cn_batch c) = BcDone err;
  cc_loop : bt_close (cn_batch c) = BcIdle ∨ bt_close (cn_batch c) = BcWait ∨ bt_loop (cn_batch c) = LpDone;
  cc_stored : bt_close (cn_batch c) = BcDone None → sw_stored (bt_writer (cn_batch c))
}.

Definition chain_inv (c : chain) : Prop :=
  close_inv c ∧ ∃ failures, aw_writeErrors (cn_async c) = int64 failures ∧
    0 <= failures <= len (inner_writes (aw_log (cn_async c))) ∧ call_inv failures c.

Lemma chain_inv_start q n w : chain_inv (new_chain q n w).
Proof.
  split; [constructor; simpl; try done; by left|]. exists 0. split; [done|]. split; [unfold len; simpl; lia|].
  split_and!; simpl; [constructor|done|unfold len; simpl; lia].
Qed.

(** A step of the asynchronous writer that calls nothing. *)
Lemma local_step a a' : aw_step a a' → aw_log a' = aw_log a →
  aw_writeErrors a' = aw_writeErrors a ∧ (aw_drain a' = aw_drain a ∨ aw_drain a = DrainRecv) ∧
  (aw_closer a' = CloseDone → aw_closer a = CloseDone).
Proof.
  intros [_ Hs] Hl. destruct Hs; simpl in *; try (split_and!; by auto).
  - unfold select_send. destruct (aw_chclosed a); [by auto|]. destruct (_ <? _); by auto.
  - exfalso. apply (f_equal length) in Hl. rewrite length_app in Hl. simpl in Hl. lia.
  - exfalso. apply (f_equal length) in Hl. rewrite length_app in Hl. simpl in Hl. lia.
Qed.

Lemma chain_inv_local c a : chain_inv c → aw_step (cn_async c) a → aw_log a = aw_log (cn_async c) →
  chain_inv (with_async a c).
Proof.
  intros ([H1 H2 H3 H4 H5] & E & HE & Hb & Hc) Hs Hl. destruct (local_step _ _ Hs Hl) as (Hw & Hd & Hcl). split.
  - constructor; simpl; try done; [|by auto]. intros Hi. destruct Hd as [->|Hd]; [by apply H1|].
    rewrite (H1 Hi) in Hd. done.
  - exists E. simpl. rewrite Hw, Hl. split; [done|]. split; [done|]. unfold call_inv in *. simpl. rewrite Hl.
    destruct (cn_call c) as [i|]; [|done]. destruct Hc as (req & pc & d & Hdr & Hrest).
    exists req, pc, d. split; [|done]. destruct Hd as [->|Hd]; [done|]. congruence.
Qed.

(** The only call that has not returned is the drain goroutine's. *)
Lemma running_call E c (j : nat) pc : call_inv E c → bt_calls (cn_batch c) !! j = Some pc → ¬ returned pc →
  cn_call c = Some j ∧ ∃ req done_, aw_drain (cn_async c) = DrainWrite req ∧ bt_calls (cn_batch c) = done_ ++ [pc] ∧
    length done_ = j ∧ Forall returned done_ ∧ (∀ r, pc = CWrite r → r = req) ∧
    bt_tried (cn_batch c) = inner_writes (aw_log (cn_async c)) ++ current req pc ∧
    len (bt_tried (cn_batch c)) <= len (bt_accepted (cn_batch c)) + E + call_failed pc.
Proof.
  unfold call_inv. destruct (cn_call c) as [i|].
  - intros (req & pc' & d & Hd & Hc & <- & Hf & Hrest) Hj Hn. rewrite Hc in Hj. apply lookup_snoc_Some in Hj as [[_ Hj]|[-> ->]].
    + destruct Hn. by apply (Forall_lookup_1 _ _ _ _ Hf Hj).
    + split; [done|]. exists req, d. by rewrite Hc.
  - intros (Hf & _) Hj Hn. destruct Hn. by apply (Forall_lookup_1 _ _ _ _ Hf Hj).
Qed.
Lemma call_moves E c (j : nat) pc pc' b : call_inv E c → bt_calls (cn_batch c) !! j = Some pc → ¬ returned pc →
  bt_calls b = <[j := pc']> (bt_calls (cn_batch c)) → (∀ r, pc' ≠ CWrite r) →
  bt_tried b = bt_tried (cn_batch c) ++ match pc with CWrite r => [r] | _ => [] end →
  len (bt_tried b) + len (bt_accepted (cn_batch c)) <=
    len (bt_tried (cn_batch c)) + len (bt_accepted b) + call_failed pc' →
  call_inv E (with_batch b c).
Proof.
  intros Hc Hj Hn Hb Hw Ht Hl. destruct (running_call E c j pc Hc Hj Hn) as (Hi & req & d & Hd & Hcalls & <- & Hf & Hr & Htr & Hle).
  unfold call_inv. simpl. rewrite Hi. exists req, pc', d.
  assert (call_failed pc = 0) as Hz by (destruct pc as [| | | |[]]; try done; destruct Hn; by eexists).
  split; [done|]. split; [rewrite Hb, Hcalls, list_insert_alter, alter_app_r_alt, Nat.sub_diag by lia; done|].
  split; [done|]. split; [done|]. split; [intros r ->; by destruct (Hw r)|]. split; [|lia].
  assert (current req pc' = [req]) as -> by (destruct pc' as [r| | | |]; [by destruct (Hw r)|done..]).
  rewrite Ht, Htr, <- app_assoc. f_equal. destruct pc as [r| | | |]; [by rewrite (Hr r eq_refl)|done..].
Qed.

(** A step of the batching writer that leaves its calls alone. *)
Lemma call_stays E c b : call_inv E c → bt_calls b = bt_calls (cn_batch c) → bt_tried b = bt_tried (cn_batch c) →
  bt_accepted b = bt_accepted (cn_batch c) → call_inv E (with_batch b c).
Proof. intros Hc E1 E2 E3. unfold call_inv in *. simpl. by rewrite E1, E2, E3. Qed.

Lemma close_stays c b : close_inv c → bt_close b = bt_close (cn_batch c) → bt_closed b = bt_closed (cn_batch c) →
  (bt_loop (cn_batch c) = LpDone → bt_loop b = LpDone) →
  (bt_close (cn_batch c) = BcDone None → bt_writer b = bt_writer (cn_batch c)) → close_inv (with_batch b c).
Proof.
  intros [H1 H2 H3 H4 H5] E1 E2 E3 E4. constructor; simpl; rewrite ?E1, ?E2; try done.
  - destruct H4 as [?|[?|?]]; auto.
  - intros Hd. rewrite E4 by done. by apply H5.
Qed.

(** While a call runs, [Close] has not been called. *)
Lemma running_open E c (j : nat) pc : chain_inv c → call_inv E c → bt_calls (cn_batch c) !! j = Some pc → ¬ returned pc →
  bt_close (cn_batch c) = BcIdle.
Proof.
  intros ([H1 _ _ _ _] & _) Hc Hj Hn. destruct (running_call E c j pc Hc Hj Hn) as (_ & req & d & Hd & _).
  destruct (bt_close (cn_batch c)); [done|..]; rewrite H1 in Hd by done; done.
Qed.
Lemma not_returned pc : (∀ err, pc ≠ CReturned err) → ¬ returned pc.
Proof. intros H [err ->]. by destruct (H err). Qed.

Lemma chain_inv_internal c b : chain_inv c → batch_step (cn_batch c) b →
  length (bt_calls b) = length (bt_calls (cn_batch c)) → (bt_close (cn_batch c) = BcIdle → bt_close b = BcIdle) →
  chain_inv (with_batch b c).
Proof.
  intros Hinv Hstep Hlen Hidle. pose proof Hinv as (Hcl & E & HE & Hb & Hc).
  assert (∀ b', close_inv (with_batch b' c) → call_inv E (with_batch b' c) → chain_inv (with_batch b' c)) as Hmk.
  { intros b' H1 H2. split; [done|]. by exists E. }
  pose proof Hcl as [H1 H2 H3 H4 H5].
  destruct Hstep as [req| |i req Hi|i Hi|i Hi|i w err Hi Hf|Hl Hpos|Hl|w err Hl Hf|Hl Hcan|Hi|Hi Hl|w err Hi Hf|w err Hi Hf].
  - unfold begin_Write in Hlen. destruct (bt_closed _); simpl in Hlen; rewrite length_app in Hlen; simpl in Hlen; lia.
  - simpl in Hlen. rewrite length_app in Hlen. simpl in Hlen. lia.
  - pose proof (running_open _ _ _ _ Hinv Hc Hi ltac:(by apply not_returned)) as Ho.
    unfold inner_write. destruct (sw_Write req (bt_writer (cn_batch c))) as [w [e|]]; apply Hmk.
    + apply close_stays; [done|done|done|done|]. intros Hd. rewrite Ho in Hd. done.
    + eapply call_moves; [done|exact Hi|by apply not_returned|reflexivity|done|done|]. simpl. rewrite len_snoc. lia.
    + apply close_stays; [done|done|done|done|]. intros Hd. rewrite Ho in Hd. done.
    + eapply call_moves; [done|exact Hi|by apply not_returned|reflexivity|done|done|]. simpl. rewrite !len_snoc. lia.
  - apply Hmk; [by apply close_stays|].
    eapply call_moves; [done|exact Hi|by apply not_returned|reflexivity|by intros r; case_match|by rewrite app_nil_r|].
    unfold count_write. simpl. case_match; simpl; lia.
  - apply Hmk; [by apply close_stays|].
    eapply call_moves; [done|exact Hi|by apply not_returned|reflexivity|done|by rewrite app_nil_r|]. simpl. lia.
  - pose proof (running_open _ _ _ _ Hinv Hc Hi ltac:(by apply not_returned)) as Ho. apply Hmk.
    + apply close_stays; [done|done|done|done|]. intros Hd. rewrite Ho in Hd. done.
    + eapply call_moves; [done|exact Hi|by apply not_returned|reflexivity|done|by rewrite app_nil_r|]. destruct err; simpl; lia.
  - apply Hmk; [|by apply call_stays]. apply close_stays; try done. intros Hd. simpl. congruence.
  - apply Hmk; [|by apply call_stays]. apply close_stays; try done. intros Hd. simpl. congruence.
  - apply Hmk; [|by apply call_stays]. apply close_stays; try done; [intros Hd; congruence|].
    intros Hd. destruct H4 as [?|[?|?]]; congruence.
  - apply Hmk; [|by apply call_stays]. by apply close_stays.
  - specialize (Hidle Hi). done.
  - apply Hmk; [|by apply call_stays]. constructor; simpl; try done; [by intros _; apply H1; rewrite Hi| |by right; right].
    intros Hd. destruct (H3 Hd) as [? ?]. congruence.
  - apply Hmk; [|by apply call_stays]. constructor; simpl; try done; [by intros _; apply H1; rewrite Hi| |].
    + intros Hd. destruct (H3 Hd) as [? ?]. congruence.
    + destruct H4 as [?|[?|?]]; [congruence..|by right; right].
  - apply Hmk; [|by apply call_stays]. constructor; simpl; try done; [by intros _; apply H1; rewrite Hi| | |].
    + intros Hd. eauto.
    + destruct H4 as [?|[?|?]]; [congruence..|by right; right].
    + intros [= ->]. by eapply sw_close_ok.
Qed.
Lemma chain_inv_begin c req : chain_inv c → aw_drain (cn_async c) = DrainWrite req → cn_call c = None →
  chain_inv (begin_inner req c).
Proof.
  intros ([H1 H2 H3 H4 H5] & E & HE & Hb & Hc) Hd Hn.
  assert (bt_close (cn_batch c) = BcIdle) as Ho by (destruct (bt_close (cn_batch c)); [done|..]; rewrite H1 in Hd by done; done).
  assert (bt_closed (cn_batch c) = false) as Hcl by (destruct (bt_closed (cn_batch c)); [by destruct H2|done]).
  unfold call_inv in Hc. rewrite Hn in Hc. destruct Hc as (Hf & Ht & Hl).
  unfold begin_inner, begin_Write. rewrite Hcl. split; [constructor; simpl; done|]. exists E. split; [done|]. split; [done|].
  unfold call_inv. simpl. exists req, (CWrite req), (bt_calls (cn_batch c)). split_and!; try done.
  - by intros r [= ->].
  - by rewrite app_nil_r.
  - simpl. lia.
Qed.

Lemma chain_inv_return c i req err : chain_inv c → aw_drain (cn_async c) = DrainWrite req → cn_call c = Some i →
  bt_calls (cn_batch c) !! i = Some (CReturned err) → chain_inv (end_inner req err c).
Proof.
  intros ([H1 H2 H3 H4 H5] & E & HE & Hb & Hc) Hd Hi Hj. unfold call_inv in Hc. rewrite Hi in Hc.
  destruct Hc as (req' & pc & d & Hd' & Hcalls & <- & Hf & _ & Ht & Hl).
  rewrite Hd in Hd'. injection Hd' as <-. rewrite Hcalls, lookup_app_r, Nat.sub_diag in Hj by done. injection Hj as ->.
  split.
  - constructor; simpl; try done. intros Hne%H1. congruence.
  - exists (E + call_failed (CReturned err)). simpl. rewrite !inner_writes_app, HE. cbn [inner_writes omap list_omap]. rewrite len_snoc. split.
    { destruct err; simpl; [by rewrite int64_add_l|by rewrite Z.add_0_r]. }
    split; [destruct err; simpl; lia|]. unfold call_inv. simpl. rewrite inner_writes_app, Hcalls. split_and!; [|done|destruct err; simpl in *; lia].
    apply Forall_app_2; [done|]. constructor; [by exists err|done].
Qed.

Lemma chain_inv_close c : chain_inv c → aw_closer (cn_async c) = CloseWaiting → aw_drain (cn_async c) = DrainExit →
  bt_close (cn_batch c) = BcIdle → chain_inv (begin_close c).
Proof.
  intros ([H1 H2 H3 H4 H5] & E & HE & Hb & Hc) Hcl Hd Ho. split; [|exists E; split; [done|]; split; [done|]; by apply call_stays].
  constructor; simpl; try done; [|by right; left]. intros Hx. congruence.
Qed.

Lemma chain_inv_closed c err : chain_inv c → bt_close (cn_batch c) = BcDone err → chain_inv (end_close c).
Proof.
  intros ([H1 H2 H3 H4 H5] & E & HE & Hb & Hc) Ho.
  assert (inner_writes (aw_log (cn_async c) ++ [InnerClose]) = inner_writes (aw_log (cn_async c))) as Hlog
    by (by rewrite inner_writes_app, app_nil_r).
  split; [constructor; simpl; try done; by eauto|].
  exists E. split; [done|]. unfold call_inv in *. simpl in *. rewrite Hlog. by split.
Qed.

Lemma chain_reachable q n w c : rtc chain_step (new_chain q n w) c → chain_inv c.
Proof.
  revert c. apply rtc_ind_r; [apply chain_inv_start|]. intros y z _ Hyz Hy.
  destruct Hyz; [by apply chain_inv_local|by apply chain_inv_internal|by apply chain_inv_begin|by eapply chain_inv_return
    |by apply chain_inv_close|by eapply chain_inv_closed].
Qed.
(** What the batching writer was given is the beginning of what was accepted. *)
Lemma tried_prefix a E c : aw_inv (cn_async c) → call_inv E c → a = aw_accepted (cn_async c) →
  ∃ rest, a = bt_tried (cn_batch c) ++ rest.
Proof.
  intros Ha Hc ->. rewrite (ai_fifo _ Ha). unfold call_inv in Hc. destruct (cn_call c) as [i|].
  - destruct Hc as (req & pc & d & Hd & _ & _ & _ & _ & -> & _). rewrite Hd. simpl.
    destruct pc; cbn [current]; eexists; rewrite <- app_assoc; reflexivity.
  - destruct Hc as (_ & -> & _). eauto.
Qed.

Lemma sublist_full {A} (l k : list A) : l `sublist_of` k → len k <= len l → l = k.
Proof.
  induction 1 as [|x l k Hs IH|x l k Hs IH]; intros Hl; [done|..].
  - f_equal. apply IH. unfold len in *. simpl in *. lia.
  - apply sublist_length in Hs. unfold len in *. simpl in *. lia.
Qed.

Lemma int64_small_zero z : 0 <= z < 2 ^ 63 → int64 z = 0 → z = 0.
Proof. intros Hz. rewrite int64_id by (unfold in_int64; lia). done. Qed.

(** When [Close] has returned, every accepted request was given to the batching
    writer, and every one that was not counted as an error was accepted by it. *)
Lemma chain_done q n w c : rtc chain_step (new_chain q n w) c → aw_closer (cn_async c) = CloseDone →
  bt_tried (cn_batch c) = aw_accepted (cn_async c) ∧
  (len (aw_accepted (cn_async c)) < 2 ^ 63 →
     len (aw_accepted (cn_async c)) <= len (bt_accepted (cn_batch c)) + aw_writeErrors (cn_async c)).
Proof.
  intros Hst Hd. pose proof (chain_reachable _ _ _ _ Hst) as (Hcl & E & HE & Hb & Hc).
  destruct (chain_runs _ _ Hst) as [Ha _]. pose proof (aw_reachable_inv q _ Ha) as Hinv.
  destruct (ai_exit _ Hinv) as [Hq _]; [by apply (ai_done _ Hinv)|].
  assert (aw_drain (cn_async c) = DrainExit) as Hex by by apply (ai_done _ Hinv).
  pose proof (ai_fifo _ Hinv) as Hf. rewrite Hex, Hq in Hf. cbn [in_hand app] in Hf. rewrite app_nil_r in Hf.
  unfold call_inv in Hc. destruct (cn_call c) as [i|].
  { destruct Hc as (req & pc & d & Hdr & _). congruence. }
  destruct Hc as (_ & Ht & Hl). rewrite Hf, <- Ht. split; [done|]. intros Hlt.
  rewrite <- Ht in Hb. rewrite HE, int64_id by (unfold in_int64; lia). done.
Qed.

(** C20: what the agent acknowledges is stored.  In every interleaving of the sinks'
    writes, the drain goroutine, the flush ticks and [Close], the storage writer
    holds only requests the queue accepted, each at most once and in order.  Once
    [Close] has returned, the accepted requests that are missing are no more than
    the write errors the agent counted; without write errors the storage writer
    holds exactly the accepted requests, among them every request the HTTP sink
    answered with 200 after its write; and if the last close succeeded, they are
    stored. *)
Theorem capture_chain_delivers q n w c : sw_taken w = [] → rtc chain_step (new_chain q n w) c →
  let a := cn_async c in let store := bt_writer (cn_batch c) in
  sw_taken store `sublist_of` aw_accepted a ∧
  (aw_closer a = CloseDone → len (aw_accepted a) < 2 ^ 63 →
     len (aw_accepted a) <= len (sw_taken store) + aw_writeErrors a ∧
     (aw_writeErrors a = 0 →
        sw_taken store = aw_accepted a ∧
        ∀ (MR : MapRange) h h' id now sample r req err,
          handleHTTP (recording err) id now sample r h [] = (h', [req], StatusOK) → WriteDone req err ∈ aw_calls a →
          req ∈ sw_taken store ∧ cr_Path req = htr_Path r ∧ cr_Method req = htr_Method r) ∧
     ∃ err, bt_close (cn_batch c) = BcDone err ∧ (err = None → sw_stored store)).
Proof.
  intros Hw Hst a store. subst a store.
  pose proof (chain_reachable _ _ _ _ Hst) as (Hcl & E & HE & Hb & Hc).
  destruct (chain_runs _ _ Hst) as [Ha Hbt]. pose proof (aw_reachable_inv q _ Ha) as Hinv.
  destruct (batch_writer_keeps n w _ Hw Hbt) as (Hs1 & Hs2 & _).
  split; [destruct (tried_prefix _ E c Hinv Hc eq_refl) as [rest ->]; by apply sublist_inserts_r|].
  intros Hd Hlt. destruct (chain_done _ _ _ _ Hst Hd) as [Ht Hl]. specialize (Hl Hlt). rewrite Ht in Hs2.
  pose proof (sublist_length _ _ Hs1) as Hle.
  assert (len (bt_accepted (cn_batch c)) <= len (sw_taken (bt_writer (cn_batch c)))) by (unfold len; lia).
  split; [lia|]. split.
  - intros Hz. assert (sw_taken (bt_writer (cn_batch c)) = aw_accepted (cn_async c)) as Heq by (apply sublist_full; [done|lia]).
    split; [done|]. intros MR h h' id now sample r req err Hh Hin.
    destruct (http_sink_answers _ _ _ _ _ _ _ _ _ Hh) as [(_ & ? & _)|[(_ & -> & c0 & [= <-] & _ & _ & _ & Hm & Hp & _)|(? & _)]];
      [done| |done].
    rewrite Heq. split; [|done]. apply (ai_calls _ Hinv req None Hin).
  - destruct Hcl as [_ _ H3 _ H5]. destruct (H3 Hd) as [err He]. exists err. split; [done|]. intros ->. by apply H5.
Qed.
End Chain.

(** ** A concrete run

    One mirrored request goes all the way into a storage writer, with batches of
    one, and the agent shuts down. *)

#[local] Existing Instance canonical_range.

(** A storage writer in memory: what it holds and what it has stored. *)
Record memory_writer := Memory { mw_held : list CapturedRequest; mw_stored : list CapturedRequest }.

Definition memory_flush (m : memory_writer) : memory_writer * option go_error :=
  (Memory [] (mw_stored m ++ mw_held m), None).

#[local] Instance memory_storage : StorageWriter memory_writer.
Proof.
  refine {| sw_Write r m := (Memory (mw_held m ++ [r]) (mw_stored m), None); sw_Flush := memory_flush;
            sw_Close := memory_flush; sw_taken m := mw_stored m ++ mw_held m; sw_stored m := mw_held m = [] |}.
  - intros r m m' [= <-]. simpl. by rewrite app_assoc.
  - intros r m m' e [= <-].
  - intros m m' e [= <- <-]. simpl. by rewrite app_nil_r.
  - intros m m' e [= <- <-]. simpl. by rewrite app_nil_r.
  - by intros m m' [= <-].
Defined.

Definition demo_store : memory_writer := Memory [] [].

Lemma demo_chain_run (req : CapturedRequest) : ∃ c, rtc chain_step (new_chain 1 1 demo_store) c ∧ aw_closer (cn_async c) = CloseDone ∧
  len (aw_accepted (cn_async c)) < 2 ^ 63 ∧ aw_writeErrors (cn_async c) = 0 ∧ WriteDone req None ∈ aw_calls (cn_async c).
Proof.
  eexists. split.
  - eapply rtc_l; [eapply cn_local; [split; [done|apply (aw_call _ req)]|done]|]; simpl.
    eapply rtc_l; [eapply cn_local; [split; [done|by apply (aw_load _ 0%nat req)]|done]|]; simpl.
    eapply rtc_l; [eapply cn_local; [split; [done|by apply (aw_select _ 0%nat req)]|done]|]; simpl.
    eapply rtc_l; [eapply cn_local; [split; [done|by apply (aw_recv _ req [])]|done]|]; simpl.
    eapply rtc_l; [by apply (cn_begin _ req)|]; simpl.
    eapply rtc_l; [eapply cn_internal; [done|by apply (bt_inner _ 0%nat req)|done|done]|]; simpl.
    eapply rtc_l; [eapply cn_internal; [done|by apply (bt_count _ 0%nat)|done|done]|]; simpl.
    eapply rtc_l; [eapply cn_internal; [done|by apply (bt_reset _ 0%nat)|done|done]|]; simpl.
    eapply rtc_l; [eapply cn_internal; [done|eapply (bt_flush _ 0%nat); [done|reflexivity]|done|done]|]; simpl.
    eapply rtc_l; [by eapply (cn_return _ 0%nat req None)|]; simpl.
    eapply rtc_l; [eapply cn_local; [split; [done|by apply aw_close_store]|done]|]; simpl.
    eapply rtc_l; [eapply cn_local; [split; [done|by apply aw_close_channel]|done]|]; simpl.
    eapply rtc_l; [eapply cn_local; [split; [done|by apply aw_exit]|done]|]; simpl.
    eapply rtc_l; [by apply cn_close|]; simpl.
    eapply rtc_l; [eapply cn_internal; [done|by apply bt_loop_end|done|done]|]; simpl.
    eapply rtc_l; [eapply cn_internal; [done|by apply bt_close_wait|done|done]|]; simpl.
    eapply rtc_l; [eapply cn_internal; [done|by eapply bt_close_flush|done|done]|]; simpl.
    eapply rtc_l; [eapply cn_internal; [done|by eapply bt_close_close|done|done]|]; simpl.
    eapply rtc_l; [by eapply cn_closed|]. apply rtc_refl.
  - split; [done|]. split; [done|]. split; [done|]. by left.
Qed.

Lemma capture_chain_delivers_witness : ∃ c, rtc chain_step (new_chain 1 1 demo_store) c ∧
  sw_taken (bt_writer (cn_batch c)) = aw_accepted (cn_async c) ∧ demo_sunk ∈ sw_taken (bt_writer (cn_batch c)).
Proof.
  destruct (demo_chain_run demo_sunk) as (c & Hst & Hd & Hl & Hz & Hin). exists c. split; [exact Hst|].
  destruct (capture_chain_delivers (SW := memory_storage) 1 1 demo_store c eq_refl Hst) as [_ H].
  destruct (H Hd Hl) as (_ & Hs & _). destruct (Hs Hz) as [Heq Hsink]. split; [exact Heq|].
  destruct demo_sink as [h' Hh]. exact (proj1 (Hsink _ _ _ _ _ _ _ _ _ Hh Hin)).
Defined.
