(* ===== verification/HttpSender.v ===== *)
(** * The HTTP sender ([internal/plugin/replay/sender_http.go])

    How a captured request becomes an outbound one, and the answer a result.
    [net/http]'s checks of a method and URL, and what the target answers, are
    arguments.  Together with [AgentServer] this is the way of a request from the
    mirror to the target of a replay. *)

From S2P Require Import Prelude GoStd Storage Readers Shard Engine Preshard Agent AsyncWriter AgentServer.
From Stdlib Require Import Ascii.

Local Open Scope Z_scope.

(** ** Headers ([http.Header]) *)

Notation header := (gmap string (list string)).

Definition header_Add (k v : string) (h : header) : header :=
  let k := CanonicalHeaderKey k in <[k := default [] (h !! k) ++ [v]]> h.

Definition header_Set (k v : string) (h : header) : header := <[CanonicalHeaderKey k := [v]]> h.

(** ** Configuration *)

Record HTTPSenderConfig := {
  hsc_TargetBaseURL : string;
  hsc_MaxResponseBody : Z;
  hsc_OverrideHeaders : gmap string string
}.

Record HTTPSender := {
  hs_baseURL : string;
  hs_maxResponseBody : Z;
  hs_overrideHeaders : gmap string string
}.

Definition NewHTTPSender (cfg : HTTPSenderConfig) : result HTTPSender :=
  if bool_decide (hsc_TargetBaseURL cfg = "") then Err (FmtError "target base URL is required" [])
  else Ok {| hs_baseURL := TrimRightSlash (hsc_TargetBaseURL cfg);
             hs_maxResponseBody := if hsc_MaxResponseBody cfg <=? 0 then 4096 else hsc_MaxResponseBody cfg;
             hs_overrideHeaders := hsc_OverrideHeaders cfg |}.

(** ** Sending *)

Definition hopByHopHeaders : list string :=
  ["Connection"; "Keep-Alive"; "Proxy-Connection"; "Transfer-Encoding"; "TE"; "Trailer"; "Upgrade"; "Host"; "Content-Length"].

Definition isHopByHopHeader (name : string) : bool := bool_decide (CanonicalHeaderKey name ∈ hopByHopHeaders).

(** An outbound request; without a body when the captured one is empty. *)
Record out_request := {
  or_Method : string;
  or_URL : string;
  or_Header : header;
  or_Body : option string
}.

(** What the target answers: a status and a body that may break off. *)
Record response := { rsp_StatusCode : Z; rsp_Body : string; rsp_BodyErr : option go_error }.

Section Sender.
Context {MR : MapRange}.

(** [http.NewRequestWithContext] on a method and URL: its error, if it has one.
    The empty method means GET. *)
Variable new_request : string → string → option go_error.

Definition copy_header (h : header) (kv : string * list string) : header :=
  if isHopByHopHeader (fst kv) then h else foldl (λ h v, header_Add (fst kv) v h) h (snd kv).

Definition out_headers (s : HTTPSender) (req : CapturedRequest) : header :=
  let h := foldl copy_header ∅ (go_range (cr_Headers req)) in
  let h := foldl (λ h kv, header_Set (fst kv) (snd kv) h) h (go_range (hs_overrideHeaders s)) in
  header_Set "X-Kapture-Request-ID" (cr_ID req) (header_Set "X-Kapture-Replay" "true" h).

Definition out_request_of (s : HTTPSender) (req : CapturedRequest) : result out_request :=
  let url := hs_baseURL s +:+ cr_Path req in
  match new_request (cr_Method req) url with
  | Some err => Err (WrapError "create http request: %w" [] err)
  | None =>
      Ok {| or_Method := if bool_decide (cr_Method req = "") then "GET" else cr_Method req;
            or_URL := url; or_Header := out_headers s req;
            or_Body := if 0 <? str_len (cr_Body req) then Some (cr_Body req) else None |}
  end.

(** The response body, cut at the limit. *)
Definition read_response (max : Z) (r : response) : string * option go_error :=
  if max <=? str_len (rsp_Body r) then (str_take max (rsp_Body r), None) else (rsp_Body r, rsp_BodyErr r).

(** [Send] with what [client.Do] answers, after [duration], at [now]. *)
Definition Send (s : HTTPSender) (Do : out_request → result response) (duration now : Z) (req : CapturedRequest) : send_answer :=
  match out_request_of s req with
  | Err err => SendFailed None err
  | Ok out =>
      match Do out with
      | Err err =>
          SendFailed (Some {| res_RequestID := cr_ID req; res_StatusCode := 0; res_ResponseBody := "";
                              res_Duration := duration; res_Error := Some err; res_Timestamp := now |}) err
      | Ok r =>
          let '(body, readErr) := read_response (hs_maxResponseBody s) r in
          Sent {| res_RequestID := cr_ID req; res_StatusCode := rsp_StatusCode r; res_ResponseBody := body;
                  res_Duration := duration;
                  res_Error := match readErr with Some e => Some (WrapError "read response body: %w" [] e) | None => None end;
                  res_Timestamp := now |}
      end
  end.
End Sender.

(** ** Canonical header names *)

(** The table's entry for TE is not in canonical form, so no name ever matches it. *)
Theorem te_is_never_dropped name : CanonicalHeaderKey name ≠ "TE".
Proof.
  unfold CanonicalHeaderKey. destruct (all_valid name) eqn:Hv; [|by intros ->].
  destruct name as [|a [|b [|c s]]]; [done|done| |done]. simpl. intros [= Ha Hb]. revert Ha Hb.
  destruct (Ascii.eqb_spec a "-") as [->|_]; [done|]. intros _. clear Hv.
  destruct b as [[] [] [] [] [] [] [] []]; vm_compute; done.
Qed.

Theorem te_is_forwarded : isHopByHopHeader "TE" = false ∧ isHopByHopHeader "Te" = false.
Proof. done. Qed.

(** ** The headers that are sent *)

Definition canonical (k : string) : Prop := CanonicalHeaderKey k = k.

Lemma add_values k vs (h : header) k' : canonical k →
  foldl (λ h v, header_Add k v h) h vs !! k' =
    if bool_decide (k' = k) && negb (bool_decide (vs = [])) then Some (default [] (h !! k) ++ vs) else h !! k'.
Proof.
  intros Hk. revert h. induction vs as [|v vs IH]; intros h; simpl; [by rewrite andb_false_r|].
  rewrite IH. unfold header_Add. cbv zeta. rewrite Hk. clear IH.
  destruct (decide (k' = k)) as [->|Hne].
  - rewrite bool_decide_eq_true_2, lookup_insert_eq by done. simpl. destruct vs as [|v' vs]; simpl; [done|].
    by rewrite <- app_assoc.
  - rewrite (bool_decide_eq_false_2 (k' = k)) by done. simpl. by rewrite lookup_insert_ne by done.
Qed.

Lemma copy_other l h k : Forall (λ kv, canonical (fst kv)) l → k ∉ l.*1 ∨ isHopByHopHeader k = true →
  foldl copy_header h l !! k = (h : header) !! k.
Proof.
  intros Hl. revert h. induction Hl as [|[k' vs] l Hk Hl IH]; intros h Hnot; [done|]. simpl.
  rewrite IH by (destruct Hnot as [?%not_elem_of_cons|]; [left; tauto|by right]).
  unfold copy_header. simpl in *. destruct (isHopByHopHeader k') eqn:Hh; [done|]. rewrite add_values by done.
  rewrite bool_decide_eq_false_2; [done|]. intros ->. destruct Hnot as [[]%not_elem_of_cons|]; [done|congruence].
Qed.

Lemma copy_lookup l h k vs : Forall (λ kv, canonical (fst kv)) l → NoDup l.*1 → (k, vs) ∈ l → vs ≠ [] →
  isHopByHopHeader k = false → (h : header) !! k = None → foldl copy_header h l !! k = Some vs.
Proof.
  intros Hl. revert h. induction Hl as [|[k' vs'] l Hk Hl IH]; intros h Hnd Hin Hvs Hhop Hnone; [by apply elem_of_nil in Hin|].
  simpl in *. apply NoDup_cons in Hnd as [Hk' Hnd]. apply elem_of_cons in Hin as [[= <- <-]|Hin].
  - rewrite copy_other by (by try left). unfold copy_header. simpl. rewrite Hhop, add_values by done.
    rewrite bool_decide_eq_true_2, bool_decide_eq_false_2 by done. simpl. by rewrite Hnone.
  - apply IH; try done. unfold copy_header. simpl. destruct (isHopByHopHeader k'); [done|].
    rewrite add_values by done. rewrite bool_decide_eq_false_2; [done|]. intros ->. apply Hk'.
    apply list_elem_of_fmap. by exists (k', vs).
Qed.

Lemma set_other l (h : header) k : (∀ o v, (o, v) ∈ l → CanonicalHeaderKey o ≠ k) →
  foldl (λ h kv, header_Set (fst kv) (snd kv) h) h l !! k = h !! k.
Proof.
  revert h. induction l as [|[o v] l IH]; intros h Hl; [done|]. simpl. rewrite IH by (intros; eapply Hl; by right).
  unfold header_Set. simpl. apply lookup_insert_ne. eapply Hl. by left.
Qed.

(** The headers a replay marks its requests with. *)
Definition replay_marks : list string := ["X-Kapture-Replay"; "X-Kapture-Request-Id"].

(** What is sent under a name that is neither overridden nor one of the marks. *)
Lemma out_headers_lookup {MR : MapRange} s req k : (∀ n vs, cr_Headers req !! n = Some vs → canonical n) →
  (∀ o v, hs_overrideHeaders s !! o = Some v → CanonicalHeaderKey o ≠ k) → k ∉ replay_marks →
  (isHopByHopHeader k = true → out_headers s req !! k = None) ∧
  (isHopByHopHeader k = false → ∀ vs, cr_Headers req !! k = Some vs → vs ≠ [] → out_headers s req !! k = Some vs) ∧
  (cr_Headers req !! k = None → out_headers s req !! k = None).
Proof.
  intros Hcan Hov Hmark.
  assert (out_headers s req !! k = foldl copy_header ∅ (go_range (cr_Headers req)) !! k) as ->.
  { unfold out_headers, header_Set at 1 2.
    rewrite !lookup_insert_ne by (intros <-; apply Hmark; vm_compute; set_solver).
    apply set_other. intros o v Ho%elem_of_go_range. by eapply Hov. }
  assert (Forall (λ kv : string * list string, canonical (fst kv)) (go_range (cr_Headers req))) as Hl.
  { apply Forall_forall. intros [n vs] Hn%elem_of_go_range. by eapply Hcan. }
  split_and!.
  - intros Hh. rewrite copy_other by (by try right). apply lookup_empty.
  - intros Hh vs Hk Hvs. apply copy_lookup; [done|apply NoDup_fst_go_range|by apply elem_of_go_range|done..].
  - intros Hk. rewrite copy_other; [apply lookup_empty|done|]. left.
    intros ([n vs] & -> & Hn%elem_of_go_range)%list_elem_of_fmap. simpl in Hk. congruence.
Qed.

Lemma Redact_None r headers name : headers !! name = None → Redact r headers !! name = None.
Proof. unfold Redact. intros H. case_bool_decide; [done|]. by rewrite map_lookup_imap, H. Qed.

Lemma Redact_Some r headers name vs : headers !! name = Some vs →
  Redact r headers !! name = Some (if redacts r name then replicate (length vs) RedactedValue else vs).
Proof.
  intros H. unfold Redact. case_bool_decide as Hr.
  - rewrite H. f_equal. subst r. unfold redacts. by rewrite bool_decide_eq_false_2 by set_solver.
  - by rewrite map_lookup_imap, H.
Qed.

(** ** From the mirror to the target *)


(** The query of a request is kept only in the metadata, which nothing replays:
    mirrored requests that differ in their query are replayed alike. *)
Definition with_query (q : string) (r : http_request) : http_request :=
  {| htr_Method := htr_Method r; htr_Path := htr_Path r; htr_RawQuery := q; htr_Host := htr_Host r;
     htr_RemoteAddr := htr_RemoteAddr r; htr_Headers := htr_Headers r; htr_Body := htr_Body r; htr_BodyErr := htr_BodyErr r |}.

Theorem query_is_lost {MR : MapRange} h h1 h2 id now sample r q c1 c2 st1 st2 s new_request :
  handleHTTP (recording None) id now sample r h [] = (h1, [c1], st1) →
  handleHTTP (recording None) id now sample (with_query q r) h [] = (h2, [c2], st2) →
  out_request_of new_request s c1 = out_request_of new_request s c2.
Proof.
  unfold handleHTTP, Handle. cbn [bump ch_filter ch_maxBodyBytes ch_redactor].
  change (read_limited (int64 (ch_maxBodyBytes h + 1)) (http_captured (with_query q r)))
    with (read_limited (int64 (ch_maxBodyBytes h + 1)) (http_captured r)).
  change (Matches (ch_filter h) sample (http_captured (with_query q r))) with (Matches (ch_filter h) sample (http_captured r)).
  destruct (Matches (ch_filter h) sample (http_captured r)); cbn [negb]; [|done].
  destruct (read_limited _ _) as [body|]; [|done]. cbn [recording app].
  intros [= _ <- _] [= _ <- _]. reflexivity.
Qed.

(** ** A concrete replay *)

#[local] Existing Instance canonical_range.

Definition demo_http_sender : HTTPSender :=
  {| hs_baseURL := "http://shop:80"; hs_maxResponseBody := 4096; hs_overrideHeaders := {["authorization" := "Bearer x"]} |}.

Definition demo_replayed : out_request :=
  {| or_Method := "GET"; or_URL := "http://shop:80/orders"; or_Header := out_headers demo_http_sender demo_sunk;
     or_Body := Some "abc" |}.

