(* ===== verification/DirectReplay.v ===== *)
(** * The direct replay ([runDirectReplay] of [cmd/replay-engine/main.go])

    The builtin engine with its HTTP sender, its checkpoints and its report, from
    the flags to the exit: setting up, the run with a checkpoint updated by every
    result, and what is left on disk and reported at the end.  The engine's
    goroutines are those of [Engine]; the checkpointer is that of [Checkpoint]. *)

From Stdlib Require Import Ascii.
From S2P Require Import Prelude GoStd GoTime GoFlag GoFloat Storage Readers Shard Engine Checkpoint Summary HttpSender ReplayMain.

Local Open Scope Z_scope.

(** ** Setting up *)

(** [strings.Cut] at a separator of one character. *)
Fixpoint cut_char (sep : ascii) (s : string) : option (string * string) :=
  match s with
  | "" => None
  | String a s' =>
      if Ascii.eqb a sep then Some ("", s')
      else match cut_char sep s' with Some (k, v) => Some (String a k, v) | None => None end
  end.

Definition parseOverrideHeaders (headers : string) : gmap string string :=
  if bool_decide (headers = "") then ∅
  else foldl (λ m pair, match cut_char "="%char pair with
                        | Some (k, v) => <[TrimSpace k := TrimSpace v]> m
                        | None => m
                        end) ∅ (split_char ","%char headers).

(** The sender, the checkpointer, the rate mode and the engine; [mkdir] is the
    answer of [os.MkdirAll] on the checkpoint directory. *)
Definition direct_setup {GP : GoParse} (cfg : config) (mkdir : option go_error) : result (HTTPSender * Checkpointer * RateMode * Engine) :=
  match NewHTTPSender {| hsc_TargetBaseURL := cfg_targetURL cfg; hsc_MaxResponseBody := 0;
                         hsc_OverrideHeaders := parseOverrideHeaders (cfg_overrideHeaders cfg) |} with
  | Err err => Err (WrapError "create sender: %w" [] err)
  | Ok sender =>
      match NewCheckpointer (cfg_checkpointDir cfg) mkdir with
      | Err err => Err (WrapError "create checkpointer: %w" [] err)
      | Ok checkpointer =>
          match buildReadOptions cfg with
          | Err err => Err err
          | Ok readOpts =>
              match parseRateMode (cfg_rateMode cfg) with
              | Err err => Err err
              | Ok rateMode =>
                  match NewEngine {| ec_Reader := true; ec_Sender := true; ec_Transformers := [];
                    ec_ReadOptions := readOpts; ec_RateMode := rateMode; ec_RatePerSecond := cfg_ratePerSecond cfg;
                    ec_TimeScale := cfg_timeScale cfg; ec_Concurrency := cfg_concurrency cfg;
                    ec_ShardIndex := cfg_shardIndex cfg; ec_ShardCount := cfg_shardCount cfg |} with
                  | Err err => Err (WrapError "create engine: %w" [] err)
                  | Ok engine => Ok (sender, checkpointer, rateMode, engine)
                  end
              end
          end
      end
  end.

(** The checkpoint a run starts with, at [now]. *)
Definition direct_checkpoint (cfg : config) (rateMode : RateMode) (now : Z) : Checkpoint :=
  {| cp_ReplayID := cfg_replayID cfg; cp_CaptureID := cfg_captureID cfg; cp_LastObjectKey := "";
     cp_LastRequestID := ""; cp_RequestsSent := 0; cp_RequestsErrored := 0; cp_RequestsFiltered := 0;
     cp_BytesProcessed := 0; cp_StartTime := now; cp_LastUpdate := zero_time; cp_ElapsedDuration := 0;
     cp_EngineParams := {| cep_RateMode := rateMode; cep_RatePerSecond := cfg_ratePerSecond cfg;
                           cep_TimeScale := cfg_timeScale cfg; cep_Concurrency := cfg_concurrency cfg;
                           cep_StorageType := cfg_storageType cfg |} |}.

(** ** The run *)

(** What [engine.Run] returns once its goroutines have. *)
Definition engine_Run {R} (is_timeout : go_error → bool) (running : bool) (opened : option go_error) (st : @run_state R)
    : result (go Summary) :=
  match run_begin running opened with
  | Some err => Err err
  | None => run_summary is_timeout st
  end.

(** How a replay command ends: the error it exits with, the disk, the report. *)
Record direct_end := {
  de_err : option go_error;
  de_disk : filesystem;
  de_report : option RunReport
}.

Section Direct.
Context {GP : GoParse} {CC : CheckpointCodec} (is_timeout : go_error → bool).

(** [runDirectReplay]: [es] are the calls on the checkpointer while the engine runs
    and [o] the system calls of its [Stop]; the engine ends in [st]. *)
Definition runDirectReplay {R} (cfg : config) (mkdir : option go_error) (now : Z) (opened : option go_error)
    (es : list ck_event) (o : write_outcomes) (st : @run_state R) (disk : filesystem) : go direct_end :=
  let fail err := Ret {| de_err := Some err; de_disk := disk; de_report := None |} in
  match direct_setup cfg mkdir with
  | Err err => fail err
  | Ok (_, checkpointer, rateMode, _) =>
      match ck_start (es ++ [Stopping o]) (direct_checkpoint cfg rateMode now) checkpointer disk with
      | Panic => Panic
      | Ret (checkpointer, disks, _, _) =>
          let disk := hd disk disks in
          let fail err := Ret {| de_err := Some err; de_disk := disk; de_report := None |} in
          match engine_Run is_timeout false opened st with
          | Err err => fail (WrapError "replay engine: %w" [] err)
          | Ok Panic => Panic
          | Ok (Ret summary) =>
              if cfg_failOnEmpty cfg && (sm_TotalRequests summary =? 0) && (sm_FilteredCount summary =? 0)
                 && (st_skipped st =? 0)
              then fail (FmtError ("no captured requests found for capture-id %q (missing capture or preshard layout?); "
                                   +:+ "pass --fail-on-empty=false to allow empty replays") [FStr (cfg_captureID cfg)])
              else Ret {|
                de_err := None;
                de_disk := if sm_ErrorCount summary =? 0 then Delete checkpointer (cfg_replayID cfg) disk else disk;
                de_report := if bool_decide (cfg_summaryPath cfg = "") then None else Some (NewRunReport summary) |}
          end
      end
  end.
End Direct.

(** ** The checkpoint of a run *)

(** While the engine runs, the result handler records results and the flush loop
    ticks; nothing else calls the checkpointer. *)
Definition run_event (e : ck_event) : Prop :=
  match e with HandledResult _ _ None _ | Tick _ => True | _ => False end.

Definition handled_result (e : ck_event) : option Result :=
  match e with HandledResult _ _ None r => Some r | _ => None end.

Definition handled (es : list ck_event) : list Result := omap handled_result es.

Definition succeededb (r : Result) : bool := negb (failedb r).

Lemma countb_cons {A} (f : A → bool) x l : countb f (x :: l) = (if f x then 1 else 0) + countb f l.
Proof. unfold countb, len. simpl. destruct (f x); simpl; lia. Qed.

(** A checkpoint that went on from [cp] by the results [rs]. *)
Record counted (rs : list Result) (cp cp' : Checkpoint) : Prop := {
  cn_replay : cp_ReplayID cp' = cp_ReplayID cp;
  cn_capture : cp_CaptureID cp' = cp_CaptureID cp;
  cn_sent : cp_RequestsSent cp' = cp_RequestsSent cp + countb succeededb rs;
  cn_errored : cp_RequestsErrored cp' = cp_RequestsErrored cp + countb failedb rs
}.

Lemma counted_nil cp : counted [] cp cp.
Proof. constructor; [done|done|by rewrite Z.add_0_r..]. Qed.

Lemma counted_cons r rs cp cp' now elapsed : 0 <= cp_RequestsSent cp → 0 <= cp_RequestsErrored cp →
  cp_RequestsSent cp < 2 ^ 62 → cp_RequestsErrored cp < 2 ^ 62 →
  counted rs (with_LastUpdate now (record_result elapsed r cp)) cp' → counted (r :: rs) cp cp'.
Proof.
  intros H1 H2 H3 H4 [Hr Hc Hs He]. simpl in *. constructor; [done|done| |].
  - rewrite Hs, countb_cons. unfold succeededb, failedb. destruct (res_Error r); simpl; [lia|].
    rewrite int64_id by (unfold in_int64; lia). lia.
  - rewrite He, countb_cons. unfold failedb. destruct (res_Error r); simpl; [|lia].
    rewrite int64_id by (unfold in_int64; lia). lia.
Qed.

Section Events.
Context {CC : CheckpointCodec}.

Lemma direct_events es o c w ws cps errs cp : Forall run_event es → ck_current c = Some cp →
  ck_flusher c = Some false → 0 <= cp_RequestsSent cp → 0 <= cp_RequestsErrored cp →
  cp_RequestsSent cp + len (handled es) < 2 ^ 62 → cp_RequestsErrored cp + len (handled es) < 2 ^ 62 →
  ∃ c' ws' cps' errs' cp', ck_run (es ++ [Stopping o]) c w ws cps errs = Ret (c', ws', cps', errs') ∧
    ck_dir c' = ck_dir c ∧ ck_dirty c' = false ∧ ck_current c' = Some cp' ∧ counted (handled es) cp cp'.
Proof.
  intros Hes. revert c w ws cps errs cp. induction Hes as [|e es He Hes IH]; intros c w ws cps errs cp Hc Hf H1 H2 H3 H4.
  - simpl. unfold Stop. rewrite Hf. unfold flush. simpl. rewrite Hc. destruct (ck_dirty c); simpl.
    + destruct (writeCheckpoint _ _ _ _) as [new err]. eexists _, _, _, _, cp. split_and!; [done..|apply counted_nil].
    + eexists _, _, _, _, cp. split_and!; [done..|apply counted_nil].
  - destruct e as [now elapsed inner r| | |t|]; try done.
    + destruct inner; [done|]. unfold handled in *. simpl in *. unfold Update. rewrite Hc. simpl.
      assert (∀ x y : Z, x + len (r :: omap handled_result es) < y → x + 1 + len (omap handled_result es) < y) as Hl
        by (intros x y; unfold len; simpl; lia).
      pose proof (len_nonneg (omap handled_result es)). pose proof (Hl _ _ H3). pose proof (Hl _ _ H4).
      edestruct (IH (MkCheckpointer (ck_dir c) (Some (with_LastUpdate now (record_result elapsed r cp))) true (ck_flusher c)))
        as (c' & ws' & cps' & errs' & cp' & Hr & Hd & Hdi & Hcur & Hcn); [done|done|..|].
      5:{ exists c', ws', cps', errs', cp'. split_and!; [exact Hr|done..|].
          eapply counted_cons; [lia|lia|lia|lia|exact Hcn]. }
      all: simpl; destruct (res_Error r); rewrite ?int64_id by (unfold in_int64; lia); lia.
    + simpl. unfold handled in *. simpl in *. rewrite decide_True by done.
      unfold flush. rewrite Hc. destruct (ck_dirty c); simpl.
      * destruct (writeCheckpoint _ _ _ _) as [new err]. by eapply (IH (MkCheckpointer _ _ _ _)).
      * rewrite Hc. by eapply IH.
Qed.
End Events.

(** ** How a replay ends *)

Section Counts.
Context (is_timeout : go_error → bool).

Lemma add_results_errors n l : len l < 2 ^ 53 →
  sm_ErrorCount (foldl (add_result is_timeout) (with_Total n emptySummary) l) = countb failedb l.
Proof.
  induction l as [|r l IH] using rev_ind; intros Hl; [done|].
  rewrite foldl_app, countb_snoc. simpl. rewrite len_snoc in Hl. pose proof (countb_bounds failedb l) as Hb.
  rewrite IH by lia. fold (failedb r). destruct (failedb r); [|lia]. by rewrite int64_id by (unfold in_int64; lia).
Qed.

Lemma summarize_errors results s : len results < 2 ^ 53 → Summarize is_timeout results = Ret s →
  sm_ErrorCount s = countb failedb results.
Proof.
  intros Hl Hs. rewrite <- (add_results_errors (len results)) by done. revert Hs. unfold Summarize.
  destruct results as [|r rs]; [by intros [= <-]|]. generalize (res_Duration <$> r :: rs). intros ds.
  destruct (percentileDuration ds (fraction p50)), (percentileDuration ds (fraction p95)),
    (percentileDuration ds (fraction p99)); try done. by intros [= <-].
Qed.
End Counts.

Lemma new_engine_concurrency ec e : NewEngine ec = Ok e → 0 < eng_concurrency e.
Proof.
  unfold NewEngine. intros H. repeat case_match; simplify_eq; simpl; zbool; lia.
Qed.

Lemma handled_failures es results : handled es ≡ₚ results →
  countb failedb (handled es) = countb failedb results ∧
  countb succeededb (handled es) = len results - countb failedb results.
Proof.
  intros Hp. rewrite !(countb_perm _ _ _ Hp). split; [done|]. clear.
  induction results as [|r rs IH]; [done|]. rewrite !countb_cons. unfold succeededb at 1.
  replace (len (r :: rs)) with (1 + len rs) by (unfold len; simpl; lia). destruct (failedb r); simpl; lia.
Qed.

Section Theorems.
Context {GP : GoParse} {CC : CheckpointCodec} {R : Type} (is_timeout : go_error → bool).
Context (Next : R → R * result CapturedRequest) (ctxErr : go_error).

(** The disk a run leaves, as [Load] sees it: no checkpoint when every request
    succeeded, else the checkpoint with the counts of the run. *)
Definition leaves (c : Checkpointer) (id : string) (results : list Result) (disk : filesystem) : Prop :=
  if countb failedb results =? 0 then Load c id disk = Ok None
  else ∃ cp, Load c id disk = Ok (Some cp) ∧ cp_ReplayID cp = id ∧
    cp_RequestsErrored cp = countb failedb results ∧
    cp_RequestsSent cp = len results - countb failedb results.

Lemma ck_run_disks es c w ws cps errs c' ws' cps' errs' :
  ck_run es c w ws cps errs = Ret (c', ws', cps', errs') → ws ≠ [] → ws' ≠ [].
Proof.
  revert c w ws cps errs. induction es as [|e es IH]; simpl; intros c w ws cps errs Hr Hne.
  - by injection Hr as _ <- _ _.
  - destruct (ck_exec e c w) as [[[c1 new] err]|]; [|done]. apply IH in Hr; [done|]. by destruct new.
Qed.

Lemma leaves_failed c id results disk n : leaves c id results disk → countb failedb results = n → 0 < n →
  ∃ cp, Load c id disk = Ok (Some cp) ∧ cp_RequestsErrored cp = n ∧ cp_RequestsSent cp = len results - n.
Proof.
  unfold leaves. intros Hl Hc Hn. rewrite Hc in Hl. rewrite (proj2 (Z.eqb_neq n 0)) in Hl by lia.
  destruct Hl as (cp & HL & _ & He & Hs). by exists cp.
Qed.

(** The checkpoint file after [Stop], when no write failed. *)
Lemma stopped_checkpoint cfg c rateMode now es o disk results c' ws cps errs :
  ck_dir c = cfg_checkpointDir cfg → ck_dirty c = false →
  synced_at (checkpointPath c (cfg_replayID cfg)) disk → Forall run_event es → handled es ≡ₚ results →
  len results < 2 ^ 53 → 0 < countb failedb results →
  ck_start (es ++ [Stopping o]) (direct_checkpoint cfg rateMode now) c disk = Ret (c', ws, cps, errs) →
  Forall cp_ascii cps → Forall (λ e, e = None) errs →
  leaves c (cfg_replayID cfg) results (hd disk ws).
Proof.
  intros Hdir Hcd Hs Hes Hp Hl Hfail Hr Ha He. unfold leaves. rewrite (proj2 (Z.eqb_neq _ 0)) by lia.
  set (initial := direct_checkpoint cfg rateMode now) in *.
  assert (len (handled es) = len results) as Hlen by (unfold len; by rewrite Hp).
  destruct (direct_events es o (Start initial c) disk [disk] [initial] [] initial) as
    (c2 & ws2 & cps2 & errs2 & cp & Hr2 & _ & Hdirty & Hcur & [Hid _ Hsent Herr]); try done; try (simpl; lia).
  unfold ck_start in Hr. rewrite Hr in Hr2. simplify_eq.
  assert (run_inv c initial (Load c (cp_ReplayID initial) disk) c2 (hd ∅ ws2) ws2 cps2 errs2) as [_ _ _ Hcl].
  { eapply (ck_run_inv c initial _ (es ++ [Stopping o]) _ disk [disk]); [|reflexivity|exact Hr|exact Ha]. constructor; simpl.
    - done.
    - exists initial. done.
    - repeat constructor; eexists; repeat split; auto.
    - right. by repeat split. }
  assert (hd disk ws2 = hd ∅ ws2) as -> by (pose proof (ck_run_disks _ _ _ _ _ _ _ _ _ _ Hr ltac:(done)); by destruct ws2).
  destruct (handled_failures _ _ Hp) as [Hf1 Hf2].
  destruct (Hcl He Hdirty) as [(cp' & Hcp & _ & HL)|[Hin _]]; rewrite Hcur in *; simplify_eq.
  - exists cp'. split_and!; [exact HL|exact Hid|simpl in *; lia|simpl in *; lia].
  - simpl in *. lia.
Qed.

(** What [direct_setup] hands to the run. *)
Lemma direct_setup_ok cfg mkdir sender c rateMode e : direct_setup cfg mkdir = Ok (sender, c, rateMode, e) →
  ck_dir c = cfg_checkpointDir cfg ∧ ck_dirty c = false ∧ 0 < eng_concurrency e.
Proof.
  unfold direct_setup. destruct (NewHTTPSender _); [|done]. unfold NewCheckpointer. case_bool_decide; [done|].
  destruct mkdir; [done|]. destruct (buildReadOptions cfg); [|done]. destruct (parseRateMode _); [|done].
  destruct (NewEngine _) eqn:He; [|done]. intros [= <- <- <- <-]. split_and!; [done..|by eapply new_engine_concurrency].
Qed.

End Theorems.

(** ** Concrete runs *)

#[local] Existing Instance decimal_parser.

Definition demo_direct : config := config_of "" (list_to_map
  [("target-url", "http://target"); ("rate-mode", "unlimited"); ("concurrency", "1"); ("storage-type", "s3");
   ("capture-id", "c1"); ("replay-id", "r1"); ("summary-path", "/out.json"); ("checkpoint-dir", "/ck")]).

Definition demo_direct_engine : Engine :=
  {| eng_transformers := []; eng_readOpts := {| ro_CaptureID := "c1"; ro_StartTime := zero_time; ro_EndTime := zero_time;
       ro_PathPrefix := ""; ro_Methods := []; ro_Limit := 0 |};
     eng_rateMode := RateModeUnlimited; eng_ratePerSecond := f64_zero; eng_timeScale := f64_one;
     eng_concurrency := 1; eng_shardIndex := 0; eng_shardCount := 1 |}.

Definition demo_direct_checkpointer : Checkpointer := MkCheckpointer "/ck" None false None.

Example demo_direct_setup : ∃ sender,
  direct_setup demo_direct None = Ok (sender, demo_direct_checkpointer, RateModeUnlimited, demo_direct_engine).
Proof. eexists. vm_compute. reflexivity. Qed.

Definition demo_failure : Result :=
  {| res_RequestID := "b"; res_StatusCode := 0; res_ResponseBody := ""; res_Duration := 3;
     res_Error := Some (Sentinel "EOF"); res_Timestamp := 12 |}.

(** The first request is answered, the second fails. *)
Definition demo_direct_final : @run_state (list CapturedRequest) :=
  RunState [] (RLDone None) zero_time [] [WExit] false 1 1 0 0 [demo_result "a"; demo_failure]
    [(demo_request "a", true); (demo_request "b", false)].

Lemma demo_direct_run : rtc (step list_Next demo_direct_engine (Sentinel "context canceled"))
  (initial demo_direct_engine demo_stream) demo_direct_final.
Proof.
  go_to step_limiter. go_to step_top. go_to step_send. go_to (step_recv _ _ _ _ 0%nat). go_to (step_check _ _ _ _ 0%nat).
  eapply rtc_l; [apply step_go; eapply (step_complete _ _ _ _ 0%nat _ 0 (Sent (demo_result "a"))); reflexivity|cbn].
  go_to step_top. go_to step_send. go_to (step_recv _ _ _ _ 0%nat). go_to (step_check _ _ _ _ 0%nat).
  eapply rtc_l; [apply step_go; eapply (step_complete _ _ _ _ 0%nat _ 0 (SendFailed (Some demo_failure) (Sentinel "EOF")));
    reflexivity|cbn].
  go_to step_top. go_to (step_recv_closed _ _ _ _ 0%nat). apply rtc_refl.
Qed.

(** The replay is stopped when all was read and the second request is buffered. *)
Definition demo_stopped_final : @run_state (list CapturedRequest) :=
  RunState [] (RLDone None) zero_time [] [WExit] true 1 0 0 0 [demo_result "a"] [(demo_request "a", true)].

Lemma demo_stopped_run : rtc (step list_Next demo_direct_engine (Sentinel "context canceled"))
  (initial demo_direct_engine demo_stream) demo_stopped_final.
Proof.
  go_to step_limiter. go_to step_top. go_to step_send. go_to (step_recv _ _ _ _ 0%nat). go_to (step_check _ _ _ _ 0%nat).
  eapply rtc_l; [apply step_go; eapply (step_complete _ _ _ _ 0%nat _ 0 (Sent (demo_result "a"))); reflexivity|cbn].
  go_to step_top. go_to step_send. go_to step_top.
  eapply rtc_l; [by apply step_cancel|cbn].
  go_to (step_recv _ _ _ _ 0%nat). go_to (step_check_cancelled _ _ _ _ 0%nat). apply rtc_refl.
Qed.

Lemma demo_stopped_finished : finished demo_stopped_final.
Proof. split; [by repeat constructor|by eexists]. Qed.

(** A codec that knows one checkpoint. *)
Definition marshal_one (cp cp' : Checkpoint) : result string :=
  if decide (cp' = cp) then Ok "{}" else Err (Sentinel "json: unsupported value").

Lemma one_round_trip cp cp' data : cp_ascii cp' → marshal_one cp cp' = Ok data → Ok cp = Ok cp'.
Proof. intros _. unfold marshal_one. by case_decide; intros [= <-]; subst. Qed.

Definition one_checkpoint (cp : Checkpoint) : CheckpointCodec :=
  {| cp_Marshal := marshal_one cp; cp_Unmarshal := λ _, Ok cp; cp_unmarshal_marshal := one_round_trip cp |}.

Definition demo_direct_events : list ck_event := [HandledResult 7 7 None (demo_result "a"); HandledResult 9 9 None demo_failure].

(** The checkpoint of the run with a failure: one request sent, one failed. *)
Definition demo_failed_checkpoint : Checkpoint :=
  with_LastUpdate 9 (record_result 9 demo_failure (with_LastUpdate 7 (record_result 7 (demo_result "a")
    (direct_checkpoint demo_direct RateModeUnlimited 1)))).

Definition demo_sent_checkpoint : Checkpoint :=
  with_LastUpdate 7 (record_result 7 (demo_result "a") (direct_checkpoint demo_direct RateModeUnlimited 1)).

Definition ret_of {A} (d : A) (m : go A) : A := match m with Ret x => x | Panic => d end.

Lemma ret_of_ok {A} (d : A) m : no_panic m = true → m = Ret (ret_of d m).
Proof. by destruct m. Qed.

Definition no_end : direct_end := {| de_err := None; de_disk := ∅; de_report := None |}.

#[local] Notation demo_end es st := (runDirectReplay (λ _, false) demo_direct None 1 None es all_ok st ∅).

Definition demo_stopped_events : list ck_event := [HandledResult 7 7 None (demo_result "a")].

Definition demo_stopped_end : direct_end :=
  let CC := one_checkpoint demo_sent_checkpoint in ret_of no_end (demo_end demo_stopped_events demo_stopped_final).

(** A replay that is stopped after its reader has read everything drops what is
    buffered, and exits as if it had replayed the whole capture: no error, no
    checkpoint, a report without failures. *)
Theorem stopped_replay_looks_complete :
  let CC := one_checkpoint demo_sent_checkpoint in
  ∃ st fin, rtc (step list_Next demo_direct_engine (Sentinel "context canceled")) (initial demo_direct_engine demo_stream) st ∧
    finished st ∧ (st_log st).*1 = [demo_request "a"] ∧ replayed demo_direct_engine demo_stream = demo_stream ∧
    runDirectReplay (λ _, false) demo_direct None 1 None demo_stopped_events all_ok st ∅ = Ret fin ∧
    de_err fin = None ∧ Load demo_direct_checkpointer "r1" (de_disk fin) = Ok None ∧
    rp_FailedRequests <$> de_report fin = Some 0.
Proof.
  exists demo_stopped_final, demo_stopped_end. split; [exact demo_stopped_run|]. split; [exact demo_stopped_finished|].
  split; [done|]. split; [done|]. split; [apply ret_of_ok; vm_compute; reflexivity|].
  split_and!; vm_compute; reflexivity.
Qed.

#[local] Instance demo_failed_codec : CheckpointCodec := one_checkpoint demo_failed_checkpoint.

#[local] Notation demo_start := (ck_start (demo_direct_events ++ [Stopping all_ok])
  (direct_checkpoint demo_direct RateModeUnlimited 1) demo_direct_checkpointer ∅).

Definition demo_started := ret_of (demo_direct_checkpointer, [], [], []) demo_start.

Lemma demo_started_ok : demo_start = Ret (demo_started.1.1.1, demo_started.1.1.2, demo_started.1.2, demo_started.2).
Proof.
  assert (no_panic demo_start = true) as H by (vm_compute; reflexivity). unfold demo_started.
  destruct demo_start as [[[[c ws] cps] errs]|]; done.
Qed.

Lemma demo_started_written : Forall cp_ascii demo_started.1.2 ∧ Forall (λ err, err = None) demo_started.2.
Proof.
  split.
  - apply Forall_forall. intros cp Hin.
    assert (forallb (λ cp, bool_decide (cp_ascii cp)) demo_started.1.2 = true) as H by (vm_compute; reflexivity).
    rewrite forallb_forall in H. apply (bool_decide_unpack (cp_ascii cp)), Is_true_true_2, H, list_elem_of_In, Hin.
  - assert (demo_started.2 = [None; None; None]) as -> by (vm_compute; reflexivity). by repeat constructor.
Qed.

Definition demo_failed_end : direct_end := ret_of no_end (demo_end demo_direct_events demo_direct_final).

