(* ===== verification/PreshardMain.v ===== *)
(** * Readers of a configuration, and the preshard command

    [NewReaderFromConfig] of [internal/plugin/replay/reader_fs.go] with the readers'
    constructors, the beginning of [run] of [cmd/replay-engine/main.go], and
    [cmd/kapture-preshard/main.go].  The clients of the cloud SDKs are arguments.
    The theorems say where the command reads and writes, and what a reader of the
    whole capture sees of the slices. *)

From S2P Require Import Prelude GoStd GoTime GoFlag GoFloat Storage Readers RoundTrip Shard Engine Preshard Summary ReplayMain StorageBackends.

Local Open Scope Z_scope.

(** ** Readers *)

Inductive opened_reader :=
  | S3ReaderOf (bucket region prefix : string)
  | GCSReaderOf (bucket prefix : string)
  | FSReaderOf (mountPath : string).

Section Clients.
Context {GP : GoParse}.
Context (load_aws_config : string → option go_error) (new_gcs_client : option go_error).

Definition NewS3Reader (bucket region prefix : string) : result opened_reader :=
  if bool_decide (bucket = "") then Err (FmtError "s3 bucket is required" [])
  else match load_aws_config region with
  | Some err => Err (WrapError "load aws config: %w" [] err)
  | None => Ok (S3ReaderOf bucket region prefix)
  end.

Definition NewGCSReader (bucket prefix : string) : result opened_reader :=
  if bool_decide (bucket = "") then Err (FmtError "gcs bucket is required" [])
  else match new_gcs_client with
  | Some err => Err (WrapError "create gcs client: %w" [] err)
  | None => Ok (GCSReaderOf bucket prefix)
  end.

Definition NewFilesystemReader (mountPath : string) : result opened_reader :=
  if bool_decide (mountPath = "") then Err (FmtError "mount path is required" []) else Ok (FSReaderOf mountPath).

(** A missing key of the configuration leaves the field empty. *)
Definition config_value (config : gmap string string) (k : string) : string := default "" (config !! k).

Definition NewReaderFromConfig (storageType : string) (config : gmap string string) : result opened_reader :=
  let t := ToLower (TrimSpace storageType) in
  if bool_decide (t = "s3")
  then NewS3Reader (config_value config "bucket") (config_value config "region") (config_value config "prefix")
  else if bool_decide (t = "gcs") then NewGCSReader (config_value config "bucket") (config_value config "prefix")
  else if bool_decide (t ∈ ["efs"; "ebs"]) then NewFilesystemReader (config_value config "mountPath")
  else Err (FmtError "unsupported storage type for reading: %q" [FStr storageType]).

(** [run] of the replay command up to the mode it runs in; [loader] is the reader's
    [LoadManifest], when it has one. *)
Definition replay_run {MC : ManifestCodec} (loader : opened_reader → option (string → result (option string))) (cfg : config)
    : result (opened_reader * run_mode) :=
  match run_checks cfg with
  | Some err => Err err
  | None =>
      match NewReaderFromConfig (cfg_storageType cfg) (buildReaderConfig cfg) with
      | Err err => Err (WrapError "create reader: %w" [] err)
      | Ok r =>
          match manifestPreflight (loader r) cfg with
          | Some err => Err err
          | None => Ok (r, run_mode_of cfg)
          end
      end
  end.

(** ** The preshard command *)

Definition preshard_flags : gmap string flag_kind := list_to_map
  [("storage-type", StringFlag); ("bucket", StringFlag); ("region", StringFlag); ("prefix", StringFlag);
   ("mount-path", StringFlag); ("capture-id", StringFlag); ("shards", IntFlag)].

Record preshard_args := {
  pa_storageType : string;
  pa_bucket : string;
  pa_region : string;
  pa_prefix : string;
  pa_mountPath : string;
  pa_captureID : string;
  pa_shards : Z
}.

Definition preshard_parse (args : list string) : result preshard_args :=
  match flag_Parse preshard_flags args ∅ with
  | Err e => Err e
  | Ok m => Ok {| pa_storageType := flag_string m "storage-type" ""; pa_bucket := flag_string m "bucket" "";
                  pa_region := flag_string m "region" ""; pa_prefix := flag_string m "prefix" "";
                  pa_mountPath := flag_string m "mount-path" ""; pa_captureID := flag_string m "capture-id" "";
                  pa_shards := flag_int m "shards" 0 |}
  end.

Definition preshard_reader_config (a : preshard_args) : gmap string string :=
  let put k v m := if bool_decide (v ≠ "") then <[k := v]> m else m in
  put "mountPath" (pa_mountPath a) (put "prefix" (pa_prefix a) (put "region" (pa_region a) (put "bucket" (pa_bucket a) ∅))).

Definition preshard_writer : string := "kapture-preshard".

Section Writers.
Context {J PF : Type} (plugin_Open : string → option go_error)
  (plugin_Lookup : string → string → result (option (option J → result (option PF)))).

(** The writer factory of the slices; the storage type is compared as it is given. *)
Definition newWriterFactory (a : preshard_args) : result (@WriterFactory PF) :=
  let mk := NewWriterFactory plugin_Open plugin_Lookup load_aws_config new_gcs_client (pa_storageType a) in
  let fs := {| fsw_MountPath := pa_mountPath a; fsw_AgentPod := preshard_writer; fsw_FlushInterval := 0; fsw_MaxBufferBytes := 0 |} in
  if bool_decide (pa_storageType a = "s3")
  then mk (S3Writer {| s3w_Bucket := pa_bucket a; s3w_Region := pa_region a; s3w_Prefix := pa_prefix a;
                       s3w_AgentPod := preshard_writer; s3w_CaptureNamespace := ""; s3w_CaptureName := "";
                       s3w_FlushInterval := 0; s3w_MaxBufferBytes := 0 |})
  else if bool_decide (pa_storageType a = "gcs")
  then mk (GCSWriter {| gcw_Bucket := pa_bucket a; gcw_Prefix := pa_prefix a; gcw_AgentPod := preshard_writer;
                        gcw_FlushInterval := 0; gcw_MaxBufferBytes := 0 |})
  else if bool_decide (pa_storageType a = "efs") then mk (EFSWriter fs)
  else if bool_decide (pa_storageType a = "ebs") then mk (EBSWriter fs)
  else Err (FmtError "unsupported storage type %q" [FStr (pa_storageType a)]).

(** [run] up to the call of [dataset.Preshard], which gets this reader, this
    factory, no selection but the capture, and the number of shards. *)
Definition preshard_run (a : preshard_args) : result (opened_reader * @WriterFactory PF) :=
  if bool_decide (pa_storageType a = "") || bool_decide (pa_captureID a = "") || (pa_shards a <? 2)
  then Err (FmtError "--storage-type, --capture-id, and --shards >= 2 are required" [])
  else match NewReaderFromConfig (pa_storageType a) (preshard_reader_config a) with
  | Err err => Err (WrapError "create reader: %w" [] err)
  | Ok r =>
      match newWriterFactory a with
      | Err err => Err (WrapError "create writer factory: %w" [] err)
      | Ok f => Ok (r, f)
      end
  end.
End Writers.
End Clients.

(** ** Where the command reads and writes *)

(** A reader and a writer factory of one place. *)
Definition same_place {PF} (r : opened_reader) (f : @WriterFactory PF) : Prop :=
  match r, f with
  | S3ReaderOf b rg p, S3Factory c => s3w_Bucket c = b ∧ s3w_Region c = rg ∧ s3w_Prefix c = p
  | GCSReaderOf b p, GCSFactory c => gcw_Bucket c = b ∧ gcw_Prefix c = p
  | FSReaderOf m, FSFactory c => fsw_MountPath c = m
  | _, _ => False
  end.

Lemma config_put k v m k' : config_value m k = "" →
  config_value (if bool_decide (v ≠ "") then <[k := v]> m else m) k' = if bool_decide (k' = k) then v else config_value m k'.
Proof.
  intros Hk. unfold config_value in *. destruct (decide (v = "")) as [->|Hv].
  - rewrite bool_decide_eq_false_2 by tauto. case_bool_decide; [by subst|done].
  - rewrite bool_decide_eq_true_2 by done. case_bool_decide; [by subst; rewrite lookup_insert_eq|by rewrite lookup_insert_ne].
Qed.

Lemma preshard_config_value a : let m := preshard_reader_config a in
  config_value m "bucket" = pa_bucket a ∧ config_value m "region" = pa_region a ∧
  config_value m "prefix" = pa_prefix a ∧ config_value m "mountPath" = pa_mountPath a.
Proof.
  cbv zeta. unfold preshard_reader_config.
  assert (config_value ∅ "bucket" = "") as H0 by done.
  pose proof (λ k, config_put "bucket" (pa_bucket a) ∅ k H0) as H1.
  pose proof (λ k, config_put "region" (pa_region a) _ k (H1 "region")) as H2.
  pose proof (λ k, config_put "prefix" (pa_prefix a) _ k (eq_trans (H2 "prefix") (H1 "prefix"))) as H3.
  pose proof (λ k, config_put "mountPath" (pa_mountPath a) _ k
    (eq_trans (H3 "mountPath") (eq_trans (H2 "mountPath") (H1 "mountPath")))) as H4.
  rewrite !H4. simpl. rewrite !H3. simpl. rewrite !H2. simpl. by rewrite H1.
Qed.

(** Evaluates a comparison of known strings. *)
Ltac closed_decide :=
  match goal with
  | |- context [bool_decide ?P] =>
      first [rewrite (bool_decide_eq_true_2 P) by (vm_compute; repeat constructor)
            |rewrite (bool_decide_eq_false_2 P) by (vm_compute; discriminate)]
  end; cbn iota.

(** The slices go to the place the capture is read from. *)
Theorem preshard_writes_where_it_reads {J PF} load gcs (po : string → option go_error)
    (pl : string → string → result (option (option J → result (option PF)))) a r f :
  preshard_run load gcs po pl a = Ok (r, f) → same_place r f ∧ 2 <= pa_shards a ∧ pa_captureID a ≠ "".
Proof.
  unfold preshard_run. destruct (bool_decide (pa_storageType a = "") || _ || _) eqn:Hc; [done|].
  apply orb_false_iff in Hc as [[_ Hcap%bool_decide_eq_false]%orb_false_iff Hn]. zbool.
  destruct (preshard_config_value a) as (Hb & Hr & Hp & Hm).
  unfold NewReaderFromConfig. rewrite Hb, Hr, Hp, Hm. unfold newWriterFactory, NewWriterFactory.
  destruct (decide (pa_storageType a ∈ ["s3"; "gcs"; "efs"; "ebs"])) as [Ht|Ht].
  - rewrite !elem_of_cons, elem_of_nil in Ht. destruct Ht as [Ht|[Ht|[Ht|[Ht|[]]]]]; rewrite Ht.
    all: repeat closed_decide; cbn [asS3Config asGCSConfig asEFSConfig asEBSConfig].
    + unfold NewS3Reader, NewS3WriterFactory. cbn. case_bool_decide; [done|]. destruct (load (pa_region a)); [done|].
      by intros [= <- <-].
    + unfold NewGCSReader, NewGCSWriterFactory. cbn. case_bool_decide; [done|]. destruct gcs; [done|]. by intros [= <- <-].
    + unfold NewFilesystemReader, newFilesystemWriterFactory. cbn. case_bool_decide; [done|]. by intros [= <- <-].
    + unfold NewFilesystemReader, newFilesystemWriterFactory. cbn. case_bool_decide; [done|]. by intros [= <- <-].
  - rewrite !not_elem_of_cons in Ht. destruct Ht as (? & ? & ? & ? & _).
    rewrite !(bool_decide_eq_false_2 (pa_storageType a = _)) by done.
    by destruct (if bool_decide (ToLower _ = _) then _ else _).
Qed.

(** ** What a reader of the whole capture sees of the slices *)

Lemma slice_id_plain captureID index count : plain_path captureID → 0 <= index → 0 <= count →
  plain_path (ShardSliceCaptureID captureID index count).
Proof.
  intros Hc Hi Hn. unfold ShardSliceCaptureID.
  replace (captureID +:+ "/shards/" +:+ Itoa index +:+ "-of-" +:+ Itoa count)
    with (captureID +:+ "/" +:+ "shards" +:+ "/" +:+ (Itoa index +:+ "-of-" +:+ Itoa count)) by done.
  apply plain_path_app; [done|]. apply plain_path_app; [by apply (bool_decide_unpack (plain_path "shards")); vm_compute|].
  unfold plain_path. rewrite split_noslash.
  - constructor; [|done]. pose proof (Itoa_length_pos index Hi). pose proof (Itoa_length_pos count Hn).
    assert (6 <= String.length (Itoa index +:+ "-of-" +:+ Itoa count))%nat as Hl by (rewrite !append_length; simpl; lia).
    unfold plain_elem. split_and!; intros E; rewrite E in Hl; simpl in Hl; lia.
  - rewrite !Contains_char_app, !Itoa_without by done. done.
Qed.

Lemma slice_base prefix captureID index count :
  capture_base prefix (ShardSliceCaptureID captureID index count)
  = capture_base prefix captureID +:+ "/shards/" +:+ Itoa index +:+ "-of-" +:+ Itoa count.
Proof.
  unfold capture_base, ShardSliceCaptureID. case_bool_decide; simpl; [|done]. by rewrite !append_assoc.
Qed.

(** The slices of a presharded capture lie below the capture itself, and a reader
    of the whole capture lists everything below it: every object of every slice is
    among the objects it reads, so it reads the slices' requests a second time. *)
Theorem slices_are_read_with_the_capture prefix captureID index count agentPod ts seq opts bucket :
  plain_names prefix captureID agentPod → 0 <= index → 0 <= count → formattable (day_of ts) → 0 <= seq < 1000000 →
  ro_StartTime opts = zero_time → ro_EndTime opts = zero_time →
  let key := newCloudObjectName prefix (ShardSliceCaptureID captureID index count) agentPod ts seq in
  key ∈ bucket → key ∈ select_objects opts (List.filter (λ k, HasPrefix k (buildObjectPrefix prefix captureID)) bucket).
Proof.
  intros [Hpre Hcap Hpod] Hi Hn Hday Hseq Hs He key Hin.
  assert (key = capture_base prefix (ShardSliceCaptureID captureID index count)
    +:+ "/" +:+ FormatDate ts +:+ "/" +:+ objectFileName agentPod seq) as Hkey.
  { apply object_key; [|done|done]. split; [done|by apply slice_id_plain|done]. }
  unfold select_objects. rewrite sort_Strings_perm. apply list_elem_of_In, filter_In. split.
  - apply filter_In. split; [by apply list_elem_of_In|]. apply HasPrefix_spec.
    rewrite capture_prefix by (by apply plain_path_rel). rewrite Hkey, slice_base.
    exists ("shards/" +:+ Itoa index +:+ "-of-" +:+ Itoa count +:+ "/" +:+ FormatDate ts +:+ "/" +:+ objectFileName agentPod seq).
    by rewrite !append_assoc.
  - unfold filterObjectByTime, IsZero. rewrite Hs, He, !Z.eqb_refl. simpl. rewrite andb_true_r.
    apply HasSuffix_spec. rewrite Hkey, objectFileName_fixed by done.
    eexists (capture_base prefix (ShardSliceCaptureID captureID index count) +:+ "/" +:+ FormatDate ts +:+ "/"
      +:+ file_prefix agentPod +:+ fixed 6 seq). by rewrite !append_assoc.
Qed.

#[local] Existing Instance Storage.demo_codec.

(** Presharding a capture of one request, then replaying the capture: the request
    is delivered twice. *)
Definition demo_sharded_bucket : list (string * string) :=
  let object := gzip (text_of [Storage.demo_request "a"]) in
  [(newCloudObjectName "" "prod/orders" "agent-0" 0 0, object);
   (newCloudObjectName "" (ShardSliceCaptureID "prod/orders" 1 2) preshard_writer 0 0, object)].

Example presharded_capture_read_twice :
  let opts := {| ro_CaptureID := "prod/orders"; ro_StartTime := zero_time; ro_EndTime := zero_time;
                 ro_PathPrefix := ""; ro_Methods := []; ro_Limit := 0 |} in
  let '(r, err) := S3Reader_Open "" opts (bucket_list demo_sharded_bucket.*1) newReader in
  err = None ∧ read_all (bucket_open demo_sharded_bucket) "object" 3 r
    = Some ([Storage.demo_request "a"; Storage.demo_request "a"], ErrReaderDone).
Proof. vm_compute. split; reflexivity. Qed.
