(* ===== verification/History.v ===== *)
(** * Capture history ([internal/history/postgres.go])

    The repository of captures and their stored objects, with the two statements it
    executes as updates of the tables of [migrations/001_capture_history.sql], and
    what [cmd/capture-agent/main.go] records of an agent's life.  The database may
    execute a statement, refuse it, or execute it and lose the answer. *)

From S2P Require Import Prelude GoStd GoTime Storage StorageBackends AgentMain.

Local Open Scope Z_scope.

(** ** Tables *)

Definition StatusPending : string := "pending".
Definition StatusRunning : string := "running".
Definition StatusCompleted : string := "completed".
Definition StatusFailed : string := "failed".

(** [history.Capture]; the empty error text is [None]. *)
Record Capture := {
  hc_ID : string;
  hc_Namespace : string;
  hc_Name : string;
  hc_Status : string;
  hc_TargetKind : string;
  hc_TargetName : string;
  hc_StorageName : string;
  hc_StorageType : string;
  hc_StartedAt : option Z;
  hc_CompletedAt : option Z;
  hc_Error : option text
}.

(** A row of [captures], by its primary key, and of [capture_artifacts], by its
    unique capture, bucket and key. *)
Record capture_row := {
  cw_namespace : string;
  cw_name : string;
  cw_status : string;
  cw_target_kind : string;
  cw_target_name : string;
  cw_storage_name : string;
  cw_storage_type : string;
  cw_started_at : option Z;
  cw_completed_at : option Z;
  cw_error : option text;
  cw_created_at : Z;
  cw_updated_at : Z
}.

Record artifact_row := {
  aw_storage_backend : string;
  aw_region : option string;
  aw_content_type : option string;
  aw_content_encoding : option string;
  aw_size_bytes : Z;
  aw_sha256 : option string;
  aw_created_at : Z
}.

Notation artifact_key := (string * string * string)%type.

Record history := MkHistory {
  hi_captures : gmap string capture_row;
  hi_artifacts : gmap artifact_key artifact_row
}.

Definition NULLIF (s : string) : option string := if bool_decide (s = "") then None else Some s.

Definition COALESCE {A} (x y : option A) : option A := match x with Some _ => x | None => y end.

(** ** Statements *)

Inductive db_answer := Executed | Refused (err : go_error) | AnswerLost (err : go_error).

Definition applied (a : db_answer) : bool := match a with Refused _ => false | _ => true end.

(** What [ExecContext] returns when the statement violates no constraint. *)
Definition ExecContext (a : db_answer) (h h' : history) : history * option go_error :=
  match a with
  | Executed => (h', None)
  | Refused err => (h, Some err)
  | AnswerLost err => (h', Some err)
  end.

Section Repository.
(** What a [timestamptz] column keeps of a time. *)
Variable timestamptz : Z → Z.

(** [INSERT INTO captures ... ON CONFLICT (id) DO UPDATE]; [now] is the database's. *)
Definition capture_upsert (now : Z) (c : Capture) (old : option capture_row) : capture_row :=
  {| cw_namespace := hc_Namespace c; cw_name := hc_Name c; cw_status := hc_Status c;
     cw_target_kind := hc_TargetKind c; cw_target_name := hc_TargetName c;
     cw_storage_name := hc_StorageName c; cw_storage_type := hc_StorageType c;
     cw_started_at := COALESCE (old ≫= cw_started_at) (timestamptz <$> hc_StartedAt c);
     cw_completed_at := COALESCE (timestamptz <$> hc_CompletedAt c) (old ≫= cw_completed_at);
     cw_error := hc_Error c;
     cw_created_at := match old with Some o => cw_created_at o | None => timestamptz now end;
     cw_updated_at := timestamptz now |}.

(** [INSERT INTO capture_artifacts ... ON CONFLICT DO UPDATE]: every column is replaced. *)
Definition artifact_upsert (a : ArtifactRecord) : artifact_row :=
  {| aw_storage_backend := ar_StorageBackend a; aw_region := NULLIF (ar_Region a);
     aw_content_type := NULLIF (ar_ContentType a); aw_content_encoding := NULLIF (ar_ContentEncoding a);
     aw_size_bytes := ar_SizeBytes a; aw_sha256 := NULLIF (ar_SHA256 a);
     aw_created_at := timestamptz (ar_CreatedAt a) |}.

Definition artifact_id (a : ArtifactRecord) : artifact_key := (ar_CaptureID a, ar_Bucket a, ar_Key a).

(** ** Operations

    [connected] is whether the receiver and its database are not nil. *)

Definition NewPostgresRepository (databaseURL : string) (open ping : option go_error) : option go_error :=
  if bool_decide (TrimSpace databaseURL = "") then Some (FmtError "database URL is required" [])
  else match open with
  | Some err => Some (WrapError "open postgres: %w" [] err)
  | None => match ping with Some err => Some (WrapError "ping postgres: %w" [] err) | None => None end
  end.

Definition default_Status (c : Capture) : Capture :=
  if bool_decide (TrimSpace (hc_Status c) = "")
  then {| hc_ID := hc_ID c; hc_Namespace := hc_Namespace c; hc_Name := hc_Name c; hc_Status := StatusPending;
          hc_TargetKind := hc_TargetKind c; hc_TargetName := hc_TargetName c; hc_StorageName := hc_StorageName c;
          hc_StorageType := hc_StorageType c; hc_StartedAt := hc_StartedAt c; hc_CompletedAt := hc_CompletedAt c;
          hc_Error := hc_Error c |}
  else c.

Definition UpsertCapture (connected : bool) (a : db_answer) (now : Z) (c : Capture) (h : history)
    : history * option go_error :=
  if negb connected then (h, None)
  else if bool_decide (TrimSpace (hc_ID c) = "") then (h, Some (FmtError "capture ID is required" []))
  else
    let c := default_Status c in
    let h' := MkHistory (<[hc_ID c := capture_upsert now c (hi_captures h !! hc_ID c)]> (hi_captures h)) (hi_artifacts h) in
    match ExecContext a h h' with
    | (h, Some err) => (h, Some (WrapError "upsert capture history: %w" [] err))
    | (h, None) => (h, None)
    end.

Definition with_defaults (now : Z) (a : ArtifactRecord) : ArtifactRecord :=
  {| ar_CaptureID := ar_CaptureID a; ar_CaptureNamespace := ar_CaptureNamespace a; ar_CaptureName := ar_CaptureName a;
     ar_StorageBackend := if bool_decide (ar_StorageBackend a = "") then "s3" else ar_StorageBackend a;
     ar_Bucket := ar_Bucket a; ar_Key := ar_Key a; ar_Region := ar_Region a; ar_ContentType := ar_ContentType a;
     ar_ContentEncoding := ar_ContentEncoding a; ar_SizeBytes := ar_SizeBytes a; ar_SHA256 := ar_SHA256 a;
     ar_CreatedAt := if IsZero (ar_CreatedAt a) then now else ar_CreatedAt a |}.

(** A capture without a row violates the foreign key. *)
Definition RecordArtifact (connected : bool) (a : db_answer) (now : Z) (r : ArtifactRecord) (h : history)
    : history * option go_error :=
  if negb connected then (h, None)
  else if bool_decide (TrimSpace (ar_CaptureID r) = "") then (h, Some (FmtError "artifact capture ID is required" []))
  else if bool_decide (TrimSpace (ar_Bucket r) = "") then (h, Some (FmtError "artifact bucket is required" []))
  else if bool_decide (TrimSpace (ar_Key r) = "") then (h, Some (FmtError "artifact key is required" []))
  else
    let r := with_defaults now r in
    let h' := MkHistory (hi_captures h) (<[artifact_id r := artifact_upsert r]> (hi_artifacts h)) in
    let out := match hi_captures h !! ar_CaptureID r with
               | None => (h, Some (Sentinel "foreign_key_violation"))
               | Some _ => ExecContext a h h'
               end in
    match out with
    | (h, Some err) => (h, Some (WrapError "record capture artifact: %w" [] err))
    | (h, None) => (h, None)
    end.

(** ** The agent ([cmd/capture-agent/main.go]) *)


Section Agent.
Context {J : Type} (cfg : agent_config J).

Definition capture_entry (status : string) (started completed : option Z) (err : option text) : Capture :=
  {| hc_ID := ag_captureID cfg; hc_Namespace := ag_namespace cfg; hc_Name := ag_name cfg; hc_Status := status;
     hc_TargetKind := ag_targetKind cfg; hc_TargetName := ag_targetName cfg; hc_StorageName := ag_storageName cfg;
     hc_StorageType := ToLower (ag_storageType cfg); hc_StartedAt := started; hc_CompletedAt := completed;
     hc_Error := err |}.

(** Before the servers start: whether there is a repository, or the error the agent
    exits with. *)
Definition start_history (open ping : option go_error) (a : db_answer) (dbnow now : Z) (h : history) : history * result bool :=
  if bool_decide (TrimSpace (ag_databaseURL cfg) = "") then (h, Ok false)
  else match NewPostgresRepository (ag_databaseURL cfg) open ping with
  | Some err => (h, Err err)
  | None =>
      match UpsertCapture true a dbnow (capture_entry StatusRunning (Some now) None None) h with
      | (h, Some err) => (h, Err err)
      | (h, None) => (h, Ok true)
      end
  end.

(** After the servers and the writers have stopped; the result is the error the
    agent exits with.  A failure to record is only logged. *)
Definition finish_history (repo : bool) (serverErr closeErr : option go_error) (a : db_answer) (dbnow now : Z)
    (h : history) : history * option go_error :=
  let serverErr := match serverErr with Some err => Some err | None => closeErr end in
  let status := match serverErr with Some _ => StatusFailed | None => StatusCompleted end in
  let h := if repo then fst (UpsertCapture true a dbnow (capture_entry status None (Some now) (ErrText <$> serverErr)) h)
           else h in
  (h, serverErr).

(** An agent of the capture starts, or one that started stops; several may run at
    once, as replicas or after a restart. *)
Inductive agent_event :=
  | AgentStarts (now : Z)
  | AgentStops (now : Z) (serverErr closeErr : option go_error).

Definition agent_record (h : history) (e : agent_event * db_answer * Z) : history :=
  match e with
  | (AgentStarts now, a, dbnow) => fst (start_history None None a dbnow now h)
  | (AgentStops now serverErr closeErr, a, dbnow) => fst (finish_history true serverErr closeErr a dbnow now h)
  end.

Definition event_status (e : agent_event) : string :=
  match e with
  | AgentStarts _ => StatusRunning
  | AgentStops _ None None => StatusCompleted
  | AgentStops _ _ _ => StatusFailed
  end.

Definition started_of (e : agent_event) : option Z := match e with AgentStarts t => Some t | _ => None end.
Definition stopped_of (e : agent_event) : option Z := match e with AgentStops t _ _ => Some t | _ => None end.
End Agent.
End Repository.

(** ** The row of a capture *)

Section Rows.
Context (timestamptz : Z → Z) {J : Type} (cfg : agent_config J).
Hypothesis Hid : TrimSpace (ag_captureID cfg) ≠ "".
Hypothesis Hurl : TrimSpace (ag_databaseURL cfg) ≠ "".

Abbreviation record := (agent_record timestamptz cfg).
Abbreviation row h := (hi_captures h !! ag_captureID cfg).

(** One event's statement, when it is executed. *)
Definition event_entry (e : agent_event) : Capture :=
  capture_entry cfg (event_status e) (started_of e) (stopped_of e)
    (match e with
     | AgentStops _ (Some err) _ | AgentStops _ None (Some err) => Some (ErrText err)
     | _ => None
     end).

Lemma record_event h e a dbnow : record h (e, a, dbnow) =
  if applied a
  then MkHistory (<[ag_captureID cfg := capture_upsert timestamptz dbnow (event_entry e) (row h)]> (hi_captures h)) (hi_artifacts h)
  else h.
Proof using Hid Hurl.
  unfold agent_record, start_history, finish_history, NewPostgresRepository, UpsertCapture.
  destruct e as [now|now [err|] [err'|]]; cbn [negb]; rewrite ?(bool_decide_eq_false_2 _ Hurl);
    rewrite (bool_decide_eq_false_2 _ Hid); by destruct a.
Qed.

(** The statements that were executed, in order. *)
Definition executed (es : list (agent_event * db_answer * Z)) : list (agent_event * Z) :=
  omap (λ '(e, a, dbnow), if applied a then Some (e, dbnow) else None) es.

(** The row after these statements. *)
Definition summarised (evs : list (agent_event * Z)) (r : capture_row) : Prop :=
  Some (cw_status r) = event_status <$> last evs.*1 ∧
  cw_started_at r = timestamptz <$> head (omap started_of evs.*1) ∧
  cw_completed_at r = timestamptz <$> last (omap stopped_of evs.*1) ∧
  Some (cw_created_at r) = timestamptz <$> head evs.*2 ∧
  Some (cw_updated_at r) = timestamptz <$> last evs.*2 ∧
  (cw_error r = None ↔ cw_status r ≠ StatusFailed) ∧
  cw_namespace r = ag_namespace cfg ∧ cw_name r = ag_name cfg.


Lemma summarised_snoc evs e dbnow old : (evs = [] ∧ old = None ∨ ∃ r, old = Some r ∧ evs ≠ [] ∧ summarised evs r) →
  summarised (evs ++ [(e, dbnow)]) (capture_upsert timestamptz dbnow (event_entry e) old).
Proof.
  intros Hold. unfold summarised. rewrite !fmap_app. simpl. rewrite ?omap_app, !last_snoc. simpl.
  destruct Hold as [(-> & ->)|(r & -> & Hne & Hst & Hs & Hc & Hcr & Hu & He & Hn)].
  - destruct e as [t|t [err|] [err'|]]; by split_and!.
  - split_and!; try done; simpl.
    + rewrite Hs. destruct (omap started_of evs.*1), (started_of e); reflexivity.
    + rewrite Hc. destruct (stopped_of e); simpl; [by rewrite last_snoc|by rewrite app_nil_r].
    + rewrite Hcr. by destruct evs.*2.
    + by destruct e as [t|t [err|] [err'|]].
Qed.

(** The row of a capture sums up its agents.  Whatever order the agents of a
    capture start and stop in, as replicas or after restarts, and whichever of their
    statements the database executes, the row says when the first agent started and
    when the last stop was, has the status of the last event, carries an error only
    after a failure, and keeps the time it was made; other captures and the stored
    objects are untouched. *)
Theorem capture_row_sums_up_agents es h : row h = None →
  let h' := foldl record h es in
  match executed es with
  | [] => h' = h
  | evs => ∃ r, row h' = Some r ∧ summarised evs r
  end ∧ (∀ id, id ≠ ag_captureID cfg → hi_captures h' !! id = hi_captures h !! id) ∧ hi_artifacts h' = hi_artifacts h.
Proof using Hid Hurl.
  intros Hnone. cbv zeta.
  assert ((executed es = [] ∧ foldl record h es = h ∨
           ∃ r, row (foldl record h es) = Some r ∧ executed es ≠ [] ∧ summarised (executed es) r) ∧
    (∀ id, id ≠ ag_captureID cfg → hi_captures (foldl record h es) !! id = hi_captures h !! id) ∧
    hi_artifacts (foldl record h es) = hi_artifacts h) as [Hr Hrest].
  { induction es as [|[[e a] n] es IH] using rev_ind; [by split; [left|]|].
    destruct IH as (Hr & Ho & Ha). rewrite foldl_snoc. unfold executed in *. rewrite omap_app. simpl omap. rewrite (record_event _ e a n).
    destruct (applied a) eqn:Eap; [|by rewrite app_nil_r]. simpl. split_and!.
    - right. eexists. rewrite lookup_insert_eq. split; [done|]. split; [by intros [_ ?]%app_nil|].
      apply summarised_snoc. destruct Hr as [[-> ->]|(r & Hr & ?)]; [by left|]. right. by exists r.
    - intros id Hne. rewrite lookup_insert_ne by done. by apply Ho.
    - done. }
  split; [|done]. destruct Hr as [[-> ->]|(r & ? & Hne & ?)]; [done|]. destruct (executed es); [done|]. by exists r.
Qed.
End Rows.

(** An agent that restarts takes the capture's row back to running and leaves the
    time it was completed at. *)
Theorem restarted_row_looks_completed timestamptz {J} (cfg : agent_config J) t0 t1 t2 h :
  TrimSpace (ag_captureID cfg) ≠ "" → TrimSpace (ag_databaseURL cfg) ≠ "" → hi_captures h !! ag_captureID cfg = None →
  ∃ r, hi_captures (foldl (agent_record timestamptz cfg) h
         [(AgentStarts t0, Executed, t0); (AgentStops t1 None None, Executed, t1); (AgentStarts t2, Executed, t2)])
         !! ag_captureID cfg = Some r ∧
    cw_status r = StatusRunning ∧ cw_started_at r = Some (timestamptz t0) ∧ cw_completed_at r = Some (timestamptz t1).
Proof.
  intros Hid Hurl Hn. destruct (capture_row_sums_up_agents timestamptz cfg Hid Hurl
    [(AgentStarts t0, Executed, t0); (AgentStops t1 None None, Executed, t1); (AgentStarts t2, Executed, t2)] h Hn)
    as [(r & Hr & Hs & Hst & Hc & _) _].
  exists r. simpl in *. by simplify_eq.
Qed.

(** ** The index of stored objects

    The database beside a store of objects: the S3 writer with the repository as its
    recorder. *)

#[export] Instance beside_blobs {Wb} {BL : Blobs Wb} {H} : Blobs (Wb * H).
Proof.
  refine {|
    blob b k w := blob b k w.1;
    s3_PutObject b k p t c w := let '(x, e) := s3_PutObject b k p t c w.1 in ((x, w.2), e);
    gcs_handle := gcs_handle; gcs_key := gcs_key;
    gcs_Open b k w := let '(x, h) := gcs_Open b k w.1 in ((x, w.2), h);
    gcs_Write h p w := let '(x, e) := gcs_Write h p w.1 in ((x, w.2), e);
    gcs_Close h w := let '(x, e) := gcs_Close h w.1 in ((x, w.2), e);
    os_MkdirAll d w := let '(x, e) := os_MkdirAll d w.1 in ((x, w.2), e);
    os_WriteFile f p w := let '(x, e) := os_WriteFile f p w.1 in ((x, w.2), e) |}.
  - intros b k p t c [w h] w' H1. simpl in *. destruct (s3_PutObject b k p t c w) eqn:E. simplify_eq. by eapply s3_put_ok.
  - intros b k p t c [w h] b' k' Hne. pose proof (s3_put_frame b k p t c w b' k' Hne) as Hf. simpl in *.
    by destruct (s3_PutObject b k p t c w).
  - intros b k p [w i] w1 h w2 w3 H1 H2 H3. simpl in *. destruct (gcs_Open b k w) eqn:E1. simplify_eq/=.
    destruct (gcs_Write h p _) eqn:E2. simplify_eq/=. destruct (gcs_Close h _) eqn:E3. simplify_eq/=. by eapply gcs_put_ok.
  - intros b k [w i] w' h H1. simpl in *. destruct (gcs_Open b k w) eqn:E1. simplify_eq/=. by eapply gcs_open_frame.
  - intros h p [w i] b' k'. pose proof (gcs_write_frame h p w b' k') as Hf. simpl in *. by destruct (gcs_Write h p w).
  - intros h [w i] b' k' Hne. pose proof (gcs_close_frame h w b' k' Hne) as Hf. simpl in *. by destruct (gcs_Close h w).
  - intros d [w i] b' k'. pose proof (mkdir_frame d w b' k') as Hf. simpl in *. by destruct (os_MkdirAll d w).
  - intros f p [w i] w' H1. simpl in *. destruct (os_WriteFile f p w) eqn:E1. simplify_eq/=. by eapply write_file_ok.
  - intros f p [w i] b' k' Hne. pose proof (write_file_frame f p w b' k' Hne) as Hf. simpl in *. by destruct (os_WriteFile f p w).
Defined.

(** An upload of the writer: the object, the writer's clock, and how the database
    answers the recorder. *)
Record upload_event := {
  ue_name : string;
  ue_payload : string;
  ue_now : Z;
  ue_answer : db_answer;
  ue_dbnow : Z
}.

Section Index.
Context {Wb : Type} {BL : Blobs Wb} (timestamptz : Z → Z) (sha256_hex : string → string).
Context (cfg : S3WriterConfig) (captureID : string).

Definition recorder (a : db_answer) (now : Z) (r : ArtifactRecord) (w : Wb * history) : (Wb * history) * option go_error :=
  let '(h, e) := RecordArtifact timestamptz true a now r w.2 in ((w.1, h), e).

Definition indexed_upload (w : Wb * history) (u : upload_event) : (Wb * history) * option go_error :=
  s3_upload sha256_hex (Some (recorder (ue_answer u) (ue_dbnow u))) cfg captureID (ue_now u) (ue_name u) (ue_payload u) w.

Fixpoint run_uploads (w : Wb * history) (us : list upload_event) : (Wb * history) * list (option go_error) :=
  match us with
  | [] => (w, [])
  | u :: us =>
      let '(w, e) := indexed_upload w u in
      let '(w, es) := run_uploads w us in (w, e :: es)
  end.

(** The row that describes an upload. *)
Definition described (u : upload_event) : artifact_row :=
  {| aw_storage_backend := "s3"; aw_region := NULLIF (s3w_Region cfg); aw_content_type := Some contentTypeJSONL;
     aw_content_encoding := Some contentEncodingGZIP; aw_size_bytes := int64 (str_len (ue_payload u));
     aw_sha256 := NULLIF (sha256_hex (ue_payload u));
     aw_created_at := timestamptz (if IsZero (ue_now u) then ue_dbnow u else ue_now u) |}.

Abbreviation row w name := (hi_artifacts (snd w) !! (captureID, s3w_Bucket cfg, name)).
Abbreviation object w name := (blob (s3w_Bucket cfg) name (fst w)).

(** One upload: its object and its row, and nothing else; a row that changes
    describes an object that is there. *)
Lemma indexed_upload_spec (w w' : Wb * history) u e : indexed_upload w u = (w', e) →
  (e = None → object w' (ue_name u) = Some (ue_payload u) ∧ row w' (ue_name u) = Some (described u)) ∧
  (row w' (ue_name u) = row w (ue_name u) ∨
   row w' (ue_name u) = Some (described u) ∧ object w' (ue_name u) = Some (ue_payload u)) ∧
  (∀ k, k ≠ (captureID, s3w_Bucket cfg, ue_name u) → hi_artifacts w'.2 !! k = hi_artifacts w.2 !! k) ∧
  (∀ b k, (b, k) ≠ (s3w_Bucket cfg, ue_name u) → blob b k w'.1 = blob b k w.1) ∧
  hi_captures w'.2 = hi_captures w.2.
Proof.
  destruct w as [w h]. unfold indexed_upload, s3_upload. cbn [fst snd].
  pose proof (s3_put_ok (W := Wb) (s3w_Bucket cfg) (ue_name u) (ue_payload u) contentTypeJSONL contentEncodingGZIP w) as Hok.
  pose proof (s3_put_frame (W := Wb) (s3w_Bucket cfg) (ue_name u) (ue_payload u) contentTypeJSONL contentEncodingGZIP w) as Hf.
  simpl. destruct (s3_PutObject _ _ _ _ _ w) as [x [err|]]; simpl in Hf.
  { intros [= <- <-]. simpl. split_and!; first [done|by left|intros b k Hne; by apply Hf]. }
  specialize (Hok x eq_refl). set (a := Build_ArtifactRecord _ _ _ _ _ _ _ _ _ _ _ _).
  unfold recorder, RecordArtifact. cbn [negb fst snd].
  destruct (bool_decide _); [intros [= <- <-]; simpl; split_and!; first [done|by left|intros b k Hne; by apply Hf]|].
  destruct (bool_decide _); [intros [= <- <-]; simpl; split_and!; first [done|by left|intros b k Hne; by apply Hf]|].
  destruct (bool_decide _); [intros [= <- <-]; simpl; split_and!; first [done|by left|intros b k Hne; by apply Hf]|].
  assert (artifact_upsert timestamptz (with_defaults (ue_dbnow u) a) = described u) as -> by reflexivity.
  change (artifact_id (with_defaults (ue_dbnow u) a)) with (captureID, s3w_Bucket cfg, ue_name u).
  destruct (hi_captures h !! _); [destruct (ue_answer u)|]; intros [= <- <-]; simpl;
    rewrite ?lookup_insert_eq; split_and!;
    first [done|by left|by right|intros b k Hne; by apply Hf|intros k Hne; by rewrite lookup_insert_ne].
Qed.

Lemma run_uploads_frame us (w w' : Wb * history) es : run_uploads w us = (w', es) →
  (∀ k, (∀ u, u ∈ us → k ≠ (captureID, s3w_Bucket cfg, ue_name u)) → hi_artifacts w'.2 !! k = hi_artifacts w.2 !! k) ∧
  (∀ b k, (∀ u, u ∈ us → (b, k) ≠ (s3w_Bucket cfg, ue_name u)) → blob b k w'.1 = blob b k w.1) ∧
  hi_captures w'.2 = hi_captures w.2.
Proof.
  revert w es. induction us as [|u us IH]; intros w es; simpl; [by intros [= <- <-]|].
  destruct (indexed_upload w u) as [w1 e] eqn:Hu. destruct (run_uploads w1 us) as [w2 es'] eqn:Hr. intros [= <- <-].
  destruct (indexed_upload_spec _ _ _ _ Hu) as (_ & _ & H1 & H2 & H3). destruct (IH _ _ Hr) as (I1 & I2 & I3). split_and!.
  - intros k Hk. rewrite I1, H1; [done|apply Hk; left|]. intros v Hv. apply Hk. by right.
  - intros b k Hk. rewrite I2, H2; [done|apply Hk; left|]. intros v Hv. apply Hk. by right.
  - by rewrite I3.
Qed.


(** Overwriting an object whose record is refused leaves the row of the object that
    is gone. *)
Theorem refused_record_leaves_stale_row w w' u e err : ue_answer u = Refused err →
  indexed_upload w u = (w', e) → row w' (ue_name u) = row w (ue_name u).
Proof.
  intros Ha. unfold indexed_upload, s3_upload. simpl. destruct (s3_PutObject _ _ _ _ _ _) as [x [e'|]]; [by intros [= <- <-]|].
  set (a := Build_ArtifactRecord _ _ _ _ _ _ _ _ _ _ _ _). unfold recorder, RecordArtifact. cbn [negb fst snd]. rewrite Ha.
  repeat (destruct (bool_decide _); [by intros [= <- <-]|]). destruct (hi_captures _ !! _); by intros [= <- <-].
Qed.
End Index.

(** ** Two uploads, the second of which the database refuses *)

Definition demo_s3 : S3WriterConfig := Build_S3WriterConfig "b" "eu" "captures" "agent-0" "prod" "shop" 0 0.

Definition demo_uploads : list upload_event :=
  [{| ue_name := "captures/1"; ue_payload := "first"; ue_now := 5; ue_answer := Executed; ue_dbnow := 6 |};
   {| ue_name := "captures/2"; ue_payload := "second"; ue_now := 7; ue_answer := Refused (Sentinel "down"); ue_dbnow := 8 |}].

Definition demo_history : history :=
  fst (UpsertCapture (λ t, t) true Executed 1
         (Build_Capture "prod/shop" "prod" "shop" StatusRunning "" "" "" "s3" (Some 1) None None) (MkHistory ∅ ∅)).

Definition demo_index : (mem_blobs_world * history) * list (option go_error) :=
  run_uploads (BL := mem_blobs) (λ t, t) (λ _, "00") demo_s3 "prod/shop" ((∅, ∅), demo_history) demo_uploads.

