(* ===== verification/SpokeTLS.v ===== *)
(** * The spoke's side of TLS ([internal/spoke/tls.go])

    The configuration of a spoke's connection to its hub from files, the choice of
    its credentials in [cmd/spoke/main.go], and the handshake with the listener of
    [HubController].  Reading a file is an argument, and what [crypto/tls] checks
    of certificates. *)

From S2P Require Import Prelude GoStd HubClient CaptureApi HubController.

Local Open Scope Z_scope.

Record HubTLSFiles := {
  htf_CertFile : string;
  htf_KeyFile : string;
  htf_CAFile : string;
  htf_ServerName : string
}.

Definition Configured (f : HubTLSFiles) : bool :=
  bool_decide (htf_CertFile f ≠ "") || bool_decide (htf_KeyFile f ≠ "") || bool_decide (htf_CAFile f ≠ "").

(** The fields the program sets of a client's [tls.Config]; without [RootCAs] the
    system's authorities count, and [cltc_GetClientCertificate] holds the files that
    the callback reads at every handshake. *)
Record clientTLS (CertPool : Type) := {
  cltc_MinVersion : string;
  cltc_ServerName : string;
  cltc_RootCAs : option CertPool;
  cltc_GetClientCertificate : option (string * string)
}.
Arguments Build_clientTLS {CertPool} _ _ _ _.
Arguments cltc_MinVersion {CertPool} _.
Arguments cltc_ServerName {CertPool} _.
Arguments cltc_RootCAs {CertPool} _.
Arguments cltc_GetClientCertificate {CertPool} _.

Section TLS.
Context {KeyPair CertPool : Type} {TL : TLSLib KeyPair CertPool}.

(** The files as they are at one moment. *)
Abbreviation files := (string → result string).

Definition LoadX509KeyPair (fs : files) (certFile keyFile : string) : result KeyPair :=
  match fs certFile, fs keyFile with
  | Err err, _ | _, Err err => Err err
  | Ok cert, Ok key => X509KeyPair cert key
  end.

Definition load_root_CAs (fs : files) (f : HubTLSFiles) : result (option CertPool) :=
  if bool_decide (htf_CAFile f = "") then Ok None
  else match fs (htf_CAFile f) with
  | Err err => Err (WrapError "read hub CA file: %w" [] err)
  | Ok caPEM =>
      match AppendCertsFromPEM caPEM with
      | None => Err (FmtError "no certificates parsed from %s" [FStr (htf_CAFile f)])
      | Some pool => Ok (Some pool)
      end
  end.

Definition BuildHubTLSConfig (fs : files) (f : HubTLSFiles) : result (clientTLS CertPool) :=
  match load_root_CAs fs f with
  | Err err => Err err
  | Ok pool =>
      if bool_decide (htf_CertFile f = "") && bool_decide (htf_KeyFile f = "")
      then Ok (Build_clientTLS "1.2" (htf_ServerName f) pool None)
      else if bool_decide (htf_CertFile f = "") || bool_decide (htf_KeyFile f = "")
      then Err (FmtError "hub TLS client certificate requires both cert and key files" [])
      else match LoadX509KeyPair fs (htf_CertFile f) (htf_KeyFile f) with
      | Err err => Err (WrapError "load hub client certificate: %w" [] err)
      | Ok _ => Ok (Build_clientTLS "1.2" (htf_ServerName f) pool (Some (htf_CertFile f, htf_KeyFile f)))
      end
  end.

(** [cfg.GetClientCertificate], with the files at the time of the handshake. *)
Definition GetClientCertificate (fs : files) (c : clientTLS CertPool) : option (result KeyPair) :=
  match cltc_GetClientCertificate c with
  | None => None
  | Some (certFile, keyFile) =>
      Some match LoadX509KeyPair fs certFile keyFile with
           | Err err => Err (WrapError "reload hub client certificate: %w" [] err)
           | Ok cert => Ok cert
           end
  end.

(** [main] of the spoke, when it has a hub: its client and the credentials the
    client dials with, [None] for plaintext. *)
Definition spoke_hub_client (fs : files) (hubAddress spokeName clusterID cell hostname : string) (f : HubTLSFiles)
    : result (option (HubClient * option (clientTLS CertPool))) :=
  if bool_decide (hubAddress = "") then Ok None
  else
    let spokeName := if bool_decide (spokeName = "") then hostname else spokeName in
    let clusterID := if bool_decide (clusterID = "") then spokeName else clusterID in
    let client := NewHubClient hubAddress spokeName clusterID cell in
    if Configured f then
      match BuildHubTLSConfig fs f with
      | Err err => Err err
      | Ok cfg => Ok (Some (client, Some cfg))
      end
    else Ok (Some (client, None)).

(** ** The handshake

    [verifies pool name cert] is the verdict of [crypto/x509]: the certificate has
    a chain to the pool ([None] is the system's) and, when a name is given, carries
    it.  The client expects the server name of its configuration or, without one,
    the host it dialled. *)
Variable verifies : option CertPool → option string → KeyPair → bool.

Inductive session := Plain | Secured (server : KeyPair) (client : option KeyPair).

Definition handshake (fs : files) (host : string) (client : option (clientTLS CertPool))
    (server : option (tlsConfig KeyPair CertPool)) : option session :=
  match client, server with
  | None, None => Some Plain
  | Some _, None | None, Some _ => None
  | Some c, Some s =>
      let name := if bool_decide (cltc_ServerName c = "") then host else cltc_ServerName c in
      if negb (verifies (cltc_RootCAs c) (Some name) (tlsc_Certificate s)) then None
      else if tlsc_RequireAndVerifyClientCert s then
        match GetClientCertificate fs c with
        | Some (Ok cert) => if verifies (tlsc_ClientCAs s) None cert then Some (Secured (tlsc_Certificate s) (Some cert)) else None
        | _ => None
        end
      else Some (Secured (tlsc_Certificate s) None)
  end.
End TLS.

(** ** Theorems *)

Section Theorems.
Context {KeyPair CertPool : Type} {TL : TLSLib KeyPair CertPool}.
Variable verifies : option CertPool → option string → KeyPair → bool.
Implicit Types (c : clientTLS CertPool) (s : tlsConfig KeyPair CertPool) (fs : string → result string).

(** What a configuration built from files holds. *)
Lemma built_from_files fs f c : BuildHubTLSConfig fs f = Ok c →
  cltc_MinVersion c = "1.2" ∧ cltc_ServerName c = htf_ServerName f ∧
  match cltc_RootCAs c with
  | None => htf_CAFile f = ""
  | Some pool => ∃ pem, fs (htf_CAFile f) = Ok pem ∧ AppendCertsFromPEM pem = Some pool
  end ∧
  match cltc_GetClientCertificate c with
  | None => htf_CertFile f = "" ∧ htf_KeyFile f = ""
  | Some files => files = (htf_CertFile f, htf_KeyFile f) ∧ htf_CertFile f ≠ "" ∧ htf_KeyFile f ≠ "" ∧
                  ∃ cert, LoadX509KeyPair fs (htf_CertFile f) (htf_KeyFile f) = Ok cert
  end.
Proof.
  unfold BuildHubTLSConfig, load_root_CAs. intros H.
  assert (∃ pool, match pool with None => htf_CAFile f = ""
    | Some pool => ∃ pem, fs (htf_CAFile f) = Ok pem ∧ AppendCertsFromPEM pem = Some pool end ∧
    c = Build_clientTLS "1.2" (htf_ServerName f) pool (cltc_GetClientCertificate c)) as (pool & Hp & Hc).
  { case_bool_decide as Hca.
    - exists None. split; [done|]. repeat case_bool_decide; simplify_eq/=; [done|].
      destruct (LoadX509KeyPair _ _ _); by simplify_eq/=.
    - destruct (fs (htf_CAFile f)) as [pem|]; [|done]. destruct (AppendCertsFromPEM pem) as [pool|] eqn:Epem; [|done].
      exists (Some pool). split; [by exists pem|]. repeat case_bool_decide; simplify_eq/=; [done|].
      destruct (LoadX509KeyPair _ _ _); by simplify_eq/=. }
  rewrite Hc. simpl. split_and!; [done..|].
  destruct (if bool_decide (htf_CAFile f = "") then _ else _) as [pool'|]; [|done].
  repeat case_bool_decide; simplify_eq/=; [done|].
  destruct (LoadX509KeyPair _ _ _) as [cert|] eqn:El; simplify_eq/=. split_and!; eauto.
Qed.

(** A spoke never falls back to plaintext: with any certificate, key or authority
    file it dials with TLS or does not start. *)
Theorem files_mean_TLS fs hubAddress spokeName clusterID cell hostname f client creds :
  spoke_hub_client fs hubAddress spokeName clusterID cell hostname f = Ok (Some (client, creds)) →
  (htf_CertFile f ≠ "" ∨ htf_KeyFile f ≠ "" ∨ htf_CAFile f ≠ "") ↔ is_Some creds.
Proof.
  unfold spoke_hub_client, Configured. case_bool_decide; [done|].
  assert (∀ b : bool, (if b then htf_CertFile f ≠ "" ∨ htf_KeyFile f ≠ "" ∨ htf_CAFile f ≠ ""
                       else ¬ (htf_CertFile f ≠ "" ∨ htf_KeyFile f ≠ "" ∨ htf_CAFile f ≠ "")) →
    (if b then match BuildHubTLSConfig fs f with Err err => Err err | Ok cfg => Ok (Some (client, Some cfg)) end
     else Ok (Some (client, None))) = Ok (Some (client, creds)) →
    (htf_CertFile f ≠ "" ∨ htf_KeyFile f ≠ "" ∨ htf_CAFile f ≠ "") ↔ is_Some creds) as Hb.
  { intros [|] Hf He; [destruct (BuildHubTLSConfig fs f)|]; simplify_eq; [naive_solver|]. split; [done|by intros []]. }
  intros He. apply (Hb (bool_decide (htf_CertFile f ≠ "") || bool_decide (htf_KeyFile f ≠ "") || bool_decide (htf_CAFile f ≠ ""))).
  - repeat case_bool_decide; simpl; tauto.
  - destruct (_ || _); [|by simplify_eq]. destruct (BuildHubTLSConfig fs f); by simplify_eq.
Qed.

(** A server name alone does not count. *)
Theorem server_name_alone_is_plaintext fs hubAddress spokeName clusterID cell hostname name : hubAddress ≠ "" →
  ∃ client, spoke_hub_client fs hubAddress spokeName clusterID cell hostname (Build_HubTLSFiles "" "" "" name)
            = Ok (Some (client, None)).
Proof. intros H. unfold spoke_hub_client. rewrite bool_decide_eq_false_2 by done. by eexists. Qed.

End Theorems.

(** ** A concrete connection *)

#[local] Instance demo_pem : TLSLib (string * string) string := {|
  X509KeyPair cert key := if bool_decide (cert = "") then Err (Sentinel "no PEM data") else Ok (cert, key);
  AppendCertsFromPEM pem := if bool_decide (pem = "") then None else Some pem;
  sha256_hex s := fixed 64 (Z.of_nat (String.length s));
  sha256_length s := length_fixed 64 (Z.of_nat (String.length s))
|}.

(** A certificate's chain is the authority it names. *)
Definition demo_verifies (pool name : option string) (cert : string * string) : bool :=
  bool_decide (fst cert = default "system" pool +:+ default "" ((String.append "/") <$> name)).

Definition demo_files (cert : string) (path : string) : result string :=
  if bool_decide (path = "/tls/ca.crt") then Ok "ca1" else if bool_decide (path = "/tls/tls.crt") then Ok cert else Ok "key".

Definition demo_tls_files : HubTLSFiles := Build_HubTLSFiles "/tls/tls.crt" "/tls/tls.key" "/tls/ca.crt" "".

Definition demo_secret_data : secret_data :=
  Some (<[TLSCertKey := "ca1/hub:9443"]> (<[TLSKeyKey := "k"]> {[TLSCAKey := "ca2"]})).

