(* ===== verification/SpokeMain.v ===== *)
(** * A spoke's life at the hub ([cmd/spoke/main.go])

    How [main] connects and registers a spoke, starts its goroutines, or goes on
    without a hub, and how it leaves when the manager stops; over the client of
    [HubClient] and the server of [HubServer]. *)

From S2P Require Import Prelude HubProto HubServer HubInvariant Kube Api SpokeDirectives GoFlag Summary ReplayController HubClient HubSync.

Local Open Scope Z_scope.

Section Life.
Context {S : Type} {HS : HubService S}.

(** [heartbeatSec] as the interval of the ticker. *)
Definition heartbeat_interval (sec : Z) : Z :=
  let interval := int64 (sec * Second) in if interval <=? 0 then 30 * Second else interval.

(** From [hubClient.Connect] to the goroutines, with the heartbeat's interval; no
    client is standalone mode. *)
Definition spoke_connect (dial : option go_error) (net : network) (c : HubClient) (s : S) : go (S * option (HubClient * Z)) :=
  match Connect dial c with
  | (_, Some _) => Ret (s, None)
  | (c, None) =>
      match Register net c s with
      | (s, (c, Err _)) => match Close c with Panic => Panic | Ret _ => Ret (s, None) end
      | (s, (c, Ok heartbeatSec)) =>
          match StartHeartbeat c with
          | Panic => Panic
          | Ret c => match WatchDirectives c with
                     | Panic => Panic
                     | Ret c => Ret (s, Some (c, heartbeat_interval heartbeatSec))
                     end
          end
      end
  end.

(** After the manager has stopped. *)
Definition spoke_shutdown (net : network) (client : option HubClient) (s : S) : go (S * option HubClient) :=
  match client with
  | None => Ret (s, None)
  | Some c =>
      let '(s, _) := Deregister net c s in
      match Close c with Panic => Panic | Ret c => Ret (s, Some c) end
  end.

(** Starting never panics, whatever the hub and the network answer. *)
Lemma spoke_connect_returns dial net address name cluster cell s :
  ∃ s' client, spoke_connect dial net (NewHubClient address name cluster cell) s = Ret (s', client).
Proof.
  unfold spoke_connect, Register. destruct dial; simpl; [eauto|].
  destruct (invoke _ _ _) as [s' [resp|e]]; [|eauto]. destruct (rsp_Accepted resp); simpl; eauto.
Qed.
End Life.

(** ** The hub's side *)

Section Hub.
Context {MR : MapRange}.
Implicit Types (s : Server) (c : HubClient).

Lemma register_ok ctx now req s : server_inv s → rsr_SpokeId req ≠ "" → verifySpokeIdentity ctx (rsr_SpokeId req) = None →
  ∃ s' e, RegisterSpoke ctx now req s = Ret (s', Ok {| rsp_Accepted := true; rsp_Message := "spoke registered";
                                                   rsp_HeartbeatIntervalSeconds := DefaultHeartbeatInterval |}) ∧
    server_inv s' ∧ sv_spokes s' = <[rsr_SpokeId req := sv_next s]> (sv_spokes s) ∧
    sv_entries s' !! sv_next s = Some e ∧ se_done e = false ∧
    si_ClusterName (se_info e) = rsr_ClusterName req ∧ si_Cell (se_info e) = rsr_Cell req.
Proof.
  intros Hi Hne Hid. destruct (register_spec ctx now req s Hi) as (s' & r & Hreg & Hi'). rewrite Hreg.
  unfold RegisterSpoke in Hreg. rewrite bool_decide_eq_false_2, Hid in Hreg by done.
  destruct (sv_spokes s !! rsr_SpokeId req) as [l|] eqn:El;
    [destruct (close_done_live _ _ _ Hi El) as (e & _ & _ & Hc); rewrite Hc in Hreg|];
    simpl in Hreg; injection Hreg as <- <-; eexists _, _; (split; [reflexivity|]); (split; [exact Hi'|]); simpl;
    rewrite lookup_insert_eq; by split_and!.
Qed.

Lemma deregister_ok ctx req s l : server_inv s → sv_spokes s !! dsr_SpokeId req = Some l →
  verifySpokeIdentity ctx (dsr_SpokeId req) = None →
  ∃ s', DeregisterSpoke ctx req s = Ret (s', Ok {| ack := true |}) ∧ server_inv s' ∧
    sv_spokes s' = delete (dsr_SpokeId req) (sv_spokes s).
Proof.
  intros Hi Hl Hid. destruct (close_done_live _ _ _ Hi Hl) as (e & He & _ & Hc).
  exists (set_spokes (delete (dsr_SpokeId req)) (set_entries (<[l := SpokeEntry (se_info e) (se_lastHeartbeat e)
     (se_captures e) (se_replays e) (se_directives e) (se_directivesCap e) true]>) s)).
  unfold DeregisterSpoke. rewrite bool_decide_eq_false_2, Hid, Hl, Hc; [|intros H; rewrite H, (inv_ids _ Hi) in Hl; done].
  split; [done|]. split; [by eapply inv_retire|done].
Qed.

Definition served_by (ctx : Context) (now : Z) : HubService Server := server_service ctx now.

(** The client of a spoke that joined: its one heartbeat and its one directive
    goroutine run. *)
Definition joined (address name cluster cell : string) : HubClient :=
  MkHubClient address name cluster cell name true true (Some 0%nat) (Some 1%nat) [false; false] [0%nat] [1%nat].

Lemma spoke_joins ctx now address name cluster cell s : server_inv s → name ≠ "" → verifySpokeIdentity ctx name = None →
  ∃ s' e, spoke_connect (HS := served_by ctx now) None Delivered (NewHubClient address name cluster cell) s
          = Ret (s', Some (joined address name cluster cell, 30 * Second)) ∧
    server_inv s' ∧ sv_spokes s' = <[name := sv_next s]> (sv_spokes s) ∧
    sv_entries s' !! sv_next s = Some e ∧ se_done e = false ∧
    si_ClusterName (se_info e) = cluster ∧ si_Cell (se_info e) = cell.
Proof.
  intros Hi Hne Hid.
  destruct (register_ok ctx now (register_request (fst (Connect None (NewHubClient address name cluster cell)))) s Hi Hne Hid)
    as (s' & e & Hreg & Hi' & Hsp & He & Hd & Hcl & Hce).
  exists s', e. split; [|by split_and!]. unfold spoke_connect, Register, invoke. simpl in *. unfold served. by rewrite Hreg.
Qed.

(** A spoke that joins and leaves: it is in the registry with its cluster and cell
    while it lives, and after its shutdown the registry is as if it had never been
    there and none of its goroutines goes on. *)
Theorem spoke_joins_and_leaves ctx now now' address name cluster cell s :
  hub_reachable s → name ≠ "" → verifySpokeIdentity ctx name = None →
  ∃ s' e c s'' c',
    spoke_connect (HS := served_by ctx now) None Delivered (NewHubClient address name cluster cell) s = Ret (s', Some (c, 30 * Second)) ∧
    hc_spokeID c = name ∧ sv_spokes s' !! name = Some (sv_next s) ∧ sv_entries s' !! sv_next s = Some e ∧
    si_ClusterName (se_info e) = cluster ∧ si_Cell (se_info e) = cell ∧ se_done e = false ∧
    Forall (λ l, running (hc_chans c) l = true) (hc_beats c ++ hc_watchers c) ∧
    spoke_shutdown (HS := served_by ctx now') Delivered (Some c) s' = Ret (s'', Some c') ∧
    sv_spokes s'' = delete name (sv_spokes s) ∧ Forall (λ l, running (hc_chans c') l = false) (hc_beats c' ++ hc_watchers c').
Proof.
  intros Hi%hub_reachable_server_inv Hne Hid.
  destruct (spoke_joins ctx now address name cluster cell s Hi Hne Hid) as (s' & e & Hc & Hi' & Hsp & He & Hd & Hcl & Hce).
  assert (sv_spokes s' !! name = Some (sv_next s)) as Hl by (by rewrite Hsp, lookup_insert_eq).
  destruct (deregister_ok ctx {| dsr_SpokeId := name; dsr_Reason := "spoke shutting down" |} s' _ Hi' Hl Hid)
    as (s'' & Hdr & _ & Hsp'').
  do 5 eexists. split; [exact Hc|]. split_and!; try done.
  - by repeat constructor.
  - unfold spoke_shutdown, Deregister. simpl. unfold served. rewrite Hdr. reflexivity.
  - rewrite Hsp'', Hsp. by rewrite delete_insert_eq.
  - by repeat constructor.
Qed.

(** A rolling update under a fixed spoke name: the new pod joins, then the old one
    shuts down and takes the new one's registration with it.  From then on the hub
    refuses the new spoke's heartbeats, and nothing registers it again. *)
Theorem rolling_update_loses_spoke {W} ctx now now1 now2 address name cluster cell s cb (w : W) :
  server_inv s → name ≠ "" → verifySpokeIdentity ctx name = None →
  ∃ s1 old s2 new s3,
    spoke_connect (HS := served_by ctx now) None Delivered (NewHubClient address name cluster cell) s = Ret (s1, Some (old, 30 * Second)) ∧
    spoke_connect (HS := served_by ctx now1) None Delivered (NewHubClient address name cluster cell) s1 = Ret (s2, Some (new, 30 * Second)) ∧
    (∃ old', spoke_shutdown (HS := served_by ctx now2) Delivered (Some old) s2 = Ret (s3, old')) ∧
    sv_spokes s3 !! name = None ∧
    ∀ now3, sendHeartbeat (HS := served_by ctx now3) Delivered cb new s3 w = (s3, w, 1).
Proof.
  intros Hi Hne Hid.
  destruct (spoke_joins ctx now address name cluster cell s Hi Hne Hid) as (s1 & e1 & Hc1 & Hi1 & _).
  destruct (spoke_joins ctx now1 address name cluster cell s1 Hi1 Hne Hid) as (s2 & e2 & Hc2 & Hi2 & Hsp & _).
  assert (sv_spokes s2 !! name = Some (sv_next s1)) as Hl by (by rewrite Hsp, lookup_insert_eq).
  destruct (deregister_ok ctx {| dsr_SpokeId := name; dsr_Reason := "spoke shutting down" |} s2 _ Hi2 Hl Hid)
    as (s3 & Hdr & _ & Hsp3). simpl in Hsp3.
  do 5 eexists. split; [exact Hc1|]. split; [exact Hc2|]. split_and!.
  - eexists. unfold spoke_shutdown, Deregister. simpl. unfold served. rewrite Hdr. reflexivity.
  - by rewrite Hsp3, lookup_delete_eq.
  - intros now3. unfold sendHeartbeat. simpl. unfold served, Heartbeat. simpl.
    rewrite bool_decide_eq_false_2, Hid, Hsp3, lookup_delete_eq by done. reflexivity.
Qed.

(** A registration whose answer is lost: the hub has the spoke, and goes on planning
    for it until it times out, while the spoke stays without a hub for good. *)
Theorem lost_answer_leaves_a_ghost ctx now address name cluster cell s err :
  server_inv s → name ≠ "" → verifySpokeIdentity ctx name = None →
  ∃ s', spoke_connect (HS := served_by ctx now) None (ReplyLost err) (NewHubClient address name cluster cell) s = Ret (s', None) ∧
    sv_spokes s' !! name = Some (sv_next s).
Proof.
  intros Hi Hne Hid.
  destruct (register_ok ctx now (register_request (fst (Connect None (NewHubClient address name cluster cell)))) s Hi Hne Hid)
    as (s' & e & Hreg & _ & Hsp & _). exists s'.
  split; [|by rewrite Hsp, lookup_insert_eq]. unfold spoke_connect, Register, invoke. simpl in *. unfold served. by rewrite Hreg.
Qed.
End Hub.
