(* ===== verification/ReplayRegistry.v ===== *)
(** * The registry of replay components ([internal/plugin/replay/plugin.go])

    Builders of readers, senders, transformers and result handlers by name, with
    the constraints of transformers in an embedded validation registry.  The types
    of the four builders are parameters. *)

From S2P Require Import Prelude GoStd Validation.

Local Open Scope Z_scope.

(** One of the four tables; [kind] is the component named in the errors. *)
Definition table_register {B} (kind name : string) (builder : B) (t : gmap string B) : gmap string B * option go_error :=
  match t !! name with
  | Some _ => (t, Some (FmtError (kind +:+ " %q is already registered") [FStr name]))
  | None => (<[name := builder]> t, None)
  end.

(** A builder applied to a configuration. *)
Definition table_build {C X} (kind name : string) (config : C) (t : gmap string (C → result X)) : result X :=
  match t !! name with
  | None => Err (FmtError ("unknown " +:+ kind +:+ " %q") [FStr name])
  | Some builder => builder config
  end.

Section Registry.
Context {MR : MapRange} {C Reader Sender Transformer ResultHandler : Type}.

Record ReplayRegistry := MkReplayRegistry {
  rrg_readers : gmap string (C → result Reader);
  rrg_senders : gmap string (C → result Sender);
  rrg_transformers : gmap string (C → result Transformer);
  rrg_handlers : gmap string (C → result ResultHandler);
  rrg_Validation : ValidationRegistry C
}.

Definition NewReplayRegistry : ReplayRegistry := MkReplayRegistry ∅ ∅ ∅ ∅ ∅.

(** ** Registration *)

Definition RegisterReader (name : string) (builder : C → result Reader) (r : ReplayRegistry) : ReplayRegistry * option go_error :=
  let '(t, e) := table_register "replay reader" name builder (rrg_readers r) in
  (MkReplayRegistry t (rrg_senders r) (rrg_transformers r) (rrg_handlers r) (rrg_Validation r), e).

Definition RegisterSender (name : string) (builder : C → result Sender) (r : ReplayRegistry) : ReplayRegistry * option go_error :=
  let '(t, e) := table_register "replay sender" name builder (rrg_senders r) in
  (MkReplayRegistry (rrg_readers r) t (rrg_transformers r) (rrg_handlers r) (rrg_Validation r), e).

Definition RegisterTransformer (name : string) (builder : C → result Transformer) (r : ReplayRegistry)
    : ReplayRegistry * option go_error :=
  let '(t, e) := table_register "replay transformer" name builder (rrg_transformers r) in
  (MkReplayRegistry (rrg_readers r) (rrg_senders r) t (rrg_handlers r) (rrg_Validation r), e).

Definition RegisterResultHandler (name : string) (builder : C → result ResultHandler) (r : ReplayRegistry)
    : ReplayRegistry * option go_error :=
  let '(t, e) := table_register "replay result handler" name builder (rrg_handlers r) in
  (MkReplayRegistry (rrg_readers r) (rrg_senders r) (rrg_transformers r) t (rrg_Validation r), e).

Definition RegisterTransformerWithConstraints (name : string) (builder : C → result Transformer)
    (constraints : option (Constraints C)) (r : ReplayRegistry) : ReplayRegistry * option go_error :=
  match RegisterTransformer name builder r with
  | (r, Some err) => (r, Some err)
  | (r, None) =>
      match Validation_Register name constraints (rrg_Validation r) with
      | (v, Some err) =>
          (MkReplayRegistry (rrg_readers r) (rrg_senders r) (delete name (rrg_transformers r)) (rrg_handlers r) v, Some err)
      | (v, None) => (MkReplayRegistry (rrg_readers r) (rrg_senders r) (rrg_transformers r) (rrg_handlers r) v, None)
      end
  end.

Definition ValidateTransformerPipeline (r : ReplayRegistry) (refs : list (PluginRef C)) : list ValidationError :=
  ValidatePipeline (rrg_Validation r) refs.

(** ** Building *)

Definition BuildReader (name : string) (config : C) (r : ReplayRegistry) : result Reader :=
  table_build "replay reader" name config (rrg_readers r).
Definition BuildSender (name : string) (config : C) (r : ReplayRegistry) : result Sender :=
  table_build "replay sender" name config (rrg_senders r).
Definition BuildTransformer (name : string) (config : C) (r : ReplayRegistry) : result Transformer :=
  table_build "replay transformer" name config (rrg_transformers r).
Definition BuildResultHandler (name : string) (config : C) (r : ReplayRegistry) : result ResultHandler :=
  table_build "replay result handler" name config (rrg_handlers r).

(** ** Theorems *)

Inductive registration :=
  | OfReader (name : string) (b : C → result Reader)
  | OfSender (name : string) (b : C → result Sender)
  | OfTransformer (name : string) (b : C → result Transformer)
  | OfConstrained (name : string) (b : C → result Transformer) (c : option (Constraints C))
  | OfResultHandler (name : string) (b : C → result ResultHandler).

Definition register (o : registration) (r : ReplayRegistry) : ReplayRegistry * option go_error :=
  match o with
  | OfReader n b => RegisterReader n b r
  | OfSender n b => RegisterSender n b r
  | OfTransformer n b => RegisterTransformer n b r
  | OfConstrained n b c => RegisterTransformerWithConstraints n b c r
  | OfResultHandler n b => RegisterResultHandler n b r
  end.

Lemma table_keeps {B} kind name (b b' : B) t n : t !! n = Some b' → fst (table_register kind name b t) !! n = Some b'.
Proof.
  intros Hn. unfold table_register. destruct (t !! name) eqn:E; [done|]. simpl. rewrite lookup_insert_ne; [done|]. congruence.
Qed.

(** A registration succeeds or changes nothing. *)
Theorem registration_atomic o r r' err : register o r = (r', Some err) → r' = r.
Proof.
  destruct r as [rs ss ts hs v], o as [n b|n b|n b|n b c|n b]; simpl;
    unfold RegisterReader, RegisterSender, RegisterTransformer, RegisterResultHandler, RegisterTransformerWithConstraints,
      RegisterTransformer, table_register; simpl.
  1,2,3,5: match goal with |- context [match ?t !! ?k with _ => _ end] => destruct (t !! k) end; by intros [= <-].
  destruct (ts !! n) eqn:E; simpl; [by intros [= <-]|].
  unfold Validation_Register. case_bool_decide; simpl; [intros [= <-]; by rewrite delete_insert_id|].
  destruct (v !! n); simpl; intros [=]; subst. by rewrite delete_insert_id.
Qed.

(** The first registration of a name stands, whatever is registered later, by the
    same name or others; and the constraints of a transformer with it. *)
Theorem registrations_stand os r :
  let r' := foldl (λ r o, fst (register o r)) r os in
  (∀ n b, rrg_readers r !! n = Some b → ∀ config, BuildReader n config r' = b config) ∧
  (∀ n b, rrg_senders r !! n = Some b → ∀ config, BuildSender n config r' = b config) ∧
  (∀ n b, rrg_transformers r !! n = Some b → ∀ config, BuildTransformer n config r' = b config) ∧
  (∀ n b, rrg_handlers r !! n = Some b → ∀ config, BuildResultHandler n config r' = b config) ∧
  (∀ n c, rrg_Validation r !! n = Some c → rrg_Validation r' !! n = Some c).
Proof.
  cbv zeta.
  assert (∀ os r, let r' := foldl (λ r o, fst (register o r)) r os in
    (∀ n b, rrg_readers r !! n = Some b → rrg_readers r' !! n = Some b) ∧
    (∀ n b, rrg_senders r !! n = Some b → rrg_senders r' !! n = Some b) ∧
    (∀ n b, rrg_transformers r !! n = Some b → rrg_transformers r' !! n = Some b) ∧
    (∀ n b, rrg_handlers r !! n = Some b → rrg_handlers r' !! n = Some b) ∧
    (∀ n c, rrg_Validation r !! n = Some c → rrg_Validation r' !! n = Some c)) as Hstep.
  { clear os r. induction os as [|o os IH]; intros r; [done|]. cbn zeta. simpl. specialize (IH (fst (register o r))). cbn zeta in IH.
    destruct IH as (I1 & I2 & I3 & I4 & I5).
    assert ((∀ n b, rrg_readers r !! n = Some b → rrg_readers (fst (register o r)) !! n = Some b) ∧
      (∀ n b, rrg_senders r !! n = Some b → rrg_senders (fst (register o r)) !! n = Some b) ∧
      (∀ n b, rrg_transformers r !! n = Some b → rrg_transformers (fst (register o r)) !! n = Some b) ∧
      (∀ n b, rrg_handlers r !! n = Some b → rrg_handlers (fst (register o r)) !! n = Some b) ∧
      (∀ n c, rrg_Validation r !! n = Some c → rrg_Validation (fst (register o r)) !! n = Some c)) as (J1 & J2 & J3 & J4 & J5);
      [|split_and!; eauto].
    destruct (register o r) as [r' [err|]] eqn:E; [by apply registration_atomic in E as ->|].
    destruct r as [rs ss ts hs v], o as [m b|m b|m b|m b c|m b]; simpl in E;
      unfold RegisterReader, RegisterSender, RegisterTransformer, RegisterResultHandler, RegisterTransformerWithConstraints,
        RegisterTransformer, table_register in E; simpl in E.
    1,2,3,5: match type of E with context [match ?t !! ?k with _ => _ end] => destruct (t !! k) eqn:Em end; [done|];
      injection E as <-; simpl; split_and!; try done; intros n b' Hn; rewrite lookup_insert_ne; [done|congruence].
    destruct (ts !! m) eqn:Em; simpl in E; [done|]. unfold Validation_Register in E. case_bool_decide; simpl in E; [done|].
    destruct (v !! m) eqn:Ev; simpl in E; [done|]. injection E as <-. simpl.
    split_and!; try done; intros n b' Hn; (etrans; [apply (lookup_insert_ne (M := gmap string)); congruence|done]). }
  destruct (Hstep os r) as (H1 & H2 & H3 & H4 & H5).
  split_and!; [..|exact H5]; intros n b Hb config;
    [unfold BuildReader|unfold BuildSender|unfold BuildTransformer|unfold BuildResultHandler]; unfold table_build;
    [rewrite (H1 _ _ Hb)|rewrite (H2 _ _ Hb)|rewrite (H3 _ _ Hb)|rewrite (H4 _ _ Hb)]; done.
Qed.
End Registry.
